(* ===== verification/_CoqProject ===== *)
-Q . S2P
Prelude.v
Hoare.v
Util.v
Message.v
Crypto.v
Pb.v
Config.v
Node.v
Table.v
TableInv.v
Json.v
JsonInv.v
JsonText.v
World.v
Demo.v
Udp.v
Frame.v
UdpInv.v
Client.v
ClientInv.v
Exits.v
ExitsInv.v
Remote.v
Dial.v
DialInv.v
System.v
SystemRuns.v
WellFormed.v
HandlersWf.v
CallsWf.v
StepsWf.v
SystemTable.v
SystemInv.v
SystemLive.v
SystemUdp.v
UdpWindows.v
SystemDial.v
SystemRedial.v
SystemDemo.v
Throughput.v
Proxy.v
Examples.v
