(* ===== verification/Prelude.v ===== *)
(** * nkn-tuna-session: a verification library

    The program is a Go package that runs sessions between two NKN clients over TCP and
    UDP connections through tuna nodes.  A client listens behind reverse tuna exits,
    answers other clients' requests for its public addresses over the NKN network, accepts
    framed and encrypted connections, groups them into ncp sessions, and dials and
    reconnects sessions of its own; UDP sessions carry datagrams and use a TCP connection
    to learn that the other end is gone.

    ** How the code is modelled

    Handlers are translated whole, in a monad [go S A := S -> res A * S] of state and
    results ([Prelude]): [Ok], [Err] (a Go error value) or [Panic] (a Go run-time panic,
    which no handler recovers from).  Pointers are indices into heaps ([World]), so that two holders
    of a pointer see one object.  Locks give critical sections: each critical section of
    the client and of a UDP session is a pure function on the state the lock protects, and
    the interleavings of the goroutines that run them are step relations.  [go] statements
    are recorded as tasks, in the order they are started, and [System] runs them: there the
    handlers are cut where a goroutine can be interrupted, and the pieces of all goroutines
    interleave with the calls of the application.  What the outside does (segments
    of a stream, datagrams, random bytes, the clock, the port the system picks, the order
    in which goroutines finish, the branch [select] takes when both are ready) is an
    argument.  Integers are [Z] with the wrap-around of their width where it can matter;
    float64 is [SpecFloat]; bytes are [Byte.byte].

    Libraries outside the repository are type classes of operations with a class of laws
    that state what their documentation promises: [BoxOps] (NaCl box, ed25519), [ProtoOps]
    (protobuf), [MergeOps] (mergo), [CacheOps] (go-cache), [NcpOps], [UdpOps], [ExitOps]
    (tuna), [RegexpOps], [NknOps] (nkn-sdk), gathered in [LibOps] and [LibLaws].
    [Demo] and the witnesses instantiate all of them with executable functions.

    ** Files

    - [Prelude]: bytes, integers, results, the monad, shared lemmas, tactics and hints.
    - [Hoare]: a program logic for the monad: invariant, evolution, allowed panics.
    - [Util] (util.go): [sessionKey], [connID], [GetFreePort] over the port tables of the
      system; the text of addresses with a port.
    - [Message] (conn.go, message.go): connections, [writeMessage], [readMessage];
      [Writers] interleaves concurrent [writeMessage] calls.
    - [Crypto] (message.go, client.go): [getOrComputeSharedKey], [encrypt], [decrypt],
      [encode], [decode].
    - [Pb] (pb/session.pb.go, udpsession.go): messages, enumerations, the descriptor, and
      [Wire], a protobuf encoding that implements [ProtoOps] and proves [ProtoLaws].
    - [Config] (config.go, client.go): defaults, [MergedConfig], [SetConfig].
    - [Node] (node.go): weights and [sortMeasuredNodes].
    - [Table], [TableInv] (client.go): the maps of [TunaSessionClient], their critical
      sections, the interleavings [tstep], and the specification of the address cache.
    - [Json] (message.go, client.go): [Request], and what [json.Marshal] and
      [json.Unmarshal] do with it and with [PubAddrs]; [JsonInv]: printed values are read
      back, reading needs no more than [turns]; [JsonText]: what is read is valid UTF-8.
    - [World] (client.go, udpsession.go): the structs, the heaps, the library interfaces;
      [Demo]: concrete libraries and a client.
    - [Udp], [UdpInv] (udpsession.go, udp.go): [UdpSession] and its methods; [ustep].
    - [Frame]: which fields of the client a handler leaves alone.
    - [Client], [ClientInv] (client.go): [newSession], [handleMsg], [handleConn],
      [listenNet] ([serveConn]), [AcceptSession], [Close], [removeClosedSessions].
    - [Exits], [ExitsInv] (client.go, udp.go): [newTunaExit], [startExits], [Listen],
      [RotateOne], [RotateAll], [getPubAddrs], [listenNKN], [ListenUDP].
    - [Remote] (client.go): [getPubAddrsFromRemote], with its three goroutines as [Race].
    - [Dial], [DialInv] (client.go, udpsession.go, udp.go): [dialTcpConn], [reconnect],
      [DialWithConfig], [DialUpSession], [DialUDPWithConfig] and their goroutines.
    - [System] (client.go, udpsession.go): the goroutines ([goroutine]), one piece of one of
      them ([gstep]), the calls of the application ([run_call]), the transition system
      ([sys_step]).  [SystemRuns]: a goroutine scheduled alone does what the whole handler
      of [Client] or [Dial] does.
    - [WellFormed], [HandlersWf], [CallsWf], [StepsWf]: the type invariant [wf] of a client,
      and that every handler, call and piece keeps it.
    - [SystemTable], [SystemInv], [SystemLive]: the system seen through its maps, its
      invariants, what ends.  [SystemUdp]: the system seen through one UDP session;
      [UdpWindows]: the states between two pieces of dialing and closing one.
      [SystemDial], [SystemRedial]: dialing and reconnecting as runs of the system, and the
      monitor and the reconnect goroutine of a UDP session.  [SystemDemo]: a scheduler and
      runs of it.
    - [Throughput], [Proxy], [Examples] (examples/throughput, examples/http): the loops over a
      TCP or UDP session, the two [io.Copy] goroutines of the proxy, the configuration from the flags, the calls the programs make, and both
      [main] functions up to the goroutines they leave running.

    ** What the theorems show

    - Data between two clients: the framing and the encryption are inverted by the other
      end, for every segmentation ([frames_round_trip], [encode_decode]); concurrent
      writers do not mix frames ([writers_never_interleave]); what [dialTcpConn] writes is
      what [serveConn] reads ([dial_handshake]); and messages given to a session's send
      callback arrive in order at the session of the peer ([session_end_to_end]).
    - The whole client, for every interleaving of its goroutines with the application, the
      peers and the clock: it stays well-typed ([reachable_well_typed]), it panics only in
      listed ways ([goroutine_panics]), its maps are a run of the critical sections
      ([system_refines_maps]), cached addresses belong to live connections
      ([cached_addrs_live]), the accept queue stays within its channel
      ([accept_queue_bounded]); serving a connection ends ([serving_ends]) and a closed
      client winds down ([Close_winds_down]).  The goroutines of a connection, of a dial and
      of a dialed connection, scheduled alone, do what the whole functions do
      ([serveConn_alone], [DialWithConfig_alone], [dialConn_alone]; for UDP
      [DialUDPWithConfig_alone], [udpMonitor_alone], [udpReconnectRound_alone]), so what is proved of the functions holds of runs of the
      client; and a broken connection of an open session is replaced
      ([reconnection_succeeds]).
    - The table: for every interleaving a session lives as long as its connections
      ([session_lifetime]), a closed one is refused ([closed_session_refused]), no
      critical section writes to a nil map ([handleConn_exit_safe],
      [listenNet_register_safe]), and the address cache refines a specification over the
      multiset of live connections ([pubaddr_cache_refines]).
    - UDP: every run of the client is, through one session, a run of the session's critical
      sections ([system_refines_udp]), so the buffer accounting and the agreement of the two
      maps hold in every state of the client ([udp_buffer_accounting],
      [udp_maps_consistent]); data and replies of a session meet, a close reaches the other
      end, the monitor always ends.
    - Requests and dialing: requests and addresses survive their way through JSON, and
      whatever arrives can be sent on ([json_round_trip]); the race for an answer always has
      a result and ends, an answer is what the peer's exits serve ([request_answer]), a dial that returns no error returns a session,
      reconnect attempts end.
    - Listening: distinct free ports, one exit for each, rotation replaces one exit.
    - The examples: the two sides of throughput agree on the stream up to the size that
      wraps ([throughput_roundtrip], [throughput_wraps]); the proxy of http dials the
      address its file server has ([examples_meet]) and carries everything that arrives at
      either side to the other, in order ([proxy_joins]).
    - [AcceptSession], the rejection of addresses that are not allowed, the
      configuration, the choice of nodes, the protobuf encoding and its descriptor.
    - Where the code does something else than intended the theorem says what it does:
      [decode_panics_iff], [serveConn_crash], [recvOne_panics], [stale_exit_unregisters],
      [cleaner_leaves_counter], [dial_race_panics], [first_message_failure],
      [Listen_after_failure], [reconnect_gives_up], [last_connection_not_reconnected],
      [udp_reconnect_unlimited_ends], [udp_reconnect_ignored], [GetFreePort_tcp_busy],
      [redial_in_clear], [pending_read_waits], [receive_after_close], [null_address_crash].

    ** Fuel

    [ReadFull] has one turn more than there are segments; [handleLoop] one more than there
    are bytes, since each message takes its header ([handleConn_loop_terminates]);
    [handleTcpMsg] one more than segments and bytes together ([handleTcpMsg_returns]);
    [acceptLoop] one more than queued sessions; [GetFreePort] the 100 tries of the code;
    [tryReconnect] the number of retries ([tryReconnect_spec]), and any number for the
    loops the code itself does not bound, whose running state is a value ([RcMore]).  The
    transition system needs no fuel; [steps_left] bounds the steps of a serving goroutine.
    [Throughput.read] has one turn more than segments and bytes on its connection; the UDP
    loops of the examples, which the code does not bound, return [false] when turns run out.
    A JSON value of [n] bytes is read in [2 * n + 1] turns ([value_turns]), a string in as
    many turns as it has bytes.  [jturns] bounds the steps of the proxy's goroutines.

    ** Not modelled

    The tests, the reflection plumbing of the generated protobuf code, logging; of the
    examples the file server and the parsing of flags.  Patterns of allowed addresses are
    compiled and matched by [RegexpOps]: the code hands them to [regexp] and uses the answer.  Timers and contexts
    appear as the outcomes they lead to: a deadline as a time, an expired context as an
    error.  TCP keep-alive has no effect on the model.

    The pieces of [System] are atomic.  Each lies between two places where the code takes a
    lock, reads from the network or waits, with two simplifications.  [dialTcpConn] is one
    piece: it dials and introduces a connection nobody else has yet, and its one critical
    section, which stores the connection, is at its end.  And [dialJoin] hands the
    connections it found to the handlers it starts, where the code keeps a reference to the
    map, which only a peer that takes the key of a session being dialed could change
    meanwhile ([clear_reachable] excludes such peers where a theorem depends on it).

    [Close] of the client is one piece: it holds the lock of the client from its first line
    to its last, so only what takes no such lock could come between.  A UDP
    session closed by the application or by a failed dial is closed in three.  [ustep] takes
    the buffer size that was configured when a datagram arrived, so the bound of
    [udp_buffer_accounting] is for runs that keep it within a limit ([bounded_reachable]). *)

From stdpp Require Import base gmap strings list numbers tactics pretty relations.
From Stdlib Require Import Strings.Byte ZArith Lia.

(** ** Bytes and fixed-width integers

    A Go [byte] is [Byte.byte], a [[]byte] is [list byte]; a w-bit integer is a
    [Z] kept in range by the wrapping functions below. *)

Abbreviation byte := Init.Byte.byte.
Abbreviation bytes := (list byte).

#[global] Instance byte_eq_dec : EqDecision byte := Byte.byte_eq_dec.

Declare Scope go_scope.
Delimit Scope go_scope with go.

(** Conversions between the widths the code uses, with wrap-around. *)
Definition uint32_of (z : Z) : Z := z mod 2 ^ 32.
Definition int32_of (z : Z) : Z := (z + 2 ^ 31) mod 2 ^ 32 - 2 ^ 31.
Definition int64_of (z : Z) : Z := (z + 2 ^ 63) mod 2 ^ 64 - 2 ^ 63.

Definition byte_val (b : byte) : Z := Z.of_N (Byte.to_N b).
Definition byte_of (z : Z) : byte :=
  default Byte.x00 (Byte.of_N (Z.to_N (z mod 2 ^ 8))).

Lemma byte_val_range b : (0 ≤ byte_val b < 256)%Z.
Proof.
  unfold byte_val. pose proof (Byte.to_N_bounded b). lia.
Qed.

Lemma byte_val_of z : byte_val (byte_of z) = (z mod 256)%Z.
Proof.
  unfold byte_val, byte_of. change (2 ^ 8)%Z with 256%Z.
  pose proof (Z.mod_pos_bound z 256 ltac:(lia)) as Hb.
  destruct (Byte.of_N (Z.to_N (z mod 256))) as [b|] eqn:E; simpl.
  - apply Byte.to_of_N in E. lia.
  - apply Byte.of_N_None_iff in E. lia.
Qed.

Lemma byte_of_val b : byte_of (byte_val b) = b.
Proof.
  unfold byte_val, byte_of. change (2 ^ 8)%Z with 256%Z.
  pose proof (byte_val_range b) as Hb. unfold byte_val in Hb.
  rewrite Z.mod_small by lia. rewrite N2Z.id, Byte.of_to_N. done.
Qed.

#[global] Instance byte_val_inj : Inj (=) (=) byte_val.
Proof. intros a b H. by rewrite <- (byte_of_val a), <- (byte_of_val b), H. Qed.

Lemma uint32_of_range z : (0 ≤ uint32_of z < 2 ^ 32)%Z.
Proof. apply Z.mod_pos_bound. lia. Qed.

Lemma uint32_of_small z : (0 ≤ z < 2 ^ 32)%Z → uint32_of z = z.
Proof. apply Z.mod_small. Qed.

Lemma int32_of_small z : (- 2 ^ 31 ≤ z < 2 ^ 31)%Z → int32_of z = z.
Proof. intros. unfold int32_of. rewrite Z.mod_small; lia. Qed.

Lemma int32_of_range z : (- 2 ^ 31 ≤ int32_of z < 2 ^ 31)%Z.
Proof.
  unfold int32_of. pose proof (Z.mod_pos_bound (z + 2 ^ 31) (2 ^ 32)). lia.
Qed.

(** [binary.LittleEndian.PutUint32] and [binary.LittleEndian.Uint32]. *)
Definition put_uint32_le (v : Z) : bytes :=
  [byte_of v; byte_of (Z.shiftr v 8); byte_of (Z.shiftr v 16); byte_of (Z.shiftr v 24)].

Definition uint32_le (bs : bytes) : Z :=
  match bs with
  | b0 :: b1 :: b2 :: b3 :: _ =>
      Z.lor (byte_val b0)
        (Z.lor (Z.shiftl (byte_val b1) 8)
           (Z.lor (Z.shiftl (byte_val b2) 16) (Z.shiftl (byte_val b3) 24)))
  | _ => 0%Z
  end.

#[global] Arguments put_uint32_le : simpl never.
#[global] Arguments uint32_le : simpl never.

Lemma lor_shiftl_add a b n :
  (0 ≤ n)%Z → (0 ≤ a < 2 ^ n)%Z → (0 ≤ b)%Z →
  Z.lor a (Z.shiftl b n) = (a + b * 2 ^ n)%Z.
Proof.
  intros Hn Ha Hb. rewrite Z.shiftl_mul_pow2 by done.
  assert (Z.land a (b * 2 ^ n) = 0)%Z as Hl.
  { rewrite <- Z.shiftl_mul_pow2 by done. apply Z.bits_inj'. intros i Hi.
    rewrite Z.land_spec, Z.bits_0, Z.shiftl_spec by done.
    destruct (decide (i < n)%Z).
    - rewrite (Z.testbit_neg_r b) by lia. by rewrite andb_false_r.
    - rewrite (proj1 (Z.bounded_iff_bits_nonneg n a Hn ltac:(lia))); [done | lia | lia]. }
  pose proof (Z.add_lor_land a (b * 2 ^ n)). lia.
Qed.

Lemma uint32_le_put v : uint32_le (put_uint32_le v) = uint32_of v.
Proof.
  unfold uint32_le, put_uint32_le, uint32_of. rewrite !byte_val_of.
  rewrite !Z.shiftr_div_pow2, !(Z.shiftl_mul_pow2 _ 24) by lia.
  set (b1 := ((v / 2 ^ 8) mod 256)%Z). set (b2 := ((v / 2 ^ 16) mod 256)%Z).
  set (b3 := ((v / 2 ^ 24) mod 256)%Z).
  assert (0 ≤ b1 < 256)%Z by (apply Z.mod_pos_bound; lia).
  assert (0 ≤ b2 < 256)%Z by (apply Z.mod_pos_bound; lia).
  assert (0 ≤ b3 < 256)%Z by (apply Z.mod_pos_bound; lia).
  replace (Z.lor (Z.shiftl b2 16) (b3 * 2 ^ 24))%Z with (Z.shiftl (b2 + b3 * 2 ^ 8) 16)%Z.
  2:{ rewrite <- (lor_shiftl_add b2 b3 8), Z.shiftl_lor, Z.shiftl_shiftl by lia.
      by rewrite (Z.shiftl_mul_pow2 b3) by lia. }
  replace (Z.lor (Z.shiftl b1 8) (Z.shiftl (b2 + b3 * 2 ^ 8) 16))%Z
    with (Z.shiftl (b1 + (b2 + b3 * 2 ^ 8) * 2 ^ 8) 8)%Z.
  2:{ rewrite <- (lor_shiftl_add b1 (b2 + b3 * 2 ^ 8) 8), Z.shiftl_lor, Z.shiftl_shiftl by lia.
      done. }
  rewrite lor_shiftl_add; [| lia | apply Z.mod_pos_bound; lia | lia].
  subst b1 b2 b3. change (2 ^ 8)%Z with 256%Z. change (2 ^ 16)%Z with 65536%Z.
  change (2 ^ 24)%Z with 16777216%Z. change (2 ^ 32)%Z with 4294967296%Z.
  Z.div_mod_to_equations. lia.
Qed.

Lemma uint32_le_range bs : (0 ≤ uint32_le bs)%Z.
Proof.
  destruct bs as [|b0 [|b1 [|b2 [|b3 ?]]]]; unfold uint32_le; try lia.
  repeat (apply Z.lor_nonneg; split || apply Z.shiftl_nonneg);
    repeat first [apply Z.lor_nonneg; split | apply Z.shiftl_nonneg]; apply byte_val_range.
Qed.

(** ** Errors, panics and the monad of the code

    A Go function [func(...) (T, error)] is a computation that ends in [Ok] (a nil
    error), [Err] (the error value it returns, compared by identity as in the code)
    or [Panic] (a run-time panic: the process dies).  The state is threaded through
    all three, since a Go function that fails keeps the effects made so far. *)

Inductive error : Type :=
  (* the package's own errors, client.go *)
  | ErrClosed | ErrNoPubAddr | ErrRemoteAddrRejected | ErrWrongMsgFormat
  | ErrWrongAddr | ErrOnlyDailer | ErrNilConn
  (* io, net, context *)
  | EOF | ErrUnexpectedEOF | NetErrClosed | CtxCanceled | CtxDeadlineExceeded
  (* ncp and nkn *)
  | NcpErrSessionClosed | NknErrClosed
  (* errors.New and fmt.Errorf of the package *)
  | ErrText (s : string)
  (* an error made by the operating system or a library *)
  | ErrExt (n : nat).

#[global] Instance error_eq_dec : EqDecision error.
Proof. solve_decision. Defined.

Inductive panic : Type :=
  | NilDeref        (* a field or method of a nil pointer *)
  | NilMapWrite     (* assignment to an entry of a nil map *)
  | IndexRange      (* an index outside a slice *)
  | SliceRange      (* a slice expression with bounds out of range *)
  | MakeSliceLen    (* make([]T, n) with a negative n *)
  | CloseOfClosed   (* close of a closed channel *)
  | DivideByZero.   (* an integer division by zero *)

Inductive res (A : Type) : Type :=
  | Ok (a : A)
  | Err (e : error)
  | Panic (p : panic).
Arguments Ok {_} _.
Arguments Err {_} _.
Arguments Panic {_} _.

#[global] Instance res_ret : MRet res := λ A a, Ok a.
#[global] Instance res_bind : MBind res := λ A B f m,
  match m with Ok a => f a | Err e => Err e | Panic p => Panic p end.

Definition is_panic {A} (r : res A) : bool :=
  match r with Panic _ => true | _ => false end.

Definition go (S A : Type) : Type := S → res A * S.

#[global] Instance go_ret S : MRet (go S) := λ A a s, (Ok a, s).
#[global] Instance go_bind S : MBind (go S) := λ A B f m s,
  match m s with
  | (Ok a, s') => f a s'
  | (Err e, s') => (Err e, s')
  | (Panic p, s') => (Panic p, s')
  end.

Definition throw {S A} (e : error) : go S A := λ s, (Err e, s).
Definition crash {S A} (p : panic) : go S A := λ s, (Panic p, s).
Definition get {S} : go S S := λ s, (Ok s, s).
Definition gets {S A} (f : S → A) : go S A := λ s, (Ok (f s), s).
Definition modify {S} (f : S → S) : go S unit := λ s, (Ok tt, f s).
Definition lift_res {S A} (r : res A) : go S A := λ s, (r, s).

(** [err := m(); ...]: the error is a value the caller inspects. *)
Definition try {S A} (m : go S A) : go S (A + error) := λ s,
  match m s with
  | (Ok a, s') => (Ok (inl a), s')
  | (Err e, s') => (Ok (inr e), s')
  | (Panic p, s') => (Panic p, s')
  end.

(** Run a computation on a part of the state. *)
Definition zoom {S T A} (proj : S → T) (upd : T → S → S) (m : go T A) : go S A := λ s,
  let '(r, t) := m (proj s) in (r, upd t s).

Lemma go_bind_ok {S A B} (m : go S A) (f : A → go S B) s a s' :
  m s = (Ok a, s') → (m ≫= f) s = f a s'.
Proof. intros H. unfold mbind, go_bind. by rewrite H. Qed.

Lemma go_bind_err {S A B} (m : go S A) (f : A → go S B) s e s' :
  m s = (Err e, s') → (m ≫= f) s = (Err e, s').
Proof. intros H. unfold mbind, go_bind. by rewrite H. Qed.

Lemma go_bind_panic {S A B} (m : go S A) (f : A → go S B) s p s' :
  m s = (Panic p, s') → (m ≫= f) s = (Panic p, s').
Proof. intros H. unfold mbind, go_bind. by rewrite H. Qed.

Lemma go_bind_inv_ok {S A B} (m : go S A) (f : A → go S B) s b s'' :
  (m ≫= f) s = (Ok b, s'') → ∃ a s', m s = (Ok a, s') ∧ f a s' = (Ok b, s'').
Proof. unfold mbind, go_bind. destruct (m s) as [[] ?]; naive_solver. Qed.

Lemma go_assoc {S A B C} (m : go S A) (f : A → go S B) (g : B → go S C) s :
  (m ≫= λ a, f a ≫= g) s = ((m ≫= f) ≫= g) s.
Proof. unfold mbind, go_bind. by destruct (m s) as [[] ?]. Qed.

Lemma go_bind_ext {S A B} (m : go S A) (f g : A → go S B) s :
  (∀ a s', f a s' = g a s') → (m ≫= f) s = (m ≫= g) s.
Proof. intros H. unfold mbind, go_bind. by destruct (m s) as [[] ?]. Qed.

Lemma go_lift_ok {S A B} (r : res A) (f : A → go S B) s a : r = Ok a → (lift_res r ≫= f) s = f a s.
Proof. by intros ->. Qed.

Lemma go_lift_err {S A B} (r : res A) (f : A → go S B) s e :
  r = Err e → (lift_res r ≫= f) s = (Err e, s).
Proof. by intros ->. Qed.

Lemma try_no_panic {S A B} (m : go S A) (f : A + error → go S B) s :
  is_panic (m s).1 = false → ∃ r, (try m ≫= f) s = f r (m s).2.
Proof. intros H. unfold try, mbind, go_bind. destruct (m s) as [[]]; naive_solver. Qed.

Lemma try_ok {S A} (m : go S A) s a s' : m s = (Ok a, s') → try m s = (Ok (inl a), s').
Proof. intros H. unfold try. by rewrite H. Qed.

Lemma try_err {S A} (m : go S A) s e s' : m s = (Err e, s') → try m s = (Ok (inr e), s').
Proof. intros H. unfold try. by rewrite H. Qed.

(** Steps of a computation whose first action is known. *)
Ltac go_unfold :=
  unfold mbind, go_bind, mret, go_ret, throw, crash, get, gets, modify, lift_res, try, zoom in *.

(** Case analysis on every branch of an executable definition, closing the
    impossible ones. *)
Ltac go_cases :=
  repeat (case_match; simplify_eq/=; try done).

(** ** Strings

    A Go string is a sequence of bytes: [string] with Stdlib's byte conversions. *)

Definition string_bytes (s : string) : bytes := String.list_byte_of_string s.
Definition bytes_string (b : bytes) : string := String.string_of_list_byte b.

Lemma bytes_string_bytes s : bytes_string (string_bytes s) = s.
Proof. apply String.string_of_list_byte_of_string. Qed.

Lemma string_bytes_string b : string_bytes (bytes_string b) = b.
Proof. apply String.list_byte_of_string_of_list_byte. Qed.

Abbreviation chars := String.list_ascii_of_string.

Lemma chars_app s t : chars (s +:+ t) = chars s ++ chars t.
Proof. induction s as [|a s IH]; simpl; [done |]. f_equal. apply IH. Qed.

#[global] Instance chars_inj : Inj (=) (=) chars.
Proof.
  intros s t H. by rewrite <- (String.string_of_list_ascii_of_string s), H,
    String.string_of_list_ascii_of_string.
Qed.

(** Two lists cut at their last separator agree on both parts. *)
Lemma last_sep_inj {A} (c : A) (l1 l2 r1 r2 : list A) :
  c ∉ r1 → c ∉ r2 → l1 ++ c :: r1 = l2 ++ c :: r2 → l1 = l2 ∧ r1 = r2.
Proof.
  revert l2. induction l1 as [|x l1 IH]; intros [|y l2] H1 H2 E; simplify_eq/=; auto.
  - destruct H1. apply elem_of_app. right. left.
  - destruct H2. apply elem_of_app. right. left.
  - destruct (IH l2) as [-> ->]; auto.
Qed.

(** ** Generic facts on lists *)

Lemma take_app_exact {A} (l k : list A) n : n = length l → take n (l ++ k) = l.
Proof. intros ->. apply take_app_length. Qed.

Lemma drop_app_exact {A} (l k : list A) n : n = length l → drop n (l ++ k) = k.
Proof. intros ->. apply drop_app_length. Qed.

(** A buffer of fixed capacity after [append(buf[:0], out...)]: the bytes land in the
    backing array when they fit; otherwise Go reallocates and [buf] is unchanged. *)
Definition append_into (buf out : bytes) : bytes :=
  if decide (length out ≤ length buf) then out ++ drop (length out) buf else buf.

Lemma append_into_exact buf out : length out = length buf → append_into buf out = out.
Proof.
  intros H. unfold append_into. rewrite decide_True by lia.
  rewrite H, drop_all, app_nil_r. done.
Qed.

Create HintDb tuna.
Create Rewrite HintDb tuna.
#[export] Hint Resolve byte_val_range uint32_of_range uint32_le_range : tuna.
#[export] Hint Rewrite @take_app_exact @drop_app_exact using (simpl; lia) : tuna.
