(* ===== verification/Hoare.v ===== *)
(** * A program logic for the monad of handlers

    [spec I R E m Q s]: run in [s], the computation [m] keeps the invariant [I], moves
    along the preorder [R], ends with a value for which [Q] holds or with an error, and
    panics only in the ways [E] allows.  One rule per construct of the monad. *)

From stdpp Require Import base gmap strings list numbers tactics.
From S2P Require Import Prelude.

Section logic.
Context {S : Type} (I : S → Prop) (R : S → S → Prop) `{!PreOrder R}.

Definition spec (E : panic → Prop) {A} (m : go S A) (Q : A → S → Prop) (s : S) : Prop :=
  match m s with
  | (Ok a, s') => I s' ∧ R s s' ∧ Q a s'
  | (Err _, s') => I s' ∧ R s s'
  | (Panic p, _) => E p
  end.

(** Fewer panics, a weaker postcondition. *)
Lemma spec_mono (E E' : panic → Prop) {A} (m : go S A) (Q Q' : A → S → Prop) s :
  spec E m Q s → (∀ p, E p → E' p) →
  (∀ a s', I s' → R s s' → Q a s' → Q' a s') → spec E' m Q' s.
Proof. unfold spec. destruct (m s) as [[a|e|p] s']; naive_solver. Qed.

Lemma spec_ret E {A} (a : A) (Q : A → S → Prop) s : I s → Q a s → spec E (mret a) Q s.
Proof. intros. unfold spec. simpl. by split_and!. Qed.

Lemma spec_throw E {A} e (Q : A → S → Prop) s : I s → spec E (throw e) Q s.
Proof. intros. unfold spec. simpl. by split. Qed.

Lemma spec_crash E {A} p (Q : A → S → Prop) s : E p → spec E (crash p) Q s.
Proof. done. Qed.

Lemma spec_get E (Q : S → S → Prop) s : I s → Q s s → spec E get Q s.
Proof. intros. unfold spec. simpl. by split_and!. Qed.

Lemma spec_modify E f (Q : unit → S → Prop) s :
  I (f s) → R s (f s) → Q tt (f s) → spec E (modify f) Q s.
Proof. intros. unfold spec. simpl. by split_and!. Qed.

Lemma spec_lift E {A} (r : res A) (Q : A → S → Prop) s :
  I s → (∀ p, r = Panic p → E p) → (∀ a, r = Ok a → Q a s) → spec E (lift_res r) Q s.
Proof. intros. unfold spec, lift_res. destruct r; [split_and!; [done | done | eauto] | done | eauto]. Qed.

Lemma spec_bind E {A B} (m : go S A) (f : A → go S B) (Q : A → S → Prop) (P : B → S → Prop) s :
  spec E m Q s → (∀ a s', I s' → R s s' → Q a s' → spec E (f a) P s') → spec E (m ≫= f) P s.
Proof.
  unfold spec, mbind, go_bind. destruct (m s) as [[a|e|p] s']; [| done..].
  intros (HI & HR & HQ) Hf. specialize (Hf a s' HI HR HQ).
  destruct (f a s') as [[b|e|p] s'']; [| | done].
  - destruct Hf as (? & ? & ?). split_and!; [done | by etrans | done].
  - destruct Hf as (? & ?). split; [done | by etrans].
Qed.

Lemma spec_try E {A} (m : go S A) (Q : A → S → Prop) (P : A + error → S → Prop) s :
  spec E m Q s → (∀ a s', I s' → R s s' → Q a s' → P (inl a) s') →
  (∀ e s', I s' → R s s' → P (inr e) s') → spec E (try m) P s.
Proof. unfold spec, try. destruct (m s) as [[a|e|p] s']; naive_solver. Qed.

(** What a run that is known did. *)
Lemma spec_ok_inv E {A} (m : go S A) Q s a s' :
  spec E m Q s → m s = (Ok a, s') → I s' ∧ R s s' ∧ Q a s'.
Proof. unfold spec. by intros H Hm; rewrite Hm in H. Qed.

Lemma spec_inv E {A} (m : go S A) Q s r s' :
  spec E m Q s → m s = (r, s') → is_panic r = false → I s' ∧ R s s'.
Proof. unfold spec. intros H Hm; rewrite Hm in H. destruct r; naive_solver. Qed.

Lemma spec_panic_inv E {A} (m : go S A) Q s p s' :
  spec E m Q s → m s = (Panic p, s') → E p.
Proof. unfold spec. by intros H Hm; rewrite Hm in H. Qed.

End logic.

(** Panics are excluded altogether. *)
Abbreviation no_panic := (λ _ : panic, False).

(** ** What a computation returns *)

Section returns.
Context {S : Type}.

Definition returns {A} (P : A → Prop) (m : go S A) : Prop := ∀ s a s', m s = (Ok a, s') → P a.

Lemma returns_bind {A B} (P : B → Prop) (m : go S A) (f : A → go S B) :
  (∀ a, returns P (f a)) → returns P (m ≫= f).
Proof. intros Hf s b s' (a & s1 & _ & H)%go_bind_inv_ok. by eapply Hf. Qed.
Lemma returns_ret {A} (P : A → Prop) (a : A) : P a → returns P (mret a).
Proof. by intros H s b s' [= <- <-]. Qed.
Lemma returns_throw {A} (P : A → Prop) e : returns P (throw e).
Proof. by intros s b s'. Qed.
Lemma returns_crash {A} (P : A → Prop) p : returns P (crash p).
Proof. by intros s b s'. Qed.
End returns.

Ltac ret := repeat first
  [ progress intros | solve [auto] | apply returns_bind | apply returns_throw | apply returns_crash
  | apply returns_ret | progress cbv beta zeta | case_match ].

(** ** Computations that do not end with an error *)

Section noerr.
Context {S : Type}.

Definition noerr {A} (m : go S A) : Prop := ∀ s e s', m s ≠ (Err e, s').

Lemma noerr_bind {A B} (m : go S A) (f : A → go S B) :
  noerr m → (∀ a, noerr (f a)) → noerr (m ≫= f).
Proof.
  intros Hm Hf s e s'. unfold mbind, go_bind. specialize (Hm s).
  destruct (m s) as [[a|e'|p] s1]; [apply Hf | by destruct (Hm e' s1) | done].
Qed.
Lemma noerr_try {A} (m : go S A) : noerr (try m).
Proof. intros s e s'. unfold try. by destruct (m s) as [[] ?]. Qed.
Lemma noerr_ret {A} (a : A) : noerr (mret a).
Proof. done. Qed.
Lemma noerr_crash {A} p : noerr (crash (A := A) p).
Proof. done. Qed.
Lemma noerr_get : noerr get.
Proof. done. Qed.
Lemma noerr_modify f : noerr (modify f).
Proof. done. Qed.
Lemma noerr_lift {A} (r : res A) : (∀ e, r ≠ Err e) → noerr (lift_res r).
Proof. intros H s e s' [= ? _]. by apply (H e). Qed.
End noerr.

Create HintDb noerr.
#[export] Hint Resolve noerr_bind noerr_try noerr_ret noerr_crash noerr_get noerr_modify : noerr.
