(* ===== verification/Util.v ===== *)
(** * util.go: session keys, connection ids and the free-port search

    [Keys] models [sessionKey] and [connID], the two naming functions every map of the
    client is indexed by; [Port] models [GetFreePort] against a model of the operating
    system's port tables. *)

From stdpp Require Import base gmap strings list numbers tactics pretty infinite.
From Stdlib Require Import ZArith Lia Ascii.
From S2P Require Import Prelude.

Module Keys.

(** [hex.EncodeToString] of the standard library. *)
Definition hextable : list Ascii.ascii := chars "0123456789abcdef".

Definition hex_digit (v : Z) : Ascii.ascii :=
  default Ascii.zero (hextable !! Z.to_nat v).

Definition hex_byte (b : byte) : list Ascii.ascii :=
  [hex_digit (Z.shiftr (byte_val b) 4); hex_digit (Z.land (byte_val b) 15)].

Definition EncodeToString (bs : bytes) : string :=
  String.string_of_list_ascii (concat (hex_byte <$> bs)).

(** [sessionKey]: the remote address, a colon, the session id in hexadecimal. *)
Definition sessionKey (remoteAddr : string) (sessionID : bytes) : string :=
  remoteAddr +:+ ":" +:+ EncodeToString sessionID.

(** [connID]: [strconv.Itoa]. *)
Definition connID (i : Z) : string := pretty i.

Lemma chars_Encode bs : chars (EncodeToString bs) = concat (hex_byte <$> bs).
Proof. unfold EncodeToString. apply String.list_ascii_of_string_of_list_ascii. Qed.

Lemma hex_byte_table :
  Forall (λ n, ":"%char ∉ hex_byte (byte_of (Z.of_nat n))) (seq 0 256).
Proof. apply (bool_decide_unpack _). vm_compute. exact I. Qed.

Lemma byte_forall (P : byte → Prop) :
  Forall (λ n, P (byte_of (Z.of_nat n))) (seq 0 256) → ∀ b, P b.
Proof.
  rewrite Forall_forall. intros H b. pose proof (byte_val_range b).
  specialize (H (Z.to_nat (byte_val b))). rewrite Z2Nat.id, byte_of_val in H by lia.
  apply H. apply elem_of_seq. lia.
Qed.

Lemma hex_byte_no_colon b : ":"%char ∉ hex_byte b.
Proof. revert b. apply byte_forall, hex_byte_table. Qed.

(** The value of a hexadecimal digit: a left inverse of [hex_digit]. *)
Definition hex_value (c : Ascii.ascii) : Z :=
  let n := Z.of_nat (Ascii.nat_of_ascii c) in
  if decide (n < 58)%Z then (n - 48)%Z else (n - 87)%Z.

Lemma hex_byte_value b :
  hex_value <$> hex_byte b = [Z.shiftr (byte_val b) 4; Z.land (byte_val b) 15].
Proof.
  revert b. apply byte_forall. apply (bool_decide_unpack _). vm_compute. exact I.
Qed.

#[global] Instance hex_byte_inj : Inj (=) (=) hex_byte.
Proof.
  intros a b H. apply (inj byte_val).
  pose proof (hex_byte_value a) as Ha. rewrite H, hex_byte_value in Ha.
  injection Ha as H1 H2. rewrite !Z.shiftr_div_pow2 in H1 by lia.
  change 15%Z with (Z.ones 4) in H2. rewrite !Z.land_ones in H2 by lia.
  change (2 ^ 4)%Z with 16%Z in *. Z.div_mod_to_equations. lia.
Qed.

Lemma Encode_no_colon bs : ":"%char ∉ chars (EncodeToString bs).
Proof.
  rewrite chars_Encode. induction bs as [|b bs IH]; simpl; [apply not_elem_of_nil |].
  rewrite !not_elem_of_cons. pose proof (hex_byte_no_colon b) as Hb.
  unfold hex_byte in Hb. rewrite !not_elem_of_cons in Hb. destruct Hb as (?&?&?). auto.
Qed.

#[global] Instance EncodeToString_inj : Inj (=) (=) EncodeToString.
Proof.
  intros a b H. apply (f_equal chars) in H. rewrite !chars_Encode in H.
  revert b H. induction a as [|x a IH]; intros [|y b] H; try done.
  change (hex_byte x ++ concat (hex_byte <$> a) = hex_byte y ++ concat (hex_byte <$> b)) in H.
  apply app_inj_1 in H as [H1%(inj hex_byte) H2]; [| done]. subst. f_equal. auto.
Qed.

(** Two connections get the same session key only when they have the same remote
    address and the same session id: the map keys of the client never confuse two
    sessions, whatever characters the address contains. *)
Theorem sessionKey_injective a1 a2 id1 id2 :
  sessionKey a1 id1 = sessionKey a2 id2 ↔ a1 = a2 ∧ id1 = id2.
Proof.
  split; [| by intros [-> ->]]. intros H. apply (f_equal chars) in H.
  unfold sessionKey in H. rewrite !chars_app in H.
  apply last_sep_inj in H as [H1 H2]; [| apply Encode_no_colon..].
  by apply (inj chars) in H1; apply (inj chars), (inj EncodeToString) in H2.
Qed.

#[global] Instance connID_inj : Inj (=) (=) connID.
Proof. intros i j H. by apply (inj pretty) in H. Qed.

End Keys.

(** ** The free-port search *)
Module Port.

(** The operating system's view: the open TCP listeners (each an object of its own,
    with the loopback port it is bound to) and the UDP ports in use. *)
Record OS := mkOS {
  tcp_listeners : gmap nat Z;
  udp_ports : gset Z
}.

Definition tcp_busy (o : OS) (p : Z) : Prop := ∃ id, tcp_listeners o !! id = Some p.
Definition udp_busy (o : OS) (p : Z) : Prop := p ∈ udp_ports o.

#[global] Instance tcp_busy_dec o p : Decision (tcp_busy o p).
Proof.
  refine (cast_if (decide (p ∈ (map_to_list (tcp_listeners o)).*2)));
    unfold tcp_busy; [| intros [id H]; apply n];
    [ apply list_elem_of_fmap in e as ([id q] & -> & ?%elem_of_map_to_list); eauto
    | apply list_elem_of_fmap; exists (id, p); split; [done | by apply elem_of_map_to_list] ].
Defined.

#[global] Instance udp_busy_dec o p : Decision (udp_busy o p).
Proof. unfold udp_busy. apply _. Defined.

Definition EADDRINUSE : error := ErrExt 98.
Definition maxPort : Z := 65535.

Section search.

(** The port the system assigns when asked for port 0 ([None]: none is left). *)
Context (pick : OS → option Z).

(** [net.ResolveTCPAddr("tcp", "127.0.0.1:<port>")]: the port must fit 16 bits. *)
Definition ResolveTCPAddr (port : Z) : res Z :=
  if decide (0 ≤ port ≤ maxPort)%Z then Ok port else Err (ErrText "invalid port").

(** [net.ListenTCP]: a new listener object and the port it is bound to. *)
Definition ListenTCP (addr : Z) : go OS (nat * Z) := λ o,
  let bind p :=
    let id := fresh (dom (tcp_listeners o)) in
    (Ok (id, p), mkOS (<[id := p]> (tcp_listeners o)) (udp_ports o)) in
  if decide (addr = 0%Z) then
    match pick o with Some p => bind p | None => (Err EADDRINUSE, o) end
  else if decide (tcp_busy o addr) then (Err EADDRINUSE, o)
  else bind addr.

(** [l.Close()]: closing a listener twice has no effect on the ports. *)
Definition CloseTCP (id : nat) : go OS unit :=
  modify (λ o, mkOS (delete id (tcp_listeners o)) (udp_ports o)).

(** [net.ListenUDP] on a given port, and closing that socket. *)
Definition ListenUDP (p : Z) : go OS unit := λ o,
  if decide (udp_busy o p) then (Err EADDRINUSE, o)
  else (Ok tt, mkOS (tcp_listeners o) ({[p]} ∪ udp_ports o)).

Definition CloseUDP (p : Z) : go OS unit :=
  modify (λ o, mkOS (tcp_listeners o) (udp_ports o ∖ {[p]})).

(** The loop of [GetFreePort] with [n] tries left.  Its state is the system and the
    listeners whose [Close] is deferred, latest first. *)
Fixpoint freePort_loop (n : nat) (port : Z) : go (OS * list nat) Z :=
  match n with
  | O => throw (ErrText "failed to find free port after 100 tries")
  | S n =>
      addr ← lift_res (ResolveTCPAddr port);
      '(l, port) ← zoom fst (λ o s, (o, s.2)) (ListenTCP addr);
      modify (λ s, (s.1, l :: s.2));;
      u ← try (zoom fst (λ o s, (o, s.2)) (ListenUDP port));
      match u with
      | inr _ =>
          zoom fst (λ o s, (o, s.2)) (CloseTCP l);;
          freePort_loop n (port + 1)
      | inl _ =>
          zoom fst (λ o s, (o, s.2)) (CloseUDP port);;
          mret port
      end
  end.

Definition run_defers (ds : list nat) (o : OS) : OS :=
  foldl (λ o l, (CloseTCP l o).2) o ds.

Definition GetFreePort (port : Z) : go OS Z := λ o,
  let '(r, (o', ds)) := freePort_loop 100 port (o, []) in (r, run_defers ds o').

Lemma OS_eta o : mkOS (tcp_listeners o) (udp_ports o) = o.
Proof. by destruct o. Qed.

(** Deferred closes of listeners that are already gone change nothing. *)
Lemma run_defers_gone ds o :
  Forall (λ l, tcp_listeners o !! l = None) ds → run_defers ds o = o.
Proof.
  induction 1 as [|l ds Hl _ IH]; [done |]. unfold run_defers. simpl.
  rewrite (delete_id (tcp_listeners o) l Hl), OS_eta. apply IH.
Qed.

(** What a successful [ListenTCP] did. *)
Lemma ListenTCP_ok addr o l p o' :
  ListenTCP addr o = (Ok (l, p), o') →
  (∀ q, pick o = Some q → ¬ tcp_busy o q) →
  tcp_listeners o !! l = None ∧ ¬ tcp_busy o p ∧
  o' = mkOS (<[l := p]> (tcp_listeners o)) (udp_ports o) ∧
  (addr = 0%Z ∧ pick o = Some p ∨ addr ≠ 0%Z ∧ p = addr).
Proof.
  unfold ListenTCP. intros H Hpick.
  assert (tcp_listeners o !! fresh (dom (tcp_listeners o)) = None) as Hf.
  { apply not_elem_of_dom, is_fresh. }
  go_cases; eauto 10.
Qed.

Lemma ListenTCP_err addr o r o' :
  ListenTCP addr o = (r, o') → (∃ lp, r = Ok lp) ∨ r = Err EADDRINUSE ∧ o' = o.
Proof. unfold ListenTCP. intros H. go_cases; eauto. Qed.

(** A try that finds the UDP port taken, or free, leaves the system as it was. *)
Lemma ListenUDP_busy p o : udp_busy o p → ListenUDP p o = (Err EADDRINUSE, o).
Proof. intros. unfold ListenUDP. by rewrite decide_True. Qed.

Lemma ListenUDP_free p o :
  ¬ udp_busy o p → ListenUDP p o = (Ok tt, mkOS (tcp_listeners o) ({[p]} ∪ udp_ports o)).
Proof. intros. unfold ListenUDP. by rewrite decide_False. Qed.

(** Binding a fresh listener and closing it restores the table. *)
Lemma close_bound o l p :
  tcp_listeners o !! l = None →
  mkOS (delete l (<[l := p]> (tcp_listeners o))) (udp_ports o) = o.
Proof. intros H. rewrite delete_insert_id by done. apply OS_eta. Qed.

Lemma udp_probe_restores (u : gset Z) p : p ∉ u → ({[p]} ∪ u) ∖ {[p]} = u.
Proof. set_solver. Qed.

(** What the system promises when it assigns a port. *)
Context (Hpick : ∀ o p, pick o = Some p → (0 < p ≤ maxPort)%Z ∧ ¬ tcp_busy o p).

Definition port_ok (o : OS) (n : nat) (port p : Z) : Prop :=
  (0 < p ≤ maxPort)%Z ∧ ¬ tcp_busy o p ∧ ¬ udp_busy o p ∧
  (port ≠ 0 → port ≤ p < port + Z.of_nat n)%Z.

Lemma freePort_loop_spec n port o ds r o' ds' :
  Forall (λ l, tcp_listeners o !! l = None) ds →
  freePort_loop n port (o, ds) = (r, (o', ds')) →
  run_defers ds' o' = o ∧ is_panic r = false ∧ (∀ p, r = Ok p → port_ok o n port p).
Proof.
  revert port ds. induction n as [|n IH]; intros port ds Hds; simpl; go_unfold; intros H.
  { simplify_eq. by rewrite run_defers_gone. }
  unfold ResolveTCPAddr in H. destruct (decide _) as [Hr|]; simpl in H.
  2:{ simplify_eq. by rewrite run_defers_gone. }
  destruct (ListenTCP port o) as [[[l p]|e|] o1] eqn:HL; simpl in H.
  2-3: destruct (ListenTCP_err _ _ _ _ HL) as [[? ?]|[? ?]]; simplify_eq; by rewrite run_defers_gone.
  apply ListenTCP_ok in HL as (Hl & Hp & -> & Hport); [| intros; by apply Hpick].
  assert (0 < p ≤ maxPort)%Z as Hrange.
  { destruct Hport as [[_ H1]|[H1 ->]]; [by destruct (Hpick _ _ H1) | unfold maxPort in *; lia]. }
  assert (Forall (λ k, tcp_listeners o !! k = None) (l :: ds)) as Hlds by by constructor.
  destruct (decide (udp_busy o p)) as [Hu|Hu].
  - rewrite ListenUDP_busy in H by done. simpl in H. rewrite close_bound in H by done.
    apply IH in H as (H1 & H2 & H3); [| done]. split_and!; [done.. |].
    intros q Hq. apply H3 in Hq as (? & ? & ? & ?). unfold port_ok. split_and!; try done; lia.
  - rewrite ListenUDP_free in H by done. simplify_eq/=. rewrite udp_probe_restores by done.
    split_and!; [| done |].
    + unfold run_defers. simpl. rewrite close_bound by done. by apply run_defers_gone.
    + intros q [= <-]. unfold port_ok. split_and!; try done; lia.
Qed.

Lemma GetFreePort_result port o :
  ∃ r, GetFreePort port o = (r, o) ∧ is_panic r = false ∧ ∀ p, r = Ok p → port_ok o 100 port p.
Proof.
  unfold GetFreePort. destruct (freePort_loop 100 port (o, [])) as [r [o' ds']] eqn:E.
  apply freePort_loop_spec in E as (H1 & H2 & H3); [| constructor].
  exists r. by rewrite H1.
Qed.

(** C34: [GetFreePort] never panics and, on every path, releases what it opened: after
    the call the port tables are as before.  The port it returns fits 16 bits, was free
    in TCP and in UDP, and when a start port was given lies within the 100 ports from
    there. *)
Theorem GetFreePort_sound port o :
  ∃ r, GetFreePort port o = (r, o) ∧ is_panic r = false ∧
    ∀ p, r = Ok p → port_ok o 100 port p.
Proof. apply GetFreePort_result. Qed.

(** A run of tries over ports that are taken in UDP only. *)
Lemma freePort_loop_skip k n port o ds :
  (0 < port)%Z → (port + Z.of_nat k ≤ maxPort)%Z →
  Forall (λ l, tcp_listeners o !! l = None) ds →
  (∀ j, j ≤ k → ¬ tcp_busy o (port + Z.of_nat j)) →
  (∀ j, j < k → udp_busy o (port + Z.of_nat j)) →
  ¬ udp_busy o (port + Z.of_nat k) → k < n →
  (freePort_loop n port (o, ds)).1 = Ok (port + Z.of_nat k)%Z.
Proof.
  revert n port ds. induction k as [|k IH]; intros [|n] port ds Hp Hmax Hds Ht Hb Hf Hn;
    try lia; simpl; go_unfold; unfold ResolveTCPAddr;
    rewrite decide_True by (unfold maxPort in *; lia); simpl;
    assert (¬ tcp_busy o port) as Ht0 by (specialize (Ht 0); rewrite Z.add_0_r in Ht; apply Ht; lia);
    unfold ListenTCP; rewrite decide_False, (decide_False (P := tcp_busy o port)) by (done || lia); simpl.
  - rewrite Z.add_0_r in *. by rewrite ListenUDP_free.
  - rewrite ListenUDP_busy by (specialize (Hb 0); rewrite Z.add_0_r in Hb; apply Hb; lia).
    assert (tcp_listeners o !! fresh (dom (tcp_listeners o)) = None) as Hl.
    { apply not_elem_of_dom, is_fresh. }
    simpl. rewrite close_bound by done.
    rewrite IH; try done; try lia; [f_equal; lia | by constructor | | |].
    + intros j Hj. replace (port + 1 + Z.of_nat j)%Z with (port + Z.of_nat (S j))%Z by lia.
      apply Ht. lia.
    + intros j Hj. replace (port + 1 + Z.of_nat j)%Z with (port + Z.of_nat (S j))%Z by lia.
      apply Hb. lia.
    + by replace (port + 1 + Z.of_nat k)%Z with (port + Z.of_nat (S k))%Z by lia.
Qed.

(** From a given start port the search succeeds: when the ports before
    [port + k] are free in TCP but taken in UDP, and [port + k] is free in both, with
    [k] below the 100 tries, [GetFreePort] returns [port + k]. *)
Theorem GetFreePort_finds k port o :
  (0 < port)%Z → (port + Z.of_nat k ≤ maxPort)%Z → k < 100 →
  (∀ j, j ≤ k → ¬ tcp_busy o (port + Z.of_nat j)) →
  (∀ j, j < k → udp_busy o (port + Z.of_nat j)) →
  ¬ udp_busy o (port + Z.of_nat k) →
  (GetFreePort port o).1 = Ok (port + Z.of_nat k)%Z.
Proof.
  intros. unfold GetFreePort.
  pose proof (freePort_loop_skip k 100 port o []) as H'.
  destruct (freePort_loop 100 port (o, [])) as [r [o' ds]]. simpl in *. auto.
Qed.

(** A start port that is taken in TCP is an error at once; the following ports are
    not tried, although the comment of [GetFreePort] announces a search that starts
    from the given port. *)
Theorem GetFreePort_tcp_busy port o :
  (0 < port ≤ maxPort)%Z → tcp_busy o port →
  GetFreePort port o = (Err EADDRINUSE, o).
Proof.
  intros Hp Hb. unfold GetFreePort. simpl. go_unfold. unfold ResolveTCPAddr.
  rewrite decide_True by lia. simpl. unfold ListenTCP.
  by rewrite decide_False, (decide_True (P := tcp_busy o port)) by (done || lia).
Qed.

End search.

(** ** Addresses with a port: [net.SplitHostPort] and [strconv.Atoi] *)

Fixpoint split_last (c : ascii) (l : list ascii) : option (list ascii * list ascii) :=
  match l with
  | [] => None
  | x :: l =>
      match split_last c l with
      | Some (a, b) => Some (x :: a, b)
      | None => if decide (x = c) then Some ([], l) else None
      end
  end.

Definition errAddr : error := ErrText "address: missing port, too many colons or brackets".

Definition SplitHostPort (hostport : string) : res (string * string) :=
  match split_last ":"%char (chars hostport) with
  | None => Err errAddr
  | Some (host, port) =>
      let str := String.string_of_list_ascii in
      match host with
      | "["%char :: host =>
          match split_last "]"%char host with
          | Some (host, []) =>
              if decide ("["%char ∈ host ∨ "]"%char ∈ host ∨ "["%char ∈ port ∨ "]"%char ∈ port)
              then Err errAddr else Ok (str host, str port)
          | _ => Err errAddr
          end
      | _ =>
          if decide (":"%char ∈ host ∨ "["%char ∈ host ++ port ∨ "]"%char ∈ host ++ port)
          then Err errAddr else Ok (str host, str port)
      end
  end.

Definition digit_val (a : ascii) : option Z :=
  let n := Z.of_nat (nat_of_ascii a) in
  if decide (48 ≤ n ≤ 57)%Z then Some (n - 48)%Z else None.

Fixpoint digits_val (acc : Z) (l : list ascii) : option Z :=
  match l with
  | [] => Some acc
  | a :: l => d ← digit_val a; digits_val (acc * 10 + d)%Z l
  end.

Definition errAtoi : error := ErrText "strconv.Atoi: invalid syntax or value out of range".

Definition Atoi (s : string) : res Z :=
  let num sign l :=
    match l, digits_val 0 l with
    | _ :: _, Some v => if decide (- 2 ^ 63 ≤ sign * v < 2 ^ 63)%Z then Ok (sign * v)%Z else Err errAtoi
    | _, _ => Err errAtoi
    end in
  match chars s with
  | [] => Err errAtoi
  | a :: l =>
      if decide (a = "-"%char) then num (-1)%Z l
      else if decide (a = "+"%char) then num 1%Z l
      else num 1%Z (a :: l)
  end.

(** The text of a loopback address, and its port read back. *)
Definition loopback (port : Z) : string := "127.0.0.1:" +:+ pretty port.

Definition addr_port (s : string) : res (string * Z) :=
  '(host, portStr) ← SplitHostPort s; port ← Atoi portStr; mret (host, port).

Lemma SplitHostPort_no_panic s : is_panic (SplitHostPort s) = false.
Proof. unfold SplitHostPort. repeat (case_match || case_decide); done. Qed.

Lemma Atoi_no_panic s : is_panic (Atoi s) = false.
Proof. unfold Atoi. repeat (case_match || case_decide); done. Qed.

Lemma addr_port_no_panic s : is_panic (addr_port s) = false.
Proof.
  unfold addr_port. pose proof (SplitHostPort_no_panic s) as H.
  destruct (SplitHostPort s) as [[host port]| |]; [| done..]. simpl.
  pose proof (Atoi_no_panic port) as H'. by destruct (Atoi port).
Qed.

(** Numbers are printed as digits, which are read back. *)
Definition is_digit (a : ascii) : Prop := is_Some (digit_val a).

Lemma pretty_char_digit x : (x < 10)%N → digit_val (pretty_N_char x) = Some (Z.of_N x).
Proof.
  intros Hx. assert (x = 0 ∨ x = 1 ∨ x = 2 ∨ x = 3 ∨ x = 4 ∨ x = 5 ∨ x = 6 ∨ x = 7 ∨ x = 8 ∨ x = 9)%N as H by lia.
  by destruct_or!; subst.
Qed.

Lemma pretty_go_digits x s :
  Forall is_digit (chars s) →
  Forall is_digit (chars (pretty_N_go x s)) ∧
  digits_val 0 (chars (pretty_N_go x s)) = digits_val (Z.of_N x) (chars s) ∧
  (chars s ≠ [] → chars (pretty_N_go x s) ≠ []).
Proof.
  revert s. induction (N.lt_wf_0 x) as [x _ IH]. intros s Hs.
  destruct (decide (x = 0)%N) as [->|Hx]; [by rewrite pretty_N_go_0 |].
  rewrite pretty_N_go_step by lia.
  assert (digit_val (pretty_N_char (x `mod` 10)) = Some (Z.of_N (x `mod` 10))) as Hd.
  { apply pretty_char_digit. apply N.mod_lt. lia. }
  destruct (IH (x `div` 10)%N) with (s := String (pretty_N_char (x `mod` 10)) s) as (H1 & H2 & H3).
  - apply N.div_lt; lia.
  - simpl. constructor; [by eexists | done].
  - split_and!; [done | | intros _; by apply H3]. rewrite H2. simpl. rewrite Hd. simpl. f_equal.
    rewrite (N.div_mod x 10) at 3 by lia. lia.
Qed.

Lemma pretty_digits p :
  (0 ≤ p)%Z → Forall is_digit (chars (pretty p)) ∧ digits_val 0 (chars (pretty p)) = Some p ∧
  chars (pretty p) ≠ [].
Proof.
  intros Hp. destruct p as [|p|p]; [| | lia].
  - split_and!; [| done | done]. repeat constructor. by eexists.
  - change (pretty (Zpos p)) with (pretty (Npos p)). unfold pretty, pretty_N. rewrite decide_False by lia.
    rewrite pretty_N_go_step by lia.
    destruct (pretty_go_digits (Npos p `div` 10) (String (pretty_N_char (Npos p `mod` 10)) "")) as (H1 & H2 & H3).
    + simpl. constructor; [| done]. unfold is_digit. rewrite pretty_char_digit by (apply N.mod_lt; lia). eauto.
    + split_and!; [done | | by apply H3]. rewrite H2. simpl.
      rewrite pretty_char_digit by (apply N.mod_lt; lia). simpl. f_equal.
      pose proof (N.div_mod (Npos p) 10). lia.
Qed.

Lemma split_last_app c l1 l2 : c ∉ l2 → split_last c (l1 ++ c :: l2) = Some (l1, l2).
Proof.
  intros Hc. assert (split_last c l2 = None) as H2.
  { induction l2 as [|x l2 IH]; [done |]. apply not_elem_of_cons in Hc as [? ?]. simpl.
    rewrite IH by done. by rewrite decide_False. }
  induction l1 as [|x l1 IH]; simpl; [by rewrite H2, decide_True | by rewrite IH].
Qed.

Lemma digits_exclude c l : Forall is_digit l → digit_val c = None → c ∉ l.
Proof. intros Hl Hc Hin. rewrite Forall_forall in Hl. destruct (Hl c Hin). congruence. Qed.

Lemma Atoi_digits s v :
  Forall is_digit (chars s) → chars s ≠ [] → digits_val 0 (chars s) = Some v → (0 ≤ v < 2 ^ 63)%Z →
  Atoi s = Ok v.
Proof.
  intros Hd Hn Hv Hr. unfold Atoi. pose proof (digits_exclude "-"%char (chars s) Hd eq_refl) as H1.
  pose proof (digits_exclude "+"%char (chars s) Hd eq_refl) as H2.
  destruct (chars s) as [|a l]; [done |]. apply not_elem_of_cons in H1 as [? _], H2 as [? _].
  rewrite !decide_False by done. rewrite Hv, Z.mul_1_l. by rewrite decide_True by lia.
Qed.

(** Every loopback address can be read back. *)
Lemma addr_port_loopback p : (0 ≤ p ≤ maxPort)%Z → addr_port (loopback p) = Ok ("127.0.0.1", p).
Proof.
  intros Hp. unfold maxPort in Hp. destruct (pretty_digits p) as (H1 & H2 & H3); [lia |].
  unfold addr_port, SplitHostPort, loopback. rewrite chars_app.
  change (chars "127.0.0.1:" ++ ?l) with (chars "127.0.0.1" ++ ":"%char :: l).
  assert (∀ c, digit_val c = None → c ∉ chars (pretty p)) as Hx by (intros c; by apply digits_exclude).
  rewrite split_last_app by by apply Hx. set (ds := chars (pretty p)) in *. cbn [chars app].
  rewrite decide_False.
  2:{ intros H. destruct_or! H; repeat (apply elem_of_cons in H as [?|H]; [done |]);
        [by apply not_elem_of_nil in H | by apply Hx in H..]. }
  unfold mbind, res_bind. unfold ds. rewrite String.string_of_list_ascii_of_string.
  by rewrite (Atoi_digits _ p) by (done || lia).
Qed.

(** A system that assigns port 40000 while it is free. *)
Definition pick_demo (o : OS) : option Z :=
  if decide (tcp_busy o 40000) then None else Some 40000%Z.

Lemma pick_demo_ok o p : pick_demo o = Some p → (0 < p ≤ maxPort)%Z ∧ ¬ tcp_busy o p.
Proof. unfold pick_demo, maxPort. intros. case_decide; simplify_eq. split; [lia | done]. Qed.

(** 40000 is taken in UDP: the search moves on to 40001. *)
Definition os_demo : OS := mkOS {[ 7 := 40002%Z ]} {[ 40000%Z ]}.

Lemma GetFreePort_sound_witness :
  (GetFreePort pick_demo 0 os_demo).1 = Ok 40001%Z ∧
  ∃ r, GetFreePort pick_demo 0 os_demo = (r, os_demo) ∧ is_panic r = false ∧
    ∀ p, r = Ok p → port_ok os_demo 100 0 p.
Proof.
  split; [vm_compute; reflexivity |].
  apply (GetFreePort_sound pick_demo pick_demo_ok 0 os_demo).
Defined.

Lemma GetFreePort_finds_witness :
  (GetFreePort pick_demo 40000 os_demo).1 = Ok (40000 + Z.of_nat 1)%Z.
Proof.
  apply (GetFreePort_finds pick_demo 1 40000 os_demo); unfold maxPort; try lia.
  - intros [|[|j]] Hj; try lia; apply (bool_decide_unpack _); vm_compute; exact I.
  - intros [|j] Hj; try lia. apply (bool_decide_unpack _); vm_compute; exact I.
  - apply (bool_decide_unpack _); vm_compute; exact I.
Defined.

Lemma GetFreePort_tcp_busy_witness :
  GetFreePort pick_demo 40002 os_demo = (Err EADDRINUSE, os_demo).
Proof.
  apply (GetFreePort_tcp_busy pick_demo 40002 os_demo); [unfold maxPort; lia |].
  apply (bool_decide_unpack _); vm_compute; exact I.
Defined.

End Port.
