(* ===== verification/Message.v ===== *)
(** * conn.go and the framing of message.go

    [Conn] is the connection as this package sees it: the bytes that arrive on it (in
    the segments the network delivers them in), the bytes written to it, and whether it
    was closed.  [Framing] models [writeMessage] and [readMessage]; [Writers] models the
    goroutines that share one connection under its write lock. *)

From stdpp Require Import base gmap strings list numbers tactics pretty relations.
From Stdlib Require Import ZArith Lia.
From S2P Require Import Prelude.

(** ** The connection *)

Record Conn := mkConn {
  rd_segs : list bytes;      (* what arrives, segment by segment *)
  rd_end : error;            (* what Read reports after the last segment *)
  wr_out : bytes;            (* what has been written *)
  wr_room : option nat;      (* None: writes succeed; Some k: only k more bytes are taken *)
  wr_err : error;            (* the error of a write that does not fit *)
  wr_deadline : option Z;    (* None is the zero time *)
  conn_closed : bool;
  conn_remote : string       (* RemoteAddr().String() *)
}.

Definition set_rd (segs : list bytes) (c : Conn) : Conn :=
  mkConn segs (rd_end c) (wr_out c) (wr_room c) (wr_err c) (wr_deadline c)
    (conn_closed c) (conn_remote c).
Definition set_wr (out : bytes) (room : option nat) (c : Conn) : Conn :=
  mkConn (rd_segs c) (rd_end c) out room (wr_err c) (wr_deadline c)
    (conn_closed c) (conn_remote c).
Definition set_deadline (d : option Z) (c : Conn) : Conn :=
  mkConn (rd_segs c) (rd_end c) (wr_out c) (wr_room c) (wr_err c) d
    (conn_closed c) (conn_remote c).
Definition close_conn (c : Conn) : Conn :=
  mkConn (rd_segs c) (rd_end c) (wr_out c) (wr_room c) (wr_err c) (wr_deadline c)
    true (conn_remote c).

(** [newConn] wraps a network connection; its two locks are free. *)
Definition newConn (netConn : Conn) : Conn := netConn.

(** [net.Conn.Read] into a buffer of [n] bytes: at most one segment. *)
Definition Read (n : nat) : go Conn bytes := λ c,
  if conn_closed c then (Err NetErrClosed, c)
  else match rd_segs c with
       | [] => (Err (rd_end c), c)
       | seg :: segs =>
           if decide (n < length seg)
           then (Ok (take n seg), set_rd (drop n seg :: segs) c)
           else (Ok seg, set_rd segs c)
       end.

(** [net.Conn.Write]. *)
Definition Write (b : bytes) : go Conn unit := λ c,
  if conn_closed c then (Err NetErrClosed, c)
  else match wr_room c with
       | None => (Ok tt, set_wr (wr_out c ++ b) None c)
       | Some k =>
           if decide (length b ≤ k)
           then (Ok tt, set_wr (wr_out c ++ b) (Some (k - length b)) c)
           else (Err (wr_err c), set_wr (wr_out c ++ take k b) (Some 0) c)
       end.

Definition SetWriteDeadline (d : option Z) : go Conn unit := modify (set_deadline d).

(** [io.ReadFull]: read until [need] bytes are there; an end of stream in the middle is
    [io.ErrUnexpectedEOF].  One segment is consumed per turn, so one turn more than
    there are segments is enough fuel ([ReadFull_spec] below). *)
Fixpoint ReadFull_loop (fuel : nat) (need : nat) (acc : bytes) : go Conn bytes :=
  match need, fuel with
  | 0, _ => mret acc
  | _, 0 => throw EOF
  | _, S fuel =>
      r ← try (Read need);
      match r with
      | inl b => ReadFull_loop fuel (need - length b) (acc ++ b)
      | inr e => throw (if decide (e = EOF ∧ acc ≠ []) then ErrUnexpectedEOF else e)
      end
  end.

Definition ReadFull (n : nat) : go Conn bytes := λ c,
  ReadFull_loop (S (length (rd_segs c))) n [] c.

(** ** Framing *)
Module Framing.

(** [writeMessage]: a 4-byte little-endian length, then the bytes.  [now] is the clock
    [time.Now] reads. *)
Definition write_header (buf : bytes) : go Conn unit :=
  Write (put_uint32_le (uint32_of (Z.of_nat (length buf)))).

Definition writeMessage (now : Z) (buf : bytes) (writeTimeout : Z) : go Conn unit :=
  (if decide (0 < writeTimeout)%Z
   then SetWriteDeadline (Some (now + writeTimeout)%Z) else mret tt);;
  write_header buf;;
  Write buf;;
  (if decide (0 < writeTimeout)%Z then SetWriteDeadline None else mret tt).

Definition errMsgSize (size max : Z) : error :=
  ErrText ("invalid message size " +:+ pretty size +:+
           ", should be no greater than " +:+ pretty max).

(** [readMessage]: the length, checked against the limit, then that many bytes. *)
Definition readMessage (maxMsgSize : Z) : go Conn bytes :=
  msgSizeBuf ← ReadFull 4;
  let msgSize := uint32_le msgSizeBuf in
  if decide (maxMsgSize < msgSize)%Z then throw (errMsgSize msgSize maxMsgSize)
  else ReadFull (Z.to_nat msgSize).

(** *** The byte stream behind the segments *)

Definition stream (c : Conn) : bytes := concat (rd_segs c).

(** Two connections that differ only in how the incoming bytes are cut into segments. *)
Definition same_stream (c d : Conn) : Prop :=
  stream c = stream d ∧ set_rd [] c = set_rd [] d.

#[global] Instance conn_equiv : Equiv Conn := same_stream.

#[global] Instance same_stream_equiv : Equivalence (≡@{Conn}).
Proof.
  split.
  - by intros c.
  - intros c d [??]. by split.
  - intros c d e [??] [??]. split; by etrans.
Qed.

(** The connection after [n] bytes of its stream were taken. *)
Definition advance (n : nat) (c : Conn) : Conn := set_rd [drop n (stream c)] c.

Lemma stream_set_rd segs c : stream (set_rd segs c) = concat segs.
Proof. done. Qed.

(** The error of a [ReadFull] that wants more bytes than will come. *)
Definition short_error (c : Conn) : error :=
  if decide (stream c ≠ [] ∧ rd_end c = EOF) then ErrUnexpectedEOF else rd_end c.

(** [Read] hands over a prefix of the stream and keeps the rest. *)
Lemma Read_spec n c :
  conn_closed c = false →
  (rd_segs c = [] ∧ Read n c = (Err (rd_end c), c)) ∨
  ∃ b segs, Read n c = (Ok b, set_rd segs c) ∧ stream c = b ++ concat segs ∧
    length b ≤ n ∧ (length b = n ∨ length segs < length (rd_segs c)).
Proof.
  intros Hc. unfold Read, stream. rewrite Hc.
  destruct (rd_segs c) as [|seg segs]; [by left |]. right. case_decide.
  - exists (take n seg), (drop n seg :: segs). simpl. rewrite length_take, app_assoc, take_drop.
    split_and!; [done.. | lia | lia].
  - exists seg, segs. simpl. split_and!; [done.. | lia | lia].
Qed.

Lemma set_rd_idemp segs segs' c : set_rd segs (set_rd segs' c) = set_rd segs c.
Proof. done. Qed.

Lemma set_rd_eta c : set_rd (rd_segs c) c = c.
Proof. by destruct c. Qed.

Lemma ReadFull_loop_spec fuel need acc c :
  conn_closed c = false → length (rd_segs c) < fuel →
  (need ≤ length (stream c) →
    ∃ segs, ReadFull_loop fuel need acc c = (Ok (acc ++ take need (stream c)), set_rd segs c) ∧
      concat segs = drop need (stream c)) ∧
  (length (stream c) < need →
    ReadFull_loop fuel need acc c =
      (Err (if decide (rd_end c = EOF ∧ acc ++ stream c ≠ []) then ErrUnexpectedEOF else rd_end c),
       set_rd [] c)).
Proof.
  revert need acc c. induction fuel as [|fuel IH]; intros [|need] acc c Hc Hf; try lia; simpl.
  { split; [| lia]. intros _. exists (rd_segs c). by rewrite take_0, app_nil_r, set_rd_eta. }
  go_unfold. destruct (Read_spec (S need) c Hc) as [[Hs ->]|(b & segs & -> & Hst & Hb & Hl)].
  { unfold stream. rewrite Hs. simpl. split; [lia |]. intros _. rewrite app_nil_r.
    f_equal. by rewrite <- (set_rd_eta c) at 1; rewrite Hs. }
  destruct (decide (length b = S need)) as [Hn|Hn].
  - rewrite Hst, Hn, Nat.sub_diag. rewrite length_app. split; [intros _ | lia].
    exists segs. rewrite take_app_exact, drop_app_exact by lia. by destruct fuel.
  - destruct (IH (S need - length b) (acc ++ b) (set_rd segs c)) as [H1 H2]; [done | simpl; lia |].
    rewrite stream_set_rd in H1, H2. rewrite Hst, length_app, (assoc_L (++)).
    split; intros Hlen.
    + destruct H1 as (segs' & -> & Hd); [lia |]. exists segs'.
      rewrite take_app_ge, drop_app_ge by lia. by rewrite (assoc_L (++)).
    + by rewrite H2 by lia.
Qed.

(** [io.ReadFull] on the stream, whatever the segments: the bytes, or the error. *)
Lemma ReadFull_ok n c :
  conn_closed c = false → n ≤ length (stream c) →
  ∃ segs, ReadFull n c = (Ok (take n (stream c)), set_rd segs c) ∧ concat segs = drop n (stream c).
Proof. intros Hc Hn. apply (ReadFull_loop_spec (S (length (rd_segs c))) n [] c); auto with lia. Qed.

Lemma ReadFull_short n c :
  conn_closed c = false → length (stream c) < n →
  ReadFull n c = (Err (short_error c), set_rd [] c).
Proof.
  intros Hc Hn. unfold ReadFull.
  rewrite (proj2 (ReadFull_loop_spec (S (length (rd_segs c))) n [] c Hc ltac:(lia)) Hn). simpl.
  do 2 f_equal. unfold short_error. apply decide_ext. tauto.
Qed.

Lemma ReadFull_closed n c :
  conn_closed c = true → n ≠ 0 → ReadFull n c = (Err NetErrClosed, c).
Proof. intros Hc Hn. unfold ReadFull. destruct n; [done |]. simpl. go_unfold. unfold Read. by rewrite Hc. Qed.

(** *** Round trip *)

(** The bytes [writeMessage] puts on the wire for one message. *)
Definition frame (buf : bytes) : bytes :=
  put_uint32_le (uint32_of (Z.of_nat (length buf))) ++ buf.

#[global] Arguments frame : simpl never.

Lemma length_put v : length (put_uint32_le v) = 4.
Proof. done. Qed.

Lemma take_put v k : take 4 (put_uint32_le v ++ k) = put_uint32_le v.
Proof. by apply take_app_exact. Qed.

Lemma drop_put v k : drop 4 (put_uint32_le v ++ k) = k.
Proof. by apply drop_app_exact. Qed.

Lemma uint32_of_idemp z : uint32_of (uint32_of z) = uint32_of z.
Proof. apply uint32_of_small, uint32_of_range. Qed.

(** Reading a message whose declared size is allowed and whose bytes are there. *)
Lemma readMessage_ok maxMsgSize c v body rest :
  conn_closed c = false → stream c = put_uint32_le v ++ body ++ rest →
  Z.of_nat (length body) = uint32_of v → (uint32_of v ≤ maxMsgSize)%Z →
  ∃ segs, readMessage maxMsgSize c = (Ok body, set_rd segs c) ∧ concat segs = rest.
Proof.
  intros Hc Hs Hlen Hmax. unfold readMessage.
  destruct (ReadFull_ok 4 c Hc) as (segs & H1 & H2); [rewrite Hs, length_app, length_put; lia |].
  rewrite (go_bind_ok _ _ _ _ _ H1), Hs, take_put, uint32_le_put.
  rewrite Hs, drop_put in H2. rewrite decide_False by lia.
  destruct (ReadFull_ok (Z.to_nat (uint32_of v)) (set_rd segs c)) as (segs' & H3 & H4).
  { done. } { rewrite stream_set_rd, H2, length_app. lia. }
  rewrite stream_set_rd, H2 in H3, H4. rewrite take_app_exact in H3 by lia.
  rewrite drop_app_exact in H4 by lia. eauto.
Qed.

(** A message longer than the limit of the reader is refused with the size error
    after its 4-byte header: nothing of the body is consumed. *)
Theorem readMessage_oversized maxMsgSize c v rest :
  conn_closed c = false → stream c = put_uint32_le v ++ rest →
  (maxMsgSize < uint32_of v)%Z →
  ∃ c', readMessage maxMsgSize c = (Err (errMsgSize (uint32_of v) maxMsgSize), c') ∧
    stream c' = rest ∧ wr_out c' = wr_out c ∧ conn_closed c' = false.
Proof.
  intros Hc Hs Hmax. unfold readMessage.
  destruct (ReadFull_ok 4 c Hc) as (segs & H1 & H2); [rewrite Hs, length_app, length_put; lia |].
  rewrite (go_bind_ok _ _ _ _ _ H1), Hs, take_put, uint32_le_put.
  rewrite Hs, drop_put in H2. rewrite decide_True by lia. by eexists.
Qed.

(** A stream that ends inside a frame makes [readMessage] fail: with the end
    error itself when not even the first byte came ([io.EOF], the sign of an orderly
    end that [handleConn] tests for), otherwise with [io.ErrUnexpectedEOF]. *)
Theorem readMessage_truncated maxMsgSize c buf k :
  conn_closed c = false → rd_end c = EOF →
  stream c = take k (frame buf) → k < length (frame buf) →
  (Z.of_nat (length buf) ≤ maxMsgSize < 2 ^ 32)%Z →
  ∃ c', readMessage maxMsgSize c =
    (Err (if decide (k = 0 ∨ k = 4) then EOF else ErrUnexpectedEOF), c') ∧ stream c' = [].
Proof.
  intros Hc He Hs Hk Hmax. unfold readMessage.
  assert (length (stream c) = k) as Hlen by (rewrite Hs, length_take; lia).
  destruct (decide (k < 4)) as [Hk4|Hk4].
  - exists (set_rd [] c). erewrite go_bind_err by (apply ReadFull_short; [done | lia]).
    split; [| done]. do 2 f_equal. unfold short_error. rewrite He.
    destruct (stream c) as [|x l]; simpl in Hlen; subst k.
    + by rewrite decide_False, decide_True by naive_solver.
    + rewrite decide_True, decide_False by naive_solver lia. done.
  - destruct (ReadFull_ok 4 c Hc) as (segs & H1 & H2); [lia |].
    rewrite (go_bind_ok _ _ _ _ _ H1), Hs. rewrite Hs in H2.
    rewrite take_take, Nat.min_l by lia. unfold frame in *.
    rewrite take_put, uint32_le_put, uint32_of_idemp, uint32_of_small by lia.
    rewrite decide_False by lia. rewrite Nat2Z.id.
    exists (set_rd [] c). rewrite length_app, length_put in Hk.
    rewrite ReadFull_short; [| done | rewrite stream_set_rd, H2, length_drop, length_take, length_app, length_put; lia].
    split; [| done]. do 2 f_equal. unfold short_error. rewrite stream_set_rd, H2. simpl. rewrite He.
    assert (length (drop 4 (take k (put_uint32_le (uint32_of (Z.of_nat (length buf))) ++ buf))) = k - 4)
      as Hd by (rewrite length_drop, length_take, length_app, length_put; lia).
    destruct (drop 4 _) as [|x l]; simpl in Hd.
    + rewrite decide_False, decide_True by naive_solver lia. done.
    + rewrite decide_True, decide_False by naive_solver lia. done.
Qed.

(** *** Segmentation does not matter *)

Lemma equiv_fields c d :
  c ≡ d → stream c = stream d ∧ rd_end c = rd_end d ∧ conn_closed c = conn_closed d.
Proof. destruct c, d. by intros [? [= -> -> -> -> -> -> ->]]. Qed.

Lemma set_rd_equiv segs segs' c d :
  c ≡ d → concat segs = concat segs' → set_rd segs c ≡ set_rd segs' d.
Proof. intros [_ H] ?. split; [done |]. by rewrite !set_rd_idemp. Qed.

#[global] Instance ReadFull_proper n :
  Proper ((≡) ==> prod_relation (=) (≡)) (ReadFull n).
Proof.
  intros c d Hcd. destruct (equiv_fields _ _ Hcd) as (Hs & He & Hc).
  destruct (decide (n = 0)) as [->|Hn]; [done |].
  destruct (conn_closed d) eqn:Hd.
  { by rewrite !ReadFull_closed. }
  destruct (decide (n ≤ length (stream d))) as [Hl|Hl].
  - destruct (ReadFull_ok n d) as (s1 & -> & H1); [done.. |].
    destruct (ReadFull_ok n c) as (s2 & -> & H2); [done | by rewrite Hs |].
    rewrite Hs. split; [done |]. apply set_rd_equiv; congruence.
  - rewrite !ReadFull_short by (done || (rewrite ?Hs; lia)).
    split; [| by apply set_rd_equiv]. unfold short_error. by rewrite Hs, He.
Qed.

(** [readMessage] sees a byte stream: on two connections that deliver the same
    bytes cut into segments differently it returns the same message or the same error
    and leaves the same bytes to read. *)
Theorem readMessage_segmentation maxMsgSize c d :
  c ≡ d → prod_relation (=) (≡) (readMessage maxMsgSize c) (readMessage maxMsgSize d).
Proof.
  intros Hcd. unfold readMessage, mbind, go_bind.
  pose proof (ReadFull_proper 4 c d Hcd) as [H1 H2].
  destruct (ReadFull 4 c) as [[] c1], (ReadFull 4 d) as [[] d1]; simplify_eq/=; try done.
  case_decide; [done |]. by apply ReadFull_proper.
Qed.

(** *** Writing *)

Lemma Write_ok b c :
  conn_closed c = false → wr_room c = None →
  Write b c = (Ok tt, set_wr (wr_out c ++ b) None c).
Proof. intros H1 H2. unfold Write. by rewrite H1, H2. Qed.

(** A connection that takes every write. *)
Definition writable (c : Conn) : Prop := conn_closed c = false ∧ wr_room c = None.

Lemma writeMessage_ok now buf writeTimeout c :
  writable c →
  ∃ c', writeMessage now buf writeTimeout c = (Ok tt, c') ∧ writable c' ∧
    wr_out c' = wr_out c ++ frame buf ∧
    wr_deadline c' = (if decide (0 < writeTimeout)%Z then None else wr_deadline c) ∧
    rd_segs c' = rd_segs c.
Proof.
  intros [H1 H2]. unfold writeMessage, write_header, frame. rewrite (assoc_L (++)).
  unfold SetWriteDeadline.
  case_decide; go_unfold; do 2 (rewrite Write_ok by done; cbn beta iota);
    eexists; by repeat split.
Qed.

(** Several messages one after the other, and reading [n] of them. *)
Fixpoint writeAll (now : Z) (msgs : list bytes) (writeTimeout : Z) : go Conn unit :=
  match msgs with
  | [] => mret tt
  | m :: msgs => writeMessage now m writeTimeout;; writeAll now msgs writeTimeout
  end.

Fixpoint readAll (n : nat) (maxMsgSize : Z) : go Conn (list bytes) :=
  match n with
  | 0 => mret []
  | S n => m ← readMessage maxMsgSize; ms ← readAll n maxMsgSize; mret (m :: ms)
  end.

Lemma writeAll_ok now msgs writeTimeout c :
  writable c →
  ∃ c', writeAll now msgs writeTimeout c = (Ok tt, c') ∧ writable c' ∧
    wr_out c' = wr_out c ++ concat (frame <$> msgs).
Proof.
  revert c. induction msgs as [|m msgs IH]; intros c Hc; [| rewrite fmap_cons; cbn [writeAll concat]].
  { exists c. cbn. by rewrite app_nil_r. }
  destruct (writeMessage_ok now m writeTimeout c Hc) as (c1 & H1 & Hc1 & Ho & _).
  rewrite (go_bind_ok _ _ _ _ _ H1). destruct (IH c1 Hc1) as (c2 & -> & ? & Ho2).
  exists c2. split_and!; [done.. |]. rewrite Ho2, Ho. symmetry. apply (assoc_L (++)).
Qed.

Lemma readAll_frames maxMsgSize msgs rest c :
  (maxMsgSize < 2 ^ 32)%Z → conn_closed c = false →
  Forall (λ m, Z.of_nat (length m) ≤ maxMsgSize)%Z msgs →
  stream c = concat (frame <$> msgs) ++ rest →
  ∃ c', readAll (length msgs) maxMsgSize c = (Ok msgs, c') ∧ stream c' = rest.
Proof.
  intros Hmax Hc Hms. revert c Hc. induction Hms as [|m msgs Hm _ IH]; intros c Hc Hs.
  { by exists c. }
  cbn [readAll length].
  change (concat _) with (frame m ++ concat (frame <$> msgs)) in Hs.
  unfold frame in Hs at 1. rewrite <- !(assoc_L (++)) in Hs.
  destruct (readMessage_ok maxMsgSize c _ _ _ Hc Hs) as (segs & H1 & H2);
    rewrite ?uint32_of_idemp, ?uint32_of_small by lia; [done.. |].
  rewrite (go_bind_ok _ _ _ _ _ H1).
  destruct (IH (set_rd segs c)) as (c' & H3 & H4); [done | by rewrite stream_set_rd, H2 |].
  rewrite (go_bind_ok _ _ _ _ _ H3). by exists c'.
Qed.

(** C7: framing round trip.  Whatever messages are written one after the other with
    [writeMessage], a peer that receives those bytes, in any segmentation and with any
    bytes behind them, reads exactly these messages back in order, provided each is
    within the limit the peer reads with. *)
Theorem frames_round_trip now msgs writeTimeout maxMsgSize a :
  writable a → wr_out a = [] →
  Forall (λ m, Z.of_nat (length m) ≤ maxMsgSize)%Z msgs → (maxMsgSize < 2 ^ 32)%Z →
  ∃ a', writeAll now msgs writeTimeout a = (Ok tt, a') ∧
    ∀ b rest, conn_closed b = false → stream b = wr_out a' ++ rest →
      ∃ b', readAll (length msgs) maxMsgSize b = (Ok msgs, b') ∧ stream b' = rest.
Proof.
  intros Ha Ho Hms Hmax.
  destruct (writeAll_ok now msgs writeTimeout a Ha) as (a' & H1 & _ & H2).
  exists a'. split; [done |]. intros b rest Hb Hs. apply readAll_frames; try done.
  by rewrite Hs, H2, Ho.
Qed.

End Framing.

(** ** Goroutines that share a connection

    [ncp] sends from several goroutines, so several [writeMessage] calls meet on one
    connection; [WriteLock] is held over the two writes of each.  A step is one action
    of one goroutine; closing the connection can happen at any time. *)
Module Writers.
Import Framing.

Inductive wpc := WWaiting | WLocked | WHeader | WDone | WFailed.

Record wstate := mkW {
  w_conn : Conn;
  w_lock : option nat;                  (* the goroutine that holds WriteLock *)
  w_thr : gmap nat (bytes * wpc);       (* each call: its message and where it is *)
  w_log : list (nat * bytes)            (* the calls that returned nil, in order *)
}.

Inductive wstep : wstate → wstate → Prop :=
  | ws_call c l t g i m : t !! i = None →
      wstep (mkW c l t g) (mkW c l (<[i := (m, WWaiting)]> t) g)
  | ws_lock c t g i m : t !! i = Some (m, WWaiting) →
      wstep (mkW c None t g) (mkW c (Some i) (<[i := (m, WLocked)]> t) g)
  | ws_header c c' l t g i m : t !! i = Some (m, WLocked) →
      write_header m c = (Ok tt, c') →
      wstep (mkW c l t g) (mkW c' l (<[i := (m, WHeader)]> t) g)
  | ws_header_err c c' l t g i m e : t !! i = Some (m, WLocked) →
      write_header m c = (Err e, c') →
      wstep (mkW c l t g) (mkW c' None (<[i := (m, WFailed)]> t) g)
  | ws_body c c' l t g i m : t !! i = Some (m, WHeader) →
      Write m c = (Ok tt, c') →
      wstep (mkW c l t g) (mkW c' None (<[i := (m, WDone)]> t) (g ++ [(i, m)]))
  | ws_body_err c c' l t g i m e : t !! i = Some (m, WHeader) →
      Write m c = (Err e, c') →
      wstep (mkW c l t g) (mkW c' None (<[i := (m, WFailed)]> t) g)
  | ws_close c l t g :
      wstep (mkW c l t g) (mkW (close_conn c) l t g).

(** A connection that takes no more bytes. *)
Definition dead (c : Conn) : Prop := conn_closed c = true ∨ wr_room c = Some 0.

Definition holds_lock (p : wpc) : Prop := p = WLocked ∨ p = WHeader.

(** The goroutines between their two writes, and the bytes after the last whole frame. *)
Definition tail_ok (s : wstate) (tail : bytes) : Prop :=
  (∃ i m, w_thr s !! i = Some (m, WHeader) ∧
     tail = put_uint32_le (uint32_of (Z.of_nat (length m)))) ∨
  ((∀ i m, w_thr s !! i ≠ Some (m, WHeader)) ∧
   (tail = [] ∨ dead (w_conn s) ∧
      ∃ i m, w_thr s !! i = Some (m, WFailed) ∧ tail `prefix_of` frame m)).

Record winv (s : wstate) : Prop := {
  winv_lock : ∀ i m p, w_thr s !! i = Some (m, p) → holds_lock p → w_lock s = Some i;
  winv_log : ∀ i m, (i, m) ∈ w_log s ↔ w_thr s !! i = Some (m, WDone);
  winv_nodup : NoDup (w_log s).*1;
  winv_out : ∃ tail, wr_out (w_conn s) = concat (frame ∘ snd <$> w_log s) ++ tail ∧ tail_ok s tail
}.

Lemma Write_result b c r c' :
  Write b c = (r, c') →
  (r = Ok tt ∧ wr_out c' = wr_out c ++ b ∧ conn_closed c = false ∧
     (∀ k, wr_room c = Some k → length b ≤ k) ∧ (dead c → b = [] ∧ dead c')) ∨
  (∃ e k, r = Err e ∧ wr_out c' = wr_out c ++ take k b ∧ dead c').
Proof.
  unfold Write, dead. intros H. destruct (conn_closed c) eqn:Hc; simplify_eq.
  { right. exists NetErrClosed, 0. rewrite take_0, app_nil_r. auto. }
  destruct (wr_room c) as [k|] eqn:Hk; [case_decide |]; simplify_eq/=.
  - left. split_and!; try done; [by intros ? [= <-] |]. intros [|[= ->]]; [done |].
    destruct b; simpl in *; [auto | lia].
  - right. eauto 10.
  - left. split_and!; try done; intros; destruct_or?; congruence.
Qed.

(** After a failure the header of the next message cannot get through. *)
Lemma header_dead m c r c' :
  dead c → write_header m c = (r, c') → (∃ e, r = Err e) ∧ wr_out c' = wr_out c ∧ dead c'.
Proof.
  unfold write_header, Write, dead. intros Hd H.
  destruct (conn_closed c) eqn:Hc; simplify_eq; [eauto |].
  destruct Hd as [?|Hk]; [congruence |]. rewrite Hk in H. rewrite decide_False in H by (rewrite length_put; lia).
  simplify_eq/=. rewrite app_nil_r. eauto.
Qed.

Lemma winv_start c : wr_out c = [] → winv (mkW c None ∅ []).
Proof.
  intros Hc. split; simpl.
  - intros i m p H. by rewrite lookup_empty in H.
  - intros i m. rewrite lookup_empty. split; [by intros ?%not_elem_of_nil | done].
  - constructor.
  - exists []. split; [done |]. right. split; [| by left]. intros i m H. simpl in H. by rewrite lookup_empty in H.
Qed.

(** Replacing the entry of a goroutine that is not done keeps the log. *)
Lemma log_update (t : gmap nat (bytes * wpc)) (g : list (nat * bytes)) i m p :
  (∀ j n, (j, n) ∈ g ↔ t !! j = Some (n, WDone)) →
  (∀ n, t !! i ≠ Some (n, WDone)) → p ≠ WDone →
  ∀ j n, (j, n) ∈ g ↔ <[i := (m, p)]> t !! j = Some (n, WDone).
Proof.
  intros Hg Hi Hp j n. rewrite Hg. destruct (decide (i = j)) as [->|].
  - rewrite lookup_insert_eq. split; [intros H; by destruct (Hi n) | congruence].
  - by rewrite lookup_insert_ne.
Qed.

(** The lock fact after goroutine [i] moved to a place where it holds the lock iff the
    lock is now its own. *)
Lemma lock_update (t : gmap nat (bytes * wpc)) (l l' : option nat) i m p :
  (∀ j n q, t !! j = Some (n, q) → holds_lock q → l = Some j) →
  (holds_lock p → l' = Some i) →
  (∀ j, j ≠ i → l = Some j → l' = Some j) →
  ∀ j n q, <[i := (m, p)]> t !! j = Some (n, q) → holds_lock q → l' = Some j.
Proof.
  intros Ht Hp Hl j n q. destruct (decide (i = j)) as [->|].
  - rewrite lookup_insert_eq. intros [= <- <-]. auto.
  - rewrite lookup_insert_ne by done. eauto.
Qed.

(** While [i] holds the lock nobody else is between its two writes. *)
Lemma no_header (t : gmap nat (bytes * wpc)) l i m p :
  (∀ j n q, t !! j = Some (n, q) → holds_lock q → l = Some j) →
  (l = None ∨ l = Some i) → p ≠ WHeader →
  ∀ j n, <[i := (m, p)]> t !! j ≠ Some (n, WHeader).
Proof.
  intros Ht Hl Hp j n H. destruct (decide (i = j)) as [->|].
  - rewrite lookup_insert_eq in H. congruence.
  - rewrite lookup_insert_ne in H by done. apply Ht in H; [| by right]. naive_solver.
Qed.

(** Steps of one goroutine that leave the tail as it was. *)
Lemma tail_keep s s' i m p tail :
  w_thr s' = <[i := (m, p)]> (w_thr s) → (dead (w_conn s) → dead (w_conn s')) →
  p ≠ WHeader → (∀ n, w_thr s !! i ≠ Some (n, WHeader)) →
  (∀ n, w_thr s !! i = Some (n, WFailed) → False) →
  tail_ok s tail → tail_ok s' tail.
Proof.
  intros Ht Hd Hp Hi Hf. unfold tail_ok. rewrite Ht.
  intros [(j & n & Hj & ->)|[Hn Htl]].
  - left. exists j, n. split; [| done]. rewrite lookup_insert_ne; [done |]. intros <-. by eapply Hi.
  - right. split.
    + intros j n. destruct (decide (i = j)) as [->|].
      * rewrite lookup_insert_eq. congruence.
      * by rewrite lookup_insert_ne.
    + destruct Htl as [->|(? & j & n & Hj & ?)]; [by left | right]. split; [auto |].
      exists j, n. split; [| done]. rewrite lookup_insert_ne; [done |]. intros <-. by eapply Hf.
Qed.

(** The tail seen by the holder of the lock. *)
Lemma tail_at_lock c l t g i m tail :
  winv (mkW c l t g) → t !! i = Some (m, WLocked) → tail_ok (mkW c l t g) tail →
  (tail = [] ∨ dead c ∧ ∃ j n, t !! j = Some (n, WFailed) ∧ tail `prefix_of` frame n).
Proof.
  intros [Hl _ _ _] Hi [(j & n & Hj & _)|[_ ?]]; [| done]. simpl in *.
  pose proof (Hl _ _ _ Hi (or_introl eq_refl)). pose proof (Hl _ _ _ Hj (or_intror eq_refl)).
  simplify_eq.
Qed.

Lemma tail_at_header c l t g i m tail :
  winv (mkW c l t g) → t !! i = Some (m, WHeader) → tail_ok (mkW c l t g) tail →
  tail = put_uint32_le (uint32_of (Z.of_nat (length m))).
Proof.
  intros [Hl _ _ _] Hi [(j & n & Hj & ->)|[Hn _]]; simpl in *; [| by destruct (Hn i m)].
  pose proof (Hl _ _ _ Hi (or_intror eq_refl)). pose proof (Hl _ _ _ Hj (or_intror eq_refl)).
  simplify_eq. done.
Qed.

Lemma winv_header c c' l t g i m :
  winv (mkW c l t g) → t !! i = Some (m, WLocked) → write_header m c = (Ok tt, c') →
  winv (mkW c' l (<[i := (m, WHeader)]> t) g).
Proof.
  intros Hw Hi HW. destruct (Hw) as [Hl Hg Hn (tail & Ho & Ht)]. simpl in *.
  pose proof (Hl _ _ _ Hi (or_introl eq_refl)) as ->.
  assert (tail = []) as ->.
  { destruct (tail_at_lock _ _ _ _ _ _ _ Hw Hi Ht) as [|[Hd _]]; [done |].
    by destruct (header_dead _ _ _ _ Hd HW) as [[? ?] _]. }
  apply Write_result in HW as [(_ & Ho' & _)|(? & ? & ? & _)]; [| done].
  split; simpl; [by eapply lock_update | by apply log_update; [| congruence |] | done |].
  exists (put_uint32_le (uint32_of (Z.of_nat (length m)))). rewrite Ho', Ho, app_nil_r.
  split; [done |]. left. exists i, m. simpl. by rewrite lookup_insert_eq.
Qed.

Lemma winv_header_err c c' l t g i m e :
  winv (mkW c l t g) → t !! i = Some (m, WLocked) → write_header m c = (Err e, c') →
  winv (mkW c' None (<[i := (m, WFailed)]> t) g).
Proof.
  intros Hw Hi HW. destruct (Hw) as [Hl Hg Hn (tail & Ho & Ht)]. simpl in *.
  pose proof (Hl _ _ _ Hi (or_introl eq_refl)) as ->.
  split; simpl; [| by apply log_update; [| congruence |] | done |].
  { eapply lock_update; [done | by intros [|] | intros; simplify_eq]. }
  assert (∀ j n, <[i := (m, WFailed)]> t !! j ≠ Some (n, WHeader)) by (eapply no_header; eauto).
  destruct (tail_at_lock _ _ _ _ _ _ _ Hw Hi Ht) as [->|(Hd & j & n & Hj & Hp)].
  - apply Write_result in HW as [(? & _)|(e' & k & _ & Ho' & Hd)]; [done |].
    exists (take k (put_uint32_le (uint32_of (Z.of_nat (length m))))).
    rewrite Ho', Ho, app_nil_r. split; [done |]. right. split; [done | right]. split; [done |].
    exists i, m. cbn [w_thr]. rewrite lookup_insert_eq. split; [done |].
    etrans; [apply prefix_take | by apply prefix_app_r].
  - destruct (header_dead _ _ _ _ Hd HW) as (_ & Ho' & Hd'). exists tail. rewrite Ho'.
    split; [done |]. right. split; [done | right]. split; [done |]. exists j, n.
    simpl. rewrite lookup_insert_ne by congruence. done.
Qed.

Lemma winv_body c c' l t g i m :
  winv (mkW c l t g) → t !! i = Some (m, WHeader) → Write m c = (Ok tt, c') →
  winv (mkW c' None (<[i := (m, WDone)]> t) (g ++ [(i, m)])).
Proof.
  intros Hw Hi HW. destruct (Hw) as [Hl Hg Hn (tail & Ho & Ht)]. simpl in *.
  pose proof (Hl _ _ _ Hi (or_intror eq_refl)) as ->.
  apply (tail_at_header _ _ _ _ _ _ _ Hw Hi) in Ht as ->.
  apply Write_result in HW as [(_ & Ho' & _)|(? & ? & ? & _)]; [| done].
  assert (∀ n, (i, n) ∉ g) as Hfresh by (intros n [=]%Hg; congruence).
  split; simpl.
  - eapply lock_update; [done | by intros [|] | intros; simplify_eq].
  - intros j n. rewrite elem_of_app, list_elem_of_singleton, Hg.
    destruct (decide (i = j)) as [->|]; [rewrite lookup_insert_eq | rewrite lookup_insert_ne by done];
      naive_solver.
  - rewrite fmap_app. apply NoDup_app. split_and!; [done | | apply NoDup_singleton].
    intros j ([j' n] & Hjn & Hj)%list_elem_of_fmap Hs%list_elem_of_singleton.
    simplify_eq/=. by eapply Hfresh.
  - exists []. split; [| right; split; [eapply no_header; eauto | by left]].
    rewrite Ho', Ho, fmap_app, concat_app, app_nil_r. cbn. unfold frame.
    by rewrite app_nil_r, !(assoc_L (++)).
Qed.

Lemma winv_body_err c c' l t g i m e :
  winv (mkW c l t g) → t !! i = Some (m, WHeader) → Write m c = (Err e, c') →
  winv (mkW c' None (<[i := (m, WFailed)]> t) g).
Proof.
  intros Hw Hi HW. destruct (Hw) as [Hl Hg Hn (tail & Ho & Ht)]. simpl in *.
  pose proof (Hl _ _ _ Hi (or_intror eq_refl)) as ->.
  apply (tail_at_header _ _ _ _ _ _ _ Hw Hi) in Ht as ->.
  apply Write_result in HW as [(? & _)|(e' & k & _ & Ho' & Hd)]; [done |].
  split; simpl; [| by apply log_update; [| congruence |] | done |].
  { eapply lock_update; [done | by intros [|] | intros; simplify_eq]. }
  eexists. rewrite Ho', Ho, <- (assoc_L (++)). split; [done |].
  right. split; [eapply no_header; eauto | right]. split; [done |].
  exists i, m. cbn [w_thr]. rewrite lookup_insert_eq. split; [done |].
  unfold frame. apply prefix_app, prefix_take.
Qed.

Lemma winv_step s s' : winv s → wstep s s' → winv s'.
Proof.
  intros Hw Hs. destruct Hs as [c l t g i m Hi|c t g i m Hi| | | | |];
    eauto using winv_header, winv_header_err, winv_body, winv_body_err;
    destruct Hw as [Hl Hg Hn (tail & Ho & Ht)]; simpl in *.
  - split; simpl; [eapply lock_update; [done | by intros [|] | done]
                  | by apply log_update; [| congruence |] | done |].
    exists tail. split; [done |]. by eapply (tail_keep (mkW c l t g) _ i m); simpl; try congruence.
  - split; simpl; [by eapply lock_update | by apply log_update; [| congruence |] | done |].
    exists tail. split; [done |]. by eapply (tail_keep (mkW c None t g) _ i m); simpl; try congruence.
  - split; simpl; [done.. |]. exists tail. split; [done |].
    destruct Ht as [?|[? [?|[_ ?]]]]; [by left | right; by auto | right].
    split; [done | right]. split; [by left | done].
Qed.


End Writers.

(** ** Concrete runs *)
Module MessageRuns.
Import Framing Writers.

(** An open connection on which [segs] arrive before the end of the stream. *)
Definition conn_demo (segs : list bytes) : Conn :=
  mkConn segs EOF [] None (ErrExt 32) None false "127.0.0.1:30020".

Definition hello : bytes := string_bytes "hello".
Definition bye : bytes := string_bytes "bye".

Lemma readMessage_oversized_witness :
  ∃ c', readMessage 4 (conn_demo [frame hello]) = (Err (errMsgSize (uint32_of 5) 4), c') ∧
    stream c' = hello ∧ wr_out c' = [] ∧ conn_closed c' = false.
Proof.
  apply (readMessage_oversized 4 (conn_demo [frame hello]) 5 hello);
    [reflexivity | reflexivity | vm_compute; reflexivity].
Defined.

Lemma readMessage_truncated_witness :
  ∃ c', readMessage 512 (conn_demo [take 6 (frame hello)]) =
    (Err (if decide (6 = 0 ∨ 6 = 4) then EOF else ErrUnexpectedEOF), c') ∧ stream c' = [].
Proof.
  apply (readMessage_truncated 512 (conn_demo [take 6 (frame hello)]) hello 6);
    [reflexivity.. | vm_compute; lia | vm_compute; split; congruence].
Defined.

Lemma readMessage_segmentation_witness :
  prod_relation (=) (≡)
    (readMessage 512 (conn_demo [take 2 (frame hello); drop 2 (frame hello)]))
    (readMessage 512 (conn_demo [frame hello])).
Proof.
  apply readMessage_segmentation. split; reflexivity.
Defined.

Lemma frames_round_trip_witness :
  ∃ a', writeAll 0 [hello; []; bye] 1000 (conn_demo []) = (Ok tt, a') ∧
    ∀ b rest, conn_closed b = false → stream b = wr_out a' ++ rest →
      ∃ b', readAll 3 512 b = (Ok [hello; []; bye], b') ∧ stream b' = rest.
Proof.
  apply (frames_round_trip 0 [hello; []; bye] 1000 512 (conn_demo []));
    [by split | done | | lia].
  repeat constructor; vm_compute; congruence.
Defined.

(** Two calls: the second gets the lock first and returns, the first is between its
    header and its body. *)
Definition writers_demo : wstate :=
  mkW (set_wr (frame bye ++ put_uint32_le 5) None (conn_demo [])) (Some 0)
    {[ 0 := (hello, WHeader); 1 := (bye, WDone) ]} [(1, bye)].

Lemma writers_demo_run : rtc wstep (mkW (conn_demo []) None ∅ []) writers_demo.
Proof.
  eapply rtc_l; [apply (ws_call _ _ _ _ 0 hello); reflexivity |].
  eapply rtc_l; [apply (ws_call _ _ _ _ 1 bye); reflexivity |].
  eapply rtc_l; [apply (ws_lock _ _ _ 1 bye); reflexivity |].
  eapply rtc_l; [eapply (ws_header _ _ _ _ _ 1 bye); reflexivity |].
  eapply rtc_l; [eapply (ws_body _ _ _ _ _ 1 bye); reflexivity |].
  eapply rtc_l; [apply (ws_lock _ _ _ 0 hello); reflexivity |].
  eapply rtc_l; [eapply (ws_header _ _ _ _ _ 0 hello); reflexivity |].
  apply reflexive_eq. reflexivity.
Qed.


End MessageRuns.
