(* ===== verification/Crypto.v ===== *)
(** * The encryption of message.go and client.go

    [getOrComputeSharedKey], [encrypt], [decrypt] (message.go) and [encode], [decode]
    (client.go).  The ciphers themselves are library code: [BoxOps] lists the functions
    the package calls and [BoxLaws] what their documentation promises. *)

From stdpp Require Import base gmap strings list numbers tactics pretty.
From Stdlib Require Import ZArith Lia.
From S2P Require Import Prelude Util.
Import Keys.

(** message.go *)
Definition nonceSize : nat := 24.
Definition sharedKeySize : nat := 32.

(** ** The library functions the package calls

    nacl/box, ed25519 of nkn/v2, and [nkn.ClientAddrToPubKey]. *)
Class BoxOps := {
  Overhead : nat;                                     (* box.Overhead *)
  PublicKeySize : nat;                                (* ed25519.PublicKeySize *)
  PrivateKeySize : nat;                               (* ed25519.PrivateKeySize *)
  PublicKeyToCurve25519PublicKey : bytes → option bytes;
  PrivateKeyToCurve25519PrivateKey : bytes → bytes;
  Precompute : bytes → bytes → bytes;                 (* peer's public key, own private key *)
  SealAfterPrecomputation : bytes → bytes → bytes → bytes;        (* message, nonce, key *)
  OpenAfterPrecomputation : bytes → bytes → bytes → option bytes; (* box, nonce, key *)
  ClientAddrToPubKey : string → res bytes;
  PubKey : bytes → bytes                              (* the public key of an account *)
}.

(** Authenticated encryption with [Overhead] extra bytes, and the Diffie-Hellman
    agreement: both ends precompute the same key. *)
Class BoxLaws `(BoxOps) : Prop := {
  overhead_pos : 0 < Overhead;
  seal_length m n k : length (SealAfterPrecomputation m n k) = length m + Overhead;
  open_seal m n k : OpenAfterPrecomputation (SealAfterPrecomputation m n k) n k = Some m;
  open_length c n k m :
    OpenAfterPrecomputation c n k = Some m → length m + Overhead = length c;
  pubkey_length sk : length (PubKey sk) = PublicKeySize;
  addr_no_panic a : is_panic (ClientAddrToPubKey a) = false;
  precompute_agrees skA skB pA pB :
    length skA = PrivateKeySize → length skB = PrivateKeySize →
    PublicKeyToCurve25519PublicKey (PubKey skA) = Some pA →
    PublicKeyToCurve25519PublicKey (PubKey skB) = Some pB →
    Precompute pB (PrivateKeyToCurve25519PrivateKey skA) =
    Precompute pA (PrivateKeyToCurve25519PrivateKey skB)
}.

Module Crypto.
Section crypto.
Context `{BO : BoxOps}.

(** [copy(dst[:], src)] into a zeroed array of [n] bytes. *)
Definition copy_array (n : nat) (src : bytes) : bytes :=
  take n src ++ replicate (n - length src) Byte.x00.

Lemma copy_array_id n src : length src = n → copy_array n src = src.
Proof.
  intros <-. unfold copy_array. rewrite Nat.sub_diag, take_ge by done. by rewrite app_nil_r.
Qed.

(** The key of a peer, computed afresh. *)
Definition computeSharedKey (privKey remotePublicKey : bytes) : res bytes :=
  if decide (length remotePublicKey ≠ PublicKeySize) then
    Err (ErrText ("public key length is " +:+ pretty (length remotePublicKey) +:+
                  ", expecting " +:+ pretty PublicKeySize))
  else
    match PublicKeyToCurve25519PublicKey (copy_array PublicKeySize remotePublicKey) with
    | None => Err (ErrText ("converting public key " +:+ EncodeToString remotePublicKey +:+
                            " to curve25519 public key failed"))
    | Some curve25519PublicKey =>
        let curveSecretKey :=
          PrivateKeyToCurve25519PrivateKey (copy_array PrivateKeySize privKey) in
        Ok (Precompute curve25519PublicKey curveSecretKey)
    end.

(** [getOrComputeSharedKey]; the state is the map [sharedKeys] of the client. *)
Definition getOrComputeSharedKey (privKey remotePublicKey : bytes)
    : go (gmap string bytes) bytes :=
  let k := EncodeToString remotePublicKey in
  sharedKeys ← get;
  match sharedKeys !! k with
  | Some sharedKey => mret sharedKey
  | None =>
      sharedKey ← lift_res (computeSharedKey privKey remotePublicKey);
      modify (λ m, <[k := sharedKey]> m);;
      mret sharedKey
  end.

(** [encrypt]; [rand] is what [rand.Read] delivers for the nonce. *)
Definition encrypt (rand : res bytes) (message sharedKey : bytes) : res (bytes * bytes) :=
  let encrypted := replicate (length message + Overhead) Byte.x00 in
  nonce ← rand;
  mret (append_into encrypted (SealAfterPrecomputation message nonce sharedKey), nonce).

(** [decrypt]: [make] panics when the message is shorter than the overhead. *)
Definition decrypt (message nonce sharedKey : bytes) : res bytes :=
  if decide (length message < Overhead) then Panic MakeSliceLen
  else
    let decrypted := replicate (length message - Overhead) Byte.x00 in
    match OpenAfterPrecomputation message nonce sharedKey with
    | None => Err (ErrText "decrypt message failed")
    | Some out => Ok (append_into decrypted out)
    end.

(** [encode] and [decode] of the client. *)
Definition encode (privKey : bytes) (rand : res bytes) (message : bytes) (remoteAddr : string)
    : go (gmap string bytes) bytes :=
  remotePublicKey ← lift_res (ClientAddrToPubKey remoteAddr);
  sharedKey ← getOrComputeSharedKey privKey remotePublicKey;
  '(encrypted, nonce) ← lift_res (encrypt rand message sharedKey);
  mret (nonce ++ encrypted).

Definition decode (privKey : bytes) (buf : bytes) (remoteAddr : string)
    : go (gmap string bytes) bytes :=
  if decide (length buf ≤ nonceSize) then throw (ErrText "message too short")
  else
    remotePublicKey ← lift_res (ClientAddrToPubKey remoteAddr);
    sharedKey ← getOrComputeSharedKey privKey remotePublicKey;
    let nonce := copy_array nonceSize (take nonceSize buf) in
    lift_res (decrypt (drop nonceSize buf) nonce sharedKey).

(** ** The key cache is transparent *)

(** Every cached key is the one that would be computed. *)
Definition cache_ok (privKey : bytes) (m : gmap string bytes) : Prop :=
  ∀ pk key, m !! EncodeToString pk = Some key → computeSharedKey privKey pk = Ok key.

Lemma cache_ok_empty privKey : cache_ok privKey ∅.
Proof. intros pk key H. by rewrite lookup_empty in H. Qed.

Lemma cache_ok_insert privKey m pk key :
  cache_ok privKey m → computeSharedKey privKey pk = Ok key →
  cache_ok privKey (<[EncodeToString pk := key]> m).
Proof.
  intros Hm Hk pk' key'. destruct (decide (pk = pk')) as [->|].
  - rewrite lookup_insert_eq. congruence.
  - rewrite lookup_insert_ne by (intros ?%(inj EncodeToString); congruence). apply Hm.
Qed.

(** The cache of shared keys is transparent: with a cache whose entries are the
    keys that would be computed, [getOrComputeSharedKey] returns the computed key or
    the computed error, and leaves such a cache that now holds the key. *)
Theorem getOrComputeSharedKey_transparent privKey pk m :
  cache_ok privKey m →
  ∃ m', getOrComputeSharedKey privKey pk m = (computeSharedKey privKey pk, m') ∧
    cache_ok privKey m' ∧
    (∀ key, computeSharedKey privKey pk = Ok key → m' !! EncodeToString pk = Some key).
Proof.
  intros Hm. unfold getOrComputeSharedKey. go_unfold.
  destruct (m !! EncodeToString pk) as [key|] eqn:E.
  - exists m. rewrite (Hm _ _ E). split_and!; [done.. | by intros ? [= <-]].
  - destruct (computeSharedKey privKey pk) as [key|e|p] eqn:Ek.
    + eexists. split_and!; [done | by apply cache_ok_insert |].
      intros ? [= <-]. apply lookup_insert_eq.
    + by exists m.
    + by exists m.
Qed.

Lemma getOrCompute_result privKey pk m :
  cache_ok privKey m →
  ∃ m', getOrComputeSharedKey privKey pk m = (computeSharedKey privKey pk, m') ∧ cache_ok privKey m'.
Proof.
  intros Hm. unfold getOrComputeSharedKey. go_unfold.
  destruct (m !! EncodeToString pk) as [key|] eqn:E; [rewrite (Hm _ _ E); eauto |].
  destruct (computeSharedKey privKey pk) eqn:Ek; eauto using cache_ok_insert.
Qed.

Lemma getOrCompute_no_panic privKey pk m :
  is_panic (getOrComputeSharedKey privKey pk m).1 = false.
Proof.
  unfold getOrComputeSharedKey, computeSharedKey. go_unfold. destruct (m !! _); [done |].
  case_decide; [done |]. by destruct (PublicKeyToCurve25519PublicKey _).
Qed.

(** ** Encryption *)
Context `{!BoxLaws BO}.

Lemma encrypt_ok nonce message key :
  encrypt (Ok nonce) message key = Ok (SealAfterPrecomputation message nonce key, nonce).
Proof.
  unfold encrypt. cbn. rewrite append_into_exact; [done |].
  by rewrite length_replicate, seal_length.
Qed.

Lemma decrypt_seal nonce message key :
  decrypt (SealAfterPrecomputation message nonce key) nonce key = Ok message.
Proof.
  unfold decrypt. rewrite decide_False by (rewrite seal_length; lia).
  rewrite open_seal, append_into_exact; [done |]. rewrite length_replicate, seal_length. lia.
Qed.

(** The plaintext has the length of the box less the overhead. *)
Lemma decrypt_length message nonce key out :
  decrypt message nonce key = Ok out → length out + Overhead = length message.
Proof.
  unfold decrypt. intros H. case_decide; [done |].
  destruct (OpenAfterPrecomputation _ _ _) as [m|] eqn:E; simplify_eq.
  apply open_length in E. rewrite append_into_exact; [done |]. rewrite length_replicate. lia.
Qed.

(** What two accounts need to talk: addresses that carry their public keys. *)
Record account_at (sk : bytes) (addr : string) (curve : bytes) : Prop := {
  acc_len : length sk = PrivateKeySize;
  acc_addr : ClientAddrToPubKey addr = Ok (PubKey sk);
  acc_curve : PublicKeyToCurve25519PublicKey (PubKey sk) = Some curve
}.

Lemma computeSharedKey_account skA skB addrB pB :
  length skA = PrivateKeySize → account_at skB addrB pB →
  computeSharedKey skA (PubKey skB) = Ok (Precompute pB (PrivateKeyToCurve25519PrivateKey skA)).
Proof.
  intros HA HB. unfold computeSharedKey. rewrite decide_False by (rewrite pubkey_length; auto).
  rewrite !copy_array_id by (rewrite ?pubkey_length; done). by rewrite (acc_curve _ _ _ HB).
Qed.

(** Encoding for an account: the nonce and then the sealed message. *)
Lemma encode_account skA skB addrB pB m nonce message :
  length skA = PrivateKeySize → account_at skB addrB pB → cache_ok skA m →
  ∃ m', encode skA (Ok nonce) message addrB m =
    (Ok (nonce ++ SealAfterPrecomputation message nonce
                    (Precompute pB (PrivateKeyToCurve25519PrivateKey skA))), m') ∧
    cache_ok skA m'.
Proof.
  intros HA HB Hm. unfold encode. rewrite (acc_addr _ _ _ HB).
  destruct (getOrCompute_result skA (PubKey skB) m Hm) as (m' & H1 & H2).
  erewrite computeSharedKey_account in H1 by done.
  exists m'. split; [| done]. go_unfold. rewrite H1. by rewrite encrypt_ok.
Qed.

(** Decoding what an account sealed. *)
Lemma decode_account skA skB addrA pA pB m nonce message :
  account_at skA addrA pA → length skB = PrivateKeySize →
  PublicKeyToCurve25519PublicKey (PubKey skB) = Some pB → cache_ok skB m → length nonce = nonceSize →
  ∃ m', decode skB (nonce ++ SealAfterPrecomputation message nonce
                       (Precompute pB (PrivateKeyToCurve25519PrivateKey skA))) addrA m =
    (Ok message, m') ∧ cache_ok skB m'.
Proof.
  intros HA HB HpB Hm Hn.
  destruct (getOrCompute_result skB (PubKey skA) m Hm) as (m' & Hk & Hm').
  rewrite (computeSharedKey_account skB skA addrA pA) in Hk by done.
  exists m'. split; [| done].
  unfold decode. rewrite length_app, seal_length, Hn.
  rewrite decide_False by (pose proof overhead_pos; lia). rewrite (acc_addr _ _ _ HA). go_unfold. rewrite Hk.
  rewrite take_app_exact, drop_app_exact, copy_array_id by done.
  rewrite (precompute_agrees skB skA pB pA) by (done || apply HA).
  by rewrite decrypt_seal.
Qed.

(** C8: end-to-end round trip of the encryption.  What one client encodes for the
    address of another is decoded there, against the address of the sender, to the same
    bytes: for every message, nonce and state of the two key caches. *)
Theorem encode_decode skA skB addrA addrB pA pB mA mB nonce message :
  account_at skA addrA pA → account_at skB addrB pB →
  cache_ok skA mA → cache_ok skB mB → length nonce = nonceSize →
  ∃ buf mA' mB', encode skA (Ok nonce) message addrB mA = (Ok buf, mA') ∧
    decode skB buf addrA mB = (Ok message, mB') ∧
    length buf = nonceSize + length message + Overhead.
Proof.
  intros HA HB HmA HmB Hn.
  destruct (encode_account skA skB addrB pB mA nonce message) as (mA' & He & _);
    [apply HA | done.. |].
  destruct (decode_account skA skB addrA pA pB mB nonce message) as (mB' & Hd & _);
    [done | apply HB | apply HB | done.. |].
  eexists _, mA', mB'. split_and!; [done.. |]. rewrite length_app, seal_length, Hn. lia.
Qed.

(** A buffer with a nonce and less than the overhead of a box behind it. *)
Lemma decode_short_panics privKey buf remoteAddr m pk key :
  cache_ok privKey m → nonceSize < length buf < nonceSize + Overhead →
  ClientAddrToPubKey remoteAddr = Ok pk → computeSharedKey privKey pk = Ok key →
  ∃ m', decode privKey buf remoteAddr m = (Panic MakeSliceLen, m').
Proof.
  intros Hm Hlen Ha Hk. unfold decode. rewrite decide_False by lia. rewrite Ha. go_unfold.
  destruct (getOrCompute_result privKey pk m Hm) as (m' & -> & _). rewrite Hk.
  unfold decrypt. rewrite length_drop, decide_True by lia. by eauto.
Qed.

(** [decode] can crash the process.  It panics exactly on the buffers that are
    longer than a nonce but too short to hold the overhead of a box, when the address
    of the sender yields a key: [decode] checks only the length of the nonce, and
    [decrypt] then asks [make] for a slice of negative length. *)
Theorem decode_panics_iff privKey buf remoteAddr m :
  cache_ok privKey m →
  is_panic (decode privKey buf remoteAddr m).1 = true ↔
  nonceSize < length buf < nonceSize + Overhead ∧
  ∃ pk key, ClientAddrToPubKey remoteAddr = Ok pk ∧ computeSharedKey privKey pk = Ok key.
Proof.
  intros Hm. unfold decode. case_decide as Hlen; [simpl; split; [done | lia] |]. go_unfold.
  destruct (ClientAddrToPubKey remoteAddr) as [pk|e|p] eqn:Ha; simpl.
  2:{ split; [done | by intros (_ & ? & ? & ? & ?)]. }
  2:{ pose proof (addr_no_panic remoteAddr) as Hp. by rewrite Ha in Hp. }
  destruct (getOrCompute_result privKey pk m Hm) as (m' & -> & _).
  destruct (computeSharedKey privKey pk) as [key|e|p] eqn:Hk; simpl.
  - unfold decrypt. rewrite length_drop. case_decide; simpl.
    + split; [| done]. intros _. split; [unfold nonceSize in *; lia | eauto].
    + split; [by case_match | intros [? _]; unfold nonceSize in *; lia].
  - split; [done | intros (_ & ? & ? & [= <-] & ?); congruence].
  - exfalso. unfold computeSharedKey in Hk. go_cases.
Qed.

(** Outside that window [decode] always returns: too short a buffer is the error
    "message too short" with the cache untouched, and a buffer with room for nonce and
    overhead ends in the plaintext, [nonceSize + Overhead] bytes shorter than the
    buffer, or in an error. *)
Theorem decode_total privKey buf remoteAddr m :
  cache_ok privKey m →
  (length buf ≤ nonceSize →
     decode privKey buf remoteAddr m = (Err (ErrText "message too short"), m)) ∧
  (nonceSize + Overhead ≤ length buf →
     (∃ e, (decode privKey buf remoteAddr m).1 = Err e) ∨
     (∃ out, (decode privKey buf remoteAddr m).1 = Ok out ∧
        length out + nonceSize + Overhead = length buf)).
Proof.
  intros Hm. split; intros Hlen; unfold decode.
  { by rewrite decide_True. }
  rewrite decide_False by (pose proof overhead_pos; lia). go_unfold.
  destruct (ClientAddrToPubKey remoteAddr) as [pk|e|p] eqn:Ha; simpl; [| by eauto |].
  2:{ pose proof (addr_no_panic remoteAddr) as Hp. by rewrite Ha in Hp. }
  destruct (getOrCompute_result privKey pk m Hm) as (m' & -> & _).
  destruct (computeSharedKey privKey pk) as [key|e|p] eqn:Hk; simpl; [| by eauto |].
  2:{ exfalso. unfold computeSharedKey in Hk. go_cases. }
  destruct (decrypt _ _ key) as [out|e|p] eqn:Hd; [right | by eauto |].
  - exists out. split; [done |]. apply decrypt_length in Hd. rewrite length_drop in Hd. lia.
  - exfalso. unfold decrypt in Hd. rewrite decide_False in Hd by (rewrite length_drop; lia).
    by case_match.
Qed.

End crypto.

(** ** A toy cipher, to evaluate the definitions

    Keys are added bytewise (so the agreement holds), a box is a tag of 16 bytes
    followed by the message. *)
Definition toy_add (a b : bytes) : bytes :=
  zip_with (λ x y, byte_of (byte_val x + byte_val y)) a b.
Definition toy_tag (n k : bytes) : bytes := copy_array 16 (toy_add n k).

#[local] Instance toy_box : BoxOps := {
  Overhead := 16;
  PublicKeySize := 32;
  PrivateKeySize := 64;
  PublicKeyToCurve25519PublicKey pk := Some pk;
  PrivateKeyToCurve25519PrivateKey sk := copy_array 32 sk;
  Precompute p s := toy_add p s;
  SealAfterPrecomputation m n k := toy_tag n k ++ m;
  OpenAfterPrecomputation c n k :=
    if decide (take 16 c = toy_tag n k ∧ 16 ≤ length c) then Some (drop 16 c) else None;
  ClientAddrToPubKey a := Ok (copy_array 32 (string_bytes a));
  PubKey sk := copy_array 32 sk
}.

Lemma length_copy_array n src : length (copy_array n src) = n.
Proof. unfold copy_array. rewrite length_app, length_take, length_replicate. lia. Qed.

Lemma toy_add_comm a b : toy_add a b = toy_add b a.
Proof.
  unfold toy_add. rewrite <- zip_with_flip. apply zip_with_ext; [| done..].
  intros. unfold flip. by rewrite Z.add_comm.
Qed.

#[local] Instance toy_laws : BoxLaws toy_box.
Proof.
  split; simpl.
  - lia.
  - intros m n k. rewrite length_app. unfold toy_tag. rewrite length_copy_array. lia.
  - intros m n k. assert (length (toy_tag n k) = 16) as H by apply length_copy_array.
    rewrite take_app_exact, drop_app_exact by done.
    rewrite decide_True; [done |]. rewrite length_app. split; [done | lia].
  - intros c n k m H. case_decide; simplify_eq. rewrite length_drop. lia.
  - intros. apply length_copy_array.
  - done.
  - intros skA skB pA pB _ _ [= <-] [= <-]. apply toy_add_comm.
Qed.

Lemma copy_array_copy n m src : n ≤ m → copy_array n (copy_array m src) = copy_array n src.
Proof.
  intros H. unfold copy_array at 1. rewrite length_copy_array.
  replace (n - m) with 0 by lia. rewrite app_nil_r. unfold copy_array.
  rewrite take_app, take_take, length_take, take_replicate, Nat.min_l by done.
  f_equal. f_equal. lia.
Qed.

(** The account whose address is a given text. *)
Definition toy_sk (addr : string) : bytes := copy_array 64 (string_bytes addr).

Lemma toy_account addr :
  account_at (toy_sk addr) addr (copy_array 32 (string_bytes addr)).
Proof.
  split; unfold toy_sk; simpl; [apply length_copy_array | |]; by rewrite copy_array_copy by lia.
Qed.

Lemma getOrComputeSharedKey_transparent_witness :
  ∃ m', getOrComputeSharedKey (toy_sk "alice") (PubKey (toy_sk "bob")) ∅ =
    (computeSharedKey (toy_sk "alice") (PubKey (toy_sk "bob")), m') ∧
    cache_ok (toy_sk "alice") m' ∧
    (∀ key, computeSharedKey (toy_sk "alice") (PubKey (toy_sk "bob")) = Ok key →
       m' !! EncodeToString (PubKey (toy_sk "bob")) = Some key).
Proof. apply getOrComputeSharedKey_transparent, cache_ok_empty. Defined.

Lemma encode_decode_witness :
  ∃ buf mA' mB',
    encode (toy_sk "alice") (Ok (replicate 24 Byte.x07)) (string_bytes "hi") "bob" ∅ = (Ok buf, mA') ∧
    decode (toy_sk "bob") buf "alice" ∅ = (Ok (string_bytes "hi"), mB') ∧
    length buf = nonceSize + length (string_bytes "hi") + Overhead.
Proof.
  eapply (encode_decode (toy_sk "alice") (toy_sk "bob") "alice" "bob");
    [apply toy_account | apply toy_account | apply cache_ok_empty | apply cache_ok_empty | reflexivity].
Defined.

Lemma decode_panics_iff_witness :
  is_panic (decode (toy_sk "bob") (replicate 30 Byte.x00) "alice" ∅).1 = true ∧
  (is_panic (decode (toy_sk "bob") (replicate 30 Byte.x00) "alice" ∅).1 = true ↔
   nonceSize < length (replicate 30 Byte.x00) < nonceSize + Overhead ∧
   ∃ pk key, ClientAddrToPubKey "alice" = Ok pk ∧ computeSharedKey (toy_sk "bob") pk = Ok key).
Proof.
  split; [vm_compute; reflexivity |]. apply decode_panics_iff, cache_ok_empty.
Defined.

Lemma decode_total_witness :
  (length (replicate 40 Byte.x00) ≤ nonceSize →
     decode (toy_sk "bob") (replicate 40 Byte.x00) "alice" ∅ = (Err (ErrText "message too short"), ∅)) ∧
  (nonceSize + Overhead ≤ length (replicate 40 Byte.x00) →
     (∃ e, (decode (toy_sk "bob") (replicate 40 Byte.x00) "alice" ∅).1 = Err e) ∨
     (∃ out, (decode (toy_sk "bob") (replicate 40 Byte.x00) "alice" ∅).1 = Ok out ∧
        length out + nonceSize + Overhead = length (replicate 40 Byte.x00))).
Proof. apply decode_total, cache_ok_empty. Defined.

End Crypto.
