(* ===== verification/Pb.v ===== *)
(** * pb/session.pb.go: the protocol messages

    The enumerations, messages and getters of the generated code, the two functions of
    udpsession.go that frame a [SessionData], and the encoding itself.  Marshalling is
    library code: [ProtoOps] is what the package calls and [ProtoLaws] what it relies
    on; [Wire] implements them from the field tags of the generated structs and the
    documented protobuf wire format, and checks the embedded descriptor against both. *)

From stdpp Require Import base gmap strings list numbers tactics.
From Stdlib Require Import Strings.Byte ZArith Lia.
From S2P Require Import Prelude.

(** ** Enumerations

    Generated enumerations are open: any int32 may arrive. *)
Definition SessionType_ST_NONE : Z := 0.
Definition SessionType_TCP : Z := 1.
Definition SessionType_UDP : Z := 2.
Definition SessionType_name : list (Z * string) := [(0%Z, "ST_NONE"); (1%Z, "TCP"); (2%Z, "UDP")].
Definition SessionType_value : list (string * Z) := [("ST_NONE", 0%Z); ("TCP", 1%Z); ("UDP", 2%Z)].

Definition HeaderType_HT_NONE : Z := 0.
Definition HeaderType_SESSION : Z := 1.
Definition HeaderType_USER : Z := 2.
Definition HeaderType_name : list (Z * string) := [(0%Z, "HT_NONE"); (1%Z, "SESSION"); (2%Z, "USER")].
Definition HeaderType_value : list (string * Z) := [("HT_NONE", 0%Z); ("SESSION", 1%Z); ("USER", 2%Z)].

Definition MsgType_MT_NONE : Z := 0.
Definition MsgType_REMOTEADDR : Z := 1.
Definition MsgType_SESSIONID : Z := 2.
Definition MsgType_CLOSE : Z := 255.
Definition MsgType_name : list (Z * string) :=
  [(0%Z, "MT_NONE"); (1%Z, "REMOTEADDR"); (2%Z, "SESSIONID"); (255%Z, "CLOSE")].
Definition MsgType_value : list (string * Z) :=
  [("MT_NONE", 0%Z); ("REMOTEADDR", 1%Z); ("SESSIONID", 2%Z); ("CLOSE", 255%Z)].

(** ** Messages *)
Record SessionMetadata := mkMetadata {
  Id : bytes;
  SessionType : Z;
  DialerNknAddr : string
}.

Record SessionData := mkSessionData {
  MsgType : Z;
  Data : bytes
}.

(** The getters accept a nil receiver. *)
Definition GetId (x : option SessionMetadata) : bytes := from_option Id [] x.
Definition GetSessionType (x : option SessionMetadata) : Z :=
  from_option SessionType SessionType_ST_NONE x.
Definition GetDialerNknAddr (x : option SessionMetadata) : string := from_option DialerNknAddr "" x.
Definition GetMsgType (x : option SessionData) : Z := from_option MsgType MsgType_MT_NONE x.
Definition GetData (x : option SessionData) : bytes := from_option Data [] x.

(** [Reset]: the zero message. *)
Definition resetMetadata : SessionMetadata := mkMetadata [] 0 "".
Definition resetSessionData : SessionData := mkSessionData 0 [].

Definition int32_ok (z : Z) : Prop := (- 2 ^ 31 ≤ z < 2 ^ 31)%Z.

(** Protobuf's documented limit on the size of a field. *)
Definition sized (b : bytes) : Prop := (Z.of_nat (length b) < 2 ^ 31)%Z.

(** ** Marshalling, as the package uses it *)
Class ProtoOps := {
  MarshalMetadata : SessionMetadata → res bytes;
  UnmarshalMetadata : bytes → res SessionMetadata;
  MarshalData : SessionData → res bytes;
  UnmarshalData : bytes → res SessionData
}.

Class ProtoLaws `(ProtoOps) : Prop := {
  metadata_round_trip m b :
    int32_ok (SessionType m) → sized (Id m) → sized (string_bytes (DialerNknAddr m)) →
    MarshalMetadata m = Ok b → UnmarshalMetadata b = Ok m;
  metadata_no_panic m : is_panic (MarshalMetadata m) = false;
  metadata_dec_no_panic b : is_panic (UnmarshalMetadata b) = false;
  data_marshals d :
    int32_ok (MsgType d) → sized (Data d) → ∃ b, MarshalData d = Ok b ∧ UnmarshalData b = Ok d;
  data_no_panic d : is_panic (MarshalData d) = false;
  data_dec_no_panic b : is_panic (UnmarshalData b) = false
}.

Section session_data.
Context `{PO : ProtoOps}.

(** [newSessionData]: the header byte, then the marshalled message. *)
Definition newSessionData (msgType : Z) (data : bytes) : res bytes :=
  buf ← MarshalData (mkSessionData msgType data);
  mret (byte_of HeaderType_SESSION :: buf).

(** [parseSessionData], called on the bytes after the header. *)
Definition parseSessionData (b : bytes) : res SessionData := UnmarshalData b.

Lemma newSessionData_ok `{!ProtoLaws PO} msgType data :
  int32_ok msgType → sized data →
  ∃ b, newSessionData msgType data = Ok (byte_of HeaderType_SESSION :: b) ∧
    parseSessionData b = Ok (mkSessionData msgType data).
Proof.
  intros H Hd. destruct (data_marshals (mkSessionData msgType data) H Hd) as (b & Hb & Hu).
  exists b. unfold newSessionData. by rewrite Hb.
Qed.

Lemma newSessionData_no_panic `{!ProtoLaws PO} msgType data :
  is_panic (newSessionData msgType data) = false.
Proof.
  unfold newSessionData. pose proof (data_no_panic (mkSessionData msgType data)).
  by destruct (MarshalData _).
Qed.

End session_data.

(** ** The wire format *)
Module Wire.

(** Base-128 varints, least significant group first; ten bytes hold 64 bits. *)
Fixpoint put_varint (fuel : nat) (n : Z) : bytes :=
  match fuel with
  | 0 => []
  | S fuel =>
      if decide (n < 128)%Z then [byte_of n]
      else byte_of (n mod 128 + 128) :: put_varint fuel (n / 128)
  end.

Fixpoint get_varint (fuel : nat) (bs : bytes) : option (Z * bytes) :=
  match fuel, bs with
  | S fuel, b :: bs =>
      if decide (byte_val b < 128)%Z then Some (byte_val b, bs)
      else '(v, rest) ← get_varint fuel bs; Some ((byte_val b - 128 + 128 * v)%Z, rest)
  | _, _ => None
  end.

Definition varint_len : nat := 10.
Definition uint64_of (z : Z) : Z := z mod 2 ^ 64.

(** A field of a message: its number and its value. *)
Inductive fval := VVarint (v : Z) | VBytes (b : bytes) | VFixed (b : bytes).

Definition put_varint_field (num v : Z) : bytes :=
  if decide (v = 0%Z) then []
  else put_varint varint_len (num * 8) ++ put_varint varint_len (uint64_of v).

Definition put_bytes_field (num : Z) (b : bytes) : bytes :=
  match b with
  | [] => []
  | _ => put_varint varint_len (num * 8 + 2) ++
         put_varint varint_len (Z.of_nat (length b)) ++ b
  end.

(** One field after the other, until the end of the message. *)
Definition get_field (bs : bytes) : option (Z * fval * bytes) :=
  '(key, bs) ← get_varint varint_len bs;
  let num := (key / 8)%Z in
  if decide (num = 0%Z) then None else
  match (key mod 8)%Z with
  | 0%Z => '(v, rest) ← get_varint varint_len bs; Some (num, VVarint (uint64_of v), rest)
  | 1%Z => if decide (8 ≤ length bs) then Some (num, VFixed (take 8 bs), drop 8 bs) else None
  | 2%Z =>
      '(n, rest) ← get_varint varint_len bs;
      if decide (n ≤ Z.of_nat (length rest))%Z
      then Some (num, VBytes (take (Z.to_nat n) rest), drop (Z.to_nat n) rest) else None
  | 5%Z => if decide (4 ≤ length bs) then Some (num, VFixed (take 4 bs), drop 4 bs) else None
  | _ => None
  end.

Fixpoint get_fields (fuel : nat) (bs : bytes) : option (list (Z * fval)) :=
  match bs, fuel with
  | [], _ => Some []
  | _, 0 => None
  | _, S fuel =>
      '(num, v, rest) ← get_field bs;
      fs ← get_fields fuel rest;
      Some ((num, v) :: fs)
  end.

(** Every field takes at least one byte. *)
Definition fields_of (bs : bytes) : option (list (Z * fval)) := get_fields (length bs) bs.

(** UTF-8 as [unicode/utf8] validates it: proto3 strings must be valid. *)
Definition cont (b : byte) : bool := bool_decide (128 ≤ byte_val b < 192)%Z.
Definition between (lo hi : Z) (b : byte) : bool := bool_decide (lo ≤ byte_val b ≤ hi)%Z.

Fixpoint utf8_valid (bs : bytes) : bool :=
  match bs with
  | [] => true
  | a :: rest =>
      if between 0 127 a then utf8_valid rest else
      match rest with
      | b :: rest2 =>
          if between 194 223 a && cont b then utf8_valid rest2 else
          match rest2 with
          | c :: rest3 =>
              if (between 224 224 a && between 160 191 b ||
                  between 225 236 a && cont b || between 237 237 a && between 128 159 b ||
                  between 238 239 a && cont b) && cont c then utf8_valid rest3 else
              match rest3 with
              | d :: rest4 =>
                  if (between 240 240 a && between 144 191 b ||
                      between 241 243 a && cont b || between 244 244 a && between 128 143 b)
                     && cont c && cont d then utf8_valid rest4 else false
              | [] => false
              end
          | [] => false
          end
      | [] => false
      end
  end.

Definition errUTF8 : error := ErrText "string field contains invalid UTF-8".
Definition errParse : error := ErrText "cannot parse invalid wire-format data".

(** [SessionMetadata]: bytes id = 1, enum sessionType = 2, string dialerNknAddr = 3. *)
Definition marshalMetadata (m : SessionMetadata) : res bytes :=
  if utf8_valid (string_bytes (DialerNknAddr m)) then
    Ok (put_bytes_field 1 (Id m) ++ put_varint_field 2 (SessionType m) ++
        put_bytes_field 3 (string_bytes (DialerNknAddr m)))
  else Err errUTF8.

(** A field seen again replaces the earlier value; an unknown field is skipped. *)
Definition set_metadata (m : SessionMetadata) (f : Z * fval) : res SessionMetadata :=
  match f with
  | (1%Z, VBytes b) => Ok (mkMetadata b (SessionType m) (DialerNknAddr m))
  | (2%Z, VVarint v) => Ok (mkMetadata (Id m) (int32_of v) (DialerNknAddr m))
  | (3%Z, VBytes b) =>
      if utf8_valid b then Ok (mkMetadata (Id m) (SessionType m) (bytes_string b)) else Err errUTF8
  | _ => Ok m
  end.

(** [SessionData]: enum msgType = 1, bytes data = 3. *)
Definition marshalData (d : SessionData) : res bytes :=
  Ok (put_varint_field 1 (MsgType d) ++ put_bytes_field 3 (Data d)).

Definition set_data (d : SessionData) (f : Z * fval) : res SessionData :=
  match f with
  | (1%Z, VVarint v) => Ok (mkSessionData (int32_of v) (Data d))
  | (3%Z, VBytes b) => Ok (mkSessionData (MsgType d) b)
  | _ => Ok d
  end.

Fixpoint set_all {M} (set : M → Z * fval → res M) (m : M) (fs : list (Z * fval)) : res M :=
  match fs with
  | [] => Ok m
  | f :: fs => m ← set m f; set_all set m fs
  end.

Definition unmarshalMetadata (bs : bytes) : res SessionMetadata :=
  match fields_of bs with
  | Some fs => set_all set_metadata resetMetadata fs
  | None => Err errParse
  end.

Definition unmarshalData (bs : bytes) : res SessionData :=
  match fields_of bs with
  | Some fs => set_all set_data resetSessionData fs
  | None => Err errParse
  end.

(** *** Round trips *)

Lemma get_put_varint fuel n rest :
  fuel ≠ 0 → (0 ≤ n < 128 ^ Z.of_nat fuel)%Z →
  get_varint fuel (put_varint fuel n ++ rest) = Some (n, rest).
Proof.
  revert n. induction fuel as [|fuel IH]; intros n Hf Hn; simpl; [done |].
  rewrite Nat2Z.inj_succ, Z.pow_succ_r in Hn by lia. case_decide; simpl; rewrite byte_val_of.
  - rewrite Z.mod_small, decide_True by lia. done.
  - pose proof (Z.mod_pos_bound n 128 ltac:(lia)).
    rewrite (Z.mod_small (n mod 128 + 128)), decide_False by lia.
    assert (fuel ≠ 0) by (intros ->; simpl in Hn; lia).
    rewrite IH by (done || (split; [apply Z.div_pos; lia | apply Z.div_lt_upper_bound; lia])). simpl.
    do 2 f_equal. pose proof (Z.div_mod n 128). lia.
Qed.

Lemma get_varint_shorter fuel bs v rest :
  get_varint fuel bs = Some (v, rest) → length rest < length bs.
Proof.
  revert bs v rest. induction fuel as [|fuel IH]; intros [|b bs] v rest; simpl; try done.
  case_decide; [intros [= <- <-]; lia |].
  destruct (get_varint fuel bs) as [[v' r']|] eqn:E; simpl; [| done].
  intros [= <- <-]. apply IH in E. lia.
Qed.

Lemma get_field_shorter bs f rest : get_field bs = Some (f, rest) → length rest < length bs.
Proof.
  unfold get_field. destruct (get_varint varint_len bs) as [[key r]|] eqn:E; simpl; [| done].
  apply get_varint_shorter in E. case_decide; [done |]. intros Hf.
  assert (∀ v r', get_varint varint_len r = Some (v, r') → length r' < length r) as Hr.
  { intros v r'. apply get_varint_shorter. }
  destruct (get_varint varint_len r) as [[v r']|]; simpl in Hf;
    [specialize (Hr v r' eq_refl) | clear Hr];
    repeat (case_match; simplify_eq/=); rewrite ?length_drop; lia.
Qed.

Lemma get_fields_fuel n m bs :
  length bs ≤ n → length bs ≤ m → get_fields n bs = get_fields m bs.
Proof.
  revert m bs. induction n as [|n IH]; intros [|m] [|b bs] Hn Hm; simpl in *; try done; try lia.
  destruct (get_field (b :: bs)) as [[[num v] rest]|] eqn:E; simpl; [| done].
  apply get_field_shorter in E. simpl in E. by rewrite (IH m rest) by lia.
Qed.

Lemma fields_of_cons bs num v rest :
  get_field bs = Some (num, v, rest) → fields_of bs = cons (num, v) <$> fields_of rest.
Proof.
  intros E. pose proof (get_field_shorter _ _ _ E) as Hl. unfold fields_of.
  destruct bs as [|b bs]; [simpl in Hl; lia |]. simpl. simpl in Hl. rewrite E. simpl.
  rewrite (get_fields_fuel _ (length rest) rest) by lia. by destruct (get_fields _ rest).
Qed.

Lemma get_put_varint64 n rest :
  (0 ≤ n < 128 ^ 10)%Z →
  get_varint varint_len (put_varint varint_len n ++ rest) = Some (n, rest).
Proof. intros. by apply get_put_varint. Qed.

#[local] Arguments put_varint : simpl never.
#[local] Arguments get_varint : simpl never.
#[local] Arguments utf8_valid : simpl never.

Lemma key_range num : (0 < num < 1000)%Z → (0 ≤ num * 8 < 128 ^ 10)%Z ∧ (0 ≤ num * 8 + 2 < 128 ^ 10)%Z.
Proof. change (128 ^ 10)%Z with 1180591620717411303424%Z. lia. Qed.

Lemma uint64_range v : (0 ≤ uint64_of v < 128 ^ 10)%Z.
Proof.
  unfold uint64_of. pose proof (Z.mod_pos_bound v (2 ^ 64) ltac:(lia)).
  change (128 ^ 10)%Z with 1180591620717411303424%Z. change (2 ^ 64)%Z with 18446744073709551616%Z in *. lia.
Qed.

(** The fields a value contributes: none for a default value. *)
Definition varint_fs (num v : Z) : list (Z * fval) :=
  if decide (v = 0%Z) then [] else [(num, VVarint (uint64_of v))].
Definition bytes_fs (num : Z) (b : bytes) : list (Z * fval) :=
  match b with [] => [] | _ => [(num, VBytes b)] end.

Lemma fields_of_varint num v rest fs :
  (0 < num < 1000)%Z → fields_of rest = Some fs →
  fields_of (put_varint_field num v ++ rest) = Some (varint_fs num v ++ fs).
Proof.
  intros Hnum Hr. unfold put_varint_field, varint_fs. case_decide; [done |].
  rewrite <- (assoc_L (++)). rewrite (fields_of_cons _ num (VVarint (uint64_of v)) rest).
  { by rewrite Hr. }
  unfold get_field. rewrite get_put_varint64 by (by apply key_range). simpl.
  rewrite Z.div_mul, decide_False, Z.mod_mul by lia.
  rewrite get_put_varint64 by apply uint64_range. simpl. unfold uint64_of. by rewrite Zmod_mod.
Qed.

Lemma fields_of_bytes num b rest fs :
  (0 < num < 1000)%Z → sized b → fields_of rest = Some fs →
  fields_of (put_bytes_field num b ++ rest) = Some (bytes_fs num b ++ fs).
Proof.
  intros Hnum Hb Hr. unfold put_bytes_field, bytes_fs. destruct b as [|x b]; [done |].
  set (l := x :: b) in *. clearbody l. clear x b. unfold sized in Hb.
  rewrite <- !(assoc_L (++)). rewrite (fields_of_cons _ num (VBytes l) rest).
  { by rewrite Hr. }
  unfold get_field. rewrite get_put_varint64 by (by apply key_range). simpl.
  replace ((num * 8 + 2) / 8)%Z with num by (Z.div_mod_to_equations; lia).
  replace ((num * 8 + 2) mod 8)%Z with 2%Z by (Z.div_mod_to_equations; lia).
  rewrite decide_False by lia.
  rewrite get_put_varint64.
  2:{ change (128 ^ 10)%Z with 1180591620717411303424%Z. lia. }
  simpl. rewrite length_app, decide_True, Nat2Z.id by lia.
  by rewrite take_app_exact, drop_app_exact by done.
Qed.

Lemma int32_of_uint64 v : int32_ok v → int32_of (uint64_of v) = v.
Proof.
  unfold int32_ok, int32_of, uint64_of. intros Hv.
  change (2 ^ 64)%Z with 18446744073709551616%Z. change (2 ^ 32)%Z with 4294967296%Z in *.
  change (2 ^ 31)%Z with 2147483648%Z in *. Z.div_mod_to_equations. lia.
Qed.

Lemma wire_round_trip_metadata m b :
  int32_ok (SessionType m) → sized (Id m) → sized (string_bytes (DialerNknAddr m)) →
  marshalMetadata m = Ok b → unmarshalMetadata b = Ok m.
Proof.
  intros Hm1 Hm2 Hm3. unfold marshalMetadata, unmarshalMetadata.
  destruct (utf8_valid _) eqn:Hu; [intros [= <-] | done].
  rewrite <- (app_nil_r (put_bytes_field 3 _)).
  erewrite fields_of_bytes; [| lia | done | apply fields_of_varint; [lia |];
    apply fields_of_bytes; [lia | done | reflexivity]].
  destruct m as [i t a]. simpl in *. unfold bytes_fs, varint_fs.
  rewrite <- (bytes_string_bytes a) at 2. clear Hm3.
  destruct i, (decide (t = 0%Z)) as [->|], (string_bytes a); simpl;
    rewrite ?Hu; simpl; rewrite ?int32_of_uint64 by done; done.
Qed.

Lemma wire_round_trip_data d :
  int32_ok (MsgType d) → sized (Data d) →
  ∃ b, marshalData d = Ok b ∧ unmarshalData b = Ok d.
Proof.
  intros Hd1 Hd2. eexists. split; [done |]. unfold unmarshalData.
  rewrite <- (app_nil_r (put_bytes_field 3 _)).
  erewrite fields_of_varint; [| lia | apply fields_of_bytes; [lia | done | reflexivity]].
  destruct d as [t b]. simpl in *. unfold bytes_fs, varint_fs.
  destruct b, (decide (t = 0%Z)) as [->|]; simpl; rewrite ?int32_of_uint64 by done; done.
Qed.


(** The wire format implements the interface. *)
#[local] Instance wire_ops : ProtoOps := {
  MarshalMetadata := marshalMetadata;
  UnmarshalMetadata := unmarshalMetadata;
  MarshalData := marshalData;
  UnmarshalData := unmarshalData
}.

Lemma set_all_no_panic {M} (set : M → Z * fval → res M) m fs :
  (∀ m f, is_panic (set m f) = false) → is_panic (set_all set m fs) = false.
Proof.
  intros H. revert m. induction fs as [|f fs IH]; intros m; simpl; [done |].
  specialize (H m f). by destruct (set m f); simpl.
Qed.

#[local] Instance wire_laws : ProtoLaws wire_ops.
Proof.
  split; simpl.
  - intros m b H1 H2 H3 Hb.
    by eapply (wire_round_trip_metadata m).
  - intros m. unfold marshalMetadata. by case_match.
  - intros b. unfold unmarshalMetadata. case_match; [| done]. apply set_all_no_panic.
    intros m [n v]. unfold set_metadata. by repeat case_match.
  - intros d H1 H2. by apply wire_round_trip_data.
  - intros d. unfold marshalData. by repeat case_match.
  - intros b. unfold unmarshalData. case_match; [| done]. apply set_all_no_panic.
    intros m [n v]. unfold set_data. by repeat case_match.
Qed.

(** *** The embedded descriptor *)

Definition file_pb_session_proto_rawDesc : bytes :=
  [ x0a; x10; x70; x62; x2f; x73; x65; x73; x73; x69; x6f; x6e; x2e; x70; x72; x6f;
    x74; x6f; x12; x02; x70; x62; x22; x7a; x0a; x0f; x53; x65; x73; x73; x69; x6f;
    x6e; x4d; x65; x74; x61; x64; x61; x74; x61; x12; x0e; x0a; x02; x69; x64; x18;
    x01; x20; x01; x28; x0c; x52; x02; x69; x64; x12; x31; x0a; x0b; x73; x65; x73;
    x73; x69; x6f; x6e; x54; x79; x70; x65; x18; x02; x20; x01; x28; x0e; x32; x0f;
    x2e; x70; x62; x2e; x53; x65; x73; x73; x69; x6f; x6e; x54; x79; x70; x65; x52;
    x0b; x73; x65; x73; x73; x69; x6f; x6e; x54; x79; x70; x65; x12; x24; x0a; x0d;
    x64; x69; x61; x6c; x65; x72; x4e; x6b; x6e; x41; x64; x64; x72; x18; x03; x20;
    x01; x28; x09; x52; x0d; x64; x69; x61; x6c; x65; x72; x4e; x6b; x6e; x41; x64;
    x64; x72; x22; x48; x0a; x0b; x53; x65; x73; x73; x69; x6f; x6e; x44; x61; x74;
    x61; x12; x25; x0a; x07; x6d; x73; x67; x54; x79; x70; x65; x18; x01; x20; x01;
    x28; x0e; x32; x0b; x2e; x70; x62; x2e; x4d; x73; x67; x54; x79; x70; x65; x52;
    x07; x6d; x73; x67; x54; x79; x70; x65; x12; x12; x0a; x04; x64; x61; x74; x61;
    x18; x03; x20; x01; x28; x0c; x52; x04; x64; x61; x74; x61; x2a; x2c; x0a; x0b;
    x53; x65; x73; x73; x69; x6f; x6e; x54; x79; x70; x65; x12; x0b; x0a; x07; x53;
    x54; x5f; x4e; x4f; x4e; x45; x10; x00; x12; x07; x0a; x03; x54; x43; x50; x10;
    x01; x12; x07; x0a; x03; x55; x44; x50; x10; x02; x2a; x30; x0a; x0a; x48; x65;
    x61; x64; x65; x72; x54; x79; x70; x65; x12; x0b; x0a; x07; x48; x54; x5f; x4e;
    x4f; x4e; x45; x10; x00; x12; x0b; x0a; x07; x53; x45; x53; x53; x49; x4f; x4e;
    x10; x01; x12; x08; x0a; x04; x55; x53; x45; x52; x10; x02; x2a; x41; x0a; x07;
    x4d; x73; x67; x54; x79; x70; x65; x12; x0b; x0a; x07; x4d; x54; x5f; x4e; x4f;
    x4e; x45; x10; x00; x12; x0e; x0a; x0a; x52; x45; x4d; x4f; x54; x45; x41; x44;
    x44; x52; x10; x01; x12; x0d; x0a; x09; x53; x45; x53; x53; x49; x4f; x4e; x49;
    x44; x10; x02; x12; x0a; x0a; x05; x43; x4c; x4f; x53; x45; x10; xff; x01; x42;
    x06; x5a; x04; x2e; x2f; x70; x62; x62; x06; x70; x72; x6f; x74; x6f; x33 ].

Fixpoint bytes_fields (num : Z) (fs : list (Z * fval)) : list bytes :=
  match fs with
  | [] => []
  | (n, VBytes b) :: fs => if decide (n = num) then b :: bytes_fields num fs else bytes_fields num fs
  | _ :: fs => bytes_fields num fs
  end.

Fixpoint varint_field (num : Z) (fs : list (Z * fval)) : Z :=
  match fs with
  | [] => 0%Z
  | (n, VVarint v) :: fs => if decide (n = num) then v else varint_field num fs
  | _ :: fs => varint_field num fs
  end.

Definition text_field (num : Z) (fs : list (Z * fval)) : string :=
  default "" (bytes_string <$> head (bytes_fields num fs)).

(** Parts of descriptor.proto: a field is (name, number, type, type name), a message its
    name and fields, an enumeration its name and (number, name) pairs. *)
Definition field_desc (bs : bytes) : option (string * Z * Z * string) :=
  fs ← fields_of bs;
  Some (text_field 1 fs, varint_field 3 fs, varint_field 5 fs, text_field 6 fs).

Definition message_desc (bs : bytes) : option (string * list (string * Z * Z * string)) :=
  fs ← fields_of bs;
  l ← mapM field_desc (bytes_fields 2 fs);
  Some (text_field 1 fs, l).

Definition value_desc (bs : bytes) : option (Z * string) :=
  fs ← fields_of bs; Some (varint_field 2 fs, text_field 1 fs).

Definition enum_desc (bs : bytes) : option (string * list (Z * string)) :=
  fs ← fields_of bs;
  l ← mapM value_desc (bytes_fields 2 fs);
  Some (text_field 1 fs, l).

Definition file_desc (bs : bytes)
    : option (list (string * list (string * Z * Z * string)) * list (string * list (Z * string))) :=
  fs ← fields_of bs;
  ms ← mapM message_desc (bytes_fields 4 fs);
  es ← mapM enum_desc (bytes_fields 5 fs);
  Some (ms, es).

Definition TYPE_STRING : Z := 9.
Definition TYPE_BYTES : Z := 12.
Definition TYPE_ENUM : Z := 14.

(** The descriptor embedded in the generated code describes the messages and
    enumerations the package compiles against: the same field numbers and types as the
    encoding above, the same names and numbers as the name maps; and the name and value
    maps of each enumeration are inverse to each other. *)
Theorem descriptor_agrees :
  file_desc file_pb_session_proto_rawDesc =
    Some ([("SessionMetadata",
             [("id", 1%Z, TYPE_BYTES, ""); ("sessionType", 2%Z, TYPE_ENUM, ".pb.SessionType");
              ("dialerNknAddr", 3%Z, TYPE_STRING, "")]);
           ("SessionData",
             [("msgType", 1%Z, TYPE_ENUM, ".pb.MsgType"); ("data", 3%Z, TYPE_BYTES, "")])],
          [("SessionType", SessionType_name); ("HeaderType", HeaderType_name);
           ("MsgType", MsgType_name)]) ∧
  Forall (λ '(ns, vs), vs = (λ '(n, s), (s, n)) <$> ns ∧ NoDup ns.*1 ∧ NoDup vs.*1)
    [(SessionType_name, SessionType_value); (HeaderType_name, HeaderType_value);
     (MsgType_name, MsgType_value)].
Proof.
  split; [vm_compute; reflexivity |].
  apply (bool_decide_unpack _). vm_compute. exact I.
Qed.


End Wire.
