(* ===== verification/Config.v ===== *)
(** * config.go: the configuration and its defaults

    [Config] with its default value, [MergedConfig], and [SetConfig] of client.go.  The
    merge itself is mergo's; [MergeLaws] states the documented behaviour of
    [mergo.Merge] with [WithOverride]: an attribute of the source that is not empty
    replaces the one of the destination. *)

From stdpp Require Import base strings list numbers tactics.
From Stdlib Require Import ZArith Lia SpecFloat.
From S2P Require Import Prelude.

(** ** Types and constants of other packages *)

Class TunaOps := {
  IPFilter : Type;                       (* geo.IPFilter *)
  emptyIPFilter : IPFilter;
  NknFilter : Type;                      (* filter.NknFilter *)
  emptyNknFilter : NknFilter;
  DefaultReverseServiceName : string;    (* tuna *)
  DefaultSubscriptionPrefix : string
}.

(** The part of [ncp.Config] this package reads. *)
Record ncpConfig := mkNcpConfig { MTU : Z }.

Section config.
Context `{TunaOps}.

Record Config := mkConfig {
  NumTunaListeners : Z;
  TunaDialTimeout : Z;
  TunaMaxPrice : string;
  TunaNanoPayFee : string;
  TunaMinNanoPayFee : string;
  TunaNanoPayFeeRatio : spec_float;
  TunaServiceName : string;
  TunaSubscriptionPrefix : string;
  TunaIPFilter : option IPFilter;
  TunaNknFilter : option NknFilter;
  TunaDownloadGeoDB : bool;
  TunaGeoDBPath : string;
  TunaMeasureBandwidth : bool;
  TunaMeasureStoragePath : string;
  TunaMeasurementBytesDownLink : Z;
  TunaMinBalance : string;
  SessionConfig : option ncpConfig;
  ReconnectRetries : Z;
  ReconnectInterval : Z;
  UDPRecvBufferSize : Z;
  MaxUdpDatagramBuffered : Z;
  Verbose : bool
}.

(** The float64 nearest to 0.1. *)
Definition float64_0_1 : spec_float := S754_finite false 7205759403792794 (-56).

Definition defaultConfig : Config := {|
  NumTunaListeners := 4;
  TunaDialTimeout := 10000;
  TunaMaxPrice := "0";
  TunaNanoPayFee := "";
  TunaMinNanoPayFee := "0";
  TunaNanoPayFeeRatio := float64_0_1;
  TunaServiceName := DefaultReverseServiceName;
  TunaSubscriptionPrefix := DefaultSubscriptionPrefix;
  TunaIPFilter := None;
  TunaNknFilter := None;
  TunaDownloadGeoDB := false;
  TunaGeoDBPath := "";
  TunaMeasureBandwidth := false;
  TunaMeasureStoragePath := "";
  TunaMeasurementBytesDownLink := 0;
  TunaMinBalance := "0";
  SessionConfig := None;
  ReconnectRetries := 0;
  ReconnectInterval := 2000;
  UDPRecvBufferSize := Z.shiftl 1 20;
  MaxUdpDatagramBuffered := 1024;
  Verbose := false
|}.

Definition set_filters (ip : option IPFilter) (nf : option NknFilter) (c : Config) : Config := {|
  NumTunaListeners := NumTunaListeners c;
  TunaDialTimeout := TunaDialTimeout c;
  TunaMaxPrice := TunaMaxPrice c;
  TunaNanoPayFee := TunaNanoPayFee c;
  TunaMinNanoPayFee := TunaMinNanoPayFee c;
  TunaNanoPayFeeRatio := TunaNanoPayFeeRatio c;
  TunaServiceName := TunaServiceName c;
  TunaSubscriptionPrefix := TunaSubscriptionPrefix c;
  TunaIPFilter := ip;
  TunaNknFilter := nf;
  TunaDownloadGeoDB := TunaDownloadGeoDB c;
  TunaGeoDBPath := TunaGeoDBPath c;
  TunaMeasureBandwidth := TunaMeasureBandwidth c;
  TunaMeasureStoragePath := TunaMeasureStoragePath c;
  TunaMeasurementBytesDownLink := TunaMeasurementBytesDownLink c;
  TunaMinBalance := TunaMinBalance c;
  SessionConfig := SessionConfig c;
  ReconnectRetries := ReconnectRetries c;
  ReconnectInterval := ReconnectInterval c;
  UDPRecvBufferSize := UDPRecvBufferSize c;
  MaxUdpDatagramBuffered := MaxUdpDatagramBuffered c;
  Verbose := Verbose c
|}.

Definition set_session_config (sc : option ncpConfig) (c : Config) : Config := {|
  NumTunaListeners := NumTunaListeners c;
  TunaDialTimeout := TunaDialTimeout c;
  TunaMaxPrice := TunaMaxPrice c;
  TunaNanoPayFee := TunaNanoPayFee c;
  TunaMinNanoPayFee := TunaMinNanoPayFee c;
  TunaNanoPayFeeRatio := TunaNanoPayFeeRatio c;
  TunaServiceName := TunaServiceName c;
  TunaSubscriptionPrefix := TunaSubscriptionPrefix c;
  TunaIPFilter := TunaIPFilter c;
  TunaNknFilter := TunaNknFilter c;
  TunaDownloadGeoDB := TunaDownloadGeoDB c;
  TunaGeoDBPath := TunaGeoDBPath c;
  TunaMeasureBandwidth := TunaMeasureBandwidth c;
  TunaMeasureStoragePath := TunaMeasureStoragePath c;
  TunaMeasurementBytesDownLink := TunaMeasurementBytesDownLink c;
  TunaMinBalance := TunaMinBalance c;
  SessionConfig := sc;
  ReconnectRetries := ReconnectRetries c;
  ReconnectInterval := ReconnectInterval c;
  UDPRecvBufferSize := UDPRecvBufferSize c;
  MaxUdpDatagramBuffered := MaxUdpDatagramBuffered c;
  Verbose := Verbose c
|}.

Definition defaultSessionConfig : ncpConfig := mkNcpConfig 1300.

(** Fresh copies of the package variables. *)
Definition DefaultSessionConfig : ncpConfig := defaultSessionConfig.

Definition DefaultConfig : Config :=
  set_session_config (Some DefaultSessionConfig)
    (set_filters (Some emptyIPFilter) (Some emptyNknFilter) defaultConfig).

(** ** The merge *)

(** Go's empty values: 0, the empty string, false, 0.0. *)
Definition ovZ (dst src : Z) : Z := if decide (src = 0%Z) then dst else src.
Definition ovS (dst src : string) : string := if decide (src = "") then dst else src.
Definition ovB (dst src : bool) : bool := dst || src.
Definition ovF (dst src : spec_float) : spec_float :=
  match src with S754_zero _ => dst | _ => src end.

(** A pointer to a struct: merged into the struct behind it. *)
Definition ovNcp (dst src : option ncpConfig) : option ncpConfig :=
  match dst, src with
  | Some d, Some s => Some (mkNcpConfig (ovZ (MTU d) (MTU s)))
  | None, s => s
  | d, None => d
  end.

Class MergeOps := MergeWithOverride : Config → Config → res Config.

Class MergeLaws `(MergeOps) : Prop := {
  merge_no_panic d s : is_panic (MergeWithOverride d s) = false;
  merge_fields d s r : MergeWithOverride d s = Ok r →
    NumTunaListeners r = ovZ (NumTunaListeners d) (NumTunaListeners s) ∧
    TunaDialTimeout r = ovZ (TunaDialTimeout d) (TunaDialTimeout s) ∧
    TunaMaxPrice r = ovS (TunaMaxPrice d) (TunaMaxPrice s) ∧
    TunaNanoPayFee r = ovS (TunaNanoPayFee d) (TunaNanoPayFee s) ∧
    TunaMinNanoPayFee r = ovS (TunaMinNanoPayFee d) (TunaMinNanoPayFee s) ∧
    TunaNanoPayFeeRatio r = ovF (TunaNanoPayFeeRatio d) (TunaNanoPayFeeRatio s) ∧
    TunaServiceName r = ovS (TunaServiceName d) (TunaServiceName s) ∧
    TunaSubscriptionPrefix r = ovS (TunaSubscriptionPrefix d) (TunaSubscriptionPrefix s) ∧
    TunaDownloadGeoDB r = ovB (TunaDownloadGeoDB d) (TunaDownloadGeoDB s) ∧
    TunaGeoDBPath r = ovS (TunaGeoDBPath d) (TunaGeoDBPath s) ∧
    TunaMeasureBandwidth r = ovB (TunaMeasureBandwidth d) (TunaMeasureBandwidth s) ∧
    TunaMeasureStoragePath r = ovS (TunaMeasureStoragePath d) (TunaMeasureStoragePath s) ∧
    TunaMeasurementBytesDownLink r =
      ovZ (TunaMeasurementBytesDownLink d) (TunaMeasurementBytesDownLink s) ∧
    TunaMinBalance r = ovS (TunaMinBalance d) (TunaMinBalance s) ∧
    SessionConfig r = ovNcp (SessionConfig d) (SessionConfig s) ∧
    ReconnectRetries r = ovZ (ReconnectRetries d) (ReconnectRetries s) ∧
    ReconnectInterval r = ovZ (ReconnectInterval d) (ReconnectInterval s) ∧
    UDPRecvBufferSize r = ovZ (UDPRecvBufferSize d) (UDPRecvBufferSize s) ∧
    MaxUdpDatagramBuffered r = ovZ (MaxUdpDatagramBuffered d) (MaxUdpDatagramBuffered s) ∧
    Verbose r = ovB (Verbose d) (Verbose s);
  (* the filters are opaque structs: a nil source pointer leaves them, otherwise the
     pointer is not nil afterwards *)
  merge_filters d s r : MergeWithOverride d s = Ok r →
    (TunaIPFilter s = None → TunaIPFilter r = TunaIPFilter d) ∧
    (TunaNknFilter s = None → TunaNknFilter r = TunaNknFilter d) ∧
    (is_Some (TunaIPFilter s) → is_Some (TunaIPFilter r)) ∧
    (is_Some (TunaNknFilter s) → is_Some (TunaNknFilter r))
}.

Section merge.
Context `{MO : MergeOps}.

(** [MergedConfig]: the defaults, overridden by what the caller set. *)
Definition MergedConfig (conf : option Config) : res Config :=
  let merged := DefaultConfig in
  match conf with
  | None => Ok merged
  | Some conf => MergeWithOverride merged conf
  end.

(** [SetConfig] on the configuration of a client: a filter that is given replaces the
    old one instead of being merged into it. *)
Definition SetConfig (conf : Config) : go Config unit :=
  cfg ← get;
  merged ← lift_res (MergeWithOverride cfg conf);
  modify (λ _, merged);;
  (if decide (is_Some (TunaIPFilter conf))
   then modify (λ c, set_filters (TunaIPFilter conf) (TunaNknFilter c) c) else mret tt);;
  (if decide (is_Some (TunaNknFilter conf))
   then modify (λ c, set_filters (TunaIPFilter c) (TunaNknFilter conf) c) else mret tt).

(** The pointers [newTunaExit] and [handleMsg] dereference without a test. *)
Definition config_ok (c : Config) : Prop :=
  is_Some (TunaIPFilter c) ∧ is_Some (TunaNknFilter c) ∧ is_Some (SessionConfig c).

Context `{!MergeLaws MO}.

Lemma ovNcp_some d s : is_Some d → is_Some (ovNcp d s).
Proof. destruct d, s; simpl; eauto. Qed.

Lemma merge_config_ok d s r : config_ok d → MergeWithOverride d s = Ok r → config_ok r.
Proof.
  intros (H1 & H2 & H3) Hr. pose proof (merge_filters _ _ _ Hr) as (F1 & F2 & F3 & F4).
  split_and!.
  - destruct (TunaIPFilter s); [eauto | by rewrite F1].
  - destruct (TunaNknFilter s); [eauto | by rewrite F2].
  - apply merge_fields in Hr. destruct_and!.
    match goal with H : SessionConfig r = _ |- _ => rewrite H end. by apply ovNcp_some.
Qed.

Lemma MergedConfig_ok conf r : MergedConfig conf = Ok r → config_ok r.
Proof.
  destruct conf as [conf|]; simpl.
  - intros Hr. eapply merge_config_ok; [| done]. repeat split; simpl; eauto.
  - intros [= <-]. repeat split; simpl; eauto.
Qed.

(** The configuration a client starts with is usable: the pointers the code
    dereferences without a test are set, and every field is the caller's value when it
    is not empty and the documented default otherwise. *)
Theorem MergedConfig_usable conf r :
  MergedConfig (Some conf) = Ok r →
  config_ok r ∧
  NumTunaListeners r = ovZ 4 (NumTunaListeners conf) ∧
  TunaDialTimeout r = ovZ 10000 (TunaDialTimeout conf) ∧
  TunaMaxPrice r = ovS "0" (TunaMaxPrice conf) ∧
  SessionConfig r = Some (mkNcpConfig (ovZ 1300 (from_option MTU 0%Z (SessionConfig conf)))) ∧
  ReconnectRetries r = ReconnectRetries conf ∧
  ReconnectInterval r = ovZ 2000 (ReconnectInterval conf) ∧
  UDPRecvBufferSize r = ovZ 1048576 (UDPRecvBufferSize conf) ∧
  MaxUdpDatagramBuffered r = ovZ 1024 (MaxUdpDatagramBuffered conf).
Proof.
  intros Hr. split; [by eapply MergedConfig_ok |]. simpl in Hr.
  apply merge_fields in Hr. destruct_and!. split_and!; try done.
  - etrans; [done |]. by destruct (SessionConfig conf).
  - etrans; [done |]. unfold ovZ. by case_decide.
Qed.

(** The merge, then the filters: the pointers stay set. *)
Lemma SetConfig_keeps conf c r c' :
  config_ok c → SetConfig conf c = (r, c') → config_ok c' ∧ is_panic r = false.
Proof.
  intros Hc. unfold SetConfig. go_unfold.
  destruct (MergeWithOverride c conf) as [m|e|p] eqn:Hm; [| by intros [= <- <-] |].
  2:{ pose proof (merge_no_panic c conf) as Hp. by rewrite Hm in Hp. }
  pose proof (merge_config_ok _ _ _ Hc Hm) as (H1 & H2 & H3).
  case_decide; case_decide; by intros [= <- <-].
Qed.


End merge.
End config.

(** ** A merge to evaluate with *)
Module ConfigRuns.

#[local] Instance demo_tuna : TunaOps := {
  IPFilter := list string; emptyIPFilter := [];
  NknFilter := list string; emptyNknFilter := [];
  DefaultReverseServiceName := "reverse"; DefaultSubscriptionPrefix := "tuna_v1."
}.

Definition ovP {A} (dst src : option A) : option A := from_option Some dst src.

#[local] Instance demo_merge : MergeOps := λ d s, Ok {|
  NumTunaListeners := ovZ (NumTunaListeners d) (NumTunaListeners s);
  TunaDialTimeout := ovZ (TunaDialTimeout d) (TunaDialTimeout s);
  TunaMaxPrice := ovS (TunaMaxPrice d) (TunaMaxPrice s);
  TunaNanoPayFee := ovS (TunaNanoPayFee d) (TunaNanoPayFee s);
  TunaMinNanoPayFee := ovS (TunaMinNanoPayFee d) (TunaMinNanoPayFee s);
  TunaNanoPayFeeRatio := ovF (TunaNanoPayFeeRatio d) (TunaNanoPayFeeRatio s);
  TunaServiceName := ovS (TunaServiceName d) (TunaServiceName s);
  TunaSubscriptionPrefix := ovS (TunaSubscriptionPrefix d) (TunaSubscriptionPrefix s);
  TunaIPFilter := ovP (TunaIPFilter d) (TunaIPFilter s);
  TunaNknFilter := ovP (TunaNknFilter d) (TunaNknFilter s);
  TunaDownloadGeoDB := ovB (TunaDownloadGeoDB d) (TunaDownloadGeoDB s);
  TunaGeoDBPath := ovS (TunaGeoDBPath d) (TunaGeoDBPath s);
  TunaMeasureBandwidth := ovB (TunaMeasureBandwidth d) (TunaMeasureBandwidth s);
  TunaMeasureStoragePath := ovS (TunaMeasureStoragePath d) (TunaMeasureStoragePath s);
  TunaMeasurementBytesDownLink :=
    ovZ (TunaMeasurementBytesDownLink d) (TunaMeasurementBytesDownLink s);
  TunaMinBalance := ovS (TunaMinBalance d) (TunaMinBalance s);
  SessionConfig := ovNcp (SessionConfig d) (SessionConfig s);
  ReconnectRetries := ovZ (ReconnectRetries d) (ReconnectRetries s);
  ReconnectInterval := ovZ (ReconnectInterval d) (ReconnectInterval s);
  UDPRecvBufferSize := ovZ (UDPRecvBufferSize d) (UDPRecvBufferSize s);
  MaxUdpDatagramBuffered := ovZ (MaxUdpDatagramBuffered d) (MaxUdpDatagramBuffered s);
  Verbose := ovB (Verbose d) (Verbose s)
|}.

#[local] Instance demo_merge_laws : MergeLaws demo_merge.
Proof.
  split; [done | |]; intros d s r [= <-]; simpl; [repeat split |].
  split_and!; [by intros -> | by intros -> | by intros [? ->]; eauto | by intros [? ->]; eauto].
Qed.

(** Two listeners, unlimited reconnects, everything else left empty. *)
Definition conf_demo : Config :=
  set_filters (Some ["US"]) None
    {| NumTunaListeners := 2; TunaDialTimeout := 0; TunaMaxPrice := "0.01"; TunaNanoPayFee := "";
       TunaMinNanoPayFee := ""; TunaNanoPayFeeRatio := S754_zero false; TunaServiceName := "";
       TunaSubscriptionPrefix := ""; TunaIPFilter := None; TunaNknFilter := None;
       TunaDownloadGeoDB := false; TunaGeoDBPath := ""; TunaMeasureBandwidth := false;
       TunaMeasureStoragePath := ""; TunaMeasurementBytesDownLink := 0; TunaMinBalance := "";
       SessionConfig := None; ReconnectRetries := -1; ReconnectInterval := 0;
       UDPRecvBufferSize := 0; MaxUdpDatagramBuffered := 0; Verbose := false |}.

(** What a client starts with when it is given [conf_demo]. *)
Definition merged_demo : Config :=
  match MergedConfig (Some conf_demo) with Ok c => c | _ => DefaultConfig end.

Lemma MergedConfig_usable_witness :
  config_ok merged_demo ∧
  NumTunaListeners merged_demo = ovZ 4 (NumTunaListeners conf_demo) ∧
  TunaDialTimeout merged_demo = ovZ 10000 (TunaDialTimeout conf_demo) ∧
  TunaMaxPrice merged_demo = ovS "0" (TunaMaxPrice conf_demo) ∧
  SessionConfig merged_demo =
    Some (mkNcpConfig (ovZ 1300 (from_option MTU 0%Z (SessionConfig conf_demo)))) ∧
  ReconnectRetries merged_demo = ReconnectRetries conf_demo ∧
  ReconnectInterval merged_demo = ovZ 2000 (ReconnectInterval conf_demo) ∧
  UDPRecvBufferSize merged_demo = ovZ 1048576 (UDPRecvBufferSize conf_demo) ∧
  MaxUdpDatagramBuffered merged_demo = ovZ 1024 (MaxUdpDatagramBuffered conf_demo).
Proof. apply (MergedConfig_usable conf_demo merged_demo). reflexivity. Defined.


End ConfigRuns.
