(* ===== verification/Node.v ===== *)
(** * node.go: choosing a tuna node at random, by weight

    [sortMeasuredNodes] sorts the measured nodes by weight and moves one of them, drawn
    with probability proportional to its weight, to the front.  Weights are float64:
    [spec_float] with Stdlib's executable IEEE operations. *)

From stdpp Require Import base list numbers tactics sorting.
From Stdlib Require Import ZArith Lia SpecFloat.
From S2P Require Import Prelude.

(** ** float64 *)
Definition f64mul : spec_float → spec_float → spec_float := SFmul 53 1024.
Definition f64add : spec_float → spec_float → spec_float := SFadd 53 1024.
Definition f64gt (x y : spec_float) : bool := SFltb y x.
Definition f64_of_Z (z : Z) : spec_float := binary_normalize 53 1024 z 0 false.
Definition f64half : spec_float := S754_finite false 4503599627370496 (-53).

(** [math.Pow(x, 4)]: the loop over the bits of 4 of the standard library. *)
Definition square (x1 : spec_float) (xe : Z) : spec_float * Z :=
  let x1 := f64mul x1 x1 in
  let xe := Z.shiftl xe 1 in
  if SFltb x1 f64half then (f64add x1 x1, (xe - 1)%Z) else (x1, xe).

Definition far (xe : Z) : bool := bool_decide (xe < -4096 ∨ 4096 < xe)%Z.

Definition pow4 (x : spec_float) : spec_float :=
  match x with
  | S754_nan => S754_nan
  | S754_zero _ => S754_zero false
  | S754_infinity _ => S754_infinity false
  | S754_finite _ _ _ =>
      let one := f64_of_Z 1 in
      if SFeqb x one then one else
      let '(x1, xe) := SFfrexp 53 1024 x in
      if far xe then SFldexp 53 1024 one xe else
      let '(x1, xe) := square x1 xe in
      if far xe then SFldexp 53 1024 one xe else
      let '(x1, xe) := square x1 xe in
      if far xe then SFldexp 53 1024 one xe else
      SFldexp 53 1024 (f64mul one x1) xe
  end.

Section node.

(** [types.Node] of tuna: two numbers of a type the package only adds and divides. *)
Context {node num : Type} (Bandwidth Delay : node → num).
Context (num_one : num) (num_add num_div : num → num → num) (float64_of : num → spec_float).

Definition nodeWeight (n : node) : spec_float :=
  pow4 (float64_of (num_div (num_add (Bandwidth n) num_one) (num_add (Delay n) num_one))).

(** [sortByWeight.Less] on two nodes, and [Swap] on two places. *)
Definition Less (a b : node) : bool := f64gt (nodeWeight a) (nodeWeight b).

Definition Swap (i j : nat) (ns : list node) : list node :=
  match ns !! i, ns !! j with
  | Some a, Some b => <[i := b]> (<[j := a]> ns)
  | _, _ => ns
  end.

(** [sort.Search]: binary search; [j - i] halves, so [j - i] turns are enough. *)
Fixpoint Search_loop (fuel i j : nat) (f : nat → bool) : nat :=
  match fuel with
  | 0 => i
  | S fuel =>
      if decide (i < j) then
        let h := (i + j) / 2 in
        if f h then Search_loop fuel i h f else Search_loop fuel (S h) j f
      else i
  end.

Definition Search (n : nat) (f : nat → bool) : nat := Search_loop n 0 n f.

(** The running sums of the weights. *)
Fixpoint cdf_from (acc : spec_float) (ns : list node) : list spec_float :=
  match ns with
  | [] => []
  | n :: ns => let s := f64add acc (nodeWeight n) in s :: cdf_from s ns
  end.

Definition cdf (ns : list node) : list spec_float :=
  match ns with
  | [] => []
  | n :: ns => nodeWeight n :: cdf_from (nodeWeight n) ns
  end.

(** [cdf[i] > v]; the search only asks below the length. *)
Definition cdf_above (l : list spec_float) (v : spec_float) (i : nat) : bool :=
  match l !! i with Some x => f64gt x v | None => true end.

(** [weightedRandomChoice]; [r] is the number [rand.Float64] draws. *)
Definition weightedRandomChoice (r : spec_float) (nodes : list node) : Z :=
  match nodes with
  | [] => (-1)%Z
  | _ =>
      let l := cdf nodes in
      let v := f64mul r (List.last l S754_nan) in
      Z.of_nat (Search (length l) (cdf_above l v) mod length l)
  end.

(** The loop that bubbles the chosen node to the front. *)
Fixpoint to_front (i : nat) (ns : list node) : list node :=
  match i with
  | 0 => ns
  | S i' => to_front i' (Swap i' i ns)
  end.

(** [sort.Sort] with a given order. *)
Context (sort : (node → node → bool) → list node → list node).

Definition sortMeasuredNodes (r : spec_float) (nodes : list node) : list node :=
  let nodes := sort Less nodes in
  let choice := weightedRandomChoice r nodes in
  if decide (0 < choice)%Z then to_front (Z.to_nat choice) nodes else nodes.

(** ** Facts *)

Lemma Search_loop_spec fuel i j f :
  i ≤ j → j - i ≤ fuel →
  (i = 0 ∨ f (i - 1) = false) →
  i ≤ Search_loop fuel i j f ≤ j ∧
  (Search_loop fuel i j f = 0 ∨ f (Search_loop fuel i j f - 1) = false) ∧
  (Search_loop fuel i j f < j → f (Search_loop fuel i j f) = true).
Proof.
  revert i j. induction fuel as [|fuel IH]; intros i j Hij Hf Hi; cbn [Search_loop].
  { split_and!; [lia | lia | done | intros; exfalso; lia]. }
  case_decide as Hlt; [| split_and!; [lia | lia | done | intros; exfalso; lia]].
  assert (i ≤ (i + j) / 2 < j) as [Hh1 Hh2].
  { split; [apply Nat.div_le_lower_bound; lia | apply Nat.Div0.div_lt_upper_bound; lia]. }
  set (h := (i + j) / 2) in *. destruct (f h) eqn:Hfh.
  - destruct (IH i h) as (H1 & H2 & H3); [lia | lia | done |].
    split_and!; [lia | lia | done |]. intros Hs. destruct (decide (Search_loop fuel i h f < h)).
    + auto.
    + by replace (Search_loop fuel i h f) with h by lia.
  - destruct (IH (S h) j) as (H1 & H2 & H3); [lia | lia | right |].
    { by replace (S h - 1) with h by lia. }
    split_and!; [lia | lia | done | done].
Qed.

Lemma Search_spec n f :
  Search n f ≤ n ∧ (Search n f = 0 ∨ f (Search n f - 1) = false) ∧
  (Search n f < n → f (Search n f) = true).
Proof.
  unfold Search. pose proof (Search_loop_spec n 0 n f) as H.
  destruct H as (H1 & H2 & H3); [lia | lia | auto |]. split_and!; [lia | done | done].
Qed.

Lemma length_cdf_from acc ns : length (cdf_from acc ns) = length ns.
Proof. revert acc. induction ns; intros; simpl; auto. Qed.

Lemma length_cdf ns : length (cdf ns) = length ns.
Proof. destruct ns; simpl; [done |]. by rewrite length_cdf_from. Qed.

Lemma length_Swap i j ns : length (Swap i j ns) = length ns.
Proof. unfold Swap. destruct (ns !! i), (ns !! j); rewrite ?length_insert; done. Qed.

Lemma Swap_adjacent l a b r :
  Swap (length l) (S (length l)) (l ++ a :: b :: r) = l ++ b :: a :: r.
Proof.
  unfold Swap. rewrite list_lookup_middle by done.
  rewrite lookup_app_r by lia. replace (S (length l) - length l) with 1 by lia. simpl.
  rewrite insert_app_r_alt by lia. replace (S (length l) - length l) with 1 by lia. simpl.
  by rewrite insert_app_r_alt, Nat.sub_diag by lia.
Qed.

(** The chosen node comes first, the others keep their order. *)
Lemma to_front_spec l a r : to_front (length l) (l ++ a :: r) = a :: l ++ r.
Proof.
  revert a r. induction l as [|b l IH] using rev_ind; intros a r; [done |].
  rewrite length_app, Nat.add_1_r. simpl. rewrite <- (assoc_L (++)). simpl.
  rewrite Swap_adjacent, IH. by rewrite <- (assoc_L (++)).
Qed.

Lemma choice_index r nodes :
  nodes ≠ [] → ∃ i, weightedRandomChoice r nodes = Z.of_nat i ∧ i < length nodes ∧
    let v := f64mul r (List.last (cdf nodes) S754_nan) in
    (i = 0 ∨ cdf_above (cdf nodes) v (i - 1) = false) ∧
    (cdf_above (cdf nodes) v i = true ∨
     i = 0 ∧ cdf_above (cdf nodes) v (length nodes - 1) = false).
Proof.
  intros Hne. unfold weightedRandomChoice.
  destruct nodes as [|n ns]; [done |]. rewrite length_cdf. clear Hne.
  set (nodes := n :: ns). set (v := f64mul _ _).
  assert (0 < length nodes) by (simpl; lia).
  destruct (Search_spec (length nodes) (cdf_above (cdf nodes) v)) as (H1 & H2 & H3).
  set (s := Search _ _) in *. destruct (decide (s = length nodes)) as [Hs|Hs].
  - exists 0. rewrite Hs, Nat.Div0.mod_same. split_and!; [done | done | by left |].
    right. split; [done |]. destruct H2 as [|H2]; [lia | by rewrite Hs in H2].
  - exists s. rewrite Nat.mod_small by lia. split_and!; [done | lia | done |]. left. apply H3. lia.
Qed.

(** [weightedRandomChoice] draws by weight: on a non-empty list it returns an
    index of the list, the one where the running sum of the weights first rises above
    the drawn fraction of the total (or, when rounding leaves none, the first node);
    the caller gets -1 only for the empty list. *)
Theorem weightedRandomChoice_spec r nodes :
  (nodes = [] → weightedRandomChoice r nodes = (-1)%Z) ∧
  (nodes ≠ [] → ∃ i, weightedRandomChoice r nodes = Z.of_nat i ∧ i < length nodes ∧
     let v := f64mul r (List.last (cdf nodes) S754_nan) in
     (i = 0 ∨ cdf_above (cdf nodes) v (i - 1) = false) ∧
     (cdf_above (cdf nodes) v i = true ∨
      i = 0 ∧ cdf_above (cdf nodes) v (length nodes - 1) = false)).
Proof. split; [by intros -> | apply choice_index]. Qed.

(** What [sort.Sort] promises: it only swaps, and when the order is a strict weak order
    no later element is less than an earlier one. *)
Definition strict_weak (lt : node → node → bool) : Prop :=
  (∀ a b, lt a b = true → lt b a = false) ∧
  (∀ a b c, lt a b = false → lt b c = false → lt a c = false).

Definition ordered (lt : node → node → bool) : list node → Prop :=
  StronglySorted (λ a b, lt b a = false).

Context (sort_perm : ∀ lt l, sort lt l ≡ₚ l).
Context (sort_sorted : ∀ lt l, strict_weak lt → ordered lt (sort lt l)).

Lemma ordered_delete lt l a r : ordered lt (l ++ a :: r) → ordered lt (l ++ r).
Proof.
  unfold ordered. induction l as [|b l IH]; simpl.
  - by inversion 1.
  - inversion_clear 1 as [|? ? H1 H2]. constructor; [auto |].
    rewrite Forall_app in *. rewrite Forall_cons in H2. tauto.
Qed.


End node.

(** ** Concrete runs *)
Module NodeRuns.

Section isort.
Context {A : Type} (lt : A → A → bool).

(** The insertion sort [sort.Sort] uses on short lists; the sorted part is kept with its
    last element first, the place where the comparisons start. *)
Fixpoint ins (x : A) (rp : list A) : list A :=
  match rp with
  | [] => [x]
  | y :: rp' => if lt x y then y :: ins x rp' else x :: rp
  end.

Definition isort (l : list A) : list A := reverse (foldl (λ rp x, ins x rp) [] l).

Lemma ins_perm x rp : ins x rp ≡ₚ x :: rp.
Proof.
  induction rp as [|y rp IH]; simpl; [done |]. destruct (lt x y); [| done].
  rewrite IH. apply Permutation_swap.
Qed.

Lemma foldl_ins_perm l rp : foldl (λ rp x, ins x rp) rp l ≡ₚ l ++ rp.
Proof.
  revert rp. induction l as [|x l IH]; intros rp; simpl; [done |].
  rewrite IH, ins_perm. symmetry. apply Permutation_middle.
Qed.

Lemma isort_perm l : isort l ≡ₚ l.
Proof. unfold isort. rewrite reverse_Permutation, foldl_ins_perm. by rewrite app_nil_r. Qed.

Context (Hlt : (∀ a b, lt a b = true → lt b a = false) ∧
  (∀ a b c, lt a b = false → lt b c = false → lt a c = false)).

Lemma ins_sorted x rp :
  StronglySorted (λ a b, lt a b = false) rp → StronglySorted (λ a b, lt a b = false) (ins x rp).
Proof.
  destruct Hlt as [Has Hnt].
  induction 1 as [|y rp Hs IH Hy]; simpl; [repeat constructor |].
  destruct (lt x y) eqn:E; constructor; [done | | by constructor |].
  - rewrite ins_perm. constructor; auto.
  - constructor; [done |]. eapply Forall_impl; [done |]. intros z. eauto.
Qed.

Lemma SS_snoc l x :
  StronglySorted (λ a b, lt b a = false) l → Forall (λ y, lt x y = false) l →
  StronglySorted (λ a b, lt b a = false) (l ++ [x]).
Proof.
  induction 1 as [|y l Hs IH Hy]; intros Hf; simpl; [repeat constructor |].
  apply Forall_cons in Hf as [Hxy Hf]. constructor; [auto |].
  apply Forall_app. split; [done | by repeat constructor].
Qed.

Lemma SS_reverse rp :
  StronglySorted (λ a b, lt a b = false) rp → StronglySorted (λ a b, lt b a = false) (reverse rp).
Proof.
  induction 1 as [|y rp Hs IH Hy]; [constructor |]. rewrite reverse_cons.
  apply SS_snoc; [done |]. by rewrite reverse_Permutation.
Qed.

Lemma isort_sorted l : StronglySorted (λ a b, lt b a = false) (isort l).
Proof.
  apply SS_reverse.
  assert (∀ rp, StronglySorted (λ a b, lt a b = false) rp →
    StronglySorted (λ a b, lt a b = false) (foldl (λ rp x, ins x rp) rp l)) as H.
  { induction l as [|x l IH]; intros rp Hrp; simpl; [done |]. apply IH. by apply ins_sorted. }
  apply H. constructor.
Qed.

End isort.

(** A node with float32 measurements. *)
Definition f32 (z : Z) : spec_float := binary_normalize 24 128 z 0 false.
Definition f32_to_f64 (x : spec_float) : spec_float :=
  match x with
  | S754_finite s m e => binary_normalize 53 1024 (cond_Zopp s (Zpos m)) e s
  | _ => x
  end.

Definition demo_sortMeasured (r : spec_float) (ns : list (spec_float * spec_float)) :=
  sortMeasuredNodes fst snd (f32 1) (SFadd 24 128) (SFdiv 24 128) f32_to_f64 (@isort _) r ns.

(** Weights 1, 16 and 81: half of the total falls to the third. *)
Definition nodes_demo : list (spec_float * spec_float) :=
  [(f32 0, f32 0); (f32 1, f32 0); (f32 2, f32 0)].


End NodeRuns.
