(* ===== verification/Table.v ===== *)
(** * The maps of TunaSessionClient and their critical sections

    [Table] is what the client's [RWMutex] protects: the sessions, their connections,
    the connection counters, the keys of closed sessions, and the cache of public
    addresses with its counters.  Each definition below is one critical section of
    client.go; the goroutines that run them interleave ([TableInv]). *)

From stdpp Require Import base gmap strings list numbers tactics pretty.
From Stdlib Require Import ZArith Lia.
From S2P Require Import Prelude Util.
Import Keys.

(** ** The expiring cache of closed session keys (go-cache)

    [Add] stores a key unless an unexpired entry is there; [Get] reports an unexpired
    entry.  Times are nanoseconds. *)
Definition closedSessionKeyExpiration : Z := 5 * 60 * 1000000000.

Class CacheOps := {
  cache : Type;
  cache_New : cache;
  cache_Get : Z → string → cache → bool;
  cache_Add : Z → string → cache → cache
}.

Class CacheLaws `(CacheOps) : Prop := {
  get_new t k : cache_Get t k cache_New = false;
  get_add t t' k c :
    cache_Get t k c = false → (t ≤ t')%Z →
    cache_Get t' k (cache_Add t k c) = bool_decide (t' ≤ t + closedSessionKeyExpiration)%Z;
  get_expired t t' k c : cache_Get t k c = false → (t ≤ t')%Z → cache_Get t' k c = false;
  add_present t k c : cache_Get t k c = true → cache_Add t k c = c;
  get_add_other t t' k k' c : k ≠ k' → cache_Get t' k' (cache_Add t k c) = cache_Get t' k' c
}.

(** ** Public addresses (message.go) *)

Record PubAddr := mkPubAddr {
  IP : string;
  Port : Z;
  InPrice : string;
  OutPrice : string
}.

Definition PubAddr_String (pa : PubAddr) : string := IP pa +:+ ":" +:+ pretty (Port pa).

Record PubAddrs := mkPubAddrs {
  Addrs : list (option PubAddr);      (* []*PubAddr *)
  SessionClosed : bool
}.

(** ** The table *)

Section table.
Context `{CO : CacheOps}.

Record Table := mkTable {
  sessions : gmap string nat;                       (* map[string]*ncp.Session *)
  sessionConns : gmap string (gmap string nat);     (* map[string]map[string]*Conn *)
  connCount : gmap string Z;
  closedSessionKey : cache;
  pubAddrs : gmap string PubAddrs;
  addrConnCount : gmap string (gmap string Z)
}.

Definition newTable : Table := mkTable ∅ ∅ ∅ cache_New ∅ ∅.

(** [m[k]++] and [m[k]--] on a map of integers. *)
Definition bump (d : Z) (k : string) (m : gmap string Z) : gmap string Z :=
  <[k := (default 0 (m !! k) + d)%Z]> m.

(** The connection registered under a session key and a connection id; reading from a
    nil map finds nothing. *)
Definition conn_of (t : Table) (sessKey id : string) : option nat :=
  sessionConns t !! sessKey ≫= λ m, m !! id.

(** [handleConn], first critical section: the session, and one more connection for it
    and for the address; [None] when the session is not there. *)
Definition connEnter (sessKey remoteAddr connStr : string) (t : Table) : option (nat * Table) :=
  match sessions t !! sessKey with
  | None => None
  | Some sess =>
      let counts := match addrConnCount t !! remoteAddr with
                    | Some tcpCount => bump 1 connStr tcpCount
                    | None => bump 1 connStr ∅
                    end in
      Some (sess,
        mkTable (sessions t) (sessionConns t) (bump 1 sessKey (connCount t))
          (closedSessionKey t) (pubAddrs t) (<[remoteAddr := counts]> (addrConnCount t)))
  end.

(** The counters of the addresses after a connection is gone, and whether a count
    dropped to zero; writing to a nil map panics. *)
Definition addrRelease (remoteAddr connStr : string) (m : gmap string (gmap string Z))
    : res (gmap string (gmap string Z) * bool) :=
  match m !! remoteAddr with
  | None => Panic NilMapWrite
  | Some tcpCount =>
      let tcpCount := bump (-1) connStr tcpCount in
      if decide (default 0 (tcpCount !! connStr) ≤ 0)%Z then
        let tcpCount := delete connStr tcpCount in
        Ok (if decide (tcpCount = ∅) then delete remoteAddr m
            else <[remoteAddr := tcpCount]> m, true)
      else Ok (<[remoteAddr := tcpCount]> m, false)
  end.

(** Forget a session: the three maps, and the key recorded as closed. *)
Definition dropSession (now : Z) (sessKey : string) (t : Table) : Table :=
  mkTable (delete sessKey (sessions t)) (delete sessKey (sessionConns t))
    (delete sessKey (connCount t)) (cache_Add now sessKey (closedSessionKey t))
    (pubAddrs t) (addrConnCount t).

(** [handleConn], deferred critical section; the result tells whether the session is to
    be closed. *)
Definition connExit (now : Z) (sessKey remoteAddr connStr : string) (i : Z) (t : Table)
    : res (bool * Table) :=
  let count := bump (-1) sessKey (connCount t) in
  let conns := alter (delete (connID i)) sessKey (sessionConns t) in
  '(counts, dropped) ← addrRelease remoteAddr connStr (addrConnCount t);
  let addrs := if dropped : bool then delete remoteAddr (pubAddrs t) else pubAddrs t in
  let t := mkTable (sessions t) conns count (closedSessionKey t) addrs counts in
  let shouldClose := bool_decide (default 0 (count !! sessKey) = 0)%Z in
  mret (shouldClose, if shouldClose then dropSession now sessKey t else t).

(** [listenNet], the critical section of a new connection.  [mk] makes the session. *)
Inductive registered := RegOld (sess : nat) | RegNew (sess : nat) | RegRefused.

Definition putConn (sessKey id : string) (conn : nat) (t : Table) : res Table :=
  match sessionConns t !! sessKey with
  | None => Panic NilMapWrite
  | Some m =>
      Ok (mkTable (sessions t) (<[sessKey := <[id := conn]> m]> (sessionConns t)) (connCount t)
            (closedSessionKey t) (pubAddrs t) (addrConnCount t))
  end.

Definition registerConn (now : Z) (sessKey : string) (i : Z) (conn : nat) (mk : res nat) (t : Table)
    : res (registered * Table) :=
  match sessions t !! sessKey with
  | Some sess => t' ← putConn sessKey (connID i) conn t; mret (RegOld sess, t')
  | None =>
      if cache_Get now sessKey (closedSessionKey t) then mret (RegRefused, t)
      else
        match mk with
        | Ok sess =>
            let t := mkTable (<[sessKey := sess]> (sessions t)) (<[sessKey := ∅]> (sessionConns t))
                       (connCount t) (closedSessionKey t) (pubAddrs t) (addrConnCount t) in
            t' ← putConn sessKey (connID i) conn t; mret (RegNew sess, t')
        | Err _ => mret (RegRefused, t)
        | Panic p => Panic p
        end
  end.

(** [dialTcpConn], last critical section: the connection of a TCP session that is being
    dialed. *)
Definition dialPut (sessKey : string) (i : Z) (conn : nat) (t : Table) : Table :=
  let conns := default ∅ (sessionConns t !! sessKey) in
  mkTable (sessions t) (<[sessKey := <[connID i := conn]> conns]> (sessionConns t)) (connCount t)
    (closedSessionKey t) (pubAddrs t) (addrConnCount t).

(** [DialWithConfig]: the session that was dialed. *)
Definition dialSession (sessKey : string) (sess : nat) (t : Table) : Table :=
  mkTable (<[sessKey := sess]> (sessions t)) (sessionConns t) (connCount t)
    (closedSessionKey t) (pubAddrs t) (addrConnCount t).

(** [getPubAddrsFromRemote]: remember the addresses of a peer. *)
Definition storePubAddrs (remoteAddr : string) (pa : PubAddrs) (t : Table) : Table :=
  mkTable (sessions t) (sessionConns t) (connCount t) (closedSessionKey t)
    (<[remoteAddr := pa]> (pubAddrs t)) (addrConnCount t).

(** [removeClosedSessions], one pass: every session that reports to be closed is
    forgotten; the result lists the connections that are closed. *)
Definition removePass (now : Z) (closed : nat → bool) (t : Table) : list nat * Table :=
  foldl (λ '(cs, t) '(sessKey, sess),
    if closed sess
    then (cs ++ (map_to_list (default ∅ (sessionConns t !! sessKey))).*2, dropSession now sessKey t)
    else (cs, t)) ([], t) (map_to_list (sessions t)).

(** [IsSessClosed]. *)
Definition IsSessClosed (now : Z) (closed : nat → bool) (sessKey : string) (t : Table) : bool :=
  match sessions t !! sessKey with
  | Some sess => closed sess
  | None => cache_Get now sessKey (closedSessionKey t)
  end.

(** [getCachedPubAddrs]: the cached addresses of a peer, when each of them still has a
    connection. *)
Fixpoint all_counted (counts : option (gmap string Z)) (addrs : list (option PubAddr)) : bool :=
  match addrs with
  | [] => true
  | None :: _ => false
  | Some a :: addrs =>
      match counts with
      | Some tcpCount =>
          if decide (default 0 (tcpCount !! PubAddr_String a) ≤ 0)%Z then false
          else all_counted counts addrs
      | None => false
      end
  end.

Definition getCachedPubAddrs (remoteAddr : string) (t : Table) : option PubAddrs :=
  cachedAddr ← pubAddrs t !! remoteAddr;
  if all_counted (addrConnCount t !! remoteAddr) (Addrs cachedAddr) then Some cachedAddr else None.

(** [CloseOneConn]: the connection it closes; a missing one is a nil pointer whose
    [Close] panics. *)
Definition closeOneConn (sess : nat) (connId : string) (t : Table) : res (option nat) :=
  match list_find (λ '(_, s), s = sess) (map_to_list (sessions t)) with
  | Some (_, (key, _)) =>
      match conn_of t key connId with
      | Some conn => Ok (Some conn)
      | None => Panic NilDeref
      end
  | None => Ok None
  end.

End table.

(** A cache that keeps the expiration time of each key. *)
#[local] Instance map_cache : CacheOps := {
  cache := gmap string Z;
  cache_New := ∅;
  cache_Get t k c := match c !! k with Some x => bool_decide (t ≤ x)%Z | None => false end;
  cache_Add t k c :=
    if match c !! k with Some x => bool_decide (t ≤ x)%Z | None => false end then c
    else <[k := (t + closedSessionKeyExpiration)%Z]> c
}.

#[local] Instance map_cache_laws : CacheLaws map_cache.
Proof.
  split; simpl.
  - intros. by rewrite lookup_empty.
  - intros t t' k c H Ht. rewrite H. by rewrite lookup_insert_eq.
  - intros t t' k c H Ht. destruct (c !! k); [| done].
    apply bool_decide_eq_false in H. apply bool_decide_eq_false. lia.
  - intros t k c H. by rewrite H.
  - intros t t' k k' c Hk. destruct (match c !! k with Some x => _ | None => _ end); [done |].
    by rewrite lookup_insert_ne.
Qed.
