(* ===== verification/TableInv.v ===== *)
(** * Interleavings of the client's critical sections

    Goroutines of [listenNet], [handleConn], [DialWithConfig], [dialTcpConn],
    [getPubAddrsFromRemote] and [removeClosedSessions] run the critical sections of
    [Table] in any order.  [tstep] is one such section; [live] records the calls of
    [handleConn] that are between their two sections.  The theorems hold in every
    reachable state. *)

From stdpp Require Import base gmap gmultiset strings list numbers tactics relations.
From Stdlib Require Import ZArith Lia.
From S2P Require Import Prelude Util Table.
Import Keys.

Section inv.
Context `{CO : CacheOps}.

(** A call of [handleConn] between its two critical sections. *)
Record handler := mkHandler {
  h_key : string;        (* session key *)
  h_remote : string;     (* remote address *)
  h_conn : string;       (* conn.RemoteAddr().String() *)
  h_i : Z                (* index of the connection *)
}.

Record tstate := mkT {
  tab : Table;
  live : list handler;
  clock : Z
}.

Definition tstart : tstate := mkT newTable [] 0.

(** One critical section.  With [cleaner = false] the passes of [removeClosedSessions]
    are left out.  [ts_dial] is the end of [DialWithConfig]: its connections are still
    registered (what happens when they are not is [dial_race_panics]). *)
Inductive tstep (cleaner : bool) : tstate → tstate → Prop :=
  | ts_enter t l now key remote conn i sess t' :
      connEnter key remote conn t = Some (sess, t') →
      tstep cleaner (mkT t l now) (mkT t' (mkHandler key remote conn i :: l) now)
  | ts_exit t l1 l2 now h b t' :
      connExit now (h_key h) (h_remote h) (h_conn h) (h_i h) t = Ok (b, t') →
      tstep cleaner (mkT t (l1 ++ h :: l2) now) (mkT t' (l1 ++ l2) now)
  | ts_register t l now key i conn mk r t' :
      registerConn now key i conn mk t = Ok (r, t') →
      tstep cleaner (mkT t l now) (mkT t' l now)
  | ts_dialput t l now key i conn :
      tstep cleaner (mkT t l now) (mkT (dialPut key i conn t) l now)
  | ts_dial t l now key sess :
      is_Some (sessionConns t !! key) → sessions t !! key = None →
      tstep cleaner (mkT t l now) (mkT (dialSession key sess t) l now)
  | ts_store t l now remote pa :
      tstep cleaner (mkT t l now) (mkT (storePubAddrs remote pa t) l now)
  | ts_remove t l now closed :
      cleaner = true →
      tstep cleaner (mkT t l now) (mkT (removePass now closed t).2 l now)
  | ts_tick t l now now' :
      (now ≤ now')%Z → tstep cleaner (mkT t l now) (mkT t l now').

Definition reachable (cleaner : bool) : tstate → Prop := rtc (tstep cleaner) tstart.

(** An invariant of the steps holds in every reachable state. *)
Lemma reachable_ind cleaner (P : tstate → Prop) :
  P tstart → (∀ s s', P s → tstep cleaner s s' → P s') → ∀ s, reachable cleaner s → P s.
Proof.
  intros H0 Hstep. apply (rtc_ind_r P tstart); eauto.
Qed.

(** ** The address counters and the cache of public addresses

    Their specification: a multiset of live connections (address of the peer, address
    of the connection), and the cached public addresses of each peer, dropped when one
    of the connections of the peer is the last of its kind to go. *)
Record Spec := mkSpec {
  sp_live : gmultiset (string * string);
  sp_cached : gmap string PubAddrs
}.

Definition spec_exit (r c : string) (s : Spec) : Spec :=
  let live' := sp_live s ∖ {[+ (r, c) +]} in
  mkSpec live' (if decide ((r, c) ∈ live') then sp_cached s else delete r (sp_cached s)).

Definition served (r : string) (X : gmultiset (string * string)) (oa : option PubAddr) : bool :=
  match oa with
  | Some a => bool_decide ((r, PubAddr_String a) ∈ X)
  | None => false
  end.

Definition spec_get (r : string) (s : Spec) : option PubAddrs :=
  pa ← sp_cached s !! r;
  if forallb (served r (sp_live s)) (Addrs pa) then Some pa else None.

Definition count_in (m : gmap string (gmap string Z)) (r c : string) : Z :=
  default 0%Z (m !! r ≫= λ inner, inner !! c).

(** The counters represent a multiset: exact counts, no empty inner map, no zero. *)
Record represents (m : gmap string (gmap string Z)) (X : gmultiset (string * string)) : Prop := {
  rep_count : ∀ r c, count_in m r c = Z.of_nat (multiplicity (r, c) X);
  rep_nonempty : ∀ r inner, m !! r = Some inner → inner ≠ ∅;
  rep_positive : ∀ r inner c z, m !! r = Some inner → inner !! c = Some z → (0 < z)%Z
}.

Lemma represents_empty : represents ∅ ∅.
Proof.
  split; unfold count_in.
  - intros r c. by rewrite lookup_empty, multiplicity_empty.
  - intros r inner H. by rewrite lookup_empty in H.
  - intros r inner c z H. by rewrite lookup_empty in H.
Qed.

Lemma bump_lookup d k j (m : gmap string Z) :
  default 0%Z (bump d k m !! j) = (default 0 (m !! j) + if decide (k = j) then d else 0)%Z.
Proof.
  unfold bump. case_decide as E; [subst; by rewrite lookup_insert_eq |].
  rewrite lookup_insert_ne by done. lia.
Qed.

Lemma count_in_insert m r inner r' c :
  count_in (<[r := inner]> m) r' c =
  if decide (r = r') then default 0%Z (inner !! c) else count_in m r' c.
Proof.
  unfold count_in. case_decide as E; [subst; by rewrite lookup_insert_eq |].
  by rewrite lookup_insert_ne.
Qed.

(** Replacing, or removing, the counts of one peer. *)
Lemma represents_insert m X X' r inner :
  represents m X →
  (∀ c, default 0%Z (inner !! c) = Z.of_nat (multiplicity (r, c) X')) →
  (∀ r' c, r' ≠ r → multiplicity (r', c) X' = multiplicity (r', c) X) →
  (∀ c z, inner !! c = Some z → (0 < z)%Z) → inner ≠ ∅ →
  represents (<[r := inner]> m) X'.
Proof.
  intros [Hc Hn Hp] Hi Ho Hpos Hne. split.
  - intros r' c. rewrite count_in_insert. case_decide as E; [subst; apply Hi |].
    rewrite Ho by done. apply Hc.
  - intros r' i. destruct (decide (r = r')) as [<-|];
      [rewrite lookup_insert_eq; congruence | rewrite lookup_insert_ne by done; eauto].
  - intros r' i c z. destruct (decide (r = r')) as [<-|];
      [rewrite lookup_insert_eq; intros [= <-]; eauto | rewrite lookup_insert_ne by done; eauto].
Qed.

Lemma represents_delete m X X' r :
  represents m X → (∀ c, multiplicity (r, c) X' = 0) →
  (∀ r' c, r' ≠ r → multiplicity (r', c) X' = multiplicity (r', c) X) →
  represents (delete r m) X'.
Proof.
  intros [Hc Hn Hp] Hi Ho. split.
  - intros r' c. unfold count_in. destruct (decide (r = r')) as [<-|].
    + by rewrite lookup_delete_eq, Hi.
    + rewrite lookup_delete_ne, Ho by done. apply Hc.
  - intros r' i [? ?]%lookup_delete_Some. eauto.
  - intros r' i c z [? ?]%lookup_delete_Some. eauto.
Qed.

(** The counts of one peer, as the multiset has them. *)
Lemma represents_inner m X r :
  represents m X → ∀ c, default 0%Z (default ∅ (m !! r) !! c) = Z.of_nat (multiplicity (r, c) X).
Proof.
  intros [Hc _ _] c. rewrite <- Hc. unfold count_in. destruct (m !! r); simpl; [done |].
  by rewrite lookup_empty.
Qed.

Lemma represents_inner_pos m X r c z :
  represents m X → default ∅ (m !! r) !! c = Some z → (0 < z)%Z.
Proof.
  intros [_ _ Hp] H. destruct (m !! r) eqn:E; simpl in H; [by eapply Hp | by rewrite lookup_empty in H].
Qed.

Lemma bump_positive d c (inner : gmap string Z) :
  (∀ x z, inner !! x = Some z → (0 < z)%Z) → (0 < default 0 (inner !! c) + d)%Z →
  ∀ x z, bump d c inner !! x = Some z → (0 < z)%Z.
Proof.
  intros Hi Hd x z. unfold bump. destruct (decide (c = x)) as [<-|];
    [rewrite lookup_insert_eq; intros [= <-]; done | rewrite lookup_insert_ne by done; eauto].
Qed.

Lemma mult_add (X : gmultiset (string * string)) r c r' c' :
  multiplicity (r', c') (X ⊎ {[+ (r, c) +]}) =
  multiplicity (r', c') X + if decide (r' = r ∧ c' = c) then 1 else 0.
Proof.
  rewrite multiplicity_disj_union, multiplicity_singleton. f_equal.
  apply decide_ext. split; [by intros [=] | by intros [-> ->]].
Qed.

Lemma mult_sub (X : gmultiset (string * string)) r c r' c' :
  multiplicity (r', c') (X ∖ {[+ (r, c) +]}) =
  multiplicity (r', c') X - if decide (r' = r ∧ c' = c) then 1 else 0.
Proof.
  rewrite multiplicity_difference, multiplicity_singleton. f_equal.
  apply decide_ext. split; [by intros [=] | by intros [-> ->]].
Qed.

(** Entering adds the connection to the multiset. *)
Lemma represents_enter m X r c :
  represents m X →
  represents (<[r := match m !! r with Some inner => bump 1 c inner | None => bump 1 c ∅ end]> m)
    (X ⊎ {[+ (r, c) +]}).
Proof.
  intros HX. replace (match m !! r with Some inner => _ | None => _ end)
    with (bump 1 c (default ∅ (m !! r))) by (by destruct (m !! r)).
  pose proof (represents_inner m X r HX) as Hi.
  apply (represents_insert m X); [done | | | |].
  - intros c'. rewrite bump_lookup, Hi, mult_add. repeat case_decide; naive_solver lia.
  - intros r' c' Hr. rewrite mult_add, decide_False by naive_solver. lia.
  - apply bump_positive; [intros; by eapply represents_inner_pos | rewrite Hi; lia].
  - apply insert_non_empty.
Qed.

(** Leaving removes it, and tells whether it was the last of its kind; the map of the
    peer is never missing. *)
Lemma represents_exit m X r c :
  represents m X → (r, c) ∈ X →
  ∃ m', addrRelease r c m = Ok (m', bool_decide ((r, c) ∉ X ∖ {[+ (r, c) +]})) ∧
    represents m' (X ∖ {[+ (r, c) +]}).
Proof.
  intros HX Hin. rewrite elem_of_multiplicity in Hin.
  pose proof (represents_inner m X r HX) as Hi.
  pose proof (λ x z, represents_inner_pos m X r x z HX) as Hp.
  assert ((r, c) ∉ X ∖ {[+ (r, c) +]} ↔ multiplicity (r, c) X = 1) as Hlast.
  { rewrite elem_of_multiplicity, mult_sub, decide_True by done. lia. }
  assert (∀ r' c', r' ≠ r → multiplicity (r', c') (X ∖ {[+ (r, c) +]}) = multiplicity (r', c') X) as Ho.
  { intros r' c' Hr. rewrite mult_sub, decide_False by naive_solver. lia. }
  unfold addrRelease. destruct (m !! r) as [inner|] eqn:Er; simpl in Hi, Hp.
  2:{ specialize (Hi c). rewrite lookup_empty in Hi. simpl in Hi. lia. }
  rewrite bump_lookup, (decide_True (P := c = c)), Hi by done. case_decide as Hz.
  - eexists. split; [rewrite bool_decide_true by (apply Hlast; lia); reflexivity |].
    replace (delete c (bump (-1) c inner)) with (delete c inner) by (unfold bump; by rewrite delete_insert_eq).
    assert (∀ c', default 0%Z (delete c inner !! c') =
                  Z.of_nat (multiplicity (r, c') (X ∖ {[+ (r, c) +]}))) as Hd.
    { intros c'. rewrite mult_sub. destruct (decide (c = c')) as [<-|].
      - rewrite lookup_delete_eq, decide_True by done. simpl. lia.
      - rewrite lookup_delete_ne, Hi, decide_False by naive_solver. lia. }
    case_decide as He.
    + apply (represents_delete m X); [done | | done].
      intros c'. specialize (Hd c'). rewrite He, lookup_empty in Hd. simpl in Hd. lia.
    + apply (represents_insert m X); [done.. | | done].
      intros c' z [? ?]%lookup_delete_Some. eauto.
  - eexists. split; [rewrite bool_decide_false by (rewrite Hlast; lia); reflexivity |].
    apply (represents_insert m X); [done | | done | | apply insert_non_empty].
    + intros c'. rewrite bump_lookup, Hi, mult_sub. repeat case_decide; naive_solver lia.
    + apply bump_positive; [done | rewrite Hi; lia].
Qed.

(** *** The simulation *)

Inductive spec_step : Spec → Spec → Prop :=
  | sp_enter s r c : spec_step s (mkSpec (sp_live s ⊎ {[+ (r, c) +]}) (sp_cached s))
  | sp_exit s r c : (r, c) ∈ sp_live s → spec_step s (spec_exit r c s)
  | sp_store s r pa : spec_step s (mkSpec (sp_live s) (<[r := pa]> (sp_cached s))).

Definition live_set (l : list handler) : gmultiset (string * string) :=
  list_to_set_disj ((λ h, (h_remote h, h_conn h)) <$> l).

Record refines (s : tstate) (S : Spec) : Prop := {
  ref_counts : represents (addrConnCount (tab s)) (sp_live S);
  ref_live : sp_live S = live_set (live s);
  ref_cached : sp_cached S = pubAddrs (tab s)
}.

Lemma live_set_middle l1 h l2 :
  live_set (l1 ++ h :: l2) = live_set (l1 ++ l2) ⊎ {[+ (h_remote h, h_conn h) +]}.
Proof.
  unfold live_set. rewrite !fmap_app, fmap_cons, !list_to_set_disj_app, list_to_set_disj_cons.
  multiset_solver.
Qed.

Lemma live_set_cons h l : live_set (h :: l) = live_set l ⊎ {[+ (h_remote h, h_conn h) +]}.
Proof. apply (live_set_middle []). Qed.

(** What the sections of the sessions leave alone. *)
Definition same_addrs (t t' : Table) : Prop :=
  addrConnCount t' = addrConnCount t ∧ pubAddrs t' = pubAddrs t.

Lemma registerConn_addrs now key i conn mk t r t' :
  registerConn now key i conn mk t = Ok (r, t') → same_addrs t t'.
Proof.
  unfold registerConn, putConn, mbind, res_bind, mret, res_ret. intros H. go_cases; done.
Qed.

Lemma removePass_addrs now closed t : same_addrs t (removePass now closed t).2.
Proof.
  unfold removePass. generalize (map_to_list (sessions t)) as l. intros l.
  assert (∀ cs t0, same_addrs t t0 → same_addrs t (foldl (λ '(cs, t) '(sessKey, sess),
    if closed sess
    then (cs ++ (map_to_list (default ∅ (sessionConns t !! sessKey))).*2, dropSession now sessKey t)
    else (cs, t)) (cs, t0) l).2) as H; [| by apply H].
  induction l as [|[key sess] l IH]; intros cs t0 H0; simpl; [done |].
  destruct (closed sess); by apply IH.
Qed.

(** [connExit] in terms of the specification. *)
Lemma connExit_refines now key r c i t X :
  represents (addrConnCount t) X → (r, c) ∈ X →
  ∃ b t', connExit now key r c i t = Ok (b, t') ∧
    represents (addrConnCount t') (X ∖ {[+ (r, c) +]}) ∧
    pubAddrs t' = if decide ((r, c) ∈ X ∖ {[+ (r, c) +]}) then pubAddrs t else delete r (pubAddrs t).
Proof.
  intros HX Hin. destruct (represents_exit _ _ r c HX Hin) as (m' & Hr & Hm').
  unfold connExit. rewrite Hr. cbn. eexists _, _. split; [done |].
  destruct (bool_decide (default 0%Z _ = 0%Z)); simpl; (split; [done |]); repeat case_decide;
    by rewrite ?bool_decide_true, ?bool_decide_false by (by try intros ?).
Qed.

Lemma refines_step cleaner s s' S :
  refines s S → tstep cleaner s s' → ∃ S', rtc spec_step S S' ∧ refines s' S'.
Proof.
  intros [Hc Hl Hp] Hs. destruct Hs as [t l now key r c i sess t' He|t l1 l2 now h b t' He
    |t l now key i conn mk rg t' He| | | |t l now closed _|]; simpl in *.
  - unfold connEnter in He. case_match; simplify_eq. eexists. split; [apply rtc_once, (sp_enter _ r c) |].
    split; simpl; [by apply represents_enter | by rewrite Hl, live_set_cons | done].
  - assert ((h_remote h, h_conn h) ∈ sp_live S) as Hin by (rewrite Hl, live_set_middle; multiset_solver).
    destruct (connExit_refines now (h_key h) _ _ (h_i h) _ _ Hc Hin) as (b' & t'' & He' & Hc' & Hp').
    rewrite He in He'. simplify_eq. eexists. split; [by apply rtc_once, sp_exit |].
    split; simpl; [done | | by rewrite Hp, Hp']. rewrite Hl, live_set_middle. multiset_solver.
  - apply registerConn_addrs in He as [H1 H2]. exists S. split; [done |]. split; simpl; by rewrite ?H1, ?H2.
  - by exists S.
  - by exists S.
  - eexists. split; [apply rtc_once, (sp_store _ remote pa) |]. split; simpl; [done.. | by rewrite Hp].
  - destruct (removePass_addrs now closed t) as [H1 H2]. exists S. split; [done |].
    split; simpl; by rewrite ?H1, ?H2.
  - by exists S.
Qed.

Lemma refines_start : refines tstart (mkSpec ∅ ∅).
Proof. split; simpl; [apply represents_empty | done | done]. Qed.

Lemma reachable_refines cleaner s :
  reachable cleaner s → ∃ S, rtc spec_step (mkSpec ∅ ∅) S ∧ refines s S.
Proof.
  revert s. apply (reachable_ind cleaner (λ s, ∃ S, rtc spec_step (mkSpec ∅ ∅) S ∧ refines s S)).
  - exists (mkSpec ∅ ∅). split; [done | apply refines_start].
  - intros s1 s2 (S1 & H1 & H2) Hs. destruct (refines_step _ _ _ _ H2 Hs) as (S2 & H3 & H4).
    exists S2. split; [by etrans | done].
Qed.

Lemma all_counted_served m X r addrs :
  represents m X → all_counted (m !! r) addrs = forallb (served r X) addrs.
Proof.
  intros HX. pose proof (represents_inner m X r HX) as Hi.
  induction addrs as [|[a|] addrs IH]; simpl; [done | | done].
  specialize (Hi (PubAddr_String a)). destruct (m !! r) as [inner|]; simpl in Hi.
  - case_decide as Hz; rewrite Hi in Hz.
    + rewrite bool_decide_false; [done |]. rewrite elem_of_multiplicity. lia.
    + rewrite bool_decide_true, IH; [done |]. rewrite elem_of_multiplicity. lia.
  - rewrite lookup_empty in Hi. simpl in Hi.
    rewrite bool_decide_false; [done |]. rewrite elem_of_multiplicity. lia.
Qed.

(** C12: the cache of public addresses refines its specification.  In every reachable
    state the per-address counters stand for the multiset of live connections, reached
    by the specification's own steps, and [getCachedPubAddrs] answers as the
    specification does: the addresses of a peer, exactly while each of them has a live
    connection to that peer and none of the peer's connections has been the last of its
    kind to go since they were stored. *)
Theorem pubaddr_cache_refines cleaner s :
  reachable cleaner s →
  ∃ S, rtc spec_step (mkSpec ∅ ∅) S ∧ refines s S ∧
    ∀ r, getCachedPubAddrs r (tab s) = spec_get r S.
Proof.
  intros (S & H1 & H2)%reachable_refines. exists S. split_and!; [done.. |]. intros r.
  destruct H2 as [Hc _ Hp]. unfold getCachedPubAddrs, spec_get. rewrite Hp.
  destruct (pubAddrs (tab s) !! r) as [pa|]; [| done]. simpl.
  by rewrite (all_counted_served _ (sp_live S)).
Qed.

(** The end of [handleConn] never writes to a nil map: in every reachable state
    each live call can run its deferred section without a panic. *)
Theorem handleConn_exit_safe cleaner s h now :
  reachable cleaner s → h ∈ live s →
  ∃ b t', connExit now (h_key h) (h_remote h) (h_conn h) (h_i h) (tab s) = Ok (b, t').
Proof.
  intros (S & _ & [Hc Hl _])%reachable_refines Hh.
  destruct (connExit_refines now (h_key h) (h_remote h) (h_conn h) (h_i h) (tab s) (sp_live S) Hc)
    as (b & t' & H & _); [| by eauto].
  rewrite Hl. unfold live_set. apply elem_of_list_to_set_disj, list_elem_of_fmap. by exists h.
Qed.

(** ** Sessions and their connections *)

(** What is known about one key: its entries in the three session maps. *)
Definition key_view (k : string) (t : Table) : option nat * option (gmap string nat) * option Z :=
  (sessions t !! k, sessionConns t !! k, connCount t !! k).

Lemma dropSession_same now k t : key_view k (dropSession now k t) = (None, None, None).
Proof. unfold key_view. simpl. by rewrite !lookup_delete_eq. Qed.

Lemma dropSession_other now k k' t : k ≠ k' → key_view k' (dropSession now k t) = key_view k' t.
Proof. intros. unfold key_view. simpl. by rewrite !lookup_delete_ne. Qed.

(** A pass of [removeClosedSessions] drops exactly the sessions that are closed. *)
Lemma removePass_view now closed t k :
  key_view k (removePass now closed t).2 =
  if match sessions t !! k with Some sess => closed sess | None => false end
  then (None, None, None) else key_view k t.
Proof.
  unfold removePass.
  assert (match sessions t !! k with Some sess => closed sess | None => false end =
          existsb (λ '(k', sess), bool_decide (k' = k) && closed sess) (map_to_list (sessions t))) as ->.
  { apply eq_true_iff_eq. rewrite existsb_exists. split.
    - destruct (sessions t !! k) as [sess|] eqn:E; [| done]. intros Hc. exists (k, sess).
      split; [by apply list_elem_of_In, elem_of_map_to_list | by rewrite bool_decide_true].
    - intros ([k' sess] & Hin%list_elem_of_In%elem_of_map_to_list & [Hk Hc]%andb_prop).
      apply bool_decide_eq_true in Hk as ->. by rewrite Hin. }
  generalize (map_to_list (sessions t)) as l. generalize (@nil nat) as cs.
  intros cs l. revert cs t. induction l as [|[k' sess] l IH]; intros cs t; simpl; [done |].
  destruct (closed sess); rewrite IH; [| by rewrite andb_false_r].
  case_bool_decide as Hk; simpl; [subst; rewrite dropSession_same; by case_match |].
  by rewrite dropSession_other.
Qed.

Lemma removePass_absent now closed t k :
  sessions t !! k = None → key_view k (removePass now closed t).2 = key_view k t.
Proof. intros H. by rewrite removePass_view, H. Qed.

(** Every session has its map of connections. *)
Definition conns_ok (t : Table) : Prop :=
  ∀ k, is_Some (sessions t !! k) → is_Some (sessionConns t !! k).

(** [registerConn] on a table where that holds. *)
Lemma registerConn_ok now key i conn mk t :
  conns_ok t → is_panic mk = false →
  ∃ r t', registerConn now key i conn mk t = Ok (r, t') ∧ conns_ok t' ∧
    (r = RegRefused ∧ t' = t ∨
     ∃ sess, (r = RegOld sess ∨ r = RegNew sess) ∧ sessions t' !! key = Some sess ∧
       conn_of t' key (connID i) = Some conn) ∧
    connCount t' = connCount t.
Proof.
  intros Ht Hmk. unfold registerConn, putConn.
  destruct (sessions t !! key) as [sess|] eqn:Es.
  - destruct (Ht key) as [m Hm]; [eauto |]. rewrite Hm. eexists _, _. split; [done |].
    split; [| split; [right; exists sess |]; [| done]].
    + intros k Hk. simpl in *. destruct (decide (key = k)) as [<-|];
        [rewrite lookup_insert_eq; eauto | rewrite lookup_insert_ne by done; auto].
    + unfold conn_of. simpl. rewrite lookup_insert_eq. simpl. rewrite lookup_insert_eq. auto.
  - destruct (cache_Get _ _ _); [eexists _, _; split_and!; by auto |].
    destruct mk as [sess|e|p]; [| eexists _, _; split_and!; by auto | done].
    simpl. rewrite lookup_insert_eq. eexists _, _. split; [done |].
    split; [| split; [right; exists sess |]; [| done]].
    + intros k Hk. simpl in *. destruct (decide (key = k)) as [<-|].
      * rewrite lookup_insert_eq. eauto.
      * rewrite !lookup_insert_ne in * by done. auto.
    + unfold conn_of. simpl. rewrite !lookup_insert_eq. simpl. rewrite lookup_insert_eq. auto.
Qed.

(** The session maps after the end of a [handleConn] call. *)
Lemma connExit_sessions now key r c i t b t' :
  connExit now key r c i t = Ok (b, t') →
  b = bool_decide (default 0 (connCount t !! key) - 1 = 0)%Z ∧
  (if b then t'.(sessions) = delete key (sessions t) ∧
             sessionConns t' = delete key (sessionConns t) ∧
             connCount t' = delete key (connCount t) ∧
             closedSessionKey t' = cache_Add now key (closedSessionKey t)
   else t'.(sessions) = sessions t ∧
        sessionConns t' = alter (delete (connID i)) key (sessionConns t) ∧
        connCount t' = bump (-1) key (connCount t) ∧
        closedSessionKey t' = closedSessionKey t).
Proof.
  unfold connExit. destruct (addrRelease r c (addrConnCount t)) as [[counts d]| |]; [| done..].
  cbn. intros [= <- <-]. rewrite bump_lookup, decide_True by done.
  split; [done |]. destruct (bool_decide _); simpl; [| done].
  split_and!; [done | | | done].
  - apply map_eq. intros k. destruct (decide (key = k)) as [<-|];
      [by rewrite !lookup_delete_eq | by rewrite !lookup_delete_ne, lookup_alter_ne].
  - unfold bump. apply delete_insert_eq.
Qed.

Lemma conns_ok_step cleaner s s' : conns_ok (tab s) → tstep cleaner s s' → conns_ok (tab s').
Proof.
  intros Ht Hs. destruct Hs as [t l now key r c i sess t' He|t l1 l2 now h b t' He
    |t l now key i conn mk rg t' He|t l now key i conn|t l now key sess Hc _| |t l now closed _|];
    simpl in *; try done.
  - unfold connEnter in He. case_match; simplify_eq. done.
  - apply connExit_sessions in He as [_ He]. intros k. destruct b; destruct He as (-> & -> & _).
    + intros [sess [? ?]%lookup_delete_Some]. rewrite lookup_delete_ne by done. eauto.
    + intros Hk. rewrite lookup_alter. case_decide; [subst; apply fmap_is_Some |]; auto.
  - destruct (is_panic mk) eqn:Hp.
    + unfold registerConn, putConn in He. destruct (sessions t !! key) eqn:Es.
      * destruct (Ht key) as [m Hm]; [eauto |]. rewrite Hm in He. cbn in He. injection He as <- <-.
        intros k Hk. simpl in *.
        destruct (decide (key = k)) as [<-|]; [rewrite lookup_insert_eq; eauto | rewrite lookup_insert_ne by done; auto].
      * destruct (cache_Get _ _ _); [by injection He as <- <- | by destruct mk].
    + destruct (registerConn_ok now key i conn mk t Ht Hp) as (? & ? & He' & ? & _). rewrite He in He'. by simplify_eq.
  - intros k Hk. simpl. destruct (decide (key = k)) as [<-|];
      [rewrite lookup_insert_eq; eauto | rewrite lookup_insert_ne by done; auto].
  - intros k. simpl. destruct (decide (key = k)) as [<-|]; [done | rewrite lookup_insert_ne by done; auto].
  - intros k. pose proof (removePass_view now closed t k) as Hv. unfold key_view in Hv.
    case_match eqn:Hc; injection Hv as H1 H2 _; rewrite H1, H2; [by intros [? ?] | auto].
Qed.

(** A connection that arrives never writes to a nil map.  In every reachable state
    the critical section of [listenNet] ends without a panic; afterwards the connection
    is registered under its session and index, or it was refused and nothing changed. *)
Theorem listenNet_register_safe cleaner s now key i conn mk :
  reachable cleaner s → is_panic mk = false →
  ∃ r t', registerConn now key i conn mk (tab s) = Ok (r, t') ∧
    (r = RegRefused ∧ t' = tab s ∨
     ∃ sess, (r = RegOld sess ∨ r = RegNew sess) ∧ sessions t' !! key = Some sess ∧
       conn_of t' key (connID i) = Some conn).
Proof.
  intros Hs Hmk. assert (conns_ok (tab s)) as Ht.
  { revert s Hs. apply (reachable_ind cleaner (λ s, conns_ok (tab s))); [| eauto using conns_ok_step].
    intros k [? Hk]. simpl in Hk. by rewrite lookup_empty in Hk. }
  destruct (registerConn_ok now key i conn mk _ Ht Hmk) as (r & t' & H1 & _ & H2 & _). eauto.
Qed.

(** ** The life of a session

    Without the passes of [removeClosedSessions] the counter of a key is the number of
    live [handleConn] calls for it, and each of them has its session. *)
Definition calls (k : string) (l : list handler) : nat :=
  length (filter (λ h, h_key h = k) l).

Record counted (s : tstate) : Prop := {
  cnt_calls : ∀ k, default 0%Z (connCount (tab s) !! k) = Z.of_nat (calls k (live s));
  cnt_session : ∀ h, h ∈ live s → is_Some (sessions (tab s) !! h_key h)
}.

Lemma calls_middle k l1 h l2 :
  calls k (l1 ++ h :: l2) = calls k (l1 ++ l2) + (if decide (h_key h = k) then 1 else 0).
Proof.
  unfold calls. rewrite !filter_app, filter_cons, !length_app. case_decide; simpl; lia.
Qed.

Lemma calls_0 k l : calls k l = 0 ↔ ∀ h, h ∈ l → h_key h ≠ k.
Proof.
  unfold calls. rewrite length_zero_iff_nil. split.
  - intros E h Hh Hk. assert (h ∈ filter (λ h, h_key h = k) l) as Hf by by apply list_elem_of_filter.
    rewrite E in Hf. by apply not_elem_of_nil in Hf.
  - intros H. apply elem_of_nil_inv. intros h [Hk Hh]%list_elem_of_filter. by apply (H h).
Qed.

Lemma registerConn_sessions now key i conn mk t r t' k :
  registerConn now key i conn mk t = Ok (r, t') →
  connCount t' = connCount t ∧ closedSessionKey t' = closedSessionKey t ∧
  (is_Some (sessions t !! k) → is_Some (sessions t' !! k)) ∧
  (cache_Get now k (closedSessionKey t) = true → sessions t !! k = None → sessions t' !! k = None).
Proof.
  unfold registerConn, putConn, mbind, res_bind, mret, res_ret. intros H.
  go_cases; try done; simpl in *; split_and!; try done; intros;
    destruct (decide (key = k)) as [<-|]; simplify_eq;
    rewrite ?lookup_insert_eq, ?lookup_insert_ne in * by done; try done; eauto; congruence.
Qed.

Lemma counted_step s s' : counted s → tstep false s s' → counted s'.
Proof.
  intros [Hc Hs] Hstep. destruct Hstep as [t l now key r c i sess t' He|t l1 l2 now h b t' He
    |t l now key i conn mk rg t' He| |t l now key sess Hcs Hn| | |]; simpl in *; try done.
  - unfold connEnter in He. destruct (sessions t !! key) eqn:E; simplify_eq. split; simpl.
    + intros k. rewrite bump_lookup. unfold calls in *. rewrite filter_cons. simpl.
      specialize (Hc k). repeat case_decide; subst; simpl in *; try done; lia.
    + intros h [->|]%elem_of_cons; simpl; eauto.
  - apply connExit_sessions in He as [Hb He].
    assert (∀ k, Z.of_nat (calls k (l1 ++ h :: l2)) =
      (Z.of_nat (calls k (l1 ++ l2)) + (if decide (h_key h = k) then 1 else 0))%Z) as Hm
      by (intros k; rewrite calls_middle; repeat case_decide; try done; lia).
    assert (∀ h', h' ∈ l1 ++ l2 → h' ∈ l1 ++ h :: l2) as Hin by (intros h'; rewrite !elem_of_app, elem_of_cons; tauto).
    destruct b; destruct He as (E1 & _ & E3 & _); split; simpl; rewrite ?E1, ?E3.
    + intros k. specialize (Hc k). rewrite Hm in Hc. symmetry in Hb. apply bool_decide_eq_true in Hb.
      case_decide as Hk; [subst; rewrite lookup_delete_eq; simpl; lia | rewrite lookup_delete_ne by done; lia].
    + intros h' Hh'. rewrite lookup_delete_ne; [by eauto |]. intros Hk.
      symmetry in Hb. apply bool_decide_eq_true in Hb. specialize (Hc (h_key h)).
      rewrite Hm, decide_True in Hc by done.
      assert (calls (h_key h) (l1 ++ l2) = 0) as H0 by lia. by apply (proj1 (calls_0 _ _) H0 h').
    + intros k. specialize (Hc k). rewrite Hm in Hc. rewrite bump_lookup. case_decide as Hk; [subst |]; lia.
    + eauto.
  - split; simpl.
    + intros k. by destruct (registerConn_sessions now key i conn mk t rg t' k He) as (-> & _).
    + intros h Hh. apply (registerConn_sessions now key i conn mk t rg t' (h_key h) He). eauto.
  - split; simpl; [done |]. intros h Hh. destruct (decide (key = h_key h)) as [->|];
      [by rewrite lookup_insert_eq; eauto | rewrite lookup_insert_ne by done; eauto].
Qed.

Lemma reachable_counted s : reachable false s → counted s.
Proof.
  revert s. apply reachable_ind; [| eauto using counted_step].
  split; simpl; [done | by intros h ?%not_elem_of_nil].
Qed.


(** ** Closed keys *)

Context `{CL : !CacheLaws CO}.

(** A step that is not the end of [DialWithConfig] for this very key. *)
Definition quiet (k : string) (s s' : tstate) : Prop :=
  tstep true s s' ∧ ¬ ∃ sess, tab s' = dialSession k sess (tab s).

(** Until [limit] the key has no session and is recorded as closed. *)
Definition shut (k : string) (limit : Z) (s : tstate) : Prop :=
  (clock s ≤ limit)%Z →
  sessions (tab s) !! k = None ∧
  ∀ now, (clock s ≤ now ≤ limit)%Z → cache_Get now k (closedSessionKey (tab s)) = true.

(** Recording any key leaves the records that are there. *)
Lemma cache_Add_keeps t k k' now c :
  cache_Get t k c = true → (∀ x, (t ≤ x ≤ now)%Z → cache_Get x k c = true) → (t ≤ now)%Z →
  cache_Get now k (cache_Add t k' c) = true.
Proof.
  intros Ht Hc Hn. destruct (decide (k' = k)) as [->|].
  - rewrite add_present; [apply Hc; lia | done].
  - rewrite get_add_other by done. apply Hc. lia.
Qed.

Lemma removePass_cache now closed t k limit :
  (now ≤ limit)%Z →
  (∀ x, (now ≤ x ≤ limit)%Z → cache_Get x k (closedSessionKey t) = true) →
  ∀ x, (now ≤ x ≤ limit)%Z → cache_Get x k (closedSessionKey (removePass now closed t).2) = true.
Proof.
  intros Hl. unfold removePass. generalize (map_to_list (sessions t)) as l. generalize (@nil nat) as cs.
  intros cs l. revert cs t. induction l as [|[k' sess] l IH]; intros cs t Hc; simpl; [done |].
  destruct (closed sess); apply IH; [| done]. intros x Hx. simpl.
  apply cache_Add_keeps; [apply Hc; lia | intros; apply Hc; lia | lia].
Qed.

Lemma shut_step k limit s s' : shut k limit s → quiet k s s' → shut k limit s'.
Proof.
  intros Hs [Hstep Hq] Hlim. destruct Hstep as [t l now key r c i sess t' He|t l1 l2 now h b t' He
    |t l now key i conn mk rg t' He|t l now key i conn|t l now key sess| |t l now closed _|t l now now' Hn];
    simpl in *; unfold shut in Hs; simpl in Hs.
  - unfold connEnter in He. case_match; simplify_eq. by apply Hs.
  - destruct (Hs Hlim) as [Hn Hg]. apply connExit_sessions in He as [_ He].
    destruct b; destruct He as (-> & _ & _ & ->); [| by split].
    split; [by apply lookup_delete_None; right |]. intros x Hx.
    apply cache_Add_keeps; [apply Hg; lia | intros; apply Hg; lia | lia].
  - destruct (Hs Hlim) as [Hn Hg].
    destruct (registerConn_sessions _ _ _ _ _ _ _ _ k He) as (_ & -> & _ & Hk).
    split; [apply Hk; [apply Hg; lia | done] | done].
  - by apply Hs.
  - destruct (Hs Hlim) as [Hn Hg]. split; [| done]. rewrite lookup_insert_ne; [done |].
    intros ->. apply Hq. by eexists.
  - by apply Hs.
  - destruct (Hs Hlim) as [Hn Hg]. split; [| by apply removePass_cache].
    by injection (removePass_absent now closed t k Hn) as -> _ _.
  - destruct Hs as [? Hg]; [lia |]. split; [done |]. intros x Hx. apply Hg. lia.
Qed.

(** C11: a closed session does not come back.  When the last connection of a session
    ends, then after any steps (the client itself not dialing with the same session id)
    and for five minutes, [IsSessClosed] answers that the session is closed and every
    connection that arrives for it is refused. *)
Theorem closed_session_refused t l1 h l2 now t1 s2 :
  connExit now (h_key h) (h_remote h) (h_conn h) (h_i h) t = Ok (true, t1) →
  cache_Get now (h_key h) (closedSessionKey t) = false →
  rtc (quiet (h_key h)) (mkT t1 (l1 ++ l2) now) s2 →
  (clock s2 ≤ now + closedSessionKeyExpiration)%Z →
  (∀ closed, IsSessClosed (clock s2) closed (h_key h) (tab s2) = true) ∧
  ∀ i conn mk, registerConn (clock s2) (h_key h) i conn mk (tab s2) = Ok (RegRefused, tab s2).
Proof.
  intros [_ (E1 & _ & _ & E4)]%connExit_sessions Hg Hst Hlim.
  assert (shut (h_key h) (now + closedSessionKeyExpiration) (mkT t1 (l1 ++ l2) now)) as H0.
  { intros _. simpl. rewrite E1, E4. split; [apply lookup_delete_eq |]. intros x Hx.
    rewrite get_add by (done || lia). apply bool_decide_true. lia. }
  assert (shut (h_key h) (now + closedSessionKeyExpiration) s2) as H2.
  { clear E1 E4 Hlim. induction Hst as [|s s' s'' Hs _ IH]; [done |]. apply IH. by eapply shut_step. }
  destruct (H2 Hlim) as [Hn Hc]. unfold IsSessClosed, registerConn. rewrite Hn, Hc by lia. done.
Qed.

End inv.

(** ** Runs, and the interleavings that lose track of a connection *)
Module TableRuns.
#[local] Existing Instances map_cache map_cache_laws.

Definition key : string := "k".
Definition h1 : handler := mkHandler key "a" "9:1" 0.
Definition h2 : handler := mkHandler key "a" "9:2" 1.
Definition addr1 : PubAddrs := mkPubAddrs [Some (mkPubAddr "9" 1 "" "")] false.

(** Two connections of one session, then the first one ends. *)
Definition reg (i : Z) (conn : nat) (t : Table) : Table :=
  match registerConn 0 key i conn (Ok 7) t with Ok (_, t') => t' | _ => t end.
Definition enter (h : handler) (t : Table) : Table :=
  match connEnter (h_key h) (h_remote h) (h_conn h) t with Some (_, t') => t' | None => t end.
Definition leave (now : Z) (h : handler) (t : Table) : Table :=
  match connExit now (h_key h) (h_remote h) (h_conn h) (h_i h) t with Ok (_, t') => t' | _ => t end.

Definition t_one : Table := enter h1 (reg 0 1 newTable).
Definition t_two : Table := enter h2 (reg 1 2 t_one).

Lemma enter_step cleaner t l now h :
  is_Some (sessions t !! h_key h) → tstep cleaner (mkT t l now) (mkT (enter h t) (h :: l) now).
Proof.
  intros [sess H]. destruct h as [k r c i]. unfold enter, connEnter. simpl in *. rewrite H.
  eapply (ts_enter _ _ _ _ k r c i sess). unfold connEnter. by rewrite H.
Qed.

Lemma reg_step cleaner i conn t l :
  is_panic (registerConn 0 key i conn (Ok 7) t) = false → tstep cleaner (mkT t l 0) (mkT (reg i conn t) l 0).
Proof.
  unfold reg. destruct (registerConn _ _ _ _ _ _) as [[r t']|e|p] eqn:E; intros; [| | done].
  - by eapply (ts_register _ _ _ _ key i conn (Ok 7)).
  - by apply ts_tick.
Qed.

Lemma leave_step cleaner t l1 l2 now h :
  is_Some (addrConnCount t !! h_remote h) →
  tstep cleaner (mkT t (l1 ++ h :: l2) now) (mkT (leave now h t) (l1 ++ l2) now).
Proof.
  intros [m Hm]. unfold leave.
  assert (∃ b t', connExit now (h_key h) (h_remote h) (h_conn h) (h_i h) t = Ok (b, t')) as (b & t' & H).
  { unfold connExit, addrRelease. rewrite Hm. case_decide; cbn; eauto. }
  rewrite H. by eapply ts_exit.
Qed.

Lemma t_one_reachable cleaner : reachable cleaner (mkT t_one [h1] 0).
Proof.
  apply (rtc_l _ _ (mkT (reg 0 1 newTable) [] 0)); [by apply reg_step |].
  apply rtc_once, enter_step. by vm_compute; eauto.
Qed.

Lemma t_two_reachable cleaner : reachable cleaner (mkT t_two [h2; h1] 0).
Proof.
  apply (rtc_r _ (mkT (reg 1 2 t_one) [h1] 0)); [| apply enter_step; by vm_compute; eauto].
  apply (rtc_r _ (mkT t_one [h1] 0)); [apply t_one_reachable | by apply reg_step].
Qed.

Lemma pubaddr_cache_refines_witness :
  ∃ S, refines (mkT (storePubAddrs "a" addr1 t_two) [h2; h1] 0) S ∧
    getCachedPubAddrs "a" (storePubAddrs "a" addr1 t_two) = Some addr1 ∧
    spec_get "a" S = Some addr1.
Proof.
  destruct (pubaddr_cache_refines true (mkT (storePubAddrs "a" addr1 t_two) [h2; h1] 0))
    as (S & _ & HS & H).
  - eapply rtc_r; [apply t_two_reachable | apply (ts_store _ _ _ _ "a" addr1)].
  - exists S. split_and!; [done | by vm_compute | by rewrite <- (H "a"); vm_compute].
Defined.

Lemma handleConn_exit_safe_witness :
  ∃ b t', connExit 5 (h_key h1) (h_remote h1) (h_conn h1) (h_i h1) t_two = Ok (b, t').
Proof.
  apply (handleConn_exit_safe true (mkT t_two [h2; h1] 0) h1 5); [apply t_two_reachable |].
  apply elem_of_cons. right. left.
Defined.

Lemma listenNet_register_safe_witness :
  ∃ r t', registerConn 5 key 2 3 (Ok 8) t_two = Ok (r, t') ∧
    (r = RegRefused ∧ t' = t_two ∨
     ∃ sess, (r = RegOld sess ∨ r = RegNew sess) ∧ sessions t' !! key = Some sess ∧
       conn_of t' key (connID 2) = Some 3).
Proof.
  apply (listenNet_register_safe true (mkT t_two [h2; h1] 0) 5 key 2 3 (Ok 8));
    [apply t_two_reachable | reflexivity].
Defined.


Lemma closed_session_refused_witness :
  IsSessClosed 10 (λ _, false) key (leave 5 h1 t_one) = true ∧
  registerConn 10 key 0 9 (Ok 8) (leave 5 h1 t_one) = Ok (RegRefused, leave 5 h1 t_one).
Proof.
  destruct (closed_session_refused t_one [] h1 [] 5 (leave 5 h1 t_one) (mkT (leave 5 h1 t_one) [] 10))
    as [H1 H2].
  - by vm_compute.
  - by vm_compute.
  - apply rtc_once. split; [by apply ts_tick |]. intros [sess H].
    assert (sessions (leave 5 h1 t_one) !! key = Some sess) as H'
      by (unfold tab in H; rewrite H; apply lookup_insert_eq). by vm_compute in H'.
  - unfold closedSessionKeyExpiration. simpl. lia.
  - split; [exact (H1 (λ _, false)) | exact (H2 0%Z 9 (Ok 8))].
Defined.

(** A connection can be lost.  The end of a [handleConn] call unregisters whatever
    connection has its index, even a newer one: a reachable state where the session is
    alive, its newer connection (number 9) is served by a live call, and the end of the
    older call leaves the session without any registered connection. *)
Theorem stale_exit_unregisters :
  ∃ t t', reachable false (mkT t [h1; h1] 0) ∧ conn_of t key (connID 0) = Some 9 ∧
    connExit 0 key "a" "9:1" 0 t = Ok (false, t') ∧
    is_Some (sessions t' !! key) ∧ connCount t' !! key = Some 1%Z ∧
    sessionConns t' !! key = Some ∅.
Proof.
  exists (enter h1 (reg 0 9 t_one)), (leave 0 h1 (enter h1 (reg 0 9 t_one))).
  split; [| split_and!; [by vm_compute | by vm_compute | by eexists; vm_compute | by vm_compute..]].
  apply (rtc_r _ (mkT (reg 0 9 t_one) [h1] 0)); [| apply enter_step; by vm_compute; eauto].
  apply (rtc_r _ (mkT t_one [h1] 0)); [apply t_one_reachable | by apply reg_step].
Qed.

(** The cleaner and the end of [handleConn] leave a counter behind.  A reachable
    state with no live call and no session for a key whose counter is -1: a pass of
    [removeClosedSessions] dropped the counter, and the deferred section of the call
    that was still running wrote it again.  No later pass removes it. *)
Theorem cleaner_leaves_counter :
  ∃ t, reachable true (mkT t [] 0) ∧ sessions t !! key = None ∧ connCount t !! key = Some (-1)%Z ∧
    ∀ now closed, connCount (removePass now closed t).2 !! key = Some (-1)%Z.
Proof.
  set (t1 := (removePass 0 (λ _, true) t_one).2).
  exists (leave 0 h1 t1). split_and!; [| by vm_compute.. |].
  - apply (rtc_r _ (mkT t1 [h1] 0)); [| apply (leave_step true t1 [] []); by vm_compute; eauto].
    apply (rtc_r _ (mkT t_one [h1] 0)); [apply t_one_reachable |].
    by apply (ts_remove true t_one [h1] 0 (λ _, true)).
  - intros now closed. change (connCount (removePass now closed (leave 0 h1 t1)).2 !! key)
      with (key_view key (removePass now closed (leave 0 h1 t1)).2).2.
    rewrite removePass_absent; by vm_compute.
Qed.

(** An outgoing and an incoming session with one key can collide.  A peer that
    connects and disconnects with the session id of a dial in progress drops the dialed
    connections between the check of [DialWithConfig] and the store of its session; the
    next connection of that key then writes to a nil map. *)
Theorem dial_race_panics :
  let dialed := dialPut key 0 1 newTable in
  let attacked := leave 0 h1 (enter h1 (reg 0 2 dialed)) in
  conn_of dialed key (connID 0) = Some 1 ∧ sessions attacked !! key = None ∧
  registerConn 0 key 0 3 (Ok 8) (dialSession key 5 attacked) = Panic NilMapWrite.
Proof. by vm_compute. Qed.

End TableRuns.
