(* ===== verification/Json.v ===== *)
(** * message.go: the JSON of requests and addresses

    [Request], and what [encoding/json] of the standard library does with the structs of
    message.go: [Json] prints and reads values, the rest of the file is [json.Marshal] and
    [json.Unmarshal] for [Request] and [PubAddrs].  Reading follows the library: the whole
    input is checked first, names of fields are compared up to case, unknown ones are
    skipped, and a field that is seen again is decoded into the value it has. *)

From stdpp Require Import base strings list numbers tactics.
From Stdlib Require Import Strings.Byte ZArith Lia.
From S2P Require Import Prelude Pb Table.

(** ** Values *)

Module Json.

Inductive json :=
  | JNull
  | JBool (b : bool)
  | JNum (raw : bytes)                    (* as it is written *)
  | JStr (s : bytes)                      (* without quotes and escapes *)
  | JArr (l : list json)
  | JObj (l : list (bytes * json)).

(** ** UTF-8 and UTF-16 *)

(** [utf8.DecodeRune]: how many bytes the first character has; 0 when it is not valid. *)
Definition rune_len (bs : bytes) : nat :=
  match bs with
  | [] => 0
  | a :: r =>
      if Wire.between 0 127 a then 1
      else match r with
      | [] => 0
      | b :: r =>
          if Wire.between 194 223 a && Wire.cont b then 2
          else match r with
          | [] => 0
          | c :: r =>
              if (Wire.between 224 224 a && Wire.between 160 191 b ||
                  Wire.between 225 236 a && Wire.cont b || Wire.between 237 237 a && Wire.between 128 159 b ||
                  Wire.between 238 239 a && Wire.cont b) && Wire.cont c then 3
              else match r with
              | [] => 0
              | d :: _ =>
                  if (Wire.between 240 240 a && Wire.between 144 191 b ||
                      Wire.between 241 243 a && Wire.cont b || Wire.between 244 244 a && Wire.between 128 143 b)
                     && Wire.cont c && Wire.cont d then 4 else 0
              end
          end
      end
  end.

(** [utf8.EncodeRune]; U+FFFD stands for what is not a character. *)
Definition replacement : bytes := byte_of <$> [239; 191; 189]%Z.

Definition encode_rune (r : Z) : bytes :=
  if decide (r < 128)%Z then [byte_of r]
  else if decide (r < 2048)%Z then [byte_of (192 + r / 64); byte_of (128 + r mod 64)]
  else if decide (55296 ≤ r ≤ 57343)%Z then replacement
  else if decide (r < 65536)%Z
  then [byte_of (224 + r / 4096); byte_of (128 + r / 64 mod 64); byte_of (128 + r mod 64)]
  else [byte_of (240 + r / 262144); byte_of (128 + r / 4096 mod 64); byte_of (128 + r / 64 mod 64);
        byte_of (128 + r mod 64)].

(** ** Printing *)

Definition hexdigit (z : Z) : byte := if decide (z < 10)%Z then byte_of (48 + z) else byte_of (87 + z).

(** A character of a string.  Quotes, backslashes, control characters, the characters HTML
    gives a meaning to and the two line separators are escaped. *)
Definition escape_ascii (a : byte) : bytes :=
  let v := byte_val a in
  if decide (v = 34 ∨ v = 92)%Z then [Byte.x5c; a]
  else if decide (v = 10)%Z then [Byte.x5c; Byte.x6e]
  else if decide (v = 13)%Z then [Byte.x5c; Byte.x72]
  else if decide (v = 9)%Z then [Byte.x5c; Byte.x74]
  else if decide (v < 32 ∨ v = 60 ∨ v = 62 ∨ v = 38)%Z
  then [Byte.x5c; Byte.x75; Byte.x30; Byte.x30; hexdigit (v / 16); hexdigit (v mod 16)]
  else [a].

Definition escape_rune (r : bytes) : bytes :=
  match r with
  | [a] => escape_ascii a
  | _ =>
      if decide (byte_val <$> r = [226; 128; 168]%Z) then string_bytes "\u2028"
      else if decide (byte_val <$> r = [226; 128; 169]%Z) then string_bytes "\u2029"
      else r
  end.

Fixpoint escape (n : nat) (bs : bytes) : bytes :=
  match n, bs with
  | S n, _ :: r =>
      match rune_len bs with
      | 0 => string_bytes "\ufffd" ++ escape n r
      | k => escape_rune (take k bs) ++ escape n (drop k bs)
      end
  | _, _ => []
  end.

Definition quote (bs : bytes) : bytes := Byte.x22 :: escape (length bs) bs ++ [Byte.x22].

(** The decimal digits of a number that is not negative. *)
Fixpoint digits (n : nat) (z : Z) : bytes :=
  match n with
  | 0 => []
  | S n => if decide (z < 10)%Z then [byte_of (48 + z)] else digits n (z / 10) ++ [byte_of (48 + z mod 10)]
  end.

Definition comma (bs : list bytes) : bytes :=
  match bs with [] => [] | b :: bs => b ++ concat ((λ x, Byte.x2c :: x) <$> bs) end.

Fixpoint print (j : json) : bytes :=
  match j with
  | JNull => string_bytes "null"
  | JBool true => string_bytes "true"
  | JBool false => string_bytes "false"
  | JNum raw => raw
  | JStr s => quote s
  | JArr l => Byte.x5b :: comma (print <$> l) ++ [Byte.x5d]
  | JObj l => Byte.x7b :: comma ((λ kv, quote kv.1 ++ Byte.x3a :: print kv.2) <$> l) ++ [Byte.x7d]
  end.

(** ** Reading *)

Definition is_ws (a : byte) : bool := bool_decide (byte_val a ∈ [32; 9; 13; 10]%Z).
Fixpoint skip_ws (bs : bytes) : bytes :=
  match bs with a :: r => if is_ws a then skip_ws r else bs | [] => [] end.

(** The four hexadecimal digits of an escape. *)
Definition unhex (a : byte) : option Z :=
  let v := byte_val a in
  if decide (48 ≤ v ≤ 57)%Z then Some (v - 48)%Z
  else if decide (97 ≤ v ≤ 102)%Z then Some (v - 87)%Z
  else if decide (65 ≤ v ≤ 70)%Z then Some (v - 55)%Z
  else None.

Definition hex4 (bs : bytes) : option (Z * bytes) :=
  match bs with
  | a :: b :: c :: d :: r =>
      a ← unhex a; b ← unhex b; c ← unhex c; d ← unhex d;
      Some (((a * 16 + b) * 16 + c) * 16 + d, r)%Z
  | _ => None
  end.

Definition surrogate (r : Z) : bool := bool_decide (55296 ≤ r ≤ 57343)%Z.

(** [utf16.DecodeRune]. *)
Definition pair_of (r1 r2 : Z) : option Z :=
  if decide (55296 ≤ r1 ≤ 56319 ∧ 56320 ≤ r2 ≤ 57343)%Z
  then Some ((r1 - 55296) * 1024 + (r2 - 56320) + 65536)%Z else None.

(** What follows a backslash and a u: a character, or the two halves of one. *)
Definition unicode (bs : bytes) : option (bytes * bytes) :=
  '(r1, rest) ← hex4 bs;
  if surrogate r1 then
    match rest with
    | Byte.x5c :: Byte.x75 :: rest2 =>
        match hex4 rest2 with
        | Some (r2, rest3) =>
            match pair_of r1 r2 with Some r => Some (encode_rune r, rest3) | None => Some (replacement, rest) end
        | None => Some (replacement, rest)
        end
    | _ => Some (replacement, rest)
    end
  else Some (encode_rune r1, rest).

(** One character of a string, without its escape, and the rest of the input. *)
Definition escaped (bs : bytes) : option (bytes * bytes) :=
  match bs with
  | [] => None
  | e :: r =>
      if decide (e = Byte.x75) then unicode r
      else if decide (e = Byte.x22 ∨ e = Byte.x5c ∨ e = Byte.x2f) then Some ([e], r)
      else if decide (e = Byte.x62) then Some ([Byte.x08], r)
      else if decide (e = Byte.x66) then Some ([Byte.x0c], r)
      else if decide (e = Byte.x6e) then Some ([Byte.x0a], r)
      else if decide (e = Byte.x72) then Some ([Byte.x0d], r)
      else if decide (e = Byte.x74) then Some ([Byte.x09], r)
      else None
  end.

Definition char (bs : bytes) : option (bytes * bytes) :=
  match bs with
  | [] => None
  | a :: r =>
      if decide (a = Byte.x5c) then escaped r
      else if decide (byte_val a < 32)%Z then None
      else match rune_len bs with
           | 0 => Some (replacement, r)
           | k => Some (take k bs, drop k bs)
           end
  end.

(** A string after its opening quote. *)
Fixpoint unquote (n : nat) (bs : bytes) : option (bytes * bytes) :=
  match n with
  | 0 => None
  | S n =>
      if decide (head bs = Some Byte.x22) then Some ([], tail bs)
      else '(c, r) ← char bs; '(s, r) ← unquote n r; Some (c ++ s, r)
  end.

Definition str (bs : bytes) : option (bytes * bytes) :=
  match bs with
  | a :: r => if decide (a = Byte.x22) then unquote (length bs) r else None
  | [] => None
  end.

(** Numbers: an integer, a fraction, an exponent. *)
Definition is_digit (a : byte) : bool := bool_decide (48 ≤ byte_val a ≤ 57)%Z.
Fixpoint span (p : byte → bool) (bs : bytes) : bytes * bytes :=
  match bs with
  | a :: r => if p a then (a :: (span p r).1, (span p r).2) else ([], bs)
  | [] => ([], [])
  end.

Definition digits1 (bs : bytes) : option (bytes * bytes) :=
  match span is_digit bs with ([], _) => None | x => Some x end.

Definition int_part (bs : bytes) : option (bytes * bytes) :=
  match bs with
  | a :: r => if decide (a = Byte.x30) then Some ([a], r) else digits1 bs
  | [] => None
  end.

Definition frac_part (bs : bytes) : option (bytes * bytes) :=
  match bs with
  | a :: r => if decide (a = Byte.x2e) then '(x, r) ← digits1 r; Some (a :: x, r) else Some ([], bs)
  | [] => Some ([], bs)
  end.

Definition exp_part (bs : bytes) : option (bytes * bytes) :=
  match bs with
  | e :: r =>
      if decide (e = Byte.x65 ∨ e = Byte.x45) then
        match r with
        | s :: r' =>
            if decide (s = Byte.x2b ∨ s = Byte.x2d)
            then '(x, r) ← digits1 r'; Some (e :: s :: x, r)
            else '(x, r) ← digits1 r; Some (e :: x, r)
        | [] => None
        end
      else Some ([], bs)
  | [] => Some ([], bs)
  end.

Definition sign_part (bs : bytes) : bytes * bytes :=
  match bs with
  | a :: r => if decide (a = Byte.x2d) then ([a], r) else ([], bs)
  | [] => ([], bs)
  end.

Definition num (bs : bytes) : option (bytes * bytes) :=
  let '(s, bs) := sign_part bs in
  '(i, bs) ← int_part bs;
  '(f, bs) ← frac_part bs;
  '(e, bs) ← exp_part bs;
  Some (s ++ i ++ f ++ e, bs).

Definition literal (w : string) (bs : bytes) : option bytes :=
  let w := string_bytes w in
  if decide (take (length w) bs = w) then Some (drop (length w) bs) else None.

(** The token at the front, without its first byte. *)
Inductive token := TOpenArr | TOpenObj | TColon | TComma | TCloseArr | TCloseObj | TOther.

Definition next (bs : bytes) : token * bytes :=
  match skip_ws bs with
  | Byte.x5b :: r => (TOpenArr, r)
  | Byte.x7b :: r => (TOpenObj, r)
  | Byte.x3a :: r => (TColon, r)
  | Byte.x2c :: r => (TComma, r)
  | Byte.x5d :: r => (TCloseArr, r)
  | Byte.x7d :: r => (TCloseObj, r)
  | r => (TOther, r)
  end.

(** A value that is not an array or an object. *)
Definition scalar (bs : bytes) : option (json * bytes) :=
  match bs with
  | Byte.x22 :: _ => '(s, r) ← str bs; Some (JStr s, r)
  | Byte.x6e :: _ => r ← literal "null" bs; Some (JNull, r)
  | Byte.x74 :: _ => r ← literal "true" bs; Some (JBool true, r)
  | Byte.x66 :: _ => r ← literal "false" bs; Some (JBool false, r)
  | _ => '(x, r) ← num bs; Some (JNum x, r)
  end.

(** A value; [d] is how deep it is nested, which the library limits.  Every call takes a
    turn: [turns] are enough for any input ([value_turns]). *)
Definition maxNestingDepth : Z := 10000.

Fixpoint value (n : nat) (d : Z) (bs : bytes) : option (json * bytes) :=
  match n with
  | 0 => None
  | S n =>
      match next bs with
      | (TOpenArr, r) =>
          if decide (maxNestingDepth ≤ d)%Z then None
          else match next r with
               | (TCloseArr, r) => Some (JArr [], r)
               | _ => '(l, r) ← elems n (d + 1)%Z r; Some (JArr l, r)
               end
      | (TOpenObj, r) =>
          if decide (maxNestingDepth ≤ d)%Z then None
          else match next r with
               | (TCloseObj, r) => Some (JObj [], r)
               | _ => '(l, r) ← members n (d + 1)%Z r; Some (JObj l, r)
               end
      | (TOther, r) => scalar r
      | _ => None
      end
  end
with elems (n : nat) (d : Z) (bs : bytes) : option (list json * bytes) :=
  match n with
  | 0 => None
  | S n =>
      '(j, r) ← value n d bs;
      match next r with
      | (TComma, r) => '(l, r) ← elems n d r; Some (j :: l, r)
      | (TCloseArr, r) => Some ([j], r)
      | _ => None
      end
  end
with members (n : nat) (d : Z) (bs : bytes) : option (list (bytes * json) * bytes) :=
  match n with
  | 0 => None
  | S n =>
      '(k, r) ← str (skip_ws bs);
      match next r with
      | (TColon, r) =>
          '(j, r) ← value n d r;
          match next r with
          | (TComma, r) => '(l, r) ← members n d r; Some ((k, j) :: l, r)
          | (TCloseObj, r) => Some ([(k, j)], r)
          | _ => None
          end
      | _ => None
      end
  end.

Definition turns (bs : bytes) : nat := S (2 * length bs).

(** The whole input is one value. *)
Definition parse (bs : bytes) : option json :=
  '(j, r) ← value (turns bs) 0 bs;
  if decide (skip_ws r = []) then Some j else None.

(** ** Base64 *)

Definition char64 (v : Z) : byte :=
  if decide (v < 26)%Z then byte_of (65 + v)
  else if decide (v < 52)%Z then byte_of (71 + v)
  else if decide (v < 62)%Z then byte_of (v - 4)
  else if decide (v = 62)%Z then Byte.x2b else Byte.x2f.

Definition val64 (a : byte) : option Z :=
  let v := byte_val a in
  if decide (65 ≤ v ≤ 90)%Z then Some (v - 65)%Z
  else if decide (97 ≤ v ≤ 122)%Z then Some (v - 71)%Z
  else if decide (48 ≤ v ≤ 57)%Z then Some (v + 4)%Z
  else if decide (a = Byte.x2b) then Some 62%Z
  else if decide (a = Byte.x2f) then Some 63%Z
  else None.

Definition pad : byte := Byte.x3d.

(** [base64.StdEncoding.EncodeToString]. *)
Fixpoint encode64 (bs : bytes) : bytes :=
  match bs with
  | [] => []
  | [a] => let a := byte_val a in [char64 (a / 4); char64 (a mod 4 * 16); pad; pad]
  | [a; b] =>
      let a := byte_val a in let b := byte_val b in
      [char64 (a / 4); char64 (a mod 4 * 16 + b / 16); char64 (b mod 16 * 4); pad]
  | a :: b :: c :: r =>
      let a := byte_val a in let b := byte_val b in let c := byte_val c in
      char64 (a / 4) :: char64 (a mod 4 * 16 + b / 16) :: char64 (b mod 16 * 4 + c / 64) :: char64 (c mod 64)
        :: encode64 r
  end.

(** [DecodeString], after the line breaks it ignores: quanta of four characters, the last
    one padded. *)
Fixpoint decode_quanta (bs : bytes) : option bytes :=
  match bs with
  | [] => Some []
  | a :: b :: c :: d :: r =>
      a ← val64 a; b ← val64 b;
      let x := byte_of (a * 4 + b / 16) in
      if decide (c = pad) then
        if decide (d = pad ∧ r = []) then Some [x] else None
      else
        c ← val64 c;
        let y := byte_of (b mod 16 * 16 + c / 4) in
        if decide (d = pad) then
          if decide (r = []) then Some [x; y] else None
        else
          d ← val64 d;
          l ← decode_quanta r;
          Some (x :: y :: byte_of (c mod 4 * 64 + d) :: l)
  | _ => None
  end.

Definition decode64 (bs : bytes) : option bytes :=
  decode_quanta (filter (λ a, a ≠ Byte.x0a ∧ a ≠ Byte.x0d) bs).

(** ** Decoding into Go values *)

Definition typeError : error := ErrText "json: cannot unmarshal".

(** A slice: its elements, and what its array holds behind them, which is there again when
    the slice grows. *)
Record slice A := mkSlice { elements : list A; spare : list A }.
#[global] Arguments mkSlice {A}.
#[global] Arguments elements {A}.
#[global] Arguments spare {A}.

Section decode.
Context {A : Type} (dec : json → A → res A) (zero : A).

(** Each element is decoded into the one that is there. *)
Fixpoint into (l : list json) (old : list A) : res (list A) :=
  match l with
  | [] => Ok []
  | j :: l => a ← dec j (default zero (head old)); r ← into l (tail old); Ok (a :: r)
  end.

Definition array (l : list json) (v : slice A) : res (slice A) :=
  match l with
  | [] => Ok (mkSlice [] [])
  | _ => let old := elements v ++ spare v in
         r ← into l old; Ok (mkSlice r (drop (length l) old))
  end.
End decode.

Definition string_value (j : json) (old : string) : res string :=
  match j with JStr s => Ok (bytes_string s) | JNull => Ok old | _ => Err typeError end.

Definition bool_value (j : json) (old : bool) : res bool :=
  match j with JBool b => Ok b | JNull => Ok old | _ => Err typeError end.

(** [strconv.ParseUint] of the digits, within [max]. *)
Definition uint_value (max : Z) (j : json) (old : Z) : res Z :=
  match j with
  | JNum raw =>
      if forallb is_digit raw then
        let v := foldl (λ acc a, acc * 10 + (byte_val a - 48))%Z 0%Z raw in
        if decide (v ≤ max)%Z then Ok v else Err typeError
      else Err typeError
  | JNull => Ok old
  | _ => Err typeError
  end.

(** A []byte: base64, or an array of small numbers. *)
Definition bytes_value (j : json) (old : slice Z) : res (slice Z) :=
  match j with
  | JStr s => match decode64 s with Some b => Ok (mkSlice (byte_val <$> b) []) | None => Err typeError end
  | JNull => Ok (mkSlice [] [])
  | JArr l => array (uint_value 255) 0%Z l old
  | _ => Err typeError
  end.

(** Names of fields, up to the case of their letters; a long s is an s. *)
Fixpoint same_name (name key : bytes) : bool :=
  match name, key with
  | [], [] => true
  | a :: name, Byte.xc5 :: Byte.xbf :: key =>
      bool_decide (a = Byte.x73 ∨ a = Byte.x53) && same_name name key
  | a :: name, b :: key =>
      bool_decide (Z.lor (byte_val a) 32 = Z.lor (byte_val b) 32 ∧ byte_val b < 128)%Z && same_name name key
  | _, _ => false
  end.

Definition named (name : string) (key : bytes) : bool := same_name (string_bytes name) key.

(** A struct: its fields one after the other. *)
Fixpoint fields {S} (set : bytes → json → S → res S) (l : list (bytes * json)) (v : S) : res S :=
  match l with [] => Ok v | (k, j) :: l => v ← set k j v; fields set l v end.

Definition struct_value {S} (set : bytes → json → S → res S) (j : json) (old : S) : res S :=
  match j with JObj l => fields set l old | JNull => Ok old | _ => Err typeError end.

(** A pointer: a new zero value when it is nil. *)
Definition ptr_value {S} (dec : json → S → res S) (zero : S) (j : json) (old : option S) : res (option S) :=
  match j with
  | JNull => Ok None
  | _ => v ← dec j (default zero old); Ok (Some v)
  end.

Definition Unmarshal {S} (dec : json → S → res S) (zero : S) (data : bytes) : res S :=
  match parse data with Some j => dec j zero | None => Err (ErrText "json: invalid syntax") end.

End Json.
Import Json.

(** ** The structs of message.go *)

Record Request := mkRequest { Action : string; SessionID : bytes }.

(** The fields as the decoder keeps them. *)
Record requestFields := mkRequestFields { q_action : string; q_sessionID : slice Z }.

Definition setRequest (k : bytes) (j : json) (q : requestFields) : res requestFields :=
  if named "action" k then a ← string_value j (q_action q); Ok (mkRequestFields a (q_sessionID q))
  else if named "sessionID" k then i ← bytes_value j (q_sessionID q); Ok (mkRequestFields (q_action q) i)
  else Ok q.

Definition setPubAddr (k : bytes) (j : json) (a : PubAddr) : res PubAddr :=
  if named "ip" k then x ← string_value j (IP a); Ok (mkPubAddr x (Port a) (InPrice a) (OutPrice a))
  else if named "port" k then x ← uint_value (2 ^ 32 - 1) j (Port a); Ok (mkPubAddr (IP a) x (InPrice a) (OutPrice a))
  else if named "inPrice" k then x ← string_value j (InPrice a); Ok (mkPubAddr (IP a) (Port a) x (OutPrice a))
  else if named "outPrice" k then x ← string_value j (OutPrice a); Ok (mkPubAddr (IP a) (Port a) (InPrice a) x)
  else Ok a.

Record pubAddrsFields := mkPubAddrsFields { p_addrs : slice (option PubAddr); p_closed : bool }.

Definition setPubAddrs (k : bytes) (j : json) (p : pubAddrsFields) : res pubAddrsFields :=
  if named "addrs" k then
    l ← (match j with
         | JArr l => array (ptr_value (struct_value setPubAddr) (mkPubAddr "" 0 "" "")) None l (p_addrs p)
         | JNull => Ok (mkSlice [] [])
         | _ => Err typeError
         end);
    Ok (mkPubAddrsFields l (p_closed p))
  else if named "sessionClosed" k then b ← bool_value j (p_closed p); Ok (mkPubAddrsFields (p_addrs p) b)
  else Ok p.

(** ** json.Marshal and json.Unmarshal *)

Definition text (s : string) : json := JStr (string_bytes s).

(** The session id of a request is never nil. *)
Definition MarshalRequest (r : Request) : res bytes :=
  Ok (print (JObj [(string_bytes "action", text (Action r)); (string_bytes "sessionID", JStr (encode64 (SessionID r)))])).

Definition UnmarshalRequest (data : bytes) : res Request :=
  q ← Unmarshal (struct_value setRequest) (mkRequestFields "" (mkSlice [] [])) data;
  Ok (mkRequest (q_action q) (byte_of <$> elements (q_sessionID q))).

(** The prices are omitted when they are empty. *)
Definition pubAddr_json (a : PubAddr) : json :=
  JObj ([(string_bytes "ip", text (IP a)); (string_bytes "port", JNum (digits 10 (Port a)))] ++
        (if decide (InPrice a = "") then [] else [(string_bytes "inPrice", text (InPrice a))]) ++
        (if decide (OutPrice a = "") then [] else [(string_bytes "outPrice", text (OutPrice a))])).

(** The list of addresses of a [PubAddrs] that says its session is closed is nil; that of
    [getPubAddrs] is not, even when it is empty. *)
Definition addrs_json (pa : PubAddrs) : json :=
  if decide (Addrs pa = [] ∧ SessionClosed pa = true) then JNull
  else JArr (from_option pubAddr_json JNull <$> Addrs pa).

Definition MarshalPubAddrs (pa : option PubAddrs) : res bytes :=
  Ok (print (match pa with
             | None => JNull
             | Some pa => JObj [(string_bytes "addrs", addrs_json pa);
                                (string_bytes "sessionClosed", JBool (SessionClosed pa))]
             end)).

Definition UnmarshalPubAddrs (data : bytes) : res PubAddrs :=
  p ← Unmarshal (struct_value setPubAddrs) (mkPubAddrsFields (mkSlice [] []) false) data;
  Ok (mkPubAddrs (elements (p_addrs p)) (p_closed p)).

#[global] Arguments MarshalRequest : simpl never.
#[global] Arguments UnmarshalRequest : simpl never.
#[global] Arguments MarshalPubAddrs : simpl never.
#[global] Arguments UnmarshalPubAddrs : simpl never.
