(* ===== verification/JsonInv.v ===== *)
(** * JSON: what is printed is read back

    Strings, numbers and values that are printed are read back, whatever follows them
    ([value_print]); so requests and addresses survive the network.  And [turns] are enough
    turns for any input ([value_turns]), so that reading fails only on what is not JSON. *)

From stdpp Require Import base strings list numbers tactics.
From Stdlib Require Import Strings.Byte ZArith Lia.
From S2P Require Import Prelude Pb Table Json.
Import Json.

(** ** Characters *)

Lemma rune_len_app bs rest k : rune_len bs = S k → rune_len (bs ++ rest) = S k.
Proof.
  destruct bs as [|a [|b [|c [|d bs]]]]; simpl; [done |..]; by repeat case_match.
Qed.

Lemma rune_len_take bs k : rune_len bs = S k → rune_len (take (S k) bs) = S k ∧ S k ≤ length bs.
Proof.
  intros H. destruct bs as [|a [|b [|c [|d bs]]]]; cbn [rune_len] in H; [done |..];
    repeat match type of H with context [if ?x then _ else _] => destruct x eqn:? end; try done;
    injection H as <-; (split; [| simpl; lia]); cbn [take firstn rune_len];
    repeat match goal with E : ?x = _ |- context [if ?x then _ else _] => rewrite E end; done.
Qed.

(** The first character of a valid text. *)
Lemma utf8_valid_step bs :
  Wire.utf8_valid bs = true → bs ≠ [] →
  ∃ k, rune_len bs = S k ∧ Wire.utf8_valid (drop (S k) bs) = true.
Proof.
  destruct bs as [|a r]; [done |]. intros H _. revert H. cbn [Wire.utf8_valid rune_len].
  destruct (Wire.between 0 127 a); [by exists 0 |].
  destruct r as [|b r]; [done |]. destruct (Wire.between 194 223 a && Wire.cont b); [by exists 1 |].
  destruct r as [|c r]; [done |]. destruct (_ && Wire.cont c); [by exists 2 |].
  destruct r as [|d r]; [done |]. destruct (_ && Wire.cont d); [by exists 3 | done].
Qed.

(** A printed character is read back, and is not the end of the string. *)
Lemma char_ascii a rest :
  Wire.between 0 127 a = true →
  char (escape_ascii a ++ rest) = Some ([a], rest) ∧ head (escape_ascii a ++ rest) ≠ Some Byte.x22 ∧
  escape_ascii a ≠ [].
Proof. destruct a; intros H; try (vm_compute in H; discriminate H); vm_compute; split_and!; done. Qed.


Lemma char_long r rest k :
  rune_len r = S (S k) → length r = S (S k) →
  char (r ++ rest) = Some (r, rest) ∧ head (r ++ rest) ≠ Some Byte.x22 ∧ r ≠ [].
Proof.
  intros Hk Hl. pose proof (rune_len_app r rest _ Hk) as Happ.
  destruct r as [|a r]; [done |]. assert (128 ≤ byte_val a)%Z as Ha.
  { cbn [rune_len] in Hk. destruct (Wire.between 0 127 a) eqn:Eb; [done |].
    unfold Wire.between in Eb. apply bool_decide_eq_false in Eb. pose proof (byte_val_range a). lia. }
  split_and!; [| | done].
  - change (char ((a :: r) ++ rest)) with
      (if decide (a = Byte.x5c) then escaped (r ++ rest)
       else if decide (byte_val a < 32)%Z then None
       else match rune_len ((a :: r) ++ rest) with
            | 0 => Some (replacement, r ++ rest)
            | k => Some (take k ((a :: r) ++ rest), drop k ((a :: r) ++ rest))
            end).
    rewrite decide_False by (intros ->; vm_compute in Ha; congruence). rewrite decide_False by lia.
    rewrite Happ. cbv beta iota zeta. by rewrite (take_app_exact (a :: r)), (drop_app_exact (a :: r)) by done.
  - simpl. intros [= ->]. vm_compute in Ha. congruence.
Qed.

Lemma char_rune r rest k :
  rune_len r = S k → length r = S k →
  char (escape_rune r ++ rest) = Some (r, rest) ∧ head (escape_rune r ++ rest) ≠ Some Byte.x22 ∧ escape_rune r ≠ [].
Proof.
  intros Hk Hl. destruct r as [|a [|b r]]; [done | |].
  { apply char_ascii. cbn [rune_len] in Hk. by destruct (Wire.between 0 127 a). }
  simpl in Hl. destruct k as [|k]; [lia |]. unfold escape_rune.
  assert (∀ l, byte_val <$> a :: b :: r = l → a :: b :: r = byte_of <$> l) as Hval.
  { intros l <-. rewrite <- list_fmap_compose. rewrite <- (list_fmap_id (a :: b :: r)) at 1.
    apply list_fmap_ext. intros i x _. simpl. by rewrite byte_of_val. }
  case_decide as H1; [rewrite (Hval _ H1); vm_compute; done |].
  case_decide as H2; [rewrite (Hval _ H2); vm_compute; done |].
  by apply (char_long _ _ k).
Qed.

(** ** Strings *)

Lemma unquote_escape m s n rest :
  Wire.utf8_valid s = true → length s ≤ m → length (escape m s) < n →
  unquote n (escape m s ++ Byte.x22 :: rest) = Some (s, rest).
Proof.
  revert s n. induction m as [|m IH]; intros s n Hs Hm Hn.
  { destruct s; [| simpl in Hm; lia]. simpl in Hn. by destruct n; [lia |]. }
  destruct s as [|a s]; [simpl in Hn; by destruct n; [lia |] |].
  destruct (utf8_valid_step (a :: s) Hs) as (k & Hk & Hv); [done |].
  destruct (rune_len_take _ _ Hk) as [Ht Hle].
  assert (escape (S m) (a :: s) = escape_rune (take (S k) (a :: s)) ++ escape m (drop (S k) (a :: s))) as E
    by (cbn [escape]; by rewrite Hk).
  rewrite E in Hn |- *. rewrite length_app in Hn. rewrite <- (assoc_L (++)).
  set (r := take (S k) (a :: s)) in *. set (s' := drop (S k) (a :: s)) in *.
  destruct (char_rune r (escape m s' ++ Byte.x22 :: rest) k Ht) as (H1 & H2 & H3);
    [unfold r; rewrite length_take; lia |].
  destruct n as [|n]; [lia |]. cbn [unquote]. rewrite decide_False by done. rewrite H1. cbn [mbind option_bind].
  rewrite IH; [| done | unfold s'; rewrite length_drop; simpl in *; lia |].
  - cbn [mbind option_bind]. f_equal. f_equal. exact (take_drop (S k) (a :: s)).
  - destruct (escape_rune r); [done |]. simpl in Hn. lia.
Qed.

Lemma str_quote s rest : Wire.utf8_valid s = true → str (quote s ++ rest) = Some (s, rest).
Proof.
  intros Hs. unfold quote, str. cbn [app]. rewrite decide_True by done. rewrite <- (assoc_L (++)). cbn [app].
  apply unquote_escape; [done | lia |]. simpl. rewrite length_app. lia.
Qed.

(** ** Numbers *)

(** What ends a number: the input, or a delimiter. *)
Definition stops (rest : bytes) : Prop :=
  match rest with [] => True | a :: _ => a = Byte.x2c ∨ a = Byte.x5d ∨ a = Byte.x7d end.

Lemma digit_byte v : (0 ≤ v < 10)%Z → byte_val (byte_of (48 + v)) = (48 + v)%Z ∧ is_digit (byte_of (48 + v)) = true.
Proof.
  intros Hv. assert (byte_val (byte_of (48 + v)) = (48 + v)%Z) as E by (rewrite byte_val_of, Z.mod_small; lia).
  split; [done |]. unfold is_digit. rewrite E. apply bool_decide_true. lia.
Qed.

Definition decimal (raw : bytes) : Z := foldl (λ acc a, acc * 10 + (byte_val a - 48))%Z 0%Z raw.

Lemma digits_spec n z :
  (0 ≤ z < 10 ^ Z.of_nat n)%Z → 0 < n →
  forallb is_digit (digits n z) = true ∧ decimal (digits n z) = z ∧
  ∃ a r, digits n z = a :: r ∧ (a = Byte.x30 → r = []) ∧ (0 < z → a ≠ Byte.x30)%Z.
Proof.
  revert z. induction n as [|n IH]; intros z Hz Hn; [lia |]. cbn [digits]. case_decide as H10.
  - destruct (digit_byte z) as [E1 E2]; [lia |]. split_and!.
    + simpl. by rewrite E2.
    + unfold decimal. simpl. lia.
    + exists (byte_of (48 + z)), []. split_and!; [done | done |]. intros Hp E. rewrite E in E1.
      change (byte_val Byte.x30) with 48%Z in E1. lia.
  - destruct n as [|n]; [simpl in Hz; lia |].
    destruct (IH (z / 10)%Z) as (H1 & H2 & a & r & H3 & H4 & H5); [| lia |].
    { rewrite (Nat2Z.inj_succ (S n)), Z.pow_succ_r in Hz by lia. split; [apply Z.div_pos; lia |].
      apply Z.div_lt_upper_bound; lia. }
    destruct (digit_byte (z mod 10)) as [E1 E2]; [apply Z.mod_pos_bound; lia |].
    assert (0 < z / 10)%Z as Hpos by (apply Z.div_str_pos; lia).
    split_and!.
    + rewrite forallb_app, H1. simpl. by rewrite E2.
    + unfold decimal in *. rewrite foldl_app, H2. simpl. rewrite E1. pose proof (Z.div_mod z 10). lia.
    + exists a, (r ++ [byte_of (48 + z mod 10)]). rewrite H3. split_and!; [done | | auto]. intros Ha. by destruct (H5 Hpos).
Qed.

Lemma stops_head rest : stops rest →
  span is_digit rest = ([], rest) ∧ frac_part rest = Some ([], rest) ∧ exp_part rest = Some ([], rest).
Proof. destruct rest as [|a rest]; [done |]. by intros [->|[->| ->]]. Qed.

Lemma span_digits raw rest :
  forallb is_digit raw = true → span is_digit rest = ([], rest) → span is_digit (raw ++ rest) = (raw, rest).
Proof.
  intros Hd Hr. induction raw as [|a raw IH]; [done |]. simpl in Hd |- *.
  apply andb_prop in Hd as [-> Hd]. by rewrite IH.
Qed.

Lemma num_digits n z rest :
  (0 ≤ z < 10 ^ Z.of_nat n)%Z → 0 < n → stops rest → num (digits n z ++ rest) = Some (digits n z, rest).
Proof.
  intros Hz Hn (S1 & S2 & S3)%stops_head. destruct (digits_spec n z Hz Hn) as (H1 & _ & a & r & E & H2 & _).
  rewrite E in H1 |- *. pose proof (span_digits _ _ H1 S1) as Hspan.
  assert (a ≠ Byte.x2d) as Hm by (intros ->; simpl in H1; done).
  assert (int_part ((a :: r) ++ rest) = Some (a :: r, rest)) as Hi.
  { cbn [int_part app]. case_decide as E0; [by rewrite H2 |]. unfold digits1. change (a :: r ++ rest) with ((a :: r) ++ rest). by rewrite Hspan. }
  assert (sign_part ((a :: r) ++ rest) = ([], (a :: r) ++ rest)) as Hs by (simpl; by rewrite decide_False).
  unfold num. rewrite Hs, Hi. cbn [mbind option_bind]. rewrite S2. cbn [mbind option_bind]. rewrite S3.
  cbn [mbind option_bind app].
  by rewrite !app_nil_r.
Qed.

(** ** Values *)

(** Values that are printed as they are: valid texts, numbers in decimal, not too deep. *)
Inductive good (d : Z) : json → Prop :=
  | good_null : good d JNull
  | good_bool b : good d (JBool b)
  | good_num n z : (0 ≤ z < 10 ^ Z.of_nat n)%Z → 0 < n → good d (JNum (digits n z))
  | good_str s : Wire.utf8_valid s = true → good d (JStr s)
  | good_arr l : (d < maxNestingDepth)%Z → Forall (good (d + 1)) l → good d (JArr l)
  | good_obj l : (d < maxNestingDepth)%Z →
      Forall (λ kv, Wire.utf8_valid kv.1 = true ∧ good (d + 1) kv.2) l → good d (JObj l).

Definition member (kv : bytes * json) : bytes := quote kv.1 ++ Byte.x3a :: print kv.2.

(** The first byte of a value: no space and no delimiter. *)
Lemma print_head d j rest :
  good d j →
  next (print j ++ rest) =
    match j with
    | JArr _ => (TOpenArr, tail (print j ++ rest))
    | JObj _ => (TOpenObj, tail (print j ++ rest))
    | _ => (TOther, print j ++ rest)
    end.
Proof.
  intros [| [] | n z Hz Hn | s Hs | l _ _ | l _ _]; try reflexivity.
  destruct (digits_spec n z Hz Hn) as (H1 & _ & a & r & E & _). cbn [print]. rewrite E in H1 |- *.
  simpl in H1. apply andb_prop in H1 as [H1 _]. unfold next. cbn [app skip_ws].
  destruct a; try (vm_compute in H1; discriminate H1); reflexivity.
Qed.

Lemma scalar_print d j rest :
  good d j → stops rest → (∀ l, j ≠ JArr l) → (∀ l, j ≠ JObj l) → scalar (print j ++ rest) = Some (j, rest).
Proof.
  intros [| [] | n z Hz Hn | s Hs | l _ _ | l _ _] Hr Ha Ho.
  1-3: reflexivity.
  - pose proof (num_digits n z rest Hz Hn Hr) as Hnum. cbn [print].
    destruct (digits_spec n z Hz Hn) as (H1 & _ & a & r & E & _). rewrite E in H1, Hnum |- *.
    simpl in H1. apply andb_prop in H1 as [H1 _]. unfold scalar. cbn [app] in Hnum |- *. rewrite Hnum.
    destruct a; try (vm_compute in H1; discriminate H1); reflexivity.
  - cbn [print]. pose proof (str_quote s rest Hs) as E. unfold scalar. unfold quote in E |- *. cbn [app] in E |- *.
    by rewrite E.
  - by destruct (Ha l).
  - by destruct (Ho l).
Qed.

Lemma comma_cons b c bs : comma (b :: c :: bs) = b ++ Byte.x2c :: comma (c :: bs).
Proof. done. Qed.

Lemma next_comma r : next (Byte.x2c :: r) = (TComma, r).
Proof. done. Qed.
Lemma next_close_arr r : next (Byte.x5d :: r) = (TCloseArr, r).
Proof. done. Qed.
Lemma next_close_obj r : next (Byte.x7d :: r) = (TCloseObj, r).
Proof. done. Qed.
Lemma next_colon r : next (Byte.x3a :: r) = (TColon, r).
Proof. done. Qed.

(** Reading the elements of an array and the members of an object, when values are read. *)
Definition reads (n : nat) (d : Z) : Prop :=
  ∀ j rest, good d j → stops rest → 2 * length (print j) + 1 ≤ n → value n d (print j ++ rest) = Some (j, rest).

Lemma elems_print n d :
  (∀ m, m < n → reads m d) →
  ∀ l rest, Forall (good d) l → l ≠ [] → 2 * length (comma (print <$> l)) + 2 ≤ n →
    elems n d (comma (print <$> l) ++ Byte.x5d :: rest) = Some (l, rest).
Proof.
  induction n as [|n IH]; intros IV l rest Hl Hne Hn; [lia |].
  destruct l as [|x [|y l]]; [done | |]; apply Forall_cons_1 in Hl as [Hx Hl].
  - cbn [fmap list_fmap comma concat] in Hn |- *. rewrite app_nil_r in Hn |- *. cbn [elems].
    rewrite (IV n) by (lia || done || (simpl; auto)). cbn [mbind option_bind]. by rewrite next_close_arr.
  - assert (comma (print <$> x :: y :: l) = print x ++ Byte.x2c :: comma (print <$> y :: l)) as E by done.
    rewrite E in Hn |- *. rewrite length_app in Hn. cbn [length] in Hn. rewrite <- (assoc_L (++)). cbn [app elems].
    rewrite (IV n) by (lia || done || (simpl; auto)). cbn [mbind option_bind]. rewrite next_comma.
    rewrite IH; [done | intros m Hm; apply IV; lia | done | done | lia].
Qed.

Lemma members_print n d :
  (∀ m, m < n → reads m d) →
  ∀ l rest, Forall (λ kv, Wire.utf8_valid kv.1 = true ∧ good d kv.2) l → l ≠ [] →
    2 * length (comma (member <$> l)) + 2 ≤ n →
    members n d (comma (member <$> l) ++ Byte.x7d :: rest) = Some (l, rest).
Proof.
  induction n as [|n IH]; intros IV l rest Hl Hne Hn; [lia |].
  assert (∀ k j r, Wire.utf8_valid k = true → str (skip_ws (member (k, j) ++ r)) = Some (k, Byte.x3a :: print j ++ r)) as Hk.
  { intros k j r Hk. unfold member. cbn [fst snd]. rewrite <- (assoc_L (++)). exact (str_quote k _ Hk). }
  destruct l as [|[k x] [|y l]]; [done | |]; apply Forall_cons_1 in Hl as [[Hu Hx] Hl].
  - cbn [fmap list_fmap comma concat] in Hn |- *. rewrite app_nil_r in Hn |- *. cbn [members].
    rewrite Hk by done. cbn [mbind option_bind]. rewrite next_colon.
    unfold member in Hn. rewrite length_app in Hn. cbn [length fst snd] in Hn.
    rewrite (IV n) by (lia || done || (simpl; auto)). cbn [mbind option_bind]. by rewrite next_close_obj.
  - assert (comma (member <$> (k, x) :: y :: l) = member (k, x) ++ Byte.x2c :: comma (member <$> y :: l)) as E by done.
    rewrite E in Hn |- *. rewrite length_app in Hn. cbn [length] in Hn. rewrite <- (assoc_L (++)). cbn [app members].
    rewrite Hk by done. cbn [mbind option_bind]. rewrite next_colon.
    unfold member in Hn at 1. rewrite length_app in Hn. cbn [length fst snd] in Hn.
    rewrite (IV n) by (lia || done || (simpl; auto)). cbn [mbind option_bind]. rewrite next_comma.
    rewrite IH; [done | intros m Hm; apply IV; lia | done | done | lia].
Qed.

(** What is printed is read back, whatever follows it. *)
Lemma value_print n d : reads n d.
Proof.
  revert d. induction (lt_wf n) as [n _ IH]. intros d j rest Hj Hr Hn. destruct n as [|n]; [lia |].
  cbn [value]. rewrite (print_head d j rest Hj). destruct j as [| b | raw | s | l | l].
  1-4: apply (scalar_print d); done.
  - inversion Hj as [| | | | ? Hd Hl |]; subst. cbn [print app tail] in Hn |- *. rewrite decide_False by lia.
    cbn [length] in Hn. rewrite length_app in Hn. cbn [length] in Hn. rewrite <- (assoc_L (++)). cbn [app].
    destruct l as [|x l]; [done |].
    assert (next (comma (print <$> x :: l) ++ Byte.x5d :: rest) = next (print x ++ concat ((λ y, Byte.x2c :: y) <$> (print <$> l)) ++ Byte.x5d :: rest)) as ->
      by (cbn [fmap list_fmap comma]; by rewrite <- (assoc_L (++))).
    rewrite (print_head (d + 1) x) by (by apply Forall_cons_1 in Hl as [? _]).
    rewrite (elems_print n) by (try done; try lia; intros; apply IH; lia). by destruct x.
  - inversion Hj as [| | | | | ? Hd Hl]; subst. cbn [print app tail] in Hn |- *. rewrite decide_False by lia.
    change (λ kv : bytes * json, quote kv.1 ++ Byte.x3a :: print kv.2) with member in Hn |- *.
    cbn [length] in Hn. rewrite length_app in Hn. cbn [length] in Hn. rewrite <- (assoc_L (++)). cbn [app].
    destruct l as [|x l]; [done |].
    rewrite (members_print n) by (try done; try lia; intros; apply IH; lia). done.
Qed.

Lemma parse_print j : good 0 j → parse (print j) = Some j.
Proof.
  intros Hj. unfold parse. pose proof (value_print (turns (print j)) 0 j [] Hj I) as H.
  rewrite app_nil_r in H. rewrite H by (unfold turns; lia). done.
Qed.

(** ** Enough turns *)

Lemma skip_ws_length bs : length (skip_ws bs) ≤ length bs.
Proof. induction bs as [|a bs IH]; simpl; [done |]. case_match; simpl; lia. Qed.

Lemma next_length bs t r :
  next bs = (t, r) → length r ≤ length bs ∧ (t ≠ TOther → length r < length bs).
Proof.
  unfold next. pose proof (skip_ws_length bs) as H. destruct (skip_ws bs) as [|a l]; [by intros [= <- <-] |].
  simpl in H. destruct a; intros E; injection E as <- <-; simpl; split; try done; lia.
Qed.

Lemma hex4_length bs z r : hex4 bs = Some (z, r) → length bs = 4 + length r.
Proof.
  destruct bs as [|a [|b [|c [|d bs]]]]; simpl; try done.
  destruct (unhex a), (unhex b), (unhex c), (unhex d); try done. cbn. intros E. by injection E as _ <-.
Qed.

Lemma unicode_length bs c r : unicode bs = Some (c, r) → length r < length bs.
Proof.
  unfold unicode. destruct (hex4 bs) as [[z rest]|] eqn:E; [| done]. apply hex4_length in E. cbn [mbind option_bind].
  destruct (surrogate z); [| intros E0; injection E0 as _ <-; lia].
  assert (∀ x, Some (replacement, rest) = Some (x, r) → length r < length bs) as Hr by (intros x E0; injection E0 as _ <-; lia).
  destruct rest as [|a rest]; [by apply Hr |]. destruct a; try by apply Hr.
  destruct rest as [|b rest]; [by apply Hr |]. destruct b; try by apply Hr.
  destruct (hex4 rest) as [[z2 rest3]|] eqn:E2; [| by apply Hr]. apply hex4_length in E2.
  destruct (pair_of z z2); [| by apply Hr]. intros E0. injection E0 as _ <-. simpl in E. lia.
Qed.

Lemma char_length bs c r : char bs = Some (c, r) → length r < length bs.
Proof.
  destruct bs as [|a bs]; [done |]. unfold char. case_decide.
  - unfold escaped. destruct bs as [|e bs]; [done |].
    case_decide; [intros Hu%unicode_length; simpl; lia |].
    repeat (case_decide; [intros E0; injection E0 as _ <-; simpl; lia |]). done.
  - case_decide; [done |]. destruct (rune_len (a :: bs)) as [|k]; intros E0; injection E0 as _ <-; simpl; [lia |].
    rewrite length_drop. lia.
Qed.

Lemma unquote_length n bs s r : unquote n bs = Some (s, r) → length r < length bs.
Proof.
  revert bs s r. induction n as [|n IH]; intros bs s r; cbn [unquote]; [done |].
  case_decide; [destruct bs; [done |]; intros E0; injection E0 as _ <-; simpl; lia |].
  destruct (char bs) as [[c r1]|] eqn:E; [| done]. apply char_length in E. cbn [mbind option_bind].
  destruct (unquote n r1) as [[s1 r2]|] eqn:E2; [| done]. apply IH in E2. cbn [mbind option_bind]. intros E0. injection E0 as _ <-. lia.
Qed.

Lemma str_length bs s r : str bs = Some (s, r) → length r < length bs.
Proof. destruct bs as [|a bs]; [done |]. unfold str. case_decide; [| done]. intros Hu%unquote_length. simpl. lia. Qed.

Lemma span_length p bs x r : span p bs = (x, r) → length bs = length x + length r.
Proof.
  revert x r. induction bs as [|a bs IH]; intros x r; simpl; [by intros [= <- <-] |].
  case_match; [| by intros [= <- <-]]. destruct (span p bs) as [x1 r1] eqn:E. intros E0. injection E0 as <- <-. simpl. by rewrite (IH x1 r1).
Qed.

Lemma digits1_length bs x r : digits1 bs = Some (x, r) → length r < length bs.
Proof.
  unfold digits1. destruct (span is_digit bs) as [[|a y] z] eqn:E; [done |]. apply span_length in E.
  intros [= <- <-]. simpl in E. lia.
Qed.

Lemma num_length bs x r : num bs = Some (x, r) → length r < length bs.
Proof.
  unfold num. assert (length (sign_part bs).2 ≤ length bs) as H0.
  { destruct bs; simpl; [done |]. case_decide; simpl; lia. }
  destruct (sign_part bs) as [s b0]. simpl in H0.
  destruct (int_part b0) as [[i b1]|] eqn:E1; [| done]. cbn [mbind option_bind].
  assert (length b1 < length b0) as H1.
  { destruct b0; [done |]. unfold int_part in E1. case_decide; [injection E1 as _ <-; simpl; lia |]. by apply digits1_length in E1. }
  destruct (frac_part b1) as [[f b2]|] eqn:E2; [| done]. cbn [mbind option_bind].
  assert (length b2 ≤ length b1) as H2.
  { destruct b1 as [|a b1]; [by injection E2 as _ <- |]. unfold frac_part in E2. case_decide; [| by injection E2 as _ <-].
    destruct (digits1 b1) as [[? ?]|] eqn:Ed; [| done]. apply digits1_length in Ed. injection E2 as _ <-. simpl. lia. }
  destruct (exp_part b2) as [[e b3]|] eqn:E3; [| done]. cbn [mbind option_bind]. intros E0. injection E0 as _ <-.
  assert (length b3 ≤ length b2); [| lia].
  destruct b2 as [|a b2]; [by injection E3 as _ <- |]. unfold exp_part in E3. case_decide; [| by injection E3 as _ <-].
  destruct b2 as [|c b2]; [done |]. case_decide.
  - destruct (digits1 b2) as [[? ?]|] eqn:Ed; [| done]. apply digits1_length in Ed. injection E3 as _ <-. simpl. lia.
  - destruct (digits1 (c :: b2)) as [[? ?]|] eqn:Ed; [| done]. apply digits1_length in Ed. injection E3 as _ <-. simpl in *. lia.
Qed.

Lemma literal_length w bs r : w ≠ "" → literal w bs = Some r → length r < length bs.
Proof.
  intros Hw. unfold literal. cbv zeta. case_decide as H; [| done]. intros [= <-]. rewrite length_drop.
  assert (length (string_bytes w) ≠ 0). { destruct w; [done |]. simpl. lia. }
  apply (f_equal length) in H. rewrite length_take in H. lia.
Qed.

Lemma scalar_length bs j r : scalar bs = Some (j, r) → length r < length bs.
Proof.
  assert (∀ A (f : A → json) (o : option (A * bytes)),
    (∀ x r, o = Some (x, r) → length r < length bs) →
    ('(x, r) ← o; Some (f x, r)) = Some (j, r) → length r < length bs) as Hp.
  { intros A f [[x y]|] Ho H; [| done]. cbn [mbind option_bind] in H. injection H as _ <-. by eapply Ho. }
  assert (∀ w v, w ≠ "" → (r ← literal w bs; Some (v, r)) = Some (j, r) → length r < length bs) as Hl.
  { intros w v Hw H. destruct (literal w bs) as [y|] eqn:E; [| done]. injection H as _ <-. by eapply literal_length. }
  unfold scalar. destruct bs as [|a bs]; [by apply (Hp _ JNum), num_length |].
  destruct a; try (by apply (Hp _ JNum), num_length); try (by apply Hl). by apply (Hp _ JStr), str_length.
Qed.

(** Every value takes at least one byte. *)
Lemma value_length_mut n :
  (∀ d bs j r, value n d bs = Some (j, r) → length r < length bs) ∧
  (∀ d bs l r, elems n d bs = Some (l, r) → length r < length bs) ∧
  (∀ d bs l r, members n d bs = Some (l, r) → length r < length bs).
Proof.
  induction n as [|n (IV & IE & IM)]; [done |]. split_and!; intros d bs x r; cbn [value elems members].
  - destruct (next bs) as [t r1] eqn:E1. destruct (next_length _ _ _ E1) as [H1 H2].
    destruct t; try done; [| | intros H%scalar_length; lia];
      (case_decide; [done |]); destruct (next r1) as [t2 r2] eqn:E2; destruct (next_length _ _ _ E2) as [H3 _];
      specialize (H2 ltac:(done)).
    + destruct t2; try (by intros E0; injection E0 as _ <-; lia);
        (destruct (elems n (d + 1) r1) as [[l r3]|] eqn:E3; [| done]; apply IE in E3; intros E0; injection E0 as _ <-; lia).
    + destruct t2; try (by intros E0; injection E0 as _ <-; lia);
        (destruct (members n (d + 1) r1) as [[l r3]|] eqn:E3; [| done]; apply IM in E3; intros E0; injection E0 as _ <-; lia).
  - destruct (value n d bs) as [[j r1]|] eqn:E1; [| done]. apply IV in E1. cbn [mbind option_bind].
    destruct (next r1) as [t r2] eqn:E2. destruct (next_length _ _ _ E2) as [H2 _].
    destruct t; try done; [| intros E0; injection E0 as _ <-; lia].
    destruct (elems n d r2) as [[l r3]|] eqn:E3; [| done]. apply IE in E3. intros E0. injection E0 as _ <-. lia.
  - pose proof (skip_ws_length bs). destruct (str (skip_ws bs)) as [[k r1]|] eqn:E0; [| done].
    apply str_length in E0. cbn [mbind option_bind].
    destruct (next r1) as [t r2] eqn:E1. destruct (next_length _ _ _ E1) as [H1 _]. destruct t; try done.
    destruct (value n d r2) as [[j r3]|] eqn:E2; [| done]. apply IV in E2. cbn [mbind option_bind].
    destruct (next r3) as [t r4] eqn:E3. destruct (next_length _ _ _ E3) as [H3 _].
    destruct t; try done; [| intros E4; injection E4 as _ <-; lia].
    destruct (members n d r4) as [[l r5]|] eqn:E4; [| done]. apply IM in E4. intros E5. injection E5 as _ <-. lia.
Qed.

(** More turns than enough change nothing. *)
Lemma value_stable_mut n :
  (∀ m d bs, 2 * length bs + 1 ≤ n → 2 * length bs + 1 ≤ m → value n d bs = value m d bs) ∧
  (∀ m d bs, 2 * length bs + 2 ≤ n → 2 * length bs + 2 ≤ m → elems n d bs = elems m d bs) ∧
  (∀ m d bs, 2 * length bs + 2 ≤ n → 2 * length bs + 2 ≤ m → members n d bs = members m d bs).
Proof.
  induction n as [|n (IV & IE & IM)]; [split_and!; intros; lia |].
  split_and!; intros m d bs Hn Hm; (destruct m as [|m]; [lia |]); cbn [value elems members].
  - destruct (next bs) as [t r1] eqn:E1. destruct (next_length _ _ _ E1) as [H1 H2].
    destruct t; try done; specialize (H2 ltac:(done)); (case_decide; [done |]);
      destruct (next r1) as [t2 r2]; [rewrite (IE m) by lia | rewrite (IM m) by lia]; done.
  - rewrite (IV m) by lia. destruct (value m d bs) as [[j r1]|] eqn:E1; [| done].
    apply (proj1 (value_length_mut m)) in E1. cbn [mbind option_bind].
    destruct (next r1) as [t r2] eqn:E2. destruct (next_length _ _ _ E2) as [H2 _].
    destruct t; try done. by rewrite (IE m) by lia.
  - pose proof (skip_ws_length bs). destruct (str (skip_ws bs)) as [[k r1]|] eqn:E0; [| done].
    apply str_length in E0. cbn [mbind option_bind].
    destruct (next r1) as [t r2] eqn:E1. destruct (next_length _ _ _ E1) as [H1 _]. destruct t; try done.
    rewrite (IV m) by lia. destruct (value m d r2) as [[j r3]|] eqn:E2; [| done].
    apply (proj1 (value_length_mut m)) in E2. cbn [mbind option_bind].
    destruct (next r3) as [t r4] eqn:E3. destruct (next_length _ _ _ E3) as [H3 _].
    destruct t; try done. by rewrite (IM m) by lia.
Qed.

(** So [turns] are enough turns for any input. *)
Theorem value_turns n d bs : turns bs ≤ n → value n d bs = value (turns bs) d bs.
Proof. intros Hn. apply value_stable_mut; unfold turns in *; lia. Qed.

(** ** Base64 *)

Ltac div_lia := Z.to_euclidean_division_equations; lia.

Lemma char64_spec v :
  (0 ≤ v < 64)%Z →
  val64 (char64 v) = Some v ∧ char64 v ≠ pad ∧ Wire.between 0 127 (char64 v) = true ∧
  char64 v ≠ Byte.x0a ∧ char64 v ≠ Byte.x0d.
Proof.
  intros Hv. assert (v ∈ seqZ 0 64) as Hin by (apply elem_of_seqZ; lia). clear Hv. revert v Hin.
  apply (proj1 (list.Forall_forall _ (seqZ 0 64))). apply (bool_decide_unpack _). vm_compute. done.
Qed.

Lemma split64 a : (0 ≤ byte_val a / 4 < 64 ∧ 0 ≤ byte_val a mod 4 < 4 ∧ 0 ≤ byte_val a / 16 < 16 ∧
  0 ≤ byte_val a mod 16 < 16 ∧ 0 ≤ byte_val a / 64 < 4 ∧ 0 ≤ byte_val a mod 64 < 64)%Z.
Proof. pose proof (byte_val_range a). div_lia. Qed.

(** Encodings are ASCII texts without line breaks. *)
Lemma encode64_chars bs :
  Forall (λ a, Wire.between 0 127 a = true ∧ a ≠ Byte.x0a ∧ a ≠ Byte.x0d) (encode64 bs).
Proof.
  assert (∀ v, (0 ≤ v < 64)%Z → Wire.between 0 127 (char64 v) = true ∧ char64 v ≠ Byte.x0a ∧ char64 v ≠ Byte.x0d) as Hc.
  { intros v (_ & _ & ? & ? & ?)%char64_spec. done. }
  induction bs as [bs IH] using (induction_ltof1 _ length). unfold ltof in IH.
  destruct bs as [|a [|b [|c bs]]]; cbn [encode64].
  - constructor.
  - pose proof (split64 a). repeat constructor; try done; apply Hc; lia.
  - pose proof (split64 a). pose proof (split64 b). repeat constructor; try done; apply Hc; lia.
  - pose proof (split64 a). pose proof (split64 b). pose proof (split64 c).
    do 4 (constructor; [apply Hc; lia |]). apply IH. simpl. lia.
Qed.

Lemma join64 a b c : (0 ≤ a < 256)%Z → (0 ≤ b < 256)%Z → (0 ≤ c < 256)%Z →
  (a / 4 * 4 + (a mod 4 * 16 + b / 16) / 16 = a ∧
   (a mod 4 * 16 + b / 16) mod 16 * 16 + (b mod 16 * 4 + c / 64) / 4 = b ∧
   (b mod 16 * 4 + c / 64) mod 4 * 64 + c mod 64 = c)%Z.
Proof. intros. split_and!; div_lia. Qed.

Lemma decode_quanta_encode bs : decode_quanta (encode64 bs) = Some bs.
Proof.
  induction bs as [bs IH] using (induction_ltof1 _ length). unfold ltof in IH.
  assert (∀ v, (0 ≤ v < 64)%Z → val64 (char64 v) = Some v) as Hv by (intros v []%char64_spec; done).
  assert (∀ v, (0 ≤ v < 64)%Z → char64 v ≠ pad) as Hp by (intros v (_ & ? & _)%char64_spec; done).
  destruct bs as [|a [|b [|c bs]]]; cbn [encode64 decode_quanta]; [done |..];
    pose proof (split64 a); pose proof (byte_val_range a).
  - rewrite !Hv by lia. cbn [mbind option_bind]. rewrite decide_True by done. rewrite decide_True by done.
    destruct (join64 (byte_val a) 0 0) as [E _]; [lia.. |]. rewrite Z.add_0_r in E. by rewrite E, byte_of_val.
  - pose proof (split64 b). pose proof (byte_val_range b).
    rewrite !Hv by lia. cbn [mbind option_bind]. rewrite decide_False by (apply Hp; lia).
    rewrite ?Hv by lia. cbn [mbind option_bind]. rewrite decide_True by done. rewrite decide_True by done.
    destruct (join64 (byte_val a) (byte_val b) 0) as (E1 & E2 & _); [lia.. |]. rewrite Z.add_0_r in E2.
    by rewrite E1, E2, !byte_of_val.
  - pose proof (split64 b). pose proof (byte_val_range b). pose proof (split64 c). pose proof (byte_val_range c).
    rewrite !Hv by lia. cbn [mbind option_bind]. rewrite decide_False by (apply Hp; lia).
    rewrite ?Hv by lia. cbn [mbind option_bind]. rewrite decide_False by (apply Hp; lia).
    rewrite ?Hv by lia. cbn [mbind option_bind]. rewrite IH by (simpl; lia). cbn [mbind option_bind].
    destruct (join64 (byte_val a) (byte_val b) (byte_val c)) as (E1 & E2 & E3); [lia.. |].
    by rewrite E1, E2, E3, !byte_of_val.
Qed.

Lemma decode64_encode bs : decode64 (encode64 bs) = Some bs.
Proof.
  unfold decode64. replace (filter _ (encode64 bs)) with (encode64 bs); [apply decode_quanta_encode |].
  pose proof (encode64_chars bs) as H. induction H as [|a l (_ & ? & ?) _ IH]; [done |].
  rewrite filter_cons_True by done. by f_equal.
Qed.

Lemma ascii_valid bs : Forall (λ a, Wire.between 0 127 a = true) bs → Wire.utf8_valid bs = true.
Proof. induction 1 as [|a l Ha _ IH]; [done |]. cbn [Wire.utf8_valid]. by rewrite Ha. Qed.

Lemma encode64_valid bs : Wire.utf8_valid (encode64 bs) = true.
Proof. apply ascii_valid. eapply list.Forall_impl; [apply encode64_chars |]. by intros a []. Qed.

(** ** Requests and addresses *)

Definition utf8 (s : string) : bool := Wire.utf8_valid (string_bytes s).

(** Addresses JSON carries unchanged: UTF-8 texts and uint32 ports. *)
Definition pubaddr_ok (a : PubAddr) : Prop :=
  utf8 (IP a) = true ∧ utf8 (InPrice a) = true ∧ utf8 (OutPrice a) = true ∧ (0 ≤ Port a < 2 ^ 32)%Z.
Definition pubaddrs_ok (pa : PubAddrs) : Prop := Forall (from_option pubaddr_ok True) (Addrs pa).

Lemma fields_app {S} (set : bytes → json → S → res S) l1 l2 v v' :
  fields set l1 v = Ok v' → fields set (l1 ++ l2) v = fields set l2 v'.
Proof.
  revert v. induction l1 as [|[k j] l1 IH]; intros v; simpl; [by intros [= ->] |].
  destruct (set k j v); simpl; [apply IH | done..].
Qed.

Lemma Unmarshal_print {S} (dec : json → S → res S) zero j :
  good 0 j → Unmarshal dec zero (print j) = dec j zero.
Proof. intros Hj. unfold Unmarshal. by rewrite parse_print. Qed.

(** Which field a name stands for. *)
Ltac names := repeat match goal with
  | |- context [named ?a (string_bytes ?b)] =>
      let v := eval vm_compute in (named a (string_bytes b)) in change (named a (string_bytes b)) with v
  end; cbv beta iota.

Lemma request_json r b : utf8 (Action r) = true → MarshalRequest r = Ok b → UnmarshalRequest b = Ok r.
Proof.
  intros Hu H. unfold MarshalRequest in H. set (j := JObj _) in H. assert (b = print j) as -> by congruence.
  unfold UnmarshalRequest. rewrite Unmarshal_print; unfold j.
  - cbn [struct_value fields]. unfold setRequest. names. cbn [string_value text mbind res_bind bytes_value].
    rewrite decode64_encode. cbn [mbind res_bind fields q_action q_sessionID elements]. rewrite bytes_string_bytes.
    destruct r as [a i]. simpl. f_equal. f_equal. rewrite <- list_fmap_compose. rewrite <- (list_fmap_id i) at 2.
    apply list_fmap_ext. intros k x _. apply byte_of_val.
  - apply good_obj; [done |]. repeat (apply Forall_cons_2; [split; [done | apply good_str] |]); [done | | done].
    apply encode64_valid.
Qed.

Lemma null_json b : MarshalPubAddrs None = Ok b → UnmarshalPubAddrs b = Ok (mkPubAddrs [] false).
Proof.
  intros H. unfold MarshalPubAddrs in H. assert (b = print JNull) as -> by congruence.
  unfold UnmarshalPubAddrs. rewrite Unmarshal_print by constructor. done.
Qed.

Definition noAddr : PubAddr := mkPubAddr "" 0 "" "".

Lemma pubAddr_good d a : (d < maxNestingDepth)%Z → pubaddr_ok a → good d (pubAddr_json a).
Proof.
  intros Hd (H1 & H2 & H3 & H4). apply good_obj; [done |]. apply Forall_app. split.
  { apply Forall_cons_2; [split; [done | by apply good_str] |]. apply Forall_singleton. split; [done |].
    apply good_num; [change (10 ^ Z.of_nat 10)%Z with 10000000000%Z; lia | lia]. }
  apply Forall_app. split; (case_decide; [done |]); apply Forall_singleton; (split; [done | by apply good_str]).
Qed.

Lemma pubAddr_decode a : pubaddr_ok a → struct_value setPubAddr (pubAddr_json a) noAddr = Ok a.
Proof.
  intros (_ & _ & _ & H4). unfold pubAddr_json, struct_value.
  destruct (digits_spec 10 (Port a)) as (D1 & D2 & _); [change (10 ^ Z.of_nat 10)%Z with 10000000000%Z; lia | lia |].
  erewrite fields_app.
  2:{ cbn [fields]. unfold setPubAddr. names. cbn [string_value text mbind res_bind uint_value]. rewrite D1.
      fold (decimal (digits 10 (Port a))). rewrite D2, decide_True by lia. cbn [mbind res_bind]. reflexivity. }
  rewrite bytes_string_bytes. cbn [IP InPrice OutPrice Port noAddr]. destruct a as [ip port inp outp]. cbn [IP InPrice OutPrice Port].
  assert (∀ out, fields setPubAddr (if decide (inp = "") then [] else [(string_bytes "inPrice", text inp)])
    (mkPubAddr ip port "" out) = Ok (mkPubAddr ip port inp out)) as Hin.
  { intros out. destruct (decide (inp = "")) as [->|]; [done |]. cbn [fields]. unfold setPubAddr. names. cbn. by rewrite bytes_string_bytes. }
  erewrite fields_app by apply Hin. destruct (decide (outp = "")) as [->|]; [done |]. cbn [fields]. unfold setPubAddr. names. cbn. by rewrite bytes_string_bytes.
Qed.

Lemma addrs_decode l :
  Forall (from_option pubaddr_ok True) l →
  into (ptr_value (struct_value setPubAddr) noAddr) None (from_option pubAddr_json JNull <$> l) [] = Ok l.
Proof.
  induction 1 as [|a l Ha _ IH]; [done |]. cbn [fmap list_fmap into head tail default].
  assert (ptr_value (struct_value setPubAddr) noAddr (from_option pubAddr_json JNull a) None = Ok a) as ->.
  { destruct a as [a|]; [| done]. change (from_option pubAddr_json JNull (Some a)) with (pubAddr_json a).
    pose proof (pubAddr_decode a Ha) as Hd. unfold ptr_value, pubAddr_json at 1. change (default noAddr None) with noAddr.
    by rewrite Hd. }
  by rewrite IH.
Qed.

Lemma pubaddrs_json pa b : pubaddrs_ok pa → MarshalPubAddrs (Some pa) = Ok b → UnmarshalPubAddrs b = Ok pa.
Proof.
  intros Hok H. unfold MarshalPubAddrs in H. set (j := JObj _) in H. assert (b = print j) as -> by congruence.
  unfold UnmarshalPubAddrs. rewrite Unmarshal_print; unfold j.
  - destruct pa as [l closed]. cbn [struct_value fields]. unfold setPubAddrs. names.
    assert (∃ sp, (match addrs_json (mkPubAddrs l closed) with
      | JArr l => array (ptr_value (struct_value setPubAddr) noAddr) None l (mkSlice [] [])
      | JNull => Ok (mkSlice [] [])
      | _ => Err typeError
      end) = Ok (mkSlice l sp)) as [sp Hl].
    { unfold addrs_json. cbn [Addrs SessionClosed]. case_decide as E; [destruct E as [-> _]; by exists [] |].
      destruct l as [|a l]; [by exists [] |]. eexists. unfold array. cbn [fmap list_fmap elements spare app].
      pose proof (addrs_decode (a :: l) Hok) as Hd. cbn [fmap list_fmap] in Hd. rewrite Hd. reflexivity. }
    cbn [p_addrs p_closed]. fold noAddr. rewrite Hl. done.
  - apply good_obj; [done |]. apply Forall_cons_2; [| apply Forall_singleton; split; [done | apply good_bool]].
    split; [done |]. cbn [snd]. unfold addrs_json. case_decide; [apply good_null |].
    apply good_arr; [done |]. apply Forall_fmap. eapply list.Forall_impl; [exact Hok |].
    intros [a|] Ha; simpl in *; [by apply pubAddr_good | apply good_null].
Qed.

(** Neither direction panics. *)
Definition safe_dec {S} (dec : json → S → res S) : Prop := ∀ j v, is_panic (dec j v) = false.

Lemma bind_no_panic {A B} (r : res A) (f : A → res B) :
  is_panic r = false → (∀ a, is_panic (f a) = false) → is_panic (r ≫= f) = false.
Proof. destruct r; simpl; auto. Qed.

Lemma fields_safe {S} (set : bytes → json → S → res S) :
  (∀ k, safe_dec (set k)) → safe_dec (struct_value set).
Proof.
  intros Hs j v. destruct j as [| | | | |l]; try done. cbn [struct_value]. revert v.
  induction l as [|[k j] l IH]; intros v; [done |]. apply bind_no_panic; [apply Hs | apply IH].
Qed.

Lemma into_safe {A} (dec : json → A → res A) zero l old : safe_dec dec → is_panic (into dec zero l old) = false.
Proof.
  intros Hd. revert old. induction l as [|j l IH]; intros old; [done |].
  apply bind_no_panic; [apply Hd |]. intros a. by apply bind_no_panic.
Qed.

Lemma array_safe {A} (dec : json → A → res A) zero l v : safe_dec dec → is_panic (array dec zero l v) = false.
Proof. intros Hd. destruct l; [done |]. apply bind_no_panic; [by apply into_safe | done]. Qed.

Lemma scalars_safe : safe_dec string_value ∧ safe_dec bool_value ∧ ∀ max, safe_dec (uint_value max).
Proof.
  split_and!; [by intros [] | by intros [] |]. intros max [] v; try done. simpl. case_match; [| done]. by case_decide.
Qed.

Lemma bytes_safe : safe_dec bytes_value.
Proof.
  intros [] v; try done; simpl; [by case_match |]. apply array_safe, scalars_safe.
Qed.

Lemma setPubAddr_safe k : safe_dec (setPubAddr k).
Proof.
  intros j v. unfold setPubAddr. destruct scalars_safe as (Hs & _ & Hu).
  repeat case_match; try done; (apply bind_no_panic; [apply Hs || apply Hu | done]).
Qed.

Lemma Unmarshal_safe {S} (dec : json → S → res S) zero data : safe_dec dec → is_panic (Unmarshal dec zero data) = false.
Proof. intros Hd. unfold Unmarshal. case_match; [apply Hd | done]. Qed.

Lemma json_no_panic r pa data :
  is_panic (MarshalRequest r) = false ∧ is_panic (UnmarshalRequest data) = false ∧
  is_panic (MarshalPubAddrs pa) = false ∧ is_panic (UnmarshalPubAddrs data) = false.
Proof.
  destruct scalars_safe as (Hs & Hb & _). split_and!; [done | | done |].
  - apply bind_no_panic; [apply Unmarshal_safe, fields_safe | done]. intros k j v. unfold setRequest.
    repeat case_match; try done; (apply bind_no_panic; [apply Hs || apply bytes_safe | done]).
  - apply bind_no_panic; [apply Unmarshal_safe, fields_safe | done]. intros k j v. unfold setPubAddrs.
    repeat case_match; try done; (apply bind_no_panic; [| done]); try apply Hb; try done.
    apply array_safe. intros e o. destruct e; try done; apply bind_no_panic; try done; apply fields_safe, setPubAddr_safe.
Qed.
