(* ===== verification/JsonText.v ===== *)
(** * JSON: what is read is a text

    Whatever bytes arrive, the strings [Unmarshal] delivers are valid UTF-8 and its ports
    are uint32: what is not a character is replaced.  So the conditions under which
    requests and addresses survive the network hold for everything that came from there,
    and it can be sent on unchanged ([json_round_trip]). *)

From stdpp Require Import base strings list numbers tactics.
From Stdlib Require Import Strings.Byte ZArith Lia.
From S2P Require Import Prelude Pb Table Json JsonInv.
Import Json.

(** ** Characters *)

Lemma utf8_valid_rune bs k : rune_len bs = S k → Wire.utf8_valid bs = Wire.utf8_valid (drop (S k) bs).
Proof.
  destruct bs as [|a r]; [done |]. cbn [Wire.utf8_valid rune_len].
  destruct (Wire.between 0 127 a); [by intros [= <-] |].
  destruct r as [|b r]; [done |]. destruct (Wire.between 194 223 a && Wire.cont b); [by intros [= <-] |].
  destruct r as [|c r]; [done |]. destruct (_ && Wire.cont c); [by intros [= <-] |].
  destruct r as [|d r]; [done |]. destruct (_ && Wire.cont d); [by intros [= <-] | done].
Qed.

Lemma utf8_valid_app a b : Wire.utf8_valid a = true → Wire.utf8_valid b = true → Wire.utf8_valid (a ++ b) = true.
Proof.
  intros Ha Hb. revert Ha. remember (length a) as n eqn:Hn. revert a Hn.
  induction n as [n IH] using lt_wf_ind; intros a -> Ha. destruct (decide (a = [])) as [->|Hne]; [done |].
  destruct (utf8_valid_step a Ha Hne) as (k & Hk & Hv). destruct (rune_len_take _ _ Hk) as [_ Hl].
  rewrite (utf8_valid_rune _ k) by by apply rune_len_app. rewrite drop_app_le by done.
  apply (IH (length (drop (S k) a))); [rewrite length_drop; lia | done..].
Qed.

Lemma between_of lo hi z : (0 ≤ z < 256)%Z → Wire.between lo hi (byte_of z) = bool_decide (lo ≤ z ≤ hi)%Z.
Proof. intros Hz. unfold Wire.between. by rewrite byte_val_of, Z.mod_small. Qed.

Lemma cont_of z : (0 ≤ z < 64)%Z → Wire.cont (byte_of (128 + z)) = true.
Proof. intros Hz. unfold Wire.cont. rewrite byte_val_of, Z.mod_small by lia. apply bool_decide_true. lia. Qed.

Lemma encode_rune_valid r : (0 ≤ r < 1114112)%Z → Wire.utf8_valid (encode_rune r) = true.
Proof.
  intros Hr. unfold encode_rune.
  case_decide; [cbn; rewrite between_of by lia; by rewrite bool_decide_true by lia |].
  pose proof (Z.mod_pos_bound r 64). pose proof (Z.mod_pos_bound (r / 64) 64). pose proof (Z.mod_pos_bound (r / 4096) 64).
  pose proof (Z.div_mod r 64). pose proof (Z.div_mod (r / 64) 64). pose proof (Z.div_mod (r / 4096) 64).
  assert (r / 4096 = r / 64 / 64 ∧ r / 262144 = r / 4096 / 64)%Z as [E1 E2] by (rewrite !Z.div_div by lia; done).
  case_decide.
  { cbn [Wire.utf8_valid]. rewrite cont_of, !between_of by lia.
    by rewrite bool_decide_false, bool_decide_true by lia. }
  case_decide; [done |].
  case_decide; cbn [Wire.utf8_valid]; rewrite ?cont_of, ?between_of by lia;
    repeat (case_bool_decide; try lia; cbn [andb orb]; try reflexivity).
Qed.

Lemma hex4_range bs z r : hex4 bs = Some (z, r) → (0 ≤ z < 65536)%Z.
Proof.
  assert (∀ a v, unhex a = Some v → 0 ≤ v < 16)%Z as Hu.
  { intros a v. unfold unhex. repeat case_decide; intros E; simplify_eq; lia. }
  destruct bs as [|a [|b [|c [|d bs]]]]; simpl; try done. intros H.
  destruct (unhex a) eqn:Ea, (unhex b) eqn:Eb, (unhex c) eqn:Ec, (unhex d) eqn:Ed; simplify_eq/=.
  apply Hu in Ea, Eb, Ec, Ed. lia.
Qed.

Lemma unicode_valid bs c r : unicode bs = Some (c, r) → Wire.utf8_valid c = true.
Proof.
  unfold unicode. destruct (hex4 bs) as [[r1 rest]|] eqn:E1; [| done]. apply hex4_range in E1. cbn [mbind option_bind].
  destruct (surrogate r1); [| intros [= <- _]; apply encode_rune_valid; lia].
  repeat case_match; intros [= <- _]; try done. apply encode_rune_valid.
  unfold pair_of in *. case_decide; simplify_eq. lia.
Qed.

Lemma char_valid bs c r : char bs = Some (c, r) → Wire.utf8_valid c = true.
Proof.
  destruct bs as [|a bs]; [done |]. cbn [char]. case_decide as Ha.
  { destruct bs as [|e bs]; [done |]. cbn [escaped].
    case_decide; [apply unicode_valid |]. case_decide as He; [intros [= <- _]; by destruct He as [->|[->| ->]] |].
    repeat (case_decide; [by intros [= <- _] |]). done. }
  case_decide; [done |]. destruct (rune_len (a :: bs)) as [|k] eqn:Ek; [by intros [= <- _] |].
  intros [= <- _]. change (a :: take k bs) with (take (S k) (a :: bs)).
  destruct (rune_len_take _ _ Ek) as [Ht Hl]. rewrite (utf8_valid_rune _ _ Ht). by rewrite drop_ge by (rewrite length_take; lia).
Qed.

(** ** Values *)

Lemma unquote_valid n bs s r : unquote n bs = Some (s, r) → Wire.utf8_valid s = true.
Proof.
  revert bs s r. induction n as [|n IH]; intros bs s r; [done |]. cbn [unquote]. case_decide; [by intros [= <- _] |].
  destruct (char bs) as [[c r1]|] eqn:Ec; [| done]. cbn [mbind option_bind].
  destruct (unquote n r1) as [[s1 r2]|] eqn:Eu; [| done]. intros [= <- _].
  apply utf8_valid_app; [by eapply char_valid | by eapply IH].
Qed.

(** All strings of a value are texts. *)
Inductive texts : json → Prop :=
  | texts_null : texts JNull
  | texts_bool b : texts (JBool b)
  | texts_num raw : texts (JNum raw)
  | texts_str s : Wire.utf8_valid s = true → texts (JStr s)
  | texts_arr l : Forall texts l → texts (JArr l)
  | texts_obj l : Forall (λ kv, texts kv.2) l → texts (JObj l).
Create HintDb texts.
#[local] Hint Constructors texts : texts.

Lemma scalar_texts bs j r : scalar bs = Some (j, r) → texts j.
Proof.
  assert (∀ bs s r, str bs = Some (s, r) → Wire.utf8_valid s = true) as Hs.
  { intros [|a l] s q; [done |]. cbn [str]. case_decide; [apply unquote_valid | done]. }
  assert (∀ (p : option (bytes * bytes)) (f : bytes → json),
    (∀ x q, p = Some (x, q) → texts (f x)) → ('(x, q) ← p; Some (f x, q)) = Some (j, r) → texts j) as Hp.
  { intros [[x q]|] f Hf; [| done]. intros [= <- _]. by eapply Hf. }
  assert (∀ w (v : json), texts v → (q ← literal w bs; Some (v, q)) = Some (j, r) → texts j) as Hl.
  { intros w v Hv. destruct (literal w bs); [by intros [= <- _] | done]. }
  unfold scalar. destruct bs as [|a bs]; [by apply (Hp _ JNum); auto with texts |].
  destruct a; try (apply (Hp _ JNum); by auto with texts); try (apply Hl; by auto with texts).
  apply (Hp _ JStr). eauto with texts.
Qed.

Lemma value_texts n :
  (∀ d bs j r, value n d bs = Some (j, r) → texts j) ∧
  (∀ d bs l r, elems n d bs = Some (l, r) → Forall texts l) ∧
  (∀ d bs l r, members n d bs = Some (l, r) → Forall (λ kv, texts kv.2) l).
Proof.
  induction n as [|n (IV & IE & IM)]; [done |]. split_and!; intros d bs x r; cbn [value elems members].
  - destruct (next bs) as [[] r1]; try done; [| | by intros ?%scalar_texts]; (case_decide; [done |]);
      destruct (next r1) as [[] r2]; try (by intros [= <- _]; auto with texts).
    1-6: destruct (elems n (d + 1) r1) as [[l r3]|] eqn:E3; [| done]; intros [= <- _]; eauto with texts.
    all: destruct (members n (d + 1) r1) as [[l r3]|] eqn:E3; [| done]; intros [= <- _]; eauto with texts.
  - destruct (value n d bs) as [[j r1]|] eqn:E1; [| done]. apply IV in E1. cbn [mbind option_bind].
    destruct (next r1) as [[] r2]; try done; [| intros [= <- _]; auto].
    destruct (elems n d r2) as [[l r3]|] eqn:E3; [| done]. apply IE in E3. intros [= <- _]. auto.
  - destruct (str (skip_ws bs)) as [[k r1]|]; [| done]. cbn [mbind option_bind].
    destruct (next r1) as [[] r2]; try done. destruct (value n d r2) as [[j r3]|] eqn:E2; [| done].
    apply IV in E2. cbn [mbind option_bind]. destruct (next r3) as [[] r4]; try done; [| intros [= <- _]; auto].
    destruct (members n d r4) as [[l r5]|] eqn:E4; [| done]. apply IM in E4. intros [= <- _]. auto.
Qed.

Lemma parse_texts bs j : parse bs = Some j → texts j.
Proof.
  unfold parse. destruct (value (turns bs) 0 bs) as [[j' r]|] eqn:E; [| done]. apply value_texts in E.
  cbn [mbind option_bind]. case_decide; [by intros [= <-] | done].
Qed.

(** ** Decoding *)

(** A decoder that turns texts into values with a property, given old ones that have it. *)
Definition delivers {S} (P : S → Prop) (dec : json → S → res S) : Prop :=
  ∀ j v v', texts j → P v → dec j v = Ok v' → P v'.

Lemma struct_delivers {S} (P : S → Prop) (set : bytes → json → S → res S) :
  (∀ k, delivers P (set k)) → delivers P (struct_value set).
Proof.
  intros Hs j v v' Hj Hv. destruct Hj as [| | | | |l Hl]; try done; [by intros [= <-] |]. cbn [struct_value].
  revert v Hv. induction Hl as [|[k j] l Hj _ IH]; intros v Hv; [by intros [= <-] |]. cbn [fields].
  destruct (set k j v) as [v1|e|p] eqn:E; try done. apply IH. by eapply Hs.
Qed.

Lemma into_delivers {A} (P : A → Prop) (dec : json → A → res A) zero l old r :
  delivers P dec → P zero → Forall texts l → Forall P old → into dec zero l old = Ok r → Forall P r.
Proof.
  intros Hd Hz Hl. revert old r. induction Hl as [|j l Hj _ IH]; intros old r Ho; [by intros [= <-] |]. cbn [into].
  assert (P (default zero (head old)) ∧ Forall P (tail old)) as [H1 H2] by (by destruct Ho).
  destruct (dec j _) as [a|e|p] eqn:E; try done. cbn [mbind res_bind].
  destruct (into dec zero l (tail old)) as [r1|e|p] eqn:E1; try done. intros [= <-].
  constructor; [by eapply Hd | by eapply IH].
Qed.

(** What a slice shows and what it hides. *)
Definition all_of {A} (P : A → Prop) (v : slice A) : Prop := Forall P (elements v) ∧ Forall P (spare v).

Lemma array_delivers {A} (P : A → Prop) (dec : json → A → res A) zero l v v' :
  delivers P dec → P zero → Forall texts l → all_of P v → array dec zero l v = Ok v' → all_of P v'.
Proof.
  intros Hd Hz Hl [H1 H2]. unfold array. destruct l as [|j l]; [by intros [= <-] |].
  assert (Forall P (elements v ++ spare v)) as Ho by by apply Forall_app.
  destruct (into _ _ _ _) as [r|e|p] eqn:E; try done. intros [= <-].
  split; [by eapply into_delivers | by apply Forall_drop].
Qed.

Lemma string_delivers : delivers (λ s, utf8 s = true) string_value.
Proof.
  intros j v v' Hj Hv. destruct Hj; try done; [by intros [= <-] |]. intros [= <-].
  unfold utf8. by rewrite string_bytes_string.
Qed.

Lemma uint_delivers max : delivers (λ z, 0 ≤ z ≤ max)%Z (uint_value max).
Proof.
  intros j v v' Hj Hv. destruct Hj as [| |raw| | |]; try done; [by intros [= <-] |]. cbn [uint_value].
  destruct (forallb is_digit raw) eqn:Hd; [| done]. case_decide as Hm; [| done]. intros [= <-]. split; [| done].
  clear Hm. assert (∀ acc, 0 ≤ acc → 0 ≤ foldl (λ acc a, acc * 10 + (byte_val a - 48)) acc raw)%Z as H; [| by apply H].
  induction raw as [|a raw IH]; intros acc Ha; [done |]. cbn [forallb] in Hd. apply andb_prop in Hd as [H1 H2].
  apply bool_decide_eq_true in H1. cbn [foldl]. apply IH; [done | lia].
Qed.

Lemma setPubAddr_delivers k : delivers pubaddr_ok (setPubAddr k).
Proof.
  intros j v v' Hj (H1 & H2 & H3 & H4). unfold setPubAddr.
  pose proof (λ o x, string_delivers j o x Hj) as Hs. pose proof (λ o x, uint_delivers (2 ^ 32 - 1) j o x Hj) as Hu.
  repeat match goal with |- context [if ?b then _ else _] => destruct b end; try (by intros [= <-]);
    (match goal with |- (?d ≫= _) = _ → _ => destruct d eqn:E end; try done; intros [= <-]);
    split_and!; cbn [IP InPrice OutPrice Port]; try done; first [by refine (Hs _ _ _ E) | lia | apply Hu in E; lia].
Qed.

Lemma setPubAddrs_delivers k : delivers (λ p, all_of (from_option pubaddr_ok True) (p_addrs p)) (setPubAddrs k).
Proof.
  intros j v v' Hj Hv. unfold setPubAddrs. case_match.
  - destruct Hj as [| | | |l Hl|]; try done; [by intros [= <-] |].
    destruct (array _ _ _ _) as [s|e|p] eqn:E; try done. intros [= <-]. revert E. apply array_delivers; try done.
    intros j o o' Hj Ho. assert (pubaddr_ok (default (mkPubAddr "" 0 "" "") o)) as Hz by (by destruct o; [| vm_compute]).
    assert (∀ v, struct_value setPubAddr j (default (mkPubAddr "" 0 "" "") o) = Ok v → pubaddr_ok v) as Hd.
    { intros x. apply struct_delivers; [apply setPubAddr_delivers | done..]. }
    unfold ptr_value. destruct Hj; try (by intros [= <-]); destruct (struct_value _ _ _); intros [= <-]; simpl; auto.
  - case_match; [| by intros [= <-]]. destruct (bool_value _ _); try done. by intros [= <-].
Qed.

Lemma setRequest_delivers k : delivers (λ q, utf8 (q_action q) = true) (setRequest k).
Proof.
  intros j v v' Hj Hv. unfold setRequest. case_match.
  - destruct (string_value _ _) eqn:E; try done. intros [= <-]. by eapply string_delivers.
  - case_match; [| by intros [= <-]]. destruct (bytes_value _ _); try done. by intros [= <-].
Qed.

Lemma Unmarshal_delivers {S} (P : S → Prop) dec zero data v :
  delivers P dec → P zero → Unmarshal dec zero data = Ok v → P v.
Proof. intros Hd Hz. unfold Unmarshal. destruct (parse data) as [j|] eqn:E; [| done]. apply Hd; [by eapply parse_texts | done]. Qed.

Lemma request_received data r : UnmarshalRequest data = Ok r → utf8 (Action r) = true.
Proof.
  unfold UnmarshalRequest. destruct (Unmarshal _ _ _) as [q|e|p] eqn:E; try done. intros [= <-].
  revert E. apply (Unmarshal_delivers (λ q, utf8 (q_action q) = true)); [| done]. apply struct_delivers, setRequest_delivers.
Qed.

Lemma pubaddrs_received data pa : UnmarshalPubAddrs data = Ok pa → pubaddrs_ok pa.
Proof.
  unfold UnmarshalPubAddrs. destruct (Unmarshal _ _ _) as [q|e|p] eqn:E; try done. intros [= <-].
  assert (all_of (from_option pubaddr_ok True) (p_addrs q)) as [H _]; [| done].
  revert E. apply (Unmarshal_delivers (λ p, all_of (from_option pubaddr_ok True) (p_addrs p))); [| by split].
  apply struct_delivers, setPubAddrs_delivers.
Qed.

(** ** Requests and addresses on the network *)

(** C33: what [json.Marshal] makes of a request, of addresses and of a nil pointer,
    [json.Unmarshal] reads back unchanged when the texts are UTF-8 and the ports uint32;
    and these conditions hold for whatever was read from any bytes, so that it can be sent
    on. *)
Theorem json_round_trip r pa data :
  utf8 (Action r) = true → pubaddrs_ok pa →
  MarshalRequest r ≫= UnmarshalRequest = Ok r ∧
  MarshalPubAddrs (Some pa) ≫= UnmarshalPubAddrs = Ok pa ∧
  MarshalPubAddrs None ≫= UnmarshalPubAddrs = Ok (mkPubAddrs [] false) ∧
  (∀ r', UnmarshalRequest data = Ok r' → MarshalRequest r' ≫= UnmarshalRequest = Ok r') ∧
  (∀ pa', UnmarshalPubAddrs data = Ok pa' →
     pubaddrs_ok pa' ∧ MarshalPubAddrs (Some pa') ≫= UnmarshalPubAddrs = Ok pa').
Proof.
  intros Hr Hpa.
  assert (∀ r, utf8 (Action r) = true → MarshalRequest r ≫= UnmarshalRequest = Ok r) as H1
    by (intros; by apply request_json).
  assert (∀ pa, pubaddrs_ok pa → MarshalPubAddrs (Some pa) ≫= UnmarshalPubAddrs = Ok pa) as H2
    by (intros; by apply pubaddrs_json).
  split_and!; [auto | auto | by apply null_json | |].
  - intros r' ?%request_received. auto.
  - intros pa' ?%pubaddrs_received. auto.
Qed.

(** ** Runs *)
Module JsonRuns.

(** A text with single quotes in the place of the double ones. *)
Definition quoted (s : string) : bytes := (λ a, if decide (a = Byte.x27) then Byte.x22 else a) <$> string_bytes s.

Definition request : Request := mkRequest "getPubAddr" [Byte.x61].
Definition two : PubAddrs := mkPubAddrs [Some (mkPubAddr "1.2.3.4" 30001 "" "0.01"); None] false.

(** The bytes on the network. *)
Example request_text : MarshalRequest request = Ok (quoted "{'action':'getPubAddr','sessionID':'YQ=='}").
Proof. vm_compute. reflexivity. Qed.

Example addrs_text :
  MarshalPubAddrs (Some two) =
    Ok (quoted "{'addrs':[{'ip':'1.2.3.4','port':30001,'outPrice':'0.01'},null],'sessionClosed':false}").
Proof. vm_compute. reflexivity. Qed.

Example closed_text :
  MarshalPubAddrs (Some (mkPubAddrs [] true)) = Ok (quoted "{'addrs':null,'sessionClosed':true}") ∧
  MarshalPubAddrs (Some (mkPubAddrs [] false)) = Ok (quoted "{'addrs':[],'sessionClosed':false}") ∧
  MarshalPubAddrs None = Ok (quoted "null").
Proof. vm_compute. done. Qed.

(** Spaces, the order of fields, the case of their names, unknown and repeated ones. *)
Example loose_text :
  UnmarshalPubAddrs (quoted " { 'x' : [1.5e3, {}], 'SessionClosed': false,
    'ADDRS' : [ {'port':1, 'port':30001, 'IP':'1.2.3.\u0034', 'outprice':'0.01'} , null ] } ") = Ok two.
Proof. vm_compute. reflexivity. Qed.

(** A port that is no uint32, a text cut off, something after the value. *)
Example bad_text :
  UnmarshalPubAddrs (quoted "{'addrs':[{'port':4294967296}]}") = Err typeError ∧
  UnmarshalPubAddrs (quoted "{'addrs':[{'port':-1}]}") = Err typeError ∧
  UnmarshalPubAddrs (quoted "{'addrs':[") = Err (ErrText "json: invalid syntax") ∧
  UnmarshalRequest (quoted "{} {}") = Err (ErrText "json: invalid syntax") ∧
  UnmarshalRequest (quoted "{'sessionID':'YQ='}") = Err typeError.
Proof. vm_compute. done. Qed.

Lemma json_round_trip_witness :
  MarshalRequest request ≫= UnmarshalRequest = Ok request ∧
  MarshalPubAddrs (Some two) ≫= UnmarshalPubAddrs = Ok two.
Proof.
  destruct (json_round_trip request two []) as (H1 & H2 & _); [reflexivity | | exact (conj H1 H2)].
  repeat constructor; vm_compute; reflexivity || discriminate.
Defined.

End JsonRuns.
