(* ===== verification/World.v ===== *)
(** * The state of a TunaSessionClient and the libraries it calls

    [LibOps] gathers the library code the client is written against (ncp, tuna, nkn,
    regexp, the ciphers, protobuf, the cache), each as a class of operations; [LibLaws]
    what their documentation promises.  [Client] is the struct of client.go; pointers to
    connections, sessions, exits, UDP sockets and UDP sessions are indices into heaps,
    so that two holders of a pointer see the same object. *)

From stdpp Require Import base gmap strings list numbers tactics.
From Stdlib Require Import ZArith Lia.
From S2P Require Import Prelude Util Message Crypto Pb Config Table.

(** ** ncp: the sessions *)
Class NcpOps := {
  session : Type;
  (* local address, remote address, connection ids, configuration *)
  NewSession : string → string → list string → option ncpConfig → res session;
  ncp_RemoteAddr : session → string;
  ncp_IsClosed : session → bool;
  ncp_Close : go session unit;
  ncp_Accept : go session unit;
  ncp_Dial : go session unit;
  ReceiveWith : string → string → bytes → go session unit
}.

Class NcpLaws `(NcpOps) : Prop := {
  new_session l r ids cfg s :
    NewSession l r ids cfg = Ok s → ncp_RemoteAddr s = r ∧ ncp_IsClosed s = false;
  new_session_no_panic l r ids cfg : is_panic (NewSession l r ids cfg) = false;
  receive_remote a b buf s : ncp_RemoteAddr (ReceiveWith a b buf s).2 = ncp_RemoteAddr s;
  receive_no_panic a b buf s : is_panic (ReceiveWith a b buf s).1 = false;
  close_closed s : ncp_IsClosed (ncp_Close s).2 = true;
  close_no_panic s : is_panic (ncp_Close s).1 = false;
  accept_no_panic s : is_panic (ncp_Accept s).1 = false;
  dial_no_panic s : is_panic (ncp_Dial s).1 = false
}.

(** ** tuna: encrypted UDP sockets and exits *)
Inductive sockopt :=
  | OptDeadline (t : option Z) | OptReadDeadline (t : option Z) | OptWriteDeadline (t : option Z)
  | OptWriteBuffer (size : Z) | OptReadBuffer (size : Z).

Class UdpOps := {
  udpconn : Type;
  net_DialUDP : string → Z → res udpconn;          (* net.DialUDP, then NewEncryptUDPConn *)
  net_ListenUDP : string → Z → res udpconn;        (* net.ListenUDP, then NewEncryptUDPConn *)
  UDPAddr_String : string → Z → string;            (* (&net.UDPAddr{net.ParseIP(ip), port}).String() *)
  uc_IsClosed : udpconn → bool;
  uc_Close : udpconn → udpconn;
  uc_WriteMsgUDP : bytes → option string → go udpconn Z;
  uc_AddCodec : string → bytes → go udpconn unit;
  uc_Set : sockopt → go udpconn unit;
  uc_LocalAddr : udpconn → string;
  MaxUDPBufferSize : nat
}.

Class UdpLaws `(UdpOps) : Prop := {
  dial_open ip port u : net_DialUDP ip port = Ok u → uc_IsClosed u = false;
  listen_open ip port u : net_ListenUDP ip port = Ok u → uc_IsClosed u = false;
  uc_close_closed u : uc_IsClosed (uc_Close u) = true;
  uc_write_closed b a u : uc_IsClosed (uc_WriteMsgUDP b a u).2 = uc_IsClosed u;
  uc_codec_closed a k u : uc_IsClosed (uc_AddCodec a k u).2 = uc_IsClosed u;
  uc_no_panic b a k u :
    is_panic (uc_WriteMsgUDP b a u).1 = false ∧ is_panic (uc_AddCodec (default "" a) k u).1 = false;
  uc_set_no_panic o u : is_panic (uc_Set o u).1 = false;
  net_no_panic ip port :
    is_panic (net_DialUDP ip port) = false ∧ is_panic (net_ListenUDP ip port) = false;
  buffer_not_empty : 0 < MaxUDPBufferSize
}.

(** The configuration of a reverse exit (the fields client.go sets). *)
Record exitConfig `{TunaOps} := mkExitConfig {
  ec_tcp : list Z; ec_udp : list Z;
  ec_maxPrice : string; ec_nanoPayFee : string; ec_minNanoPayFee : string;
  ec_nanoPayFeeRatio : SpecFloat.spec_float;
  ec_serviceName : string; ec_subscriptionPrefix : string;
  ec_ipFilter : IPFilter; ec_nknFilter : NknFilter;
  ec_downloadGeoDB : bool; ec_geoDBPath : string;
  ec_measureBandwidth : bool; ec_measureStoragePath : string; ec_measurementBytes : Z;
  ec_dialTimeout : Z; ec_minBalance : string
}.

Class ExitOps `{TunaOps} := {
  wallet : Type;
  node : Type;
  tunaExit : Type;
  NewTunaExit : option wallet → exitConfig → res tunaExit;
  te_SetRemoteNode : node → tunaExit → tunaExit;
  te_SetLinger : Z → tunaExit → tunaExit;
  te_Close : tunaExit → tunaExit;
  te_GetReverseIP : tunaExit → string;          (* GetReverseIP().String() *)
  te_GetReverseTCPPorts : tunaExit → list Z;
  te_GetPrice : tunaExit → string * string
}.

Class ExitLaws `(ExitOps) : Prop := {
  exit_no_panic w cfg : is_panic (NewTunaExit w cfg) = false
}.

(** ** regexp and nkn *)
Class RegexpOps := {
  regexp : Type;
  regexp_Compile : string → res regexp;
  MatchString : regexp → string → bool;
  DefaultSessionAllowAddr : string
}.

(** [Compile] reports a bad pattern as an error. *)
Class RegexpLaws `(RegexpOps) : Prop := {
  compile_no_panic s : is_panic (regexp_Compile s) = false
}.

Record dialConfig := mkDialConfig { DialTimeout : Z; DialSessionConfig : option ncpConfig }.

Class NknOps := {
  MergeDialConfig : option ncpConfig → option dialConfig → res dialConfig;
  ResolveDest : string → res string;
  multiClient_Close : res unit
}.

Class NknLaws `(NknOps) : Prop := {
  multiClient_no_panic : is_panic multiClient_Close = false;
  dialing_no_panic cfg dc a :
    is_panic (MergeDialConfig cfg dc) = false ∧ is_panic (ResolveDest a) = false
}.

(** ** All of it *)
Class LibOps := {
  lib_tuna :: TunaOps; lib_cache :: CacheOps; lib_box :: BoxOps; lib_proto :: ProtoOps;
  lib_ncp :: NcpOps; lib_udp :: UdpOps; lib_exit :: ExitOps; lib_regexp :: RegexpOps;
  lib_nkn :: NknOps
}.

Class LibLaws (L : LibOps) : Prop := {
  laws_box :: BoxLaws lib_box; laws_proto :: ProtoLaws lib_proto; laws_ncp :: NcpLaws lib_ncp;
  laws_udp :: UdpLaws lib_udp; laws_cache :: CacheLaws lib_cache; laws_nkn :: NknLaws lib_nkn;
  laws_exit :: ExitLaws lib_exit; laws_regexp :: RegexpLaws lib_regexp
}.

(** ** The state *)
Section world.
Context `{L : LibOps}.

(** udpsession.go: a peer of a UDP session; [udpAddr] is its [String()]. *)
Record udpSessionAddr := newUdpSessionAddr {
  sessionID : bytes;
  remoteNknAddr : string;
  udpAddr : string
}.

(** [Network()]. *)
Definition usa_Network (usa : udpSessionAddr) : string := "tsudp".

(** [String()]: the session key. *)
Definition usa_String (usa : udpSessionAddr) : string :=
  Keys.sessionKey (remoteNknAddr usa) (sessionID usa).

Record recvData := mkRecv { rd_data : bytes; rd_usa : option udpSessionAddr }.

Record UdpSession := mkUdp {
  isListener : bool;
  udpConn : option nat;
  recvCap : Z;                               (* capacity of recvChan *)
  recvChan : list recvData;
  recvSize : Z;
  readContext : option Z;                    (* deadline of the read context *)
  tcpConn : option nat;
  peer : option udpSessionAddr;
  sessKeyToSessAddr : gmap string udpSessionAddr;
  udpAddrToSessAddr : gmap string udpSessionAddr;
  tcpConns : gmap string nat
}.

(** Goroutines the code starts. *)
Inductive task :=
  | TServe (i : Z) (conn : nat)                      (* listenNet, per connection *)
  | TListenNet (i : Z) | TListenNKN
  | TStartReverse (te : nat) | TExitConnected (te : nat) | TExitClose (te : nat)
  | TListenWhenConnected (n : nat)
  | TDialConn (conn : nat) (remoteAddr : string) (sessionID : bytes) (i : Z) (config : dialConfig)
  | TRecvMsg (us : nat)
  | TUdpMonitor (us conn : nat) (sessKey : string)   (* handleUdpListenerTcp *)
  | TUdpReconnect (us : nat) (remoteAddr : string) (sessionID : bytes) (config : dialConfig).

Record Listener := mkListener {
  l_id : nat;                                 (* the socket of the operating system *)
  l_addr : string;                            (* Addr().String() *)
  l_closed : bool
}.

Record Heap := mkHeap {
  h_conns : gmap nat Conn;
  h_sess : gmap nat session;
  h_udpconns : gmap nat udpconn;
  h_udps : gmap nat UdpSession;
  h_exits : gmap nat tunaExit
}.

(** The part of the client that listens: its listeners and exits. *)
Record Exits := mkExits {
  listeners : list Listener;
  tunaExits : option (list (option nat));     (* a nil slice is [None] *)
  onConnect : bool;                           (* the channel is closed *)
  e_wallet : option wallet;
  tunaNode : option node;
  e_os : Port.OS                              (* the ports of this machine *)
}.

Record Client := mkClient {
  config : Config;
  privKey : bytes;                            (* clientAccount *)
  addr : string;
  acceptSession : list nat;
  onClose : bool;                             (* the channel is closed *)
  isClosed : bool;
  acceptAddrs : list regexp;
  table : Table;
  sharedKeys : gmap string bytes;
  exits : Exits;
  listenerUdpSess : option nat;
  heap : Heap;
  tasks : list task;                          (* goroutines started, in order *)
  now : Z
}.

(** *** Updates of single fields *)

Definition set_config (x : Config) (c : Client) : Client :=
  mkClient x (privKey c) (addr c) (acceptSession c) (onClose c) (isClosed c) (acceptAddrs c)
    (table c) (sharedKeys c) (exits c) (listenerUdpSess c) (heap c) (tasks c) (now c).
Definition set_acceptSession (x : list nat) (c : Client) : Client :=
  mkClient (config c) (privKey c) (addr c) x (onClose c) (isClosed c) (acceptAddrs c)
    (table c) (sharedKeys c) (exits c) (listenerUdpSess c) (heap c) (tasks c) (now c).
Definition set_closed (oc ic : bool) (c : Client) : Client :=
  mkClient (config c) (privKey c) (addr c) (acceptSession c) oc ic (acceptAddrs c)
    (table c) (sharedKeys c) (exits c) (listenerUdpSess c) (heap c) (tasks c) (now c).
Definition set_acceptAddrs (x : list regexp) (c : Client) : Client :=
  mkClient (config c) (privKey c) (addr c) (acceptSession c) (onClose c) (isClosed c) x
    (table c) (sharedKeys c) (exits c) (listenerUdpSess c) (heap c) (tasks c) (now c).
Definition set_table (x : Table) (c : Client) : Client :=
  mkClient (config c) (privKey c) (addr c) (acceptSession c) (onClose c) (isClosed c) (acceptAddrs c)
    x (sharedKeys c) (exits c) (listenerUdpSess c) (heap c) (tasks c) (now c).
Definition set_sharedKeys (x : gmap string bytes) (c : Client) : Client :=
  mkClient (config c) (privKey c) (addr c) (acceptSession c) (onClose c) (isClosed c) (acceptAddrs c)
    (table c) x (exits c) (listenerUdpSess c) (heap c) (tasks c) (now c).
Definition set_exits (x : Exits) (c : Client) : Client :=
  mkClient (config c) (privKey c) (addr c) (acceptSession c) (onClose c) (isClosed c) (acceptAddrs c)
    (table c) (sharedKeys c) x (listenerUdpSess c) (heap c) (tasks c) (now c).
Definition set_udp (x : option nat) (c : Client) : Client :=
  mkClient (config c) (privKey c) (addr c) (acceptSession c) (onClose c) (isClosed c) (acceptAddrs c)
    (table c) (sharedKeys c) (exits c) x (heap c) (tasks c) (now c).
Definition set_heap (x : Heap) (c : Client) : Client :=
  mkClient (config c) (privKey c) (addr c) (acceptSession c) (onClose c) (isClosed c) (acceptAddrs c)
    (table c) (sharedKeys c) (exits c) (listenerUdpSess c) x (tasks c) (now c).
Definition set_tasks (x : list task) (c : Client) : Client :=
  mkClient (config c) (privKey c) (addr c) (acceptSession c) (onClose c) (isClosed c) (acceptAddrs c)
    (table c) (sharedKeys c) (exits c) (listenerUdpSess c) (heap c) x (now c).
Definition set_now (x : Z) (c : Client) : Client :=
  mkClient (config c) (privKey c) (addr c) (acceptSession c) (onClose c) (isClosed c) (acceptAddrs c)
    (table c) (sharedKeys c) (exits c) (listenerUdpSess c) (heap c) (tasks c) x.
Definition spawn (t : task) : go Client unit := modify (λ c,
  mkClient (config c) (privKey c) (addr c) (acceptSession c) (onClose c) (isClosed c) (acceptAddrs c)
    (table c) (sharedKeys c) (exits c) (listenerUdpSess c) (heap c) (tasks c ++ [t]) (now c)).

Definition put_conn (r : nat) (x : Conn) (h : Heap) : Heap :=
  mkHeap (<[r := x]> (h_conns h)) (h_sess h) (h_udpconns h) (h_udps h) (h_exits h).
Definition put_sess (r : nat) (x : session) (h : Heap) : Heap :=
  mkHeap (h_conns h) (<[r := x]> (h_sess h)) (h_udpconns h) (h_udps h) (h_exits h).
Definition put_udpconn (r : nat) (x : udpconn) (h : Heap) : Heap :=
  mkHeap (h_conns h) (h_sess h) (<[r := x]> (h_udpconns h)) (h_udps h) (h_exits h).
Definition put_udp (r : nat) (x : UdpSession) (h : Heap) : Heap :=
  mkHeap (h_conns h) (h_sess h) (h_udpconns h) (<[r := x]> (h_udps h)) (h_exits h).
Definition put_exit (r : nat) (x : tunaExit) (h : Heap) : Heap :=
  mkHeap (h_conns h) (h_sess h) (h_udpconns h) (h_udps h) (<[r := x]> (h_exits h)).

(** *** Methods of the objects behind pointers; a dangling pointer is a nil one *)

Definition on {X A} (lookup : Heap → gmap nat X) (put : nat → X → Heap → Heap)
    (r : nat) (m : go X A) : go Client A := λ c,
  match lookup (heap c) !! r with
  | None => (Panic NilDeref, c)
  | Some x => let '(a, x') := m x in (a, set_heap (put r x' (heap c)) c)
  end.

Definition on_conn {A} := @on Conn A h_conns put_conn.
Definition on_sess {A} := @on session A h_sess put_sess.
Definition on_udpconn {A} := @on udpconn A h_udpconns put_udpconn.
Definition on_udp {A} := @on UdpSession A h_udps put_udp.
Definition on_exit {A} := @on tunaExit A h_exits put_exit.

(** The shared keys of the client. *)
Definition on_keys {A} (m : go (gmap string bytes) A) : go Client A :=
  zoom sharedKeys set_sharedKeys m.

(** A pointer that must not be nil. *)
Definition deref {S A} (p : option A) : go S A :=
  match p with Some a => mret a | None => crash NilDeref end.

(** The object behind a pointer, read only. *)
Definition peek {X} (lookup : Heap → gmap nat X) (r : nat) : go Client X :=
  c ← get; deref (lookup (heap c) !! r).

(** [conn.Close()]: closing twice only reports an error, which the code ignores. *)
Definition closeConn (r : nat) : go Client unit := on_conn r (modify close_conn).

(** The same where the code returns that error. *)
Definition closeConnErr (r : nat) : go Client unit :=
  on_conn r (λ x, (if conn_closed x then Err NetErrClosed else Ok tt, close_conn x)).

(** New objects. *)
Definition alloc {X} (lookup : Heap → gmap nat X) (put : nat → X → Heap → Heap) (x : X)
    : go Client nat := λ c,
  let r := fresh (dom (lookup (heap c))) in (Ok r, set_heap (put r x (heap c)) c).

Definition new_conn := alloc h_conns put_conn.
Definition new_sess := alloc h_sess put_sess.
Definition new_udpconn := alloc h_udpconns put_udpconn.
Definition new_udp := alloc h_udps put_udp.
Definition new_exit := alloc h_exits put_exit.

(** *** Facts on the heap *)

Lemma put_conn_twice r x y h : put_conn r y (put_conn r x h) = put_conn r y h.
Proof. unfold put_conn. simpl. by rewrite insert_insert_eq. Qed.

Lemma set_heap_twice h h' c : set_heap h (set_heap h' c) = set_heap h c.
Proof. done. Qed.

Lemma on_ok {X A} (lookup : Heap → gmap nat X) put r (m : go X A) c x :
  lookup (heap c) !! r = Some x →
  on lookup put r m c = ((m x).1, set_heap (put r (m x).2 (heap c)) c).
Proof. intros H. unfold on. rewrite H. by destruct (m x). Qed.

Lemma on_panic {X A} (lookup : Heap → gmap nat X) put r (m : go X A) c :
  is_Some (lookup (heap c) !! r) → (∀ x, is_panic (m x).1 = false) →
  is_panic (on lookup put r m c).1 = false.
Proof. intros [x H] Hm. rewrite (on_ok _ _ _ _ _ _ H). apply Hm. Qed.

End world.
