(* ===== verification/Demo.v ===== *)
(** * Concrete libraries, to evaluate the definitions with

    A small implementation of every operation of [LibOps]: sessions that log what they
    receive, sockets that log what is written, exits that keep their configuration.
    [demo_laws] shows that the laws the theorems assume can hold together. *)

From stdpp Require Import base gmap strings list numbers countable tactics.
From Stdlib Require Import ZArith Lia.
From S2P Require Import Prelude Util Message Crypto Pb Config Table World.

Module Demo.
#[local] Existing Instances Crypto.toy_box Crypto.toy_laws Wire.wire_ops Wire.wire_laws
  ConfigRuns.demo_tuna map_cache map_cache_laws.

(** ** Sessions *)
Record demoSession := mkDemoSession {
  ds_remote : string; ds_closed : bool; ds_log : list (string * bytes)
}.

#[local] Instance demo_ncp : NcpOps := {
  session := demoSession;
  NewSession l r ids cfg := Ok (mkDemoSession r false []);
  ncp_RemoteAddr := ds_remote;
  ncp_IsClosed := ds_closed;
  ncp_Close := modify (λ s, mkDemoSession (ds_remote s) true (ds_log s));
  ncp_Accept := mret tt;
  ncp_Dial := mret tt;
  ReceiveWith a b buf s :=
    if ds_closed s then (Err NcpErrSessionClosed, s)
    else (Ok tt, mkDemoSession (ds_remote s) false (ds_log s ++ [(a, buf)]))
}.

#[local] Instance demo_ncp_laws : NcpLaws demo_ncp.
Proof.
  split; simpl; try done.
  - by intros l r ids cfg s [= <-].
  - intros a b buf s. by destruct (ds_closed s).
  - intros a b buf s. by destruct (ds_closed s).
Qed.

(** ** UDP sockets *)
Record demoSocket := mkDemoSocket {
  sk_closed : bool; sk_out : list (bytes * option string); sk_codecs : list (string * bytes)
}.

#[local] Instance demo_udp : UdpOps := {
  udpconn := demoSocket;
  net_DialUDP ip port := Ok (mkDemoSocket false [] []);
  net_ListenUDP ip port := Ok (mkDemoSocket false [] []);
  UDPAddr_String ip port := PubAddr_String (mkPubAddr ip port "" "");
  uc_IsClosed := sk_closed;
  uc_Close s := mkDemoSocket true (sk_out s) (sk_codecs s);
  uc_WriteMsgUDP b a s :=
    (Ok (Z.of_nat (length b)), mkDemoSocket (sk_closed s) (sk_out s ++ [(b, a)]) (sk_codecs s));
  uc_AddCodec a k s := (Ok tt, mkDemoSocket (sk_closed s) (sk_out s) ((a, k) :: sk_codecs s));
  uc_Set o s := (Ok tt, s);
  uc_LocalAddr s := "127.0.0.1:1";
  MaxUDPBufferSize := 8
}.

#[local] Instance demo_udp_laws : UdpLaws demo_udp.
Proof. split; simpl; try done; try lia; by intros ip port u [= <-]. Qed.

(** ** Exits *)
Record demoExit := mkDemoExit {
  de_config : exitConfig; de_node : option string; de_linger : Z; de_closed : bool
}.

#[local] Instance demo_exit : ExitOps := {
  wallet := bool;                      (* whether it can pay for an exit *)
  node := string;
  tunaExit := demoExit;
  NewTunaExit w cfg :=
    match w with Some true => Ok (mkDemoExit cfg None 0 false) | _ => Err (ErrExt 9) end;
  te_SetRemoteNode n e := mkDemoExit (de_config e) (Some n) (de_linger e) (de_closed e);
  te_SetLinger l e := mkDemoExit (de_config e) (de_node e) l (de_closed e);
  te_Close e := mkDemoExit (de_config e) (de_node e) (de_linger e) true;
  te_GetReverseIP e := "1.2.3.4";
  te_GetReverseTCPPorts e := ec_tcp (de_config e);
  te_GetPrice e := ("1", "2")
}.

#[local] Instance demo_exit_laws : ExitLaws demo_exit.
Proof. split. by intros [[]|] cfg. Qed.

(** ** Regular expressions: a text matches itself, the empty one matches everything *)
#[local] Instance demo_regexp : RegexpOps := {
  regexp := string;
  regexp_Compile s := if decide (s = "(") then Err (ErrExt 1) else Ok s;
  MatchString r s := bool_decide (r = "" ∨ r = s);
  DefaultSessionAllowAddr := ""
}.

#[local] Instance demo_regexp_laws : RegexpLaws demo_regexp.
Proof. split. intros s. simpl. by case_decide. Qed.

(** ** The nkn client *)
#[local] Instance demo_nkn : NknOps := {
  MergeDialConfig sc dc := Ok (default (mkDialConfig 0 sc) dc);
  ResolveDest a := Ok a;
  multiClient_Close := Ok tt
}.

#[local] Instance demo_nkn_laws : NknLaws demo_nkn.
Proof. by split. Qed.

#[export] Instance demo_ops : LibOps := {|
  lib_tuna := ConfigRuns.demo_tuna; lib_cache := map_cache; lib_box := Crypto.toy_box;
  lib_proto := Wire.wire_ops; lib_ncp := demo_ncp; lib_udp := demo_udp; lib_exit := demo_exit;
  lib_regexp := demo_regexp; lib_nkn := demo_nkn
|}.

#[export] Instance demo_laws : LibLaws demo_ops.
Proof. split; apply _. Qed.

(** A client with empty maps at time 100. *)
Definition demo_client (a : string) (h : Heap) : Client :=
  mkClient (L := demo_ops) ConfigRuns.merged_demo (Crypto.toy_sk a) a [] false false [""] newTable ∅
    (mkExits [] None false (Some true) None (Port.mkOS ∅ ∅)) None h [] 100.

Definition demo_conn (segs : list bytes) : Conn := mkConn segs EOF [] None EOF None false "9.9.9.9:1".

End Demo.
