(* ===== verification/Udp.v ===== *)
(** * udpsession.go: UDP sessions

    [UdpSession] values live in the heap of the client; a method is a computation on the
    client with the index of the session as its receiver.  Maps and counters that the
    session's lock protects are updated by pure functions on [UdpSession] (the critical
    sections), which [UdpInv] interleaves.  Dialing ([DialUpSession]) is in [Dial]. *)

From stdpp Require Import base gmap strings list numbers tactics.
From Stdlib Require Import ZArith Lia.
From S2P Require Import Prelude Util Message Crypto Pb Config Table World.
Import Keys.

Module Udp.
Section udp.
Context `{L : LibOps}.

(** ** Critical sections *)

Definition set_recv (chan : list recvData) (size : Z) (us : UdpSession) : UdpSession :=
  mkUdp (isListener us) (udpConn us) (recvCap us) chan size (readContext us) (tcpConn us) (peer us)
    (sessKeyToSessAddr us) (udpAddrToSessAddr us) (tcpConns us).
Definition set_ctx (d : option Z) (us : UdpSession) : UdpSession :=
  mkUdp (isListener us) (udpConn us) (recvCap us) (recvChan us) (recvSize us) d (tcpConn us) (peer us)
    (sessKeyToSessAddr us) (udpAddrToSessAddr us) (tcpConns us).
Definition set_maps (m1 m2 : gmap string udpSessionAddr) (m3 : gmap string nat) (us : UdpSession)
    : UdpSession :=
  mkUdp (isListener us) (udpConn us) (recvCap us) (recvChan us) (recvSize us) (readContext us)
    (tcpConn us) (peer us) m1 m2 m3.
Definition set_dialer (uc tc : option nat) (p : option udpSessionAddr) (us : UdpSession) : UdpSession :=
  mkUdp (isListener us) uc (recvCap us) (recvChan us) (recvSize us) (readContext us) tc p
    (sessKeyToSessAddr us) (udpAddrToSessAddr us) (tcpConns us).

(** [recvMsg]: a datagram for the application; it is dropped when the buffer has no room
    left for it or the channel is full. *)
Definition recvPush (limit : Z) (data : bytes) (usa : option udpSessionAddr) (us : UdpSession)
    : UdpSession :=
  if decide (recvSize us + Z.of_nat (length data) < limit)%Z then
    if decide (Z.of_nat (length (recvChan us)) < recvCap us)%Z
    then set_recv (recvChan us ++ [mkRecv data usa]) (recvSize us + Z.of_nat (length data))%Z us
    else us
  else us.

(** [ReadFrom]: the receive from the channel, and then the release of its bytes. *)
Definition readTake (us : UdpSession) : option (recvData * UdpSession) :=
  match recvChan us with
  | [] => None
  | msg :: chan => Some (msg, set_recv chan (recvSize us) us)
  end.
Definition readRelease (n : Z) (us : UdpSession) : UdpSession :=
  set_recv (recvChan us) (recvSize us - n)%Z us.

(** [handleMetaData]: a new session of a listener. *)
Definition putSession (usa : udpSessionAddr) (us : UdpSession) : UdpSession :=
  set_maps (<[usa_String usa := usa]> (sessKeyToSessAddr us))
    (<[udpAddr usa := usa]> (udpAddrToSessAddr us)) (tcpConns us) us.

(** [handleConnClosed] of a listener: the session and its TCP connection are forgotten;
    the connection is to be closed. *)
Definition dropUdpSession (sessKey : string) (us : UdpSession) : option nat * UdpSession :=
  match sessKeyToSessAddr us !! sessKey with
  | None => (None, us)
  | Some usa =>
      (tcpConns us !! sessKey,
       set_maps (delete sessKey (sessKeyToSessAddr us)) (delete (udpAddr usa) (udpAddrToSessAddr us))
         (delete sessKey (tcpConns us)) us)
  end.

(** [Close] of a listener, the maps. *)
Definition clearMaps (us : UdpSession) : UdpSession := set_maps ∅ ∅ ∅ us.

(** [handleUdpListenerTcp]: the TCP connection of a session, and its end. *)
Definition putTcp (sessKey : string) (conn : nat) (us : UdpSession) : UdpSession :=
  set_maps (sessKeyToSessAddr us) (udpAddrToSessAddr us) (<[sessKey := conn]> (tcpConns us)) us.
Definition delTcp (sessKey : string) (us : UdpSession) : UdpSession :=
  set_maps (sessKeyToSessAddr us) (udpAddrToSessAddr us) (delete sessKey (tcpConns us)) us.

(** ** Methods *)

Definition getUdp (u : nat) : go Client UdpSession := peek h_udps u.
Definition updUdp (u : nat) (f : UdpSession → UdpSession) : go Client unit := on_udp u (modify f).

Definition GetEstablishedUDPConn (u : nat) : go Client nat :=
  c ← get;
  if isClosed c then throw ErrClosed
  else
    us ← getUdp u;
    match udpConn us with
    | None => throw ErrNilConn
    | Some conn =>
        x ← peek h_udpconns conn;
        if uc_IsClosed x then throw ErrClosed else mret conn
    end.

Definition GetUDPConn (u : nat) : go Client (option nat) := us ← getUdp u; mret (udpConn us).

Definition IsClosed (u : nat) : go Client bool :=
  r ← try (GetEstablishedUDPConn u);
  mret (match r with inl _ => false | inr _ => true end).

(** [SetReadDeadline]; the zero time is [None]. *)
Definition SetReadDeadline (u : nat) (t : option Z) : go Client unit :=
  updUdp u (set_ctx t);;
  conn ← GetEstablishedUDPConn u;
  on_udpconn conn (uc_Set (OptReadDeadline t)).

Definition SetWriteDeadline (u : nat) (t : option Z) : go Client unit :=
  conn ← GetEstablishedUDPConn u; on_udpconn conn (uc_Set (OptWriteDeadline t)).

Definition SetWriteBuffer (u : nat) (size : Z) : go Client unit :=
  conn ← GetEstablishedUDPConn u; on_udpconn conn (uc_Set (OptWriteBuffer size)).

Definition SetReadBuffer (u : nat) (size : Z) : go Client unit :=
  conn ← GetEstablishedUDPConn u; on_udpconn conn (uc_Set (OptReadBuffer size)).

Definition SetDeadline (u : nat) (t : option Z) : go Client unit :=
  c ← get;
  if isClosed c then throw ErrClosed
  else conn ← GetEstablishedUDPConn u; on_udpconn conn (uc_Set (OptDeadline t)).

Definition LocalAddr (u : nat) : go Client (option string) :=
  r ← try (GetEstablishedUDPConn u);
  match r with
  | inr _ => mret None
  | inl conn => x ← peek h_udpconns conn; mret (Some (uc_LocalAddr x))
  end.

Definition RemoteAddr (u : nat) : go Client (option string) :=
  us ← getUdp u;
  mret (if isListener us then None else udpAddr <$> peer us).

(** [newUdpSession]; [make(chan, n)] panics on a negative [n]. *)
Definition newUdpSession (listener : bool) : go Client nat :=
  c ← get;
  let n := MaxUdpDatagramBuffered (config c) in
  if decide (n < 0)%Z then crash MakeSliceLen
  else
    u ← new_udp (mkUdp listener None n [] 0 None None None ∅ ∅ ∅);
    try (SetReadDeadline u None);;
    mret u.

Definition addCodec (u : nat) (addr remoteAddr : string) : go Client unit :=
  remotePublicKey ← lift_res (ClientAddrToPubKey remoteAddr);
  c ← get;
  sharedKey ← on_keys (Crypto.getOrComputeSharedKey (privKey c) remotePublicKey);
  conn ← GetEstablishedUDPConn u;
  on_udpconn conn (uc_AddCodec addr sharedKey).

(** [ReadFrom] into a buffer of [n] bytes; [None] when it waits.  When a datagram is
    there and the deadline has passed, [select] takes either: [datagram] chooses. *)
Definition ReadFrom (u : nat) (n : nat) (datagram : bool)
    : go Client (option (bytes * option udpSessionAddr)) :=
  closed ← IsClosed u;
  if closed : bool then throw ErrClosed
  else
    us ← getUdp u;
    c ← get;
    let expired := match readContext us with Some t => bool_decide (t ≤ now c)%Z | None => false end in
    match readTake us with
    | Some (msg, us') =>
        if expired && negb datagram then throw CtxDeadlineExceeded
        else
          updUdp u (λ _, us');;
          updUdp u (readRelease (Z.of_nat (length (rd_data msg))));;
          mret (Some (take n (rd_data msg), rd_usa msg))
    | None => if expired then throw CtxDeadlineExceeded else mret None
    end.

(** [Read]: [ReadFrom] without the address. *)
Definition Read (u : nat) (n : nat) (datagram : bool) : go Client (option bytes) :=
  r ← ReadFrom u n datagram; mret (fst <$> r).

(** The address argument of [WriteTo]: nil, a [*udpSessionAddr], or another [net.Addr]. *)
Inductive netAddr := NilAddr | SessAddr (usa : udpSessionAddr) | OtherAddr (s : string).

Definition getUdpAddr (u : nat) (a : netAddr) : go Client string :=
  us ← getUdp u;
  if negb (isListener us) then usa ← deref (peer us); mret (udpAddr usa)
  else
    match a with
    | SessAddr usa =>
        match sessKeyToSessAddr us !! usa_String usa with
        | Some usa => mret (udpAddr usa)
        | None => throw ErrWrongAddr
        end
    | _ => throw ErrWrongAddr
    end.

Definition WriteTo (u : nat) (b : bytes) (a : netAddr) : go Client Z :=
  let buf := byte_of HeaderType_USER :: b in
  us ← getUdp u;
  dst ← (if isListener us then a ← getUdpAddr u a; mret (Some a) else mret None);
  conn ← GetEstablishedUDPConn u;
  n ← on_udpconn conn (uc_WriteMsgUDP buf dst);
  mret (n - 1)%Z.

Definition Write (u : nat) (b : bytes) : go Client Z :=
  us ← getUdp u;
  if isListener us then throw ErrOnlyDailer
  else WriteTo u b (from_option SessAddr NilAddr (peer us)).

(** ** Closing *)

(** [sendCloseMsg]: to the listener (dialer), to one dialer, or to all of them; errors
    of single writes do not stop it, and its callers ignore what it returns. *)
Definition writeRaw (conn : nat) (b : bytes) : go Client unit := on_conn conn (Message.Write b).

Fixpoint writeEach (b : bytes) (conns : list nat) : go Client unit :=
  match conns with
  | [] => mret tt
  | conn :: conns => try (writeRaw conn b);; writeEach b conns
  end.

Definition sendCloseMsg (u : nat) (dst : option string) : go Client unit :=
  b ← lift_res (newSessionData MsgType_CLOSE []);
  us ← getUdp u;
  match isListener us, tcpConn us, dst with
  | false, Some conn, _ => writeRaw conn b
  | _, _, Some a =>
      match udpAddrToSessAddr us !! a with
      | Some usa =>
          match tcpConns us !! usa_String usa with
          | Some conn => writeRaw conn b
          | None => mret tt
          end
      | None => mret tt
      end
  | _, _, None =>
      writeEach b (omap (λ '(_, usa), tcpConns us !! usa_String usa)
                     (map_to_list (sessKeyToSessAddr us)))
  end.

Fixpoint closeEach (conns : list nat) : go Client unit :=
  match conns with
  | [] => mret tt
  | conn :: conns => closeConn conn;; closeEach conns
  end.

(** [Close]: its socket, and its critical section. *)
Definition closeSocket (u : nat) : go Client unit :=
  r ← try (GetEstablishedUDPConn u);
  match r with
  | inl conn => on_udpconn conn (modify uc_Close)
  | inr _ => mret tt
  end.

Definition closeSection (u : nat) : go Client unit :=
  us ← getUdp u;
  if isListener us then
    closeEach ((map_to_list (tcpConns us)).*2);;
    updUdp u clearMaps
  else
    updUdp u (λ us, set_dialer (udpConn us) (tcpConn us) None us);;
    match tcpConn us with
    | Some conn => closeConnErr conn
    | None => mret tt
    end.

Definition Close (u : nat) : go Client unit :=
  try (sendCloseMsg u None);; closeSocket u;; closeSection u.

(** [handleConnClosed]: the peer is gone. *)
Definition handleConnClosed (u : nat) (sessKey : string) : go Client unit :=
  us ← getUdp u;
  if isListener us then
    let '(conn, us') := dropUdpSession sessKey us in
    (match conn with Some conn => closeConn conn | None => mret tt end);;
    updUdp u (λ _, us')
  else
    updUdp u (λ us, set_dialer (udpConn us) (tcpConn us) None us);;
    uc ← deref (udpConn us);
    on_udpconn uc (modify uc_Close);;
    tc ← deref (tcpConn us);
    closeConn tc.

(** ** Receiving *)

(** [handleMetaData]. *)
Definition handleMetaData (u : nat) (b : bytes) (a : string) : go Client unit :=
  us ← getUdp u;
  if negb (isListener us) then mret tt
  else
    sessData ← lift_res (parseSessionData b);
    if decide (MsgType sessData = MsgType_SESSIONID) then
      metadata ← lift_res (UnmarshalMetadata (Data sessData));
      let usa := newUdpSessionAddr (Id metadata) (DialerNknAddr metadata) a in
      match sessKeyToSessAddr us !! usa_String usa with
      | Some _ => mret tt
      | None =>
          updUdp u (putSession usa);;
          try (addCodec u a (DialerNknAddr metadata));;
          mret tt
      end
    else if decide (MsgType sessData = MsgType_CLOSE) then
      match udpAddrToSessAddr us !! a with
      | Some usa => handleConnClosed u (usa_String usa)
      | None => mret tt
      end
    else throw ErrWrongMsgFormat.

(** What [ReadFromUDPEncrypted] returns: the datagram, its source, whether it was
    encrypted. *)
Record datagram := mkDgram { dg_data : bytes; dg_addr : string; dg_encrypted : bool }.

(** One turn of [recvMsg] after a datagram arrived.  [buf] is the buffer the loop reads
    into again and again: an empty datagram leaves the old header in place. *)
Definition recvOne (u : nat) (buf : bytes) (dg : datagram) : go Client bytes :=
  let n := length (dg_data dg) in
  let buf := dg_data dg ++ drop n buf in
  us ← getUdp u;
  c ← get;
  match buf with
  | [] => crash IndexRange
  | header :: _ =>
      if decide (header = byte_of HeaderType_USER) then
        if negb (dg_encrypted dg) then mret buf
        else
          '(ok, usa) ← (if isListener us then
                          mret (bool_decide (is_Some (udpAddrToSessAddr us !! dg_addr dg)),
                                udpAddrToSessAddr us !! dg_addr dg)
                        else
                          p ← deref (peer us);
                          mret (bool_decide (dg_addr dg = udpAddr p), None));
          if ok : bool then
            if decide (n = 0) then
              (* make([]byte, n-1), reached when recvSize-1 is below the limit *)
              if decide (recvSize us - 1 < UDPRecvBufferSize (config c))%Z
              then crash MakeSliceLen else mret buf
            else
              updUdp u (recvPush (UDPRecvBufferSize (config c)) (drop 1 (take n buf)) usa);;
              mret buf
          else mret buf
      else if decide (header = byte_of HeaderType_SESSION) then
        if decide (n = 0) then crash SliceRange
        else
          try (handleMetaData u (drop 1 (take n buf)) (dg_addr dg));;
          mret buf
      else mret buf
  end.

(** The loop of [recvMsg] over what arrives: a datagram, or an error of the read, after
    which the loop goes on.  It ends when the socket is closed; when the inputs are used
    up the loop waits. *)
Fixpoint recvMsg (u : nat) (buf : bytes) (input : list (option datagram)) : go Client unit :=
  GetEstablishedUDPConn u;;
  match input with
  | [] => mret tt
  | None :: input => recvMsg u buf input
  | Some dg :: input => buf ← recvOne u buf dg; recvMsg u buf input
  end.

(** ** The TCP connection that tracks the session *)

(** [sendMetaData]. *)
Definition sendMetaData (u : nat) (sessionID : bytes) : go Client unit :=
  c ← get;
  buf ← lift_res (MarshalMetadata (mkMetadata sessionID SessionType_UDP (addr c)));
  b ← lift_res (newSessionData MsgType_SESSIONID buf);
  conn ← GetEstablishedUDPConn u;
  on_udpconn conn (uc_WriteMsgUDP b None);;
  mret tt.

(** [handleTcpMsg]: read until the connection ends or the peer says it closes; raw reads
    of at most 1024 bytes into one buffer.  Every turn consumes a segment or the rest of
    one; [handleTcpMsg] gives the loop enough turns for all of them. *)
Fixpoint tcpMsg_loop (fuel : nat) (u conn : nat) (sessKey : string) (b : bytes) : go Client bool :=
  match fuel with
  | 0 => mret false
  | S fuel =>
      GetEstablishedUDPConn u;;
      got ← on_conn conn (Message.Read 1024);
      let n := length got in
      let b := got ++ drop n b in
      if decide (head b ≠ Some (byte_of HeaderType_SESSION)) then tcpMsg_loop fuel u conn sessKey b
      else if decide (n = 0) then crash SliceRange
      else
        r ← try (lift_res (parseSessionData (drop 1 got)));
        match r with
        | inr _ => tcpMsg_loop fuel u conn sessKey b
        | inl sessData =>
            if decide (MsgType sessData = MsgType_CLOSE)
            then handleConnClosed u sessKey;; throw ErrClosed
            else tcpMsg_loop fuel u conn sessKey b
        end
  end.

Definition tcpMsg_fuel (x : Conn) : nat := S (length (rd_segs x) + length (concat (rd_segs x))).

Definition handleTcpMsg (u conn : nat) (sessKey : string) : go Client bool :=
  x ← peek h_conns conn;
  tcpMsg_loop (tcpMsg_fuel x) u conn sessKey (replicate 1024 Byte.x00).

(** udp.go, [handleUdpListenerTcp] and the goroutine it starts. *)
Definition handleUdpListenerTcp (conn : nat) (remoteAddr : string) (sessionID : bytes) : go Client unit :=
  c ← get;
  match listenerUdpSess c with
  | None => closeConn conn
  | Some u =>
      let sessKey := sessionKey remoteAddr sessionID in
      updUdp u (putTcp sessKey conn);;
      spawn (TUdpMonitor u conn sessKey)
  end.

Definition udpMonitor (conn : nat) (sessKey : string) : go Client unit :=
  c ← get;
  u ← deref (listenerUdpSess c);
  try (handleTcpMsg u conn sessKey);;
  updUdp u (delTcp sessKey).

(** [CloseTcp], which the tests use to break a dialer's TCP connection. *)
Definition CloseTcp (u : nat) : go Client unit :=
  us ← getUdp u; conn ← deref (tcpConn us); closeConn conn.

End udp.
End Udp.
