(* ===== verification/Frame.v ===== *)
(** * What a handler leaves alone

    [keeps f m]: the computation [m] does not change the field [f] of the client.  For a
    field that lies outside the heap and the keys, the hints of [frame] prove it for
    handlers that work on the heap only. *)

From stdpp Require Import base gmap strings list numbers tactics.
From S2P Require Import Prelude Util Message Crypto Pb Config Table World Udp.

Section frame.
Context `{L : LibOps}.

(** A field that does not depend on the heap and the keys. *)
Class Stable {B} (f : Client → B) : Prop := {
  stable_heap h c : f (set_heap h c) = f c;
  stable_keys k c : f (set_sharedKeys k c) = f c
}.
#[export] Instance stable_table : Stable table.
Proof. done. Qed.
#[export] Instance stable_config : Stable World.config.
Proof. done. Qed.
#[export] Instance stable_closed : Stable isClosed.
Proof. done. Qed.

Definition keeps {B} (f : Client → B) {A} (m : go Client A) : Prop := ∀ c, f (m c).2 = f c.

Section keeps.
Context {B} (f : Client → B) `{!Stable f}.

Lemma kt_ret {A} (a : A) : keeps f (mret a).
Proof. done. Qed.
Lemma kt_throw {A} e : keeps f (throw (A := A) e).
Proof. done. Qed.
Lemma kt_crash {A} p : keeps f (crash (A := A) p).
Proof. done. Qed.
Lemma kt_lift {A} (r : res A) : keeps f (lift_res r).
Proof. done. Qed.
Lemma kt_get : keeps f get.
Proof. done. Qed.
Lemma kt_on {X A} (lookup : Heap → gmap nat X) put r (m : go X A) : keeps f (on lookup put r m).
Proof.
  intros c. unfold on. destruct (lookup (heap c) !! r); [| done]. destruct (m x). apply stable_heap.
Qed.
Lemma kt_keys {A} (m : go (gmap string bytes) A) : keeps f (on_keys m).
Proof. intros c. unfold on_keys, zoom. destruct (m (sharedKeys c)). apply stable_keys. Qed.
Lemma kt_alloc {X} (lookup : Heap → gmap nat X) put x : keeps f (alloc lookup put x).
Proof. intros c. apply stable_heap. Qed.
Lemma kt_deref {A} (o : option A) : keeps f (deref o).
Proof. by destruct o. Qed.
Lemma kt_bind {A C} (m : go Client A) (g : A → go Client C) :
  keeps f m → (∀ a, keeps f (g a)) → keeps f (m ≫= g).
Proof.
  intros Hm Hg c. unfold mbind, go_bind. specialize (Hm c). destruct (m c) as [[a|e|p] c1]; [| done..].
  rewrite <- Hm. apply Hg.
Qed.
Lemma kt_peek {X} (lookup : Heap → gmap nat X) r : keeps f (peek lookup r).
Proof. apply kt_bind; [apply kt_get | intros; apply kt_deref]. Qed.
Lemma kt_try {A} (m : go Client A) : keeps f m → keeps f (try m).
Proof. intros Hm c. unfold try. specialize (Hm c). by destruct (m c) as [[] ?]. Qed.
End keeps.

End frame.

Create HintDb frame.
#[export] Hint Resolve kt_ret kt_throw kt_crash kt_lift kt_get kt_keys kt_alloc kt_deref kt_peek kt_try kt_on
  stable_table stable_config stable_closed : frame.
#[export] Hint Extern 1 (keeps _ (_ ≫= _)) => apply kt_bind; [| intros ?] : frame.
#[export] Hint Extern 1 (keeps _ (on_conn _ _)) => apply kt_on : frame.
#[export] Hint Extern 1 (keeps _ (on_sess _ _)) => apply kt_on : frame.
#[export] Hint Extern 1 (keeps _ (on_udpconn _ _)) => apply kt_on : frame.
#[export] Hint Extern 1 (keeps _ (on_exit _ _)) => apply kt_on : frame.
#[export] Hint Extern 1 (keeps _ (Udp.updUdp _ _)) => apply kt_on : frame.
#[export] Hint Extern 1 (keeps _ (closeConn _)) => apply kt_on : frame.
#[export] Hint Extern 1 (keeps _ (closeConnErr _)) => apply kt_on : frame.
#[export] Hint Extern 1 (keeps _ (Udp.getUdp _)) => apply kt_peek : frame.
#[export] Hint Extern 2 (keeps _ (match ?x with _ => _ end)) => destruct x : frame.

