(* ===== verification/UdpInv.v ===== *)
(** * Properties of UDP sessions

    [ustep] interleaves the critical sections of one [UdpSession]: the receive loop, the
    readers, the handlers of session messages and of TCP connections.  The first theorems
    hold in every reachable state; the others are about whole methods. *)

From stdpp Require Import base gmap strings list numbers tactics relations.
From Stdlib Require Import ZArith Lia.
From S2P Require Import Prelude Util Message Crypto Pb Config Table World Demo Udp.
Import Keys Udp.

Section inv.
Context `{L : LibOps}.

(** ** Interleavings *)

Record ustate := mkU {
  u_us : UdpSession;
  u_flight : list recvData;     (* taken from the channel, not yet released *)
  u_in : list recvData;         (* accepted by the receive loop so far *)
  u_out : list recvData         (* handed to readers so far *)
}.

(** The configured size of the buffer may change, but stays within [limit]. *)
Inductive ustep (limit : Z) : ustate → ustate → Prop :=
  | us_push size us fl i o data usa us' :
      (size ≤ limit)%Z → recvPush size data usa us = us' →
      ustep limit (mkU us fl i o) (mkU us' fl (i ++ drop (length (recvChan us)) (recvChan us')) o)
  | us_take us fl i o msg us' :
      readTake us = Some (msg, us') →
      ustep limit (mkU us fl i o) (mkU us' (msg :: fl) i (o ++ [msg]))
  | us_release us fl1 msg fl2 i o :
      ustep limit (mkU us (fl1 ++ msg :: fl2) i o)
        (mkU (readRelease (Z.of_nat (length (rd_data msg))) us) (fl1 ++ fl2) i o)
  | us_session us fl i o usa :
      sessKeyToSessAddr us !! usa_String usa = None →
      ustep limit (mkU us fl i o) (mkU (putSession usa us) fl i o)
  | us_gone us fl i o sessKey :
      ustep limit (mkU us fl i o) (mkU (dropUdpSession sessKey us).2 fl i o)
  | us_close us fl i o :
      ustep limit (mkU us fl i o) (mkU (clearMaps us) fl i o)
  | us_tcp us fl i o sessKey conn :
      ustep limit (mkU us fl i o) (mkU (putTcp sessKey conn us) fl i o)
  | us_tcp_end us fl i o sessKey :
      ustep limit (mkU us fl i o) (mkU (delTcp sessKey us) fl i o)
  | us_dial us fl i o uc tc p :
      ustep limit (mkU us fl i o) (mkU (set_dialer uc tc p us) fl i o)
  | us_deadline us fl i o t :
      ustep limit (mkU us fl i o) (mkU (set_ctx t us) fl i o).

(** A session as [newUdpSession] makes it. *)
Definition fresh_udp (listener : bool) (cap : Z) : UdpSession :=
  mkUdp listener None cap [] 0 None None None ∅ ∅ ∅.

Definition ureachable (limit : Z) (listener : bool) (cap : Z) : ustate → Prop :=
  rtc (ustep limit) (mkU (fresh_udp listener cap) [] [] []).

Definition total (l : list recvData) : Z :=
  foldr (λ m n, (Z.of_nat (length (rd_data m)) + n)%Z) 0%Z l.

Lemma total_app l k : total (l ++ k) = (total l + total k)%Z.
Proof. induction l; simpl; lia. Qed.

Lemma total_nonneg l : (0 ≤ total l)%Z.
Proof. induction l; simpl; lia. Qed.

(** The buffer: its size counts the datagrams in the channel and those a reader has
    taken but not released; it stays below the limit; first in, first out. *)
Record buffer_ok (limit : Z) (cap : Z) (s : ustate) : Prop := {
  buf_size : recvSize (u_us s) = (total (recvChan (u_us s)) + total (u_flight s))%Z;
  buf_limit : recvSize (u_us s) = 0%Z ∨ (recvSize (u_us s) < limit)%Z;
  buf_cap : recvCap (u_us s) = cap ∧ (Z.of_nat (length (recvChan (u_us s))) ≤ cap)%Z;
  buf_fifo : u_out s ++ recvChan (u_us s) = u_in s
}.

(** The maps of a listener: an address leads to a session that is registered, under its
    own key and at that address. *)
Record maps_ok (us : UdpSession) : Prop := {
  maps_addr a usa : udpAddrToSessAddr us !! a = Some usa →
    udpAddr usa = a ∧ sessKeyToSessAddr us !! usa_String usa = Some usa;
  maps_key k usa : sessKeyToSessAddr us !! k = Some usa → usa_String usa = k
}.

Lemma recvPush_ok limit cap size us fl i o data usa :
  buffer_ok limit cap (mkU us fl i o) → (size ≤ limit)%Z →
  let us' := recvPush size data usa us in
  buffer_ok limit cap (mkU us' fl (i ++ drop (length (recvChan us)) (recvChan us')) o).
Proof.
  intros [H1 H2 [H3 H4] H5] Hsize. unfold recvPush. simpl in *.
  assert (buffer_ok limit cap (mkU us fl (i ++ drop (length (recvChan us)) (recvChan us)) o)) as Hsame.
  { rewrite drop_all, app_nil_r. by split. }
  case_decide; [| done]. case_decide; [| done]. pose proof (total_nonneg (recvChan us)).
  split; simpl.
  - rewrite total_app. simpl. lia.
  - right. lia.
  - rewrite length_app. simpl. lia.
  - rewrite drop_app_length, <- H5. by rewrite (assoc_L (++)).
Qed.

Lemma buffer_ok_step limit cap s s' : buffer_ok limit cap s → ustep limit s s' → buffer_ok limit cap s'.
Proof.
  intros Hb Hs.
  destruct Hs as [size us fl i o data usa us' Hsize <-|us fl i o msg us' Ht|us fl1 msg fl2 i o| |us fl i o k| | | | |];
    try (destruct Hb; by split).
  - by apply recvPush_ok.
  - unfold readTake in Ht. destruct Hb as [H1 H2 [H3 H4] H5]; simpl in *.
    destruct (recvChan us) as [|m chan] eqn:E; simplify_eq. split; simpl in *; [lia | done | lia |].
    by rewrite <- (assoc_L (++)).
  - destruct Hb as [H1 H2 H3 H5]; simpl in *. rewrite total_app in H1. simpl in H1.
    pose proof (total_nonneg (recvChan us)). pose proof (total_nonneg fl1). pose proof (total_nonneg fl2).
    split; simpl; [rewrite total_app; lia | lia | done..].
  - destruct Hb. unfold dropUdpSession. case_match; by split.
Qed.

Lemma maps_ok_drop us k : maps_ok us → maps_ok (dropUdpSession k us).2.
Proof.
  intros [H1 H2]. unfold dropUdpSession. destruct (sessKeyToSessAddr us !! k) as [u|] eqn:E; [| done].
  split; simpl.
  - intros a usa [Hne Ha]%lookup_delete_Some. destruct (H1 _ _ Ha) as [? Hk]. split; [done |].
    rewrite lookup_delete_ne; [done |]. intros ->. naive_solver.
  - intros k' usa [_ Hk]%lookup_delete_Some. by apply H2.
Qed.

Lemma maps_ok_put us usa :
  maps_ok us → sessKeyToSessAddr us !! usa_String usa = None → maps_ok (putSession usa us).
Proof.
  intros [H1 H2] Hn. split; simpl.
  - intros a u. rewrite lookup_insert_Some. intros [[<- <-]|[Hne Ha]].
    + split; [done | apply lookup_insert_eq].
    + destruct (H1 _ _ Ha) as [? Hk]. split; [done |].
      rewrite lookup_insert_ne; [done | congruence].
  - intros k u. rewrite lookup_insert_Some. intros [[<- <-]|[_ Hk]]; [done | by apply H2].
Qed.

Lemma maps_ok_same us us' :
  maps_ok us → sessKeyToSessAddr us' = sessKeyToSessAddr us →
  udpAddrToSessAddr us' = udpAddrToSessAddr us → maps_ok us'.
Proof. intros [H1 H2] E1 E2. split; rewrite ?E1, ?E2; auto. Qed.

Lemma maps_ok_empty us : sessKeyToSessAddr us = ∅ → udpAddrToSessAddr us = ∅ → maps_ok us.
Proof. intros E1 E2. split; rewrite ?E1, ?E2; intros ? ?; by rewrite lookup_empty. Qed.

Lemma maps_ok_step limit s s' : maps_ok (u_us s) → ustep limit s s' → maps_ok (u_us s').
Proof.
  intros Hm Hs. destruct Hs as [size us fl i o data usa us' _ <-|us fl i o msg us' Ht| | | | | | | |]; simpl in *;
    try by apply (maps_ok_same us).
  - eapply maps_ok_same; [done | |]; unfold recvPush; by repeat case_decide.
  - unfold readTake in Ht. case_match; simplify_eq. by apply (maps_ok_same us).
  - by apply maps_ok_put.
  - by apply maps_ok_drop.
  - by apply maps_ok_empty.
Qed.

Lemma ureachable_buffer limit listener cap s :
  (0 ≤ cap)%Z → ureachable limit listener cap s → buffer_ok limit cap s.
Proof.
  intros Hcap Hs. unfold ureachable in Hs.
  assert (buffer_ok limit cap (mkU (fresh_udp listener cap) [] [] [])) as H0
    by (split; simpl; auto with lia).
  induction Hs as [|x y z Hxy _ IH]; eauto using buffer_ok_step.
Qed.

Lemma ureachable_maps limit listener cap s : ureachable limit listener cap s → maps_ok (u_us s).
Proof.
  intros Hs. unfold ureachable in Hs.
  assert (maps_ok (u_us (mkU (fresh_udp listener cap) [] [] []))) as H0 by by apply maps_ok_empty.
  induction Hs as [|x y z Hxy _ IH]; eauto using maps_ok_step.
Qed.

(** ** Whole methods *)

Context `{LL : !LibLaws L}.

Lemma getUdp_ok u c us : h_udps (heap c) !! u = Some us → getUdp u c = (Ok us, c).
Proof. intros H. unfold getUdp, peek, deref. go_unfold. by rewrite H. Qed.

Lemma updUdp_ok u f c us :
  h_udps (heap c) !! u = Some us → updUdp u f c = (Ok tt, set_heap (put_udp u (f us) (heap c)) c).
Proof. intros H. unfold updUdp, on_udp. by rewrite (on_ok _ _ _ _ _ _ H). Qed.

Lemma established_same u c : (GetEstablishedUDPConn u c).2 = c.
Proof.
  unfold GetEstablishedUDPConn, getUdp, peek, deref. go_unfold. destruct (isClosed c); [done |].
  destruct (h_udps (heap c) !! u); [| done]. destruct (udpConn u0); [| done].
  destruct (h_udpconns (heap c) !! n); [| done]. by destruct (uc_IsClosed _).
Qed.

(** A session with an open socket. *)
Record open_udp (u : nat) (us : UdpSession) (n : nat) (x : udpconn) (c : Client) : Prop := {
  op_us : h_udps (heap c) !! u = Some us;
  op_conn : udpConn us = Some n;
  op_x : h_udpconns (heap c) !! n = Some x;
  op_open : uc_IsClosed x = false;
  op_client : isClosed c = false
}.

Lemma established_ok u us n x c : open_udp u us n x c → GetEstablishedUDPConn u c = (Ok n, c).
Proof.
  intros [H1 H2 H3 H4 H5]. unfold GetEstablishedUDPConn, getUdp, peek, deref. go_unfold.
  by rewrite H5, H1, H2, H3, H4.
Qed.

Lemma IsClosed_open u us n x c : open_udp u us n x c → IsClosed u c = (Ok false, c).
Proof. intros H. unfold IsClosed. go_unfold. by rewrite (established_ok _ _ _ _ _ H). Qed.

Lemma IsClosed_closed u us n x c :
  h_udps (heap c) !! u = Some us → udpConn us = Some n → h_udpconns (heap c) !! n = Some x →
  uc_IsClosed x = true → IsClosed u c = (Ok true, c).
Proof.
  intros H1 H2 H3 H4. unfold IsClosed, GetEstablishedUDPConn. go_unfold.
  destruct (isClosed c); [done |]. rewrite (getUdp_ok _ _ _ H1), H2. unfold peek, deref. go_unfold.
  by rewrite H3, H4.
Qed.

(** [addCodec] keeps the UDP sessions, keeps an open socket open, and does not panic. *)
Lemma addCodec_keeps u us n x c a remote :
  open_udp u us n x c →
  let '(r, c') := addCodec u a remote c in
  is_panic r = false ∧ config c' = config c ∧ ∃ x', open_udp u us n x' c'.
Proof.
  intros Ho. unfold addCodec, on_keys.
  pose proof (addr_no_panic remote) as Hp. go_unfold.
  destruct (ClientAddrToPubKey remote) as [pk|e|p]; simpl; [| by eauto | done]. clear Hp.
  pose proof (Crypto.getOrCompute_no_panic (privKey c) pk (sharedKeys c)) as Hp.
  destruct (Crypto.getOrComputeSharedKey (privKey c) pk (sharedKeys c)) as [[key|e|p] m]; simpl; [| | done].
  2: split_and!; [done.. | exists x; by destruct Ho].
  assert (open_udp u us n x (set_sharedKeys m c)) as Ho' by by destruct Ho.
  rewrite (established_ok _ _ _ _ _ Ho'). unfold on_udpconn.
  rewrite (on_ok _ _ _ _ _ x) by apply Ho'. simpl.
  split_and!; [apply (uc_no_panic [] (Some a) key x) | done |].
  exists (uc_AddCodec a key x).2. destruct Ho. split; simpl; try done.
  - apply lookup_insert_eq.
  - by rewrite uc_codec_closed.
Qed.

(** [handleMetaData] of a SESSIONID message for a session that is not there yet. *)
Lemma handleMetaData_new u us n x c b data m a :
  open_udp u us n x c → isListener us = true →
  parseSessionData b = Ok (mkSessionData MsgType_SESSIONID data) → UnmarshalMetadata data = Ok m →
  let usa := newUdpSessionAddr (Id m) (DialerNknAddr m) a in
  sessKeyToSessAddr us !! usa_String usa = None →
  ∃ c' x', handleMetaData u b a c = (Ok tt, c') ∧ open_udp u (putSession usa us) n x' c' ∧
    config c' = config c.
Proof.
  intros Ho Hl Hp Hm usa Hn. unfold handleMetaData.
  rewrite (go_bind_ok _ _ _ _ _ (getUdp_ok _ _ _ (op_us _ _ _ _ _ Ho))), Hl.
  change (negb true) with false. cbn iota.
  rewrite (go_lift_ok _ _ _ _ Hp), decide_True, (go_lift_ok _ _ _ _ Hm) by done. fold usa. rewrite Hn.
  rewrite (go_bind_ok _ _ _ _ _ (updUdp_ok _ _ _ _ (op_us _ _ _ _ _ Ho))).
  assert (open_udp u (putSession usa us) n x (set_heap (put_udp u (putSession usa us) (heap c)) c)) as Ho'.
  { destruct Ho. split; simpl; try done. apply lookup_insert_eq. }
  pose proof (addCodec_keeps u _ n x _ a (DialerNknAddr m) Ho') as Hk.
  unfold try, mbind, go_bind, mret, go_ret. destruct (addCodec u a _ _) as [[[]|e|p] c'']; naive_solver.
Qed.

(** [recvOne] of encrypted user data from an address of a session. *)
Lemma recvOne_user u us n x c buf payload a usa :
  open_udp u us n x c → isListener us = true → udpAddrToSessAddr us !! a = Some usa →
  recvOne u buf (mkDgram (byte_of HeaderType_USER :: payload) a true) c =
  (Ok ((byte_of HeaderType_USER :: payload) ++ drop (S (length payload)) buf),
   set_heap (put_udp u (recvPush (UDPRecvBufferSize (config c)) payload (Some usa) us) (heap c)) c).
Proof.
  intros Ho Hl Ha. unfold recvOne.
  rewrite (go_bind_ok _ _ _ _ _ (getUdp_ok _ _ _ (op_us _ _ _ _ _ Ho))).
  unfold mbind at 1, go_bind at 1, get. cbn [dg_data dg_addr dg_encrypted length].
  cbn [app]. rewrite decide_True by done. cbn [negb]. rewrite Hl, Ha.
  rewrite bool_decide_true by done. unfold mbind at 1, go_bind at 1, mret at 1, go_ret at 1.
  rewrite decide_False by lia. rewrite (go_bind_ok _ _ _ _ _ (updUdp_ok _ _ _ _ (op_us _ _ _ _ _ Ho))).
  cbn [take drop]. rewrite skipn_O, take_app_exact by done. done.
Qed.

(** [getUdpAddr] of a listener: the UDP address of a session that is registered. *)
Lemma getUdpAddr_ok u c us usa usa' :
  h_udps (heap c) !! u = Some us → isListener us = true →
  sessKeyToSessAddr us !! usa_String usa = Some usa' →
  getUdpAddr u (SessAddr usa) c = (Ok (udpAddr usa'), c).
Proof.
  intros H Hl Hs. unfold getUdpAddr. rewrite (go_bind_ok _ _ _ _ _ (getUdp_ok _ _ _ H)), Hl.
  simpl. by rewrite Hs.
Qed.

(** C29: data and replies of a UDP session meet.  After a listener has handled the
    SESSIONID message of a dialer, encrypted user data from the dialer's UDP address is
    queued for the application under the session's address (when it fits), and a
    [WriteTo] to that session address is sent to the dialer's UDP address with the user
    header in front. *)
Theorem udp_session_established u us n x c b data m a payload reply :
  open_udp u us n x c → isListener us = true →
  parseSessionData b = Ok (mkSessionData MsgType_SESSIONID data) → UnmarshalMetadata data = Ok m →
  let usa := newUdpSessionAddr (Id m) (DialerNknAddr m) a in
  sessKeyToSessAddr us !! usa_String usa = None →
  ∃ c' x', handleMetaData u b a c = (Ok tt, c') ∧ open_udp u (putSession usa us) n x' c' ∧
    (∀ buf, ∃ c'', (recvOne u buf (mkDgram (byte_of HeaderType_USER :: payload) a true) c').2 = c'' ∧
       h_udps (heap c'') !! u =
         Some (recvPush (UDPRecvBufferSize (config c)) payload (Some usa) (putSession usa us))) ∧
    ∀ k x'', uc_WriteMsgUDP (byte_of HeaderType_USER :: reply) (Some a) x' = (Ok k, x'') →
      WriteTo u reply (SessAddr usa) c' =
        (Ok (k - 1)%Z, set_heap (put_udpconn n x'' (heap c')) c').
Proof.
  intros Ho Hl Hp Hm usa Hn.
  destruct (handleMetaData_new u us n x c b data m a Ho Hl Hp Hm Hn) as (c' & x' & H1 & H2 & H3).
  fold usa in H2. exists c', x'. split_and!; [done.. | |].
  - intros buf. eexists. split; [done |].
    rewrite (recvOne_user u (putSession usa us) n x' c' buf payload a usa H2 Hl);
      [| apply lookup_insert_eq]. simpl. rewrite H3. apply lookup_insert_eq.
  - intros k x'' Hw. unfold WriteTo.
    rewrite (go_bind_ok _ _ _ _ _ (getUdp_ok _ _ _ (op_us _ _ _ _ _ H2))).
    change (isListener (putSession usa us)) with (isListener us). rewrite Hl.
    assert (getUdpAddr u (SessAddr usa) c' = (Ok a, c')) as Hg.
    { apply (getUdpAddr_ok u c' (putSession usa us) usa usa); [apply H2 | done | apply lookup_insert_eq]. }
    unfold mbind, go_bind. rewrite Hg. cbn. rewrite (established_ok _ _ _ _ _ H2).
    unfold on_udpconn. rewrite (on_ok _ _ _ _ _ x') by apply H2. by rewrite Hw.
Qed.

(** *** Panics *)

(** The TCP connections a session holds are there. *)
Definition tcp_alive (us : UdpSession) (c : Client) : Prop :=
  ∀ k n, tcpConns us !! k = Some n → is_Some (h_conns (heap c) !! n).

Lemma handleConnClosed_listener u us c sessKey :
  h_udps (heap c) !! u = Some us → isListener us = true → tcp_alive us c →
  ∃ c', handleConnClosed u sessKey c = (Ok tt, c') ∧
    h_udps (heap c') !! u = Some (dropUdpSession sessKey us).2 ∧
    (∀ n x, sessKeyToSessAddr us !! sessKey ≠ None → tcpConns us !! sessKey = Some n →
       h_conns (heap c) !! n = Some x → h_conns (heap c') !! n = Some (close_conn x)).
Proof.
  intros Hu Hl Ht. unfold handleConnClosed. rewrite (go_bind_ok _ _ _ _ _ (getUdp_ok _ _ _ Hu)), Hl.
  unfold dropUdpSession. destruct (sessKeyToSessAddr us !! sessKey) as [usa|] eqn:E.
  2:{ go_unfold. rewrite (updUdp_ok _ _ _ us Hu). eexists. split_and!; [done | apply lookup_insert_eq | done]. }
  destruct (tcpConns us !! sessKey) as [n|] eqn:En.
  - destruct (Ht _ _ En) as [x Hx]. unfold mbind, go_bind, closeConn, on_conn.
    rewrite (on_ok _ _ _ _ _ _ Hx). cbn. erewrite updUdp_ok by exact Hu.
    eexists. split_and!; [done | apply lookup_insert_eq |]. intros n' x' _ [= <-] Hx'. cbn in Hx'.
    rewrite Hx in Hx'. simplify_eq. apply lookup_insert_eq.
  - go_unfold. rewrite (updUdp_ok _ _ _ us Hu). eexists. split_and!; [done | apply lookup_insert_eq | done].
Qed.

Lemma handleMetaData_no_panic u us n x c b a :
  open_udp u us n x c → isListener us = true → tcp_alive us c →
  is_panic (handleMetaData u b a c).1 = false.
Proof.
  intros Ho Hl Ht. unfold handleMetaData.
  rewrite (go_bind_ok _ _ _ _ _ (getUdp_ok _ _ _ (op_us _ _ _ _ _ Ho))), Hl. change (negb true) with false.
  cbn iota. pose proof (data_dec_no_panic b) as Hp. unfold parseSessionData.
  destruct (UnmarshalData b) as [sd|e|p] eqn:Eb; [| done..]. rewrite (go_lift_ok _ _ _ sd) by done.
  case_decide.
  - pose proof (metadata_dec_no_panic (Data sd)) as Hp'.
    destruct (UnmarshalMetadata (Data sd)) as [m|e|p] eqn:Em; [| done..]. rewrite (go_lift_ok _ _ _ m) by done.
    case_match; [done |].
    rewrite (go_bind_ok _ _ _ _ _ (updUdp_ok _ _ _ _ (op_us _ _ _ _ _ Ho))).
    set (usa := newUdpSessionAddr _ _ _).
    assert (open_udp u (putSession usa us) n x (set_heap (put_udp u (putSession usa us) (heap c)) c)) as Ho'.
    { destruct Ho. split; simpl; try done. apply lookup_insert_eq. }
    pose proof (addCodec_keeps u _ n x _ a (DialerNknAddr m) Ho') as Hk.
    unfold try, mbind, go_bind, mret, go_ret. destruct (addCodec u a _ _) as [[[]|e|p] c'']; naive_solver.
  - case_decide; [| done]. destruct (udpAddrToSessAddr us !! a); [| done].
    destruct (handleConnClosed_listener u us c (usa_String u0)) as (c' & -> & _); [apply Ho | done.. |]. done.
Qed.

(** An empty datagram can crash a listener.  One turn of [recvMsg] on a listener
    panics only on an empty datagram, and it does so whenever the message before it had
    a session header: the loop looks at the header byte that is still in its buffer and
    slices [buf[1:0]]. *)
Theorem recvOne_panics u us n x c buf dg :
  open_udp u us n x c → isListener us = true → tcp_alive us c → buf ≠ [] →
  (is_panic (recvOne u buf dg c).1 = true → dg_data dg = []) ∧
  (dg_data dg = [] → head buf = Some (byte_of HeaderType_SESSION) →
     recvOne u buf dg c = (Panic SliceRange, c)).
Proof.
  intros Ho Hl Ht Hbuf. unfold recvOne.
  rewrite (go_bind_ok _ _ _ _ _ (getUdp_ok _ _ _ (op_us _ _ _ _ _ Ho))).
  unfold mbind at 1 5, go_bind at 1 5, get. split.
  - destruct (dg_data dg) as [|d ds] eqn:Ed; [done |]. cbn [length app].
    rewrite Hl. case_decide.
    + destruct (dg_encrypted dg); [| done]. cbn [negb]. unfold mbind, go_bind, mret, go_ret.
      destruct (bool_decide _); [| done]. rewrite decide_False by lia.
      by erewrite updUdp_ok by apply Ho.
    + case_decide; [| done]. rewrite decide_False by lia.
      unfold try, mbind, go_bind.
      match goal with |- context [handleMetaData u ?b ?a c] =>
        pose proof (handleMetaData_no_panic u us n x c b a Ho Hl Ht) as Hm;
        destruct (handleMetaData u b a c) as [[] ?] end; by simpl in *.
  - intros Hd Hh. rewrite Hd. simpl. rewrite drop_0. destruct buf as [|h buf]; [done |]. simpl in Hh.
    injection Hh as ->. unfold mbind, go_bind.
    rewrite (decide_False (P := byte_of HeaderType_SESSION = byte_of HeaderType_USER)) by done.
    by rewrite decide_True.
Qed.

(** A dialer that comes back from another UDP address is not heard.  A SESSIONID
    message for a session key that is registered changes nothing; user data from the new
    address is then dropped, and replies still go to the old one. *)
Theorem udp_reconnect_ignored u us n x c b data m a usa payload buf :
  open_udp u us n x c → isListener us = true →
  parseSessionData b = Ok (mkSessionData MsgType_SESSIONID data) → UnmarshalMetadata data = Ok m →
  sessKeyToSessAddr us !! usa_String (newUdpSessionAddr (Id m) (DialerNknAddr m) a) = Some usa →
  udpAddrToSessAddr us !! a = None →
  handleMetaData u b a c = (Ok tt, c) ∧
  (recvOne u buf (mkDgram (byte_of HeaderType_USER :: payload) a true) c).2 = c ∧
  getUdpAddr u (SessAddr (newUdpSessionAddr (Id m) (DialerNknAddr m) a)) c = (Ok (udpAddr usa), c).
Proof.
  intros Ho Hl Hp Hm Hs Ha. split_and!.
  - unfold handleMetaData.
    rewrite (go_bind_ok _ _ _ _ _ (getUdp_ok _ _ _ (op_us _ _ _ _ _ Ho))), Hl.
    change (negb true) with false. cbn iota.
    rewrite (go_lift_ok _ _ _ _ Hp), decide_True, (go_lift_ok _ _ _ _ Hm) by done. by rewrite Hs.
  - unfold recvOne. rewrite (go_bind_ok _ _ _ _ _ (getUdp_ok _ _ _ (op_us _ _ _ _ _ Ho))).
    unfold mbind at 1, go_bind at 1, get. cbn [dg_data dg_addr dg_encrypted length app].
    rewrite decide_True by done. cbn [negb]. rewrite Hl, Ha.
    rewrite bool_decide_false; [done |]. by intros [? ?].
  - apply (getUdpAddr_ok u c us); [apply Ho | done..].
Qed.

(** *** The TCP connection of a session *)

(** A read: an error that leaves the connection, or some bytes and less to come. *)
Lemma Read_progress k x :
  0 < k → Forall (λ seg, seg ≠ []) (rd_segs x) →
  (∃ e, Message.Read k x = (Err e, x)) ∨
  ∃ got x', Message.Read k x = (Ok got, x') ∧ got ≠ [] ∧ Forall (λ seg, seg ≠ []) (rd_segs x') ∧
    tcpMsg_fuel x' < tcpMsg_fuel x.
Proof.
  intros Hk Hx. unfold Message.Read, tcpMsg_fuel. destruct (conn_closed x); [by eauto |].
  destruct (rd_segs x) as [|seg segs] eqn:E; [by eauto |].
  apply Forall_cons in Hx as [Hs Hss]. right. case_decide.
  - exists (take k seg), (set_rd (drop k seg :: segs) x). split_and!; [done | | |].
    + destruct seg; [done |]. by destruct k; [lia |].
    + simpl. constructor; [| done]. intros Hd. apply (f_equal length) in Hd.
      rewrite length_drop in Hd. simpl in Hd. lia.
    + simpl. rewrite !length_app, length_drop. lia.
  - exists seg, (set_rd segs x). split_and!; [done.. |]. simpl. rewrite length_app.
    destruct seg; [done |]. simpl. lia.
Qed.

Lemma tcpMsg_loop_returns fuel u us n y conn sessKey b c x :
  open_udp u us n y c → isListener us = true → tcp_alive us c →
  h_conns (heap c) !! conn = Some x → Forall (λ seg, seg ≠ []) (rd_segs x) →
  tcpMsg_fuel x ≤ fuel →
  ∃ e c', tcpMsg_loop fuel u conn sessKey b c = (Err e, c').
Proof.
  revert c x b. induction fuel as [|fuel IH]; intros c x b Ho Hl Ht Hx Hsegs Hf.
  { unfold tcpMsg_fuel in Hf. lia. }
  cbn [tcpMsg_loop]. rewrite (go_bind_ok _ _ _ _ _ (established_ok _ _ _ _ _ Ho)).
  destruct (Read_progress 1024 x) as [(e & Hr)|(got & x' & Hr & Hg & Hs' & Hf')]; [lia | done | |].
  { unfold mbind, go_bind, on_conn. rewrite (on_ok _ _ _ _ _ _ Hx), Hr. simpl. by eauto. }
  unfold mbind at 1, go_bind at 1, on_conn. rewrite (on_ok _ _ _ _ _ _ Hx), Hr. cbn [fst snd].
  set (c1 := set_heap (put_conn conn x' (heap c)) c).
  assert (open_udp u us n y c1) as Ho1 by by destruct Ho.
  assert (tcp_alive us c1) as Ht1.
  { intros k m Hm. simpl. destruct (decide (conn = m)) as [<-|].
    - rewrite lookup_insert_eq. eauto.
    - rewrite lookup_insert_ne by done. eauto. }
  assert (∀ b', ∃ e c', tcpMsg_loop fuel u conn sessKey b' c1 = (Err e, c')) as Hgo.
  { intros b'. apply (IH c1 x'); try done; [apply lookup_insert_eq | lia]. }
  case_decide; [apply Hgo |].
  rewrite decide_False by (by destruct got).
  pose proof (data_dec_no_panic (drop 1 got)) as Hp. unfold try, lift_res, parseSessionData.
  unfold mbind at 1, go_bind at 1. destruct (UnmarshalData (drop 1 got)) as [sd|e|p]; [| apply Hgo | done].
  case_decide; [| apply Hgo].
  destruct (handleConnClosed_listener u us c1 sessKey) as (c2 & Hc & _); [apply Ho1 | done.. |].
  rewrite (go_bind_ok _ _ _ _ _ Hc). unfold throw. by eauto.
Qed.


(** One turn of [handleTcpMsg] that reads a close message. *)
Lemma handleTcpMsg_close u us n y conn sessKey c x b segs usa :
  open_udp u us n y c → isListener us = true → tcp_alive us c →
  h_conns (heap c) !! conn = Some x → conn_closed x = false →
  newSessionData MsgType_CLOSE [] = Ok b → length b ≤ 1024 → rd_segs x = b :: segs →
  sessKeyToSessAddr us !! sessKey = Some usa → tcpConns us !! sessKey = Some conn →
  ∃ c', handleTcpMsg u conn sessKey c = (Err ErrClosed, c') ∧
    h_udps (heap c') !! u = Some (dropUdpSession sessKey us).2 ∧
    h_conns (heap c') !! conn = Some (close_conn (set_rd segs x)).
Proof.
  intros Ho Hl Ht Hx Hcl Hb Hlen Hsegs Hsess Htcp.
  destruct (newSessionData_ok MsgType_CLOSE []) as (b' & Hb' & Hp);
    [by vm_compute; split; congruence | unfold sized; simpl; lia |].
  rewrite Hb in Hb'. injection Hb' as ->.
  unfold handleTcpMsg, peek, deref, get, tcpMsg_fuel. unfold mbind at 1 2, go_bind at 1 2. rewrite Hx.
  unfold mret, go_ret. cbn [tcpMsg_loop]. rewrite (go_bind_ok _ _ _ _ _ (established_ok _ _ _ _ _ Ho)).
  unfold mbind at 1, go_bind at 1, on_conn. rewrite (on_ok _ _ _ _ _ _ Hx).
  unfold Message.Read. rewrite Hcl, Hsegs, decide_False by lia. cbn [fst snd app head].
  rewrite decide_False by (intros H; by apply H). rewrite decide_False by (simpl; lia). cbn [drop].
  unfold try, lift_res. unfold mbind at 1, go_bind at 1. rewrite skipn_O, Hp. rewrite decide_True by done.
  set (c1 := set_heap (put_conn conn (set_rd segs x) (heap c)) c).
  assert (tcp_alive us c1) as Ht1.
  { intros k m Hm. simpl. destruct (decide (conn = m)) as [<-|].
    - rewrite lookup_insert_eq. eauto.
    - rewrite lookup_insert_ne by done. eauto. }
  destruct (handleConnClosed_listener u us c1 sessKey) as (c2 & Hc & Hu & Hcc); [apply Ho | done.. |].
  rewrite (go_bind_ok _ _ _ _ _ Hc). exists c2. split_and!; [done.. |].
  apply (Hcc conn (set_rd segs x)); [congruence | done | apply lookup_insert_eq].
Qed.

(** [Close] of a dialer: the close message, then everything is closed. *)
Lemma Close_dialer u us n y t x c b :
  open_udp u us n y c → isListener us = false → tcpConn us = Some t →
  h_conns (heap c) !! t = Some x → Framing.writable x → newSessionData MsgType_CLOSE [] = Ok b →
  ∃ c' x', Close u c = (Ok tt, c') ∧ h_conns (heap c') !! t = Some x' ∧
    wr_out x' = wr_out x ++ b ∧ conn_closed x' = true ∧
    h_udps (heap c') !! u = Some (set_dialer (Some n) (Some t) None us) ∧
    h_udpconns (heap c') !! n = Some (uc_Close y).
Proof.
  intros Ho Hl Ht Hx [Hw1 Hw2] Hb. destruct Ho as [H1 H2 H3 H4 H5].
  set (x1 := set_wr (wr_out x ++ b) None x).
  set (c1 := set_heap (put_conn t x1 (heap c)) c).
  assert (sendCloseMsg u None c = (Ok tt, c1)) as Hs.
  { unfold sendCloseMsg. rewrite (go_lift_ok _ _ _ _ Hb), (go_bind_ok _ _ _ _ _ (getUdp_ok _ _ _ H1)).
    rewrite Hl, Ht. unfold writeRaw, on_conn. rewrite (on_ok _ _ _ _ _ _ Hx).
    by rewrite Framing.Write_ok. }
  assert (open_udp u us n y c1) as Ho1 by done.
  set (c2 := set_heap (put_udpconn n (uc_Close y) (heap c1)) c1).
  set (c3 := set_heap (put_udp u (set_dialer (udpConn us) (tcpConn us) None us) (heap c2)) c2).
  assert (updUdp u (λ us, set_dialer (udpConn us) (tcpConn us) None us) c2 = (Ok tt, c3)) as H6
    by exact (updUdp_ok u (λ us, set_dialer (udpConn us) (tcpConn us) None us) c2 us H1).
  unfold Close, closeSocket, closeSection, try, mbind, go_bind. rewrite Hs, (established_ok _ _ _ _ _ Ho1).
  unfold on_udpconn. rewrite (on_ok _ _ _ _ _ y) by done. cbn [fst snd modify]. fold c2.
  rewrite (getUdp_ok u c2 us) by done. rewrite Hl, H6, Ht. unfold closeConnErr, on_conn.
  rewrite (on_ok _ _ _ _ _ x1); [| apply lookup_insert_eq]. cbn. rewrite Hw1.
  eexists _, _. split; [done |]. split; [apply lookup_insert_eq |].
  split_and!; [done.. | |]; simpl; rewrite ?H2, ?Ht; apply lookup_insert_eq.
Qed.

(** C28: closing a UDP session reaches the other end.  [Close] of a dialer writes a
    close message on its TCP connection, then closes it and the socket and forgets its
    peer.  A listener that reads that message there ends its monitor with [ErrClosed],
    forgets the session under its key and under its UDP address, and closes the
    connection. *)
Theorem udp_close_propagates u us n y t x c b v vs m z conn sessKey d w segs usa :
  newSessionData MsgType_CLOSE [] = Ok b → length b ≤ 1024 →
  (* the dialer *)
  open_udp u us n y c → isListener us = false → tcpConn us = Some t →
  h_conns (heap c) !! t = Some x → Framing.writable x →
  (* the listener *)
  open_udp v vs m z d → isListener vs = true → tcp_alive vs d → maps_ok vs →
  h_conns (heap d) !! conn = Some w → conn_closed w = false → rd_segs w = b :: segs →
  sessKeyToSessAddr vs !! sessKey = Some usa → tcpConns vs !! sessKey = Some conn →
  (∃ c' x', Close u c = (Ok tt, c') ∧ h_conns (heap c') !! t = Some x' ∧
     wr_out x' = wr_out x ++ b ∧ conn_closed x' = true ∧ (IsClosed u c').1 = Ok true ∧
     peer <$> h_udps (heap c') !! u = Some None) ∧
  (∃ d' vs' w', handleTcpMsg v conn sessKey d = (Err ErrClosed, d') ∧
     h_udps (heap d') !! v = Some vs' ∧ sessKeyToSessAddr vs' !! sessKey = None ∧
     udpAddrToSessAddr vs' !! udpAddr usa = None ∧ tcpConns vs' !! sessKey = None ∧
     h_conns (heap d') !! conn = Some w' ∧ conn_closed w' = true).
Proof.
  intros Hb Hlen Ho Hl Ht Hx Hw Ho' Hl' Ht' Hm Hc Hcl Hsegs Hs Htc. split.
  - destruct (Close_dialer u us n y t x c b Ho Hl Ht Hx Hw Hb) as (c' & x' & E1 & E2 & E3 & E4 & E5 & E6).
    exists c', x'. split_and!; [done.. | |].
    + by rewrite (IsClosed_closed _ _ _ _ _ E5 eq_refl E6) by apply uc_close_closed.
    + by rewrite E5.
  - destruct (handleTcpMsg_close v vs m z conn sessKey d w b segs usa) as (d' & E1 & E2 & E3); [done.. |].
    eexists d', _, _. split; [done |]. split; [done |]. unfold dropUdpSession. rewrite Hs. simpl.
    by rewrite !lookup_delete_eq.
Qed.

End inv.

(** ** Runs *)
Module UdpRuns.
Import Demo.

Definition sock : @udpconn (@lib_udp demo_ops) := mkDemoSocket false [] [].
Definition alice : udpSessionAddr := newUdpSessionAddr [Byte.x01] "alice" "8.8.8.8:1".
Definition hello : bytes := string_bytes "hello".

(** A listener with a socket, with and without the session of a dialer. *)
Definition listener0 : UdpSession := mkUdp true (Some 0) 1024 [] 0 None None None ∅ ∅ ∅.
Definition listener1 : UdpSession := putTcp (usa_String alice) 0 (putSession alice listener0).
Definition dialer0 : UdpSession := mkUdp false (Some 0) 1024 [] 0 None (Some 0) (Some alice) ∅ ∅ ∅.

Definition close_msg : bytes :=
  match newSessionData MsgType_CLOSE [] with Ok b => b | _ => [] end.
Definition meta (a : string) : bytes :=
  match MarshalMetadata (mkMetadata [Byte.x01] SessionType_UDP a) with Ok b => b | _ => [] end.
Definition meta_msg (a : string) : bytes :=
  match newSessionData MsgType_SESSIONID (meta a) with Ok b => drop 1 b | _ => [] end.

Definition bob (us : UdpSession) (conn : Conn) : Client :=
  demo_client "bob" (mkHeap {[0 := conn]} ∅ {[0 := sock]} {[0 := us]} ∅).

Lemma bob_open us conn :
  udpConn us = Some 0 → open_udp 0 us 0 sock (bob us conn).
Proof. by split. Qed.

Lemma bob_tcp conn : tcp_alive listener1 (bob listener1 conn).
Proof.
  intros k n. simpl. rewrite lookup_insert_Some, lookup_empty. intros [[_ <-]|[_ ?]]; [eauto | done].
Qed.

Lemma udp_session_established_witness :
  ∃ c', handleMetaData 0 (meta_msg "alice") "8.8.8.8:1" (bob listener0 (demo_conn [])) = (Ok tt, c') ∧
    (WriteTo 0 hello (SessAddr alice) c').1 = Ok 5%Z.
Proof.
  destruct (udp_session_established 0 listener0 0 sock (bob listener0 (demo_conn []))
    (meta_msg "alice") (meta "alice") (mkMetadata [Byte.x01] SessionType_UDP "alice") "8.8.8.8:1" hello hello)
    as (c' & x' & H1 & H2 & _ & H3).
  - by apply bob_open.
  - reflexivity.
  - by vm_compute.
  - by vm_compute.
  - by vm_compute.
  - exists c'. split; [done |].
    specialize (H3 6%Z _ eq_refl). simpl in H3. unfold alice. by rewrite H3.
Defined.

Lemma recvOne_panics_witness :
  recvOne 0 (byte_of HeaderType_SESSION :: hello) (mkDgram [] "6.6.6.6:6" false)
    (bob listener1 (demo_conn [])) = (Panic SliceRange, bob listener1 (demo_conn [])).
Proof.
  apply (recvOne_panics 0 listener1 0 sock);
    [by apply bob_open | reflexivity | apply bob_tcp | discriminate | reflexivity | reflexivity].
Defined.

Lemma udp_reconnect_ignored_witness :
  handleMetaData 0 (meta_msg "alice") "8.8.4.4:9" (bob listener1 (demo_conn [])) =
    (Ok tt, bob listener1 (demo_conn [])) ∧
  getUdpAddr 0 (SessAddr (newUdpSessionAddr [Byte.x01] "alice" "8.8.4.4:9")) (bob listener1 (demo_conn [])) =
    (Ok "8.8.8.8:1", bob listener1 (demo_conn [])).
Proof.
  destruct (udp_reconnect_ignored 0 listener1 0 sock (bob listener1 (demo_conn []))
    (meta_msg "alice") (meta "alice") (mkMetadata [Byte.x01] SessionType_UDP "alice") "8.8.4.4:9" alice hello [])
    as (H1 & _ & H3); [by apply bob_open | reflexivity | by vm_compute.. | done].
Defined.


Lemma udp_close_propagates_witness :
  (∃ c', Close 0 (bob dialer0 (demo_conn [])) = (Ok tt, c')) ∧
  ∃ d', handleTcpMsg 0 0 (usa_String alice) (bob listener1 (demo_conn [close_msg])) = (Err ErrClosed, d').
Proof.
  destruct (udp_close_propagates 0 dialer0 0 sock 0 (demo_conn [])
    (bob dialer0 (demo_conn [])) close_msg 0 listener1 0 sock 0 (usa_String alice)
    (bob listener1 (demo_conn [close_msg])) (demo_conn [close_msg]) [] alice)
    as [(c' & _ & H1 & _) (d' & _ & _ & H2 & _)];
    [by vm_compute | by vm_compute; lia | by apply bob_open | reflexivity | reflexivity | by vm_compute
    | by split | by apply bob_open | reflexivity | apply bob_tcp | | by vm_compute | reflexivity | reflexivity
    | by vm_compute | by vm_compute | by eauto].
  apply (maps_ok_same (putSession alice listener0)); [| done..].
  apply maps_ok_put; [by apply maps_ok_empty | by vm_compute].
Defined.

End UdpRuns.
