(* ===== verification/Client.v ===== *)
(** * client.go: connections, sessions and the life of the client

    The handlers of [TunaSessionClient] that run for connections and sessions: the send
    callback of [newSession], [handleMsg], [handleConn], the goroutine of [listenNet] for
    one connection ([serveConn]), [AcceptSession], [Close] and the small accessors.  Each
    is the whole handler; its critical sections are those of [Table]. *)

From stdpp Require Import base gmap strings list numbers tactics.
From Stdlib Require Import ZArith Lia.
From S2P Require Import Prelude Util Message Crypto Pb Config Table World Udp.
Import Keys Framing.

Definition maxAddrSize : Z := 512.
Definition maxSessionMetadataSize : Z := 1024.
Definition maxSessionMsgOverhead : Z := 1024.
Definition acceptSessionBufSize : nat := 1024.

Module Client.
Section client.
Context `{L : LibOps}.

(** ** Addresses that may connect *)

(** [getAcceptAddrs] of message.go; [None] is a nil array. *)
Fixpoint compileAll (addrs : list string) : res (list regexp) :=
  match addrs with
  | [] => Ok []
  | a :: addrs => r ← regexp_Compile a; rs ← compileAll addrs; Ok (r :: rs)
  end.

Definition getAcceptAddrs (addrsRe : option (list string)) : res (list regexp) :=
  compileAll (default [DefaultSessionAllowAddr] addrsRe).

Definition shouldAcceptAddr (c : Client) (a : string) : bool :=
  existsb (λ allowAddr, MatchString allowAddr a) (acceptAddrs c).

(** ** The client itself *)

(** [NewTunaSessionClient]; [a] is the address of the multiclient. *)
Definition NewTunaSessionClient `{!MergeOps} (sk : bytes) (a : string) (w : option wallet)
    (conf : option Config) (o : Port.OS) (t : Z) : res Client :=
  conf ← MergedConfig conf;
  Ok (mkClient conf sk a [] false false [] newTable ∅ (mkExits [] None false w None o) None
        (mkHeap ∅ ∅ ∅ ∅ ∅) [] t).

Definition Address (c : Client) : string := addr c.

(** [Addr] returns the [net.Addr] itself, which the model keeps as its text. *)
Definition Addr (c : Client) : string := addr c.

Definition SetConfig `{!MergeOps} (conf : Config) : go Client unit :=
  zoom config set_config (Config.SetConfig conf).

Definition SetTunaNode (n : node) : go Client unit := modify (λ c,
  set_exits (mkExits (listeners (exits c)) (tunaExits (exits c)) (onConnect (exits c))
               (e_wallet (exits c)) (Some n) (e_os (exits c))) c).

Definition IsClosed (c : Client) : bool := isClosed c.

(** What the sessions of the heap report. *)
Definition sess_closed (c : Client) (r : nat) : bool :=
  match h_sess (heap c) !! r with Some s => ncp_IsClosed s | None => false end.

Definition IsSessClosed (sessKey : string) (c : Client) : bool :=
  Table.IsSessClosed (now c) (sess_closed c) sessKey (table c).

Definition getCachedPubAddrs (remoteAddr : string) (c : Client) : option PubAddrs :=
  Table.getCachedPubAddrs remoteAddr (table c).

(** [CloseOneConn]: a nil connection panics. *)
Definition CloseOneConn (sess : nat) (connId : string) : go Client unit :=
  c ← get;
  conn ← lift_res (closeOneConn sess connId (table c));
  match conn with Some conn => closeConn conn | None => mret tt end.

(** One turn of [removeClosedSessions], after the second it sleeps; [false] when the
    client is closed and the goroutine ends. *)
Definition removeClosedSessions : go Client bool :=
  c ← get;
  if isClosed c then mret false
  else
    let '(conns, t) := removePass (now c) (sess_closed c) (table c) in
    Udp.closeEach conns;;
    modify (set_table t);;
    mret true.

(** ** Sessions *)

(** The session of [newSession]; its send callback is [sessionSend]. *)
Definition newSession (c : Client) (remoteAddr : string) (connIDs : list string)
    (config : option ncpConfig) : res session :=
  NewSession (addr c) remoteAddr connIDs config.

(** The callback: encrypt for the peer, and write one message on the connection. *)
Definition sessionSend (rand : res bytes) (remoteAddr : string) (sessionID : bytes)
    (connId : string) (buf : bytes) (writeTimeout : Z) : go Client unit :=
  c ← get;
  match conn_of (table c) (sessionKey remoteAddr sessionID) connId with
  | None => throw (ErrText ("conn " +:+ connId +:+ " is nil"))
  | Some conn =>
      buf ← on_keys (Crypto.encode (privKey c) rand buf remoteAddr);
      r ← try (on_conn conn (writeMessage (now c) buf writeTimeout));
      match r with
      | inl _ => mret tt
      | inr err => closeConn conn;; throw err
      end
  end.

(** The limit [handleMsg] reads with: int32 arithmetic, converted to uint32. *)
Definition maxMsgSize (cfg : ncpConfig) : Z := uint32_of (int32_of (MTU cfg + maxSessionMsgOverhead)).

Definition handleMsg (conn sess : nat) (i : Z) : go Client unit :=
  c ← get;
  cfg ← deref (SessionConfig (config c));
  buf ← on_conn conn (readMessage (maxMsgSize cfg));
  s ← peek h_sess sess;
  buf ← on_keys (Crypto.decode (privKey c) buf (ncp_RemoteAddr s));
  on_sess sess (ReceiveWith (connID i) (connID i) buf).

(** The loop of [handleConn]: every error ends it (after different log lines).  A message
    takes at least its 4-byte header from the stream, so [S (length (stream x))] turns
    are enough; [false] stands for a loop that is still running. *)
Fixpoint handleLoop (fuel : nat) (conn sess : nat) (i : Z) : go Client bool :=
  match fuel with
  | 0 => mret false
  | S fuel =>
      r ← try (handleMsg conn sess i);
      match r with
      | inl _ => handleLoop fuel conn sess i
      | inr _ => mret true
      end
  end.

Definition handleConn (conn : option nat) (remoteAddr : string) (sessionID : bytes) (i : Z)
    : go Client unit :=
  match conn with
  | None => mret tt
  | Some conn =>
      let sessKey := sessionKey remoteAddr sessionID in
      x ← peek h_conns conn;
      c ← get;
      match connEnter sessKey remoteAddr (conn_remote x) (table c) with
      | None => mret tt
      | Some (sess, t) =>
          modify (set_table t);;
          handleLoop (S (length (stream x))) conn sess i;;
          c ← get;
          '(shouldClose, t) ←
            lift_res (connExit (now c) sessKey remoteAddr (conn_remote x) i (table c));
          modify (set_table t);;
          if shouldClose : bool then try (on_sess sess ncp_Close);; mret tt else mret tt
      end
  end.

(** ** A connection that arrives: the goroutine of [listenNet] *)

(** The part under [defer conn.Close()]. *)
Definition serveTcp (conn : nat) (remoteAddr : string) (sessionID : bytes) (i : Z) : go Client unit :=
  let sessKey := sessionKey remoteAddr sessionID in
  c ← get;
  let connIDs := (λ j, connID (Z.of_nat j)) <$> seq 0 (Z.to_nat (NumTunaListeners (config c))) in
  let mk := if decide (NumTunaListeners (config c) < 0)%Z then Panic MakeSliceLen
            else newSession c remoteAddr connIDs (SessionConfig (config c)) in
  let ref := fresh (dom (h_sess (heap c))) in
  '(r, t) ← lift_res (registerConn (now c) sessKey i conn (mk ≫= λ _, Ok ref) (table c));
  modify (set_table t);;
  match r with
  | RegRefused => mret tt
  | RegOld _ => handleConn (Some conn) remoteAddr sessionID i
  | RegNew _ =>
      s ← lift_res mk;
      modify (λ c, set_heap (put_sess ref s (heap c)) c);;
      first ← try (handleMsg conn ref i);
      match first with
      | inr _ => mret tt
      | inl _ =>
          modify (λ c, if decide (length (acceptSession c) < acceptSessionBufSize)
                       then set_acceptSession (acceptSession c ++ [ref]) c else c);;
          handleConn (Some conn) remoteAddr sessionID i
      end
  end.

Definition serveConn (i : Z) (conn : nat) : go Client unit :=
  r ← try (on_conn conn (readMessage maxAddrSize));
  match r with
  | inr _ => closeConn conn
  | inl buf =>
      let remoteAddr := bytes_string buf in
      c ← get;
      if negb (shouldAcceptAddr c remoteAddr) then closeConn conn
      else
        r ← try (buf ← on_conn conn (readMessage maxSessionMetadataSize);
                 metadataRaw ← on_keys (Crypto.decode (privKey c) buf remoteAddr);
                 lift_res (UnmarshalMetadata metadataRaw));
        match r with
        | inr _ => closeConn conn
        | inl metadata =>
            if decide (SessionType metadata = SessionType_UDP)
            then Udp.handleUdpListenerTcp conn remoteAddr (Id metadata)
            else serveTcp conn remoteAddr (Id metadata) i;; closeConn conn
        end
  end.

(** One turn of [listenNet]: a connection that is accepted is served in a goroutine of its
    own; an error of [Accept] ends the loop only when the client is closed ([false]),
    otherwise the loop sleeps and goes on. *)
Definition listenNet (i : Z) (accepted : res Conn) : go Client bool :=
  match accepted with
  | Ok netConn =>
      conn ← new_conn (newConn netConn);
      spawn (TServe i conn);;
      mret true
  | Err _ => c ← get; mret (negb (isClosed c))
  | Panic p => crash p
  end.

(** ** Accepting and closing *)

(** [AcceptSession]; [None] when it waits.  When a session is queued and the client is
    closed, [select] takes either: [choice] decides, turn by turn. *)
Fixpoint acceptLoop (fuel : nat) (choice : nat → bool) : go Client (option nat) :=
  match fuel with
  | 0 => mret None
  | S fuel =>
      c ← get;
      match acceptSession c with
      | sess :: rest =>
          if onClose c && negb (choice fuel) then throw NknErrClosed
          else
            modify (set_acceptSession rest);;
            r ← try (on_sess sess ncp_Accept);
            match r with
            | inl _ => mret (Some sess)
            | inr _ => acceptLoop fuel choice
            end
      | [] => if onClose c then throw NknErrClosed else mret None
      end
  end.

Definition AcceptSession (choice : nat → bool) : go Client (option nat) :=
  c ← get; acceptLoop (S (length (acceptSession c))) choice.

Definition Accept (choice : nat → bool) : go Client (option nat) := AcceptSession choice.

(** [Close]. *)
Fixpoint closeSessions (sesss : list nat) : go Client unit :=
  match sesss with
  | [] => mret tt
  | sess :: sesss =>
      s ← peek h_sess sess;
      (if ncp_IsClosed s then mret tt else try (on_sess sess ncp_Close);; mret tt);;
      closeSessions sesss
  end.

Fixpoint closeExits (tes : list (option nat)) : go Client unit :=
  match tes with
  | [] => mret tt
  | te :: tes => te ← deref te; on_exit te (modify te_Close);; closeExits tes
  end.

Definition closeListeners (e : Exits) : Exits :=
  mkExits ((λ l, mkListener (l_id l) (l_addr l) true) <$> listeners e) (tunaExits e) (onConnect e)
    (e_wallet e) (tunaNode e) (foldl (λ o l, (Port.CloseTCP (l_id l) o).2) (e_os e) (listeners e)).

Definition all_conns (t : Table) : list nat :=
  m ← (map_to_list (sessionConns t)).*2; (map_to_list m).*2.

Definition Close : go Client unit :=
  c ← get;
  if isClosed c then mret tt
  else
    try (lift_res multiClient_Close);;
    modify (λ c, set_exits (closeListeners (exits c)) c);;
    closeSessions ((map_to_list (sessions (table c))).*2);;
    Udp.closeEach (all_conns (table c));;
    closeExits (default [] (tunaExits (exits c)));;
    (match listenerUdpSess c with
     | Some u => try (Udp.Close u);; mret tt
     | None => mret tt
     end);;
    c ← get;
    if onClose c then crash CloseOfClosed
    else modify (set_closed true true).

End client.
End Client.
