(* ===== verification/ClientInv.v ===== *)
(** * Properties of the client's handlers

    Delivery of session messages end to end, termination of the connection handler, what
    happens to a connection that arrives, and closing. *)

From stdpp Require Import base gmap strings list numbers tactics.
From Stdlib Require Import ZArith Lia.
From S2P Require Import Prelude Util Message Crypto Pb Config Table World Demo Udp Client.
Import Keys Framing Crypto Client.

Section client.
Context `{L : LibOps} `{LL : !LibLaws L}.

(** ** Receiving *)

(** A session that receives several messages on one connection. *)
Fixpoint receiveAll (id : string) (msgs : list bytes) : go session unit :=
  match msgs with
  | [] => mret tt
  | m :: msgs => ReceiveWith id id m;; receiveAll id msgs
  end.

(** What [encode] of the account [skA] makes of a message for the key [pB]. *)
Definition sealed (skA pB : bytes) (buf m : bytes) : Prop :=
  ∃ nonce, length nonce = nonceSize ∧
    buf = nonce ++ SealAfterPrecomputation m nonce (Precompute pB (PrivateKeyToCurve25519PrivateKey skA)).

(** What the connection handler needs at the receiving end. *)
Record receiver (c : Client) (cfg : ncpConfig) (skA : bytes) (addrA : string) (pA pB : bytes) : Prop := {
  rc_config : SessionConfig (config c) = Some cfg;
  rc_account : account_at skA addrA pA;
  rc_len : length (privKey c) = PrivateKeySize;
  rc_curve : PublicKeyToCurve25519PublicKey (PubKey (privKey c)) = Some pB;
  rc_cache : cache_ok (privKey c) (sharedKeys c)
}.

(** The state after one message. *)
Definition after_msg (conn sess : nat) (x : Conn) (s : session) (ks : gmap string bytes) (c : Client) : Client :=
  set_heap (put_sess sess s (put_conn conn x (heap c))) (set_sharedKeys ks c).

Lemma readMessage_frame mx x buf rest :
  conn_closed x = false → stream x = frame buf ++ rest →
  (Z.of_nat (length buf) ≤ mx < 2 ^ 32)%Z →
  ∃ segs, readMessage mx x = (Ok buf, set_rd segs x) ∧ concat segs = rest.
Proof.
  intros Hc Hs Hm. unfold frame in Hs. rewrite <- (assoc_L (++)) in Hs.
  destruct (readMessage_ok mx x _ _ _ Hc Hs) as (segs & H1 & H2);
    rewrite ?uint32_of_idemp, ?uint32_of_small by lia; [done | lia | by eauto].
Qed.

Lemma handleMsg_deliver c cfg skA addrA pA pB conn x sess s s' i buf m rest :
  receiver c cfg skA addrA pA pB →
  h_conns (heap c) !! conn = Some x → h_sess (heap c) !! sess = Some s → ncp_RemoteAddr s = addrA →
  conn_closed x = false → stream x = frame buf ++ rest → sealed skA pB buf m →
  (Z.of_nat (length buf) ≤ maxMsgSize cfg)%Z → ReceiveWith (connID i) (connID i) m s = (Ok tt, s') →
  ∃ segs ks, handleMsg conn sess i c = (Ok tt, after_msg conn sess (set_rd segs x) s' ks c) ∧
    concat segs = rest ∧ cache_ok (privKey c) ks.
Proof.
  intros [R1 R2 R3 R4 R5] Hx Hs Hr Hcl Hst (nonce & Hn & Hb) Hlen Hrv.
  destruct (readMessage_frame (maxMsgSize cfg) x buf rest) as (segs & H1 & H2); [done.. | |].
  { split; [done |]. unfold maxMsgSize. pose proof (uint32_of_range (int32_of (MTU cfg + maxSessionMsgOverhead))).
    lia. }
  destruct (decode_account skA (privKey c) addrA pA pB (sharedKeys c) nonce m) as (ks & H3 & H4); [done.. |].
  exists segs, ks. split; [| done]. subst buf.
  unfold handleMsg, get, deref. unfold mbind at 1, go_bind at 1. rewrite R1.
  unfold mbind at 1, go_bind at 1, mret, go_ret.
  unfold mbind at 1, go_bind at 1, on_conn. rewrite (on_ok _ _ _ _ _ _ Hx), H1. cbn [fst snd].
  unfold mbind at 1, go_bind at 1, peek, get, deref, mbind, go_bind. cbn [heap set_heap h_sess put_conn].
  rewrite Hs. unfold mret, go_ret, on_keys, zoom. cbn [sharedKeys set_heap].
  rewrite Hr, H3. unfold on_sess, on. cbn [heap set_heap set_sharedKeys h_sess put_conn]. rewrite Hs, Hrv.
  done.
Qed.

(** A read at the end of the stream fails. *)
Lemma readMessage_end mx x :
  conn_closed x = false → stream x = [] → ∃ e x', readMessage mx x = (Err e, x').
Proof.
  intros Hc Hs. unfold readMessage. erewrite go_bind_err by (apply ReadFull_short; [done | rewrite Hs; simpl; lia]).
  by eauto.
Qed.

Lemma handleMsg_end c cfg conn sess x i e x' :
  SessionConfig (config c) = Some cfg → h_conns (heap c) !! conn = Some x →
  readMessage (maxMsgSize cfg) x = (Err e, x') →
  handleMsg conn sess i c = (Err e, set_heap (put_conn conn x' (heap c)) c).
Proof.
  intros H1 Hx H2. unfold handleMsg, get, deref. unfold mbind at 1, go_bind at 1. rewrite H1.
  unfold mbind at 1, go_bind at 1, mret, go_ret.
  unfold mbind at 1, go_bind at 1, on_conn. by rewrite (on_ok _ _ _ _ _ _ Hx), H2.
Qed.

(** The loop hands every message of the stream to the session, in order, and ends. *)
Lemma handleLoop_delivers fuel c cfg skA addrA pA pB conn x sess s s' i bufs msgs :
  receiver c cfg skA addrA pA pB →
  h_conns (heap c) !! conn = Some x → h_sess (heap c) !! sess = Some s → ncp_RemoteAddr s = addrA →
  conn_closed x = false → stream x = concat (frame <$> bufs) → Forall2 (sealed skA pB) bufs msgs →
  Forall (λ b, Z.of_nat (length b) ≤ maxMsgSize cfg)%Z bufs →
  receiveAll (connID i) msgs s = (Ok tt, s') → length bufs < fuel →
  ∃ c' x', handleLoop fuel conn sess i c = (Ok true, c') ∧ h_sess (heap c') !! sess = Some s' ∧
    h_conns (heap c') !! conn = Some x' ∧ conn_closed x' = false ∧
    table c' = table c ∧ now c' = now c ∧ acceptSession c' = acceptSession c.
Proof.
  intros HR Hx Hs Hr Hcl Hst Hf. revert fuel c x s HR Hx Hs Hr Hcl Hst.
  induction Hf as [|buf m bufs msgs Hbm _ IH]; intros fuel c x s HR Hx Hs Hr Hcl Hst Hlen Hrv Hfuel.
  - injection Hrv as <-. destruct fuel as [|fuel]; [simpl in Hfuel; lia |]. cbn [handleLoop].
    destruct (readMessage_end (maxMsgSize cfg) x) as (e & x' & He); [done.. |].
    unfold try, mbind, go_bind. rewrite (handleMsg_end c cfg conn sess x i e x') by (done || apply HR).
    eexists _, x'. split_and!; try done; [apply lookup_insert_eq |].
    unfold readMessage in He. erewrite go_bind_err in He by (apply ReadFull_short; [done | rewrite Hst; simpl; lia]).
    by injection He as <- <-.
  - apply Forall_cons_1 in Hlen as [Hl1 Hl2]. rewrite fmap_cons in Hst. cbn [concat] in Hst.
    apply go_bind_inv_ok in Hrv as ([] & s1 & Hr1 & Hr2).
    destruct fuel as [|fuel]; [simpl in Hfuel; lia |]. cbn [handleLoop].
    destruct (handleMsg_deliver c cfg skA addrA pA pB conn x sess s s1 i buf m _ HR Hx Hs Hr Hcl Hst Hbm Hl1 Hr1)
      as (segs & ks & H1 & H2 & H3).
    unfold try, mbind, go_bind. rewrite H1. unfold after_msg in *.
    destruct (IH fuel (after_msg conn sess (set_rd segs x) s1 ks c) (set_rd segs x) s1)
      as (c' & x' & E1 & E2 & E3 & E4 & E5 & E6 & E7); try done.
    + destruct HR. by split.
    + apply lookup_insert_eq.
    + apply lookup_insert_eq.
    + rewrite <- Hr. pose proof (receive_remote (connID i) (connID i) m s) as H. by rewrite Hr1 in H.
    + simpl in Hfuel. lia.
    + exists c', x'. split; [exact E1 |]. by split_and!.
Qed.

(** ** Sending *)

(** Several calls of the send callback, each with the nonce it draws. *)
Fixpoint sendAll (remoteAddr : string) (sessionID : bytes) (connId : string) (writeTimeout : Z)
    (msgs : list (bytes * bytes)) : go Client unit :=
  match msgs with
  | [] => mret tt
  | (nonce, m) :: msgs =>
      sessionSend (Ok nonce) remoteAddr sessionID connId m writeTimeout;;
      sendAll remoteAddr sessionID connId writeTimeout msgs
  end.

(** What the send callback needs at the sending end. *)
Record sender (c : Client) (key connId : string) (conn : nat) (skB : bytes) (addrB : string) (pB : bytes)
    : Prop := {
  sn_conn : conn_of (table c) key connId = Some conn;
  sn_len : length (privKey c) = PrivateKeySize;
  sn_account : account_at skB addrB pB;
  sn_cache : cache_ok (privKey c) (sharedKeys c)
}.

Lemma sessionSend_ok c key id connId conn skB addrB pB x nonce m writeTimeout :
  sender c key connId conn skB addrB pB → key = sessionKey addrB id →
  h_conns (heap c) !! conn = Some x → writable x →
  ∃ c' x', sessionSend (Ok nonce) addrB id connId m writeTimeout c = (Ok tt, c') ∧
    sender c' key connId conn skB addrB pB ∧ privKey c' = privKey c ∧
    h_conns (heap c') !! conn = Some x' ∧ writable x' ∧
    wr_out x' = wr_out x ++ frame (nonce ++ SealAfterPrecomputation m nonce
                  (Precompute pB (PrivateKeyToCurve25519PrivateKey (privKey c)))).
Proof.
  intros [S1 S2 S3 S4] -> Hx Hw. unfold sessionSend, get. unfold mbind at 1, go_bind at 1. rewrite S1.
  destruct (encode_account (privKey c) skB addrB pB (sharedKeys c) nonce m S2 S3 S4) as (ks & He & Hks).
  unfold mbind at 1, go_bind at 1, on_keys, zoom. rewrite He. set (buf := nonce ++ _).
  destruct (writeMessage_ok (now c) buf writeTimeout x Hw) as (x' & H1 & H2 & H3 & _ & _).
  unfold try, mbind, go_bind, on_conn. rewrite (on_ok _ _ _ _ _ x) by done. rewrite H1. cbn.
  eexists _, x'. split; [done |]. split; [by split |]. split_and!; try done. apply lookup_insert_eq.
Qed.

Lemma sendAll_ok c key id connId conn skB addrB pB x writeTimeout msgs :
  sender c key connId conn skB addrB pB → key = sessionKey addrB id →
  h_conns (heap c) !! conn = Some x → writable x → Forall (λ nm, length nm.1 = nonceSize) msgs →
  ∃ c' x' bufs, sendAll addrB id connId writeTimeout msgs c = (Ok tt, c') ∧
    h_conns (heap c') !! conn = Some x' ∧ wr_out x' = wr_out x ++ concat (frame <$> bufs) ∧
    Forall2 (sealed (privKey c) pB) bufs msgs.*2 ∧
    (length <$> bufs) = (λ nm, nonceSize + length nm.2 + Overhead) <$> msgs.
Proof.
  intros HS Hk Hx Hw Hn. revert c x HS Hx Hw.
  induction Hn as [|[nonce m] msgs Hn _ IH]; intros c x HS Hx Hw; cbn [sendAll].
  { exists c, x, []. simpl. rewrite app_nil_r. by split_and!. }
  destruct (sessionSend_ok c key id connId conn skB addrB pB x nonce m writeTimeout HS Hk Hx Hw)
    as (c1 & x1 & H1 & H2 & Hp & H3 & H4 & H5).
  rewrite (go_bind_ok _ _ _ _ _ H1). destruct (IH c1 x1 H2 H3 H4) as (c' & x' & bufs & E1 & E2 & E3 & E4 & E5).
  eexists c', x', (_ :: bufs). split_and!; [done.. | | |].
  - rewrite E3, H5, fmap_cons, <- (assoc_L (++)). done.
  - simpl. constructor; [| by rewrite <- Hp]. exists nonce. done.
  - rewrite !fmap_cons, E5. f_equal. simpl in Hn. rewrite length_app, seal_length, Hn. simpl. lia.
Qed.

(** ** The connection handler *)

(** The two critical sections of one [handleConn] call, nothing in between. *)
Lemma connEnter_exit now key r a i t sess t' :
  connEnter key r a t = Some (sess, t') →
  ∃ t'', connExit now key r a i t' = Ok (bool_decide (default 0 (connCount t !! key) = 0)%Z, t'') ∧
    conn_of t'' key (connID i) = None.
Proof.
  unfold connEnter. destruct (sessions t !! key) as [s|]; [| done]. intros [= <- <-].
  unfold connExit, addrRelease. cbn [addrConnCount connCount sessionConns]. rewrite lookup_insert_eq.
  set (count := bump (-1) key (bump 1 key (connCount t))).
  assert (default 0%Z (count !! key) = default 0%Z (connCount t !! key)) as Hc.
  { unfold count, bump. rewrite !lookup_insert_eq. simpl. lia. }
  assert (∀ t1, sessionConns t1 = alter (delete (connID i)) key (sessionConns t) →
    conn_of (if bool_decide (default 0%Z (count !! key) = 0%Z) then dropSession now key t1 else t1)
      key (connID i) = None) as Hno.
  { intros t1 E. unfold conn_of. case_bool_decide; simpl; rewrite ?E.
    - by rewrite lookup_delete_eq.
    - rewrite lookup_alter_eq. destruct (sessionConns t !! key); [| done]. simpl. apply lookup_delete_eq. }
  rewrite <- Hc. unfold mbind, res_bind, mret, res_ret.
  destruct (decide (_ ≤ 0)%Z); eexists; (split; [reflexivity | by apply Hno]).
Qed.

(** C1: session messages arrive, in order, end to end.  Whatever messages the send
    callback of a session is given for one of its connections, the peer whose connection
    receives those bytes (in any segmentation, then the end of the stream) hands exactly
    these messages to its session, in order, in one run of [handleConn], which returns;
    the connection is then unregistered, and the session is closed if it was the last. *)
Theorem session_end_to_end cA id j connA skB addrB pB x writeTimeout msgs :
  sender cA (sessionKey addrB id) j connA skB addrB pB →
  h_conns (heap cA) !! connA = Some x → writable x → wr_out x = [] →
  Forall (λ nm, length nm.1 = nonceSize) msgs →
  ∃ cA' x', sendAll addrB id j writeTimeout msgs cA = (Ok tt, cA') ∧ h_conns (heap cA') !! connA = Some x' ∧
    ∀ cB cfg addrA pA connB y sess s s' i,
      receiver cB cfg (privKey cA) addrA pA pB →
      Forall (λ nm, Z.of_nat (nonceSize + length nm.2 + Overhead) ≤ maxMsgSize cfg)%Z msgs →
      h_conns (heap cB) !! connB = Some y → conn_closed y = false → stream y = wr_out x' →
      sessions (table cB) !! sessionKey addrA id = Some sess →
      h_sess (heap cB) !! sess = Some s → ncp_RemoteAddr s = addrA →
      receiveAll (connID i) msgs.*2 s = (Ok tt, s') →
      ∃ cB', handleConn (Some connB) addrA id i cB = (Ok tt, cB') ∧
        h_sess (heap cB') !! sess =
          Some (if bool_decide (default 0 (connCount (table cB) !! sessionKey addrA id) = 0)%Z
                then (ncp_Close s').2 else s') ∧
        conn_of (table cB') (sessionKey addrA id) (connID i) = None.
Proof.
  intros HS Hx Hw Ho Hn.
  destruct (sendAll_ok cA _ id j connA skB addrB pB x writeTimeout msgs HS eq_refl Hx Hw Hn)
    as (cA' & x' & bufs & H1 & H2 & H3 & H4 & H5).
  exists cA', x'. split_and!; [done.. |]. rewrite Ho in H3. simpl in H3.
  intros cB cfg addrA pA connB y sess s s' i HR Hlen Hy Hcl Hst Hsess Hs Hra Hrv.
  unfold handleConn. set (key := sessionKey addrA id) in *.
  assert (peek h_conns connB cB = (Ok y, cB)) as Hp by (unfold peek, deref; go_unfold; by rewrite Hy).
  rewrite (go_bind_ok _ _ _ _ _ Hp). unfold mbind at 1, go_bind at 1, get.
  destruct (connEnter key addrA (conn_remote y) (table cB)) as [[sess' t']|] eqn:He.
  2:{ unfold connEnter in He. by rewrite Hsess in He. }
  assert (sess' = sess) as -> by (unfold connEnter in He; rewrite Hsess in He; by simplify_eq).
  assert (Forall (λ b, Z.of_nat (length b) ≤ maxMsgSize cfg)%Z bufs) as Hl.
  { assert (Forall (λ n, Z.of_nat n ≤ maxMsgSize cfg)%Z (length <$> bufs)) as Hf
      by (rewrite H5; by apply Forall_fmap). rewrite Forall_fmap in Hf. exact Hf. }
  destruct (handleLoop_delivers (S (length (stream y))) (set_table t' cB) cfg (privKey cA) addrA pA pB
    connB y sess s s' i bufs msgs.*2) as (c1 & y1 & E1 & E2 & E3 & _ & E4 & E5 & _);
    [by destruct HR | done | done | done | done | by rewrite Hst, H3 | done.. | |].
  { rewrite Hst, H3. clear. induction bufs as [|b bufs IH]; [simpl; lia |].
    rewrite fmap_cons. cbn [concat length]. rewrite length_app. unfold frame at 1.
    rewrite length_app, length_put. lia. }
  destruct (connEnter_exit (now cB) key addrA (conn_remote y) i (table cB) sess t' He) as (t'' & Hex & Hno).
  unfold modify. unfold mbind at 1, go_bind at 1. rewrite (go_bind_ok _ _ _ _ _ E1).
  unfold mbind at 1, go_bind at 1. rewrite E4, E5. cbn [table set_table now]. rewrite Hex.
  unfold lift_res, mbind, go_bind. destruct (bool_decide _).
  - unfold try, on_sess. rewrite (on_ok _ _ _ _ _ s') by done.
    pose proof (close_no_panic s') as Hcp. destruct (ncp_Close s') as [[[]|e|p] s''] eqn:Ec; [| | done];
      (eexists; split; [done |]; split; [cbn; by rewrite lookup_insert_eq | done]).
  - eexists. split; [done |]. done.
Qed.

(** ** Termination *)

Lemma readMessage_consumes mx x buf x' :
  readMessage mx x = (Ok buf, x') → length (stream x') + 4 ≤ length (stream x).
Proof.
  unfold readMessage. intros (b4 & x1 & H1 & H2)%go_bind_inv_ok. case_decide; [done |].
  destruct (conn_closed x) eqn:Hc; [by rewrite ReadFull_closed in H1 by (done || lia) |].
  destruct (decide (4 ≤ length (stream x))) as [Hl|Hl].
  2:{ rewrite ReadFull_short in H1 by (done || lia). done. }
  destruct (ReadFull_ok 4 x Hc Hl) as (segs & E1 & E2). rewrite E1 in H1. simplify_eq.
  set (n := Z.to_nat _) in H2. assert (length (stream (set_rd segs x)) + 4 ≤ length (stream x)) as Hd.
  { rewrite stream_set_rd, E2, length_drop. lia. }
  destruct (decide (n ≤ length (stream (set_rd segs x)))) as [Hn|Hn].
  - destruct (ReadFull_ok n (set_rd segs x) Hc Hn) as (segs' & E3 & E4). rewrite E3 in H2. simplify_eq.
    rewrite stream_set_rd, E4, length_drop. lia.
  - rewrite ReadFull_short in H2 by (done || lia). done.
Qed.

Lemma handleMsg_consumes conn sess i c c' x :
  handleMsg conn sess i c = (Ok tt, c') → h_conns (heap c) !! conn = Some x →
  ∃ x', h_conns (heap c') !! conn = Some x' ∧ length (stream x') + 4 ≤ length (stream x).
Proof.
  intros H Hx. unfold handleMsg in H.
  apply go_bind_inv_ok in H as (? & ? & [= <- <-] & H).
  apply go_bind_inv_ok in H as (cfg & c1 & Hd & H).
  assert (c1 = c) as -> by (unfold deref, mret, go_ret in Hd; destruct (SessionConfig _); by simplify_eq).
  apply go_bind_inv_ok in H as (buf & c2 & Hr & H). unfold on_conn in Hr. rewrite (on_ok _ _ _ _ _ _ Hx) in Hr.
  destruct (readMessage (maxMsgSize cfg) x) as [[b|e|p] x'] eqn:Er; simplify_eq/=.
  apply readMessage_consumes in Er. exists x'. split; [| done].
  apply go_bind_inv_ok in H as (s & c3 & Hp & H).
  assert (c3 = set_heap (put_conn conn x' (heap c)) c) as ->.
  { unfold peek, deref in Hp. go_unfold. destruct (h_sess _ !! sess); by simplify_eq. }
  apply go_bind_inv_ok in H as (m & c4 & Hk & H). unfold on_keys, zoom in Hk.
  destruct (decode _ _ _ _) as [r ks]. simplify_eq/=. unfold on_sess, on in H.
  destruct (h_sess _ !! sess) as [s0|]; [| done]. destruct (ReceiveWith _ _ _ s0). simplify_eq/=.
  apply lookup_insert_eq.
Qed.

Lemma handleLoop_terminates fuel conn sess i c x :
  h_conns (heap c) !! conn = Some x → length (stream x) < fuel →
  (handleLoop fuel conn sess i c).1 ≠ Ok false.
Proof.
  revert c x. induction fuel as [|fuel IH]; intros c x Hx Hf; [lia |]. cbn [handleLoop].
  unfold try, mbind, go_bind. destruct (handleMsg conn sess i c) as [[[]|e|p] c'] eqn:E; [| done..].
  destruct (handleMsg_consumes _ _ _ _ _ _ E Hx) as (x' & Hx' & Hl). apply (IH _ x' Hx'). lia.
Qed.

(** The loop of [handleConn] ends.  On any connection, with whatever bytes arrive on
    it, the loop started with the turns [handleConn] gives it never runs out of them: it
    ends because a message could not be read, decoded or received. *)
Theorem handleConn_loop_terminates conn sess i c x :
  h_conns (heap c) !! conn = Some x →
  (handleLoop (S (length (stream x))) conn sess i c).1 ≠ Ok false.
Proof. intros Hx. apply (handleLoop_terminates _ _ _ _ _ x Hx). lia. Qed.

(** ** A connection that arrives *)

(** The first message of a connection: the address it claims. *)
Lemma serveConn_addr conn c x a rest :
  h_conns (heap c) !! conn = Some x → conn_closed x = false →
  stream x = frame (string_bytes a) ++ rest → (Z.of_nat (length (string_bytes a)) ≤ maxAddrSize)%Z →
  ∃ segs, on_conn conn (readMessage maxAddrSize) c =
      (Ok (string_bytes a), set_heap (put_conn conn (set_rd segs x) (heap c)) c) ∧ concat segs = rest.
Proof.
  intros Hx Hcl Hst Hl. destruct (readMessage_frame maxAddrSize x (string_bytes a) rest Hcl Hst)
    as (segs & H1 & H2); [unfold maxAddrSize in *; lia |].
  exists segs. split; [| done]. unfold on_conn. by rewrite (on_ok _ _ _ _ _ _ Hx), H1.
Qed.

(** C37: a peer that is not accepted gets nothing.  When no pattern matches the address a
    connection claims, the connection is closed, nothing further is read from it, and the
    client's maps, keys, sessions and accept queue are untouched. *)
Theorem serveConn_rejects i conn c x a rest :
  h_conns (heap c) !! conn = Some x → conn_closed x = false →
  stream x = frame (string_bytes a) ++ rest → (Z.of_nat (length (string_bytes a)) ≤ maxAddrSize)%Z →
  shouldAcceptAddr c a = false →
  ∃ x', serveConn i conn c = (Ok tt, set_heap (put_conn conn x' (heap c)) c) ∧
    conn_closed x' = true ∧ stream x' = rest ∧ wr_out x' = wr_out x.
Proof.
  intros Hx Hcl Hst Hl Hacc. destruct (serveConn_addr conn c x a rest Hx Hcl Hst Hl) as (segs & H1 & H2).
  exists (close_conn (set_rd segs x)). split; [| done].
  unfold serveConn, try, mbind, go_bind. rewrite H1. rewrite bytes_string_bytes.
  unfold get. change (shouldAcceptAddr (set_heap _ c) a) with (shouldAcceptAddr c a). rewrite Hacc.
  change (negb false) with true. cbn iota. unfold closeConn, on_conn. rewrite (on_ok _ _ _ _ _ (set_rd segs x)); [| apply lookup_insert_eq].
  rewrite set_heap_twice. cbn [fst snd modify heap set_heap]. by rewrite put_conn_twice.
Qed.

(** C38: a peer can crash the process.  A connection that claims an accepted address and
    sends as its metadata a frame of more than 24 but less than 24 plus the overhead of a
    box bytes makes the goroutine of [listenNet] panic, and with it the process. *)
Theorem serveConn_crash i conn c x a buf rest pk key :
  h_conns (heap c) !! conn = Some x → conn_closed x = false →
  stream x = frame (string_bytes a) ++ frame buf ++ rest →
  (Z.of_nat (length (string_bytes a)) ≤ maxAddrSize)%Z →
  shouldAcceptAddr c a = true → cache_ok (privKey c) (sharedKeys c) →
  ClientAddrToPubKey a = Ok pk → computeSharedKey (privKey c) pk = Ok key →
  nonceSize < length buf < nonceSize + Overhead →
  (Z.of_nat (length buf) ≤ maxSessionMetadataSize)%Z →
  (serveConn i conn c).1 = Panic MakeSliceLen.
Proof.
  intros Hx Hcl Hst Hl Hacc Hks Ha Hk Hlen Hmax.
  destruct (serveConn_addr conn c x a _ Hx Hcl Hst Hl) as (segs & H1 & H2).
  destruct (readMessage_frame maxSessionMetadataSize (set_rd segs x) buf rest) as (segs' & H3 & _);
    [done | by rewrite stream_set_rd, H2 | unfold maxSessionMetadataSize in *; lia |].
  destruct (decode_short_panics (privKey c) buf a (sharedKeys c) pk key Hks Hlen Ha Hk) as (ks & H4).
  unfold serveConn. rewrite (go_bind_ok _ _ _ _ _ (try_ok _ _ _ _ H1)), bytes_string_bytes.
  unfold get. unfold mbind at 1, go_bind at 1.
  change (shouldAcceptAddr (set_heap _ c) a) with (shouldAcceptAddr c a). rewrite Hacc.
  change (negb true) with false. cbn iota.
  unfold try, mbind, go_bind, on_conn. rewrite (on_ok _ _ _ _ _ (set_rd segs x)); [| apply lookup_insert_eq].
  rewrite H3. unfold on_keys, zoom. cbn [fst snd sharedKeys set_heap privKey]. by rewrite H4.
Qed.

(** A session whose first message fails is neither accepted nor closed.  When the
    first message of a new session cannot be read, the goroutine of the connection ends
    with the session still registered under its key (its connection too, although that is
    closed next), its key not recorded as closed, and nothing put into the accept queue. *)
Theorem first_message_failure conn remoteAddr id i c cfg s x e x' :
  let key := sessionKey remoteAddr id in
  let ref := fresh (dom (h_sess (heap c))) in
  sessions (table c) !! key = None → cache_Get (now c) key (closedSessionKey (table c)) = false →
  (0 ≤ NumTunaListeners (config c))%Z → SessionConfig (config c) = Some cfg →
  (∀ ids, NewSession (addr c) remoteAddr ids (SessionConfig (config c)) = Ok s) →
  h_conns (heap c) !! conn = Some x → readMessage (maxMsgSize cfg) x = (Err e, x') →
  ∃ c', serveTcp conn remoteAddr id i c = (Ok tt, c') ∧
    sessions (table c') !! key = Some ref ∧ h_sess (heap c') !! ref = Some s ∧
    conn_of (table c') key (connID i) = Some conn ∧
    closedSessionKey (table c') = closedSessionKey (table c) ∧ acceptSession c' = acceptSession c.
Proof.
  intros key ref Hs Hc Hn Hcfg Hnew Hx Hr. unfold serveTcp, get. unfold mbind at 1, go_bind at 1.
  fold key ref. rewrite (decide_False (P := (NumTunaListeners (config c) < 0)%Z)) by lia.
  unfold newSession. rewrite Hnew. unfold registerConn. rewrite Hs, Hc. cbn [mbind res_bind].
  unfold putConn. cbn [sessionConns]. rewrite lookup_insert_eq.
  unfold lift_res, modify, mbind, go_bind, mret, go_ret, res_ret, res_bind. cbn beta iota.
  unfold try. erewrite handleMsg_end by done. eexists. split; [done |]. simpl. unfold conn_of. simpl.
  rewrite !lookup_insert_eq. simpl. by rewrite lookup_insert_eq.
Qed.

(** ** Closing *)

Definition set_conns (cs : gmap nat Conn) (c : Client) : Client :=
  set_heap (mkHeap cs (h_sess (heap c)) (h_udpconns (heap c)) (h_udps (heap c)) (h_exits (heap c))) c.
Definition set_sesss (ss : gmap nat session) (c : Client) : Client :=
  set_heap (mkHeap (h_conns (heap c)) ss (h_udpconns (heap c)) (h_udps (heap c)) (h_exits (heap c))) c.

Lemma set_conns_id c : set_conns (h_conns (heap c)) c = c.
Proof. destruct c as [? ? ? ? ? ? ? ? ? ? ? h ? ?]. by destruct h. Qed.
Lemma set_sesss_id c : set_sesss (h_sess (heap c)) c = c.
Proof. destruct c as [? ? ? ? ? ? ? ? ? ? ? h ? ?]. by destruct h. Qed.

(** Connections stay there, and closed ones stay closed. *)
Definition conns_le (cs cs' : gmap nat Conn) : Prop :=
  ∀ n x, cs !! n = Some x →
    ∃ x', cs' !! n = Some x' ∧ (conn_closed x = true → conn_closed x' = true).

#[local] Instance conns_le_preorder : PreOrder conns_le.
Proof.
  split; [intros cs n x; eauto |]. intros cs1 cs2 cs3 H1 H2 n x Hx.
  destruct (H1 _ _ Hx) as (x' & Hx' & ?). destruct (H2 _ _ Hx') as (x'' & ? & ?). eauto.
Qed.

Lemma conns_le_insert cs n x x' :
  cs !! n = Some x → (conn_closed x = true → conn_closed x' = true) → conns_le cs (<[n := x']> cs).
Proof.
  intros Hx Hc m y Hy. destruct (decide (n = m)) as [->|].
  - rewrite lookup_insert_eq. simplify_eq. eauto.
  - rewrite lookup_insert_ne by done. eauto.
Qed.

Definition present {X} (m : gmap nat X) (ns : list nat) : Prop := Forall (λ n, is_Some (m !! n)) ns.

Lemma present_le cs cs' ns : conns_le cs cs' → present cs ns → present cs' ns.
Proof.
  intros Hle. apply Forall_impl. intros n [x Hx]. destruct (Hle _ _ Hx) as (? & ? & _). eauto.
Qed.

Lemma closeEach_ok conns c :
  present (h_conns (heap c)) conns →
  ∃ cs, Udp.closeEach conns c = (Ok tt, set_conns cs c) ∧ conns_le (h_conns (heap c)) cs ∧
    ∀ n, n ∈ conns → ∃ x, cs !! n = Some x ∧ conn_closed x = true.
Proof.
  revert c. induction conns as [|n conns IH]; intros c Hp; cbn [Udp.closeEach].
  { exists (h_conns (heap c)). rewrite set_conns_id. split_and!; [done.. |].
    by intros n ?%not_elem_of_nil. }
  apply Forall_cons_1 in Hp as [[x Hx] Hp].
  assert (closeConn n c = (Ok tt, set_conns (<[n := close_conn x]> (h_conns (heap c))) c)) as H1.
  { unfold closeConn, on_conn. by rewrite (on_ok _ _ _ _ _ _ Hx). }
  rewrite (go_bind_ok _ _ _ _ _ H1).
  assert (conns_le (h_conns (heap c)) (<[n := close_conn x]> (h_conns (heap c)))) as Hle
    by by apply (conns_le_insert _ _ x).
  destruct (IH (set_conns (<[n := close_conn x]> (h_conns (heap c))) c)) as (cs & E1 & E2 & E3).
  { by apply (present_le (h_conns (heap c))). }
  exists cs. split_and!; [exact E1 | by etrans |]. intros m [->|Hm]%elem_of_cons; [| by apply E3].
  destruct (E2 n (close_conn x)) as (x' & ? & ?); [apply lookup_insert_eq | by eauto].
Qed.

Lemma writeEach_ok b conns c :
  present (h_conns (heap c)) conns →
  ∃ cs, Udp.writeEach b conns c = (Ok tt, set_conns cs c) ∧ conns_le (h_conns (heap c)) cs.
Proof.
  revert c. induction conns as [|n conns IH]; intros c Hp; cbn [Udp.writeEach].
  { exists (h_conns (heap c)). by rewrite set_conns_id. }
  apply Forall_cons_1 in Hp as [[x Hx] Hp].
  assert (∃ x' r, Message.Write b x = (r, x') ∧ conn_closed x' = conn_closed x ∧ is_panic r = false)
    as (x' & r & Hw & Hc & Hr).
  { unfold Message.Write. destruct (conn_closed x) eqn:E; [by eauto |].
    destruct (wr_room x); [case_decide |]; by eauto. }
  assert (Udp.writeRaw n b c = (r, set_conns (<[n := x']> (h_conns (heap c))) c)) as H1.
  { unfold Udp.writeRaw, on_conn. by rewrite (on_ok _ _ _ _ _ _ Hx), Hw. }
  assert (conns_le (h_conns (heap c)) (<[n := x']> (h_conns (heap c)))) as Hle
    by (apply (conns_le_insert _ _ x); [done | congruence]).
  destruct (IH (set_conns (<[n := x']> (h_conns (heap c))) c)) as (cs & E1 & E2).
  { by apply (present_le (h_conns (heap c))). }
  exists cs. split; [| by etrans]. unfold try, mbind, go_bind. rewrite H1.
  destruct r; [exact E1 | exact E1 | done].
Qed.

Lemma closeSessions_ok sesss c :
  present (h_sess (heap c)) sesss →
  ∃ ss, closeSessions sesss c = (Ok tt, set_sesss ss c) ∧
    (∀ n s, h_sess (heap c) !! n = Some s →
       ∃ s', ss !! n = Some s' ∧ (ncp_IsClosed s = true → ncp_IsClosed s' = true)) ∧
    ∀ n, n ∈ sesss → ∃ s, ss !! n = Some s ∧ ncp_IsClosed s = true.
Proof.
  revert c. induction sesss as [|n sesss IH]; intros c Hp; cbn [closeSessions].
  { exists (h_sess (heap c)). rewrite set_sesss_id. split_and!; [done | by eauto |].
    by intros n ?%not_elem_of_nil. }
  apply Forall_cons_1 in Hp as [[s Hs] Hp].
  assert (peek h_sess n c = (Ok s, c)) as Hpk by (unfold peek, deref; go_unfold; by rewrite Hs).
  rewrite (go_bind_ok _ _ _ _ _ Hpk).
  set (s1 := if ncp_IsClosed s then s else (ncp_Close s).2).
  assert (ncp_IsClosed s1 = true) as Hs1.
  { unfold s1. destruct (ncp_IsClosed s) eqn:E; [done | apply close_closed]. }
  assert ((if ncp_IsClosed s then mret tt else try (on_sess n ncp_Close);; mret tt) c =
          (Ok tt, set_sesss (<[n := s1]> (h_sess (heap c))) c)) as H1.
  { unfold s1. destruct (ncp_IsClosed s).
    - rewrite insert_id by done. by rewrite set_sesss_id.
    - unfold try, mbind, go_bind, on_sess. rewrite (on_ok _ _ _ _ _ _ Hs).
      pose proof (close_no_panic s) as Hnp. by destruct (ncp_Close s) as [[[]| |] ?]. }
  rewrite (go_bind_ok _ _ _ _ _ H1).
  destruct (IH (set_sesss (<[n := s1]> (h_sess (heap c))) c)) as (ss & E1 & E2 & E3).
  { revert Hp. apply Forall_impl. intros m Hm. simpl. destruct (decide (n = m)) as [->|];
      [rewrite lookup_insert_eq; eauto | by rewrite lookup_insert_ne]. }
  simpl in E2. exists ss. split_and!; [exact E1 | |].
  - intros m t Ht. destruct (decide (n = m)) as [->|].
    + destruct (E2 m s1) as (s' & ? & ?); [apply lookup_insert_eq | by eauto].
    + apply E2. by rewrite lookup_insert_ne.
  - intros m [->|Hm]%elem_of_cons; [| by apply E3].
    destruct (E2 n s1) as (s' & ? & ?); [apply lookup_insert_eq | by eauto].
Qed.

Lemma closeExits_ok tes c :
  Forall (λ te, ∃ n, te = Some n ∧ is_Some (h_exits (heap c) !! n)) tes →
  ∃ es, closeExits tes c =
    (Ok tt, set_heap (mkHeap (h_conns (heap c)) (h_sess (heap c)) (h_udpconns (heap c))
                        (h_udps (heap c)) es) c).
Proof.
  revert c. induction tes as [|te tes IH]; intros c Hp; cbn [closeExits].
  { exists (h_exits (heap c)). destruct c as [? ? ? ? ? ? ? ? ? ? ? h ? ?]. by destruct h. }
  apply Forall_cons_1 in Hp as [(n & -> & [e He]) Hp]. unfold deref.
  unfold mbind at 1, go_bind at 1, mret, go_ret.
  unfold mbind at 1, go_bind at 1, on_exit. rewrite (on_ok _ _ _ _ _ _ He). cbn [modify fst snd].
  destruct (IH (set_heap (put_exit n (te_Close e) (heap c)) c)) as (es & E).
  { revert Hp. apply Forall_impl. intros te (m & -> & Hm). exists m. split; [done |]. simpl.
    destruct (decide (n = m)) as [->|]; [rewrite lookup_insert_eq; eauto | by rewrite lookup_insert_ne]. }
  exists es. exact E.
Qed.

(** What a UDP listener needs to be closed without a panic. *)
Definition udp_alive (us : UdpSession) (c : Client) : Prop :=
  isListener us = true ∧ present (h_conns (heap c)) ((map_to_list (tcpConns us)).*2) ∧
  (∀ n, udpConn us = Some n → is_Some (h_udpconns (heap c) !! n)).

(** The parts of the client that closing a UDP listener leaves alone. *)
Definition same_core (c c' : Client) : Prop :=
  h_sess (heap c') = h_sess (heap c) ∧ conns_le (h_conns (heap c)) (h_conns (heap c')) ∧
  table c' = table c ∧ exits c' = exits c ∧ isClosed c' = isClosed c ∧ onClose c' = onClose c ∧
  acceptSession c' = acceptSession c.

Lemma sendClose_ok u us c :
  h_udps (heap c) !! u = Some us → udp_alive us c →
  ∃ r cs, Udp.sendCloseMsg u None c = (r, set_conns cs c) ∧ is_panic r = false ∧
    conns_le (h_conns (heap c)) cs.
Proof.
  intros Hu (Hl & Hp & _). unfold Udp.sendCloseMsg.
  destruct (newSessionData_ok MsgType_CLOSE []) as (b & Hb & _);
    [by vm_compute; split; congruence | unfold sized; simpl; lia |].
  rewrite (go_lift_ok _ _ _ _ Hb).
  assert (Udp.getUdp u c = (Ok us, c)) as Hg by (unfold Udp.getUdp, peek, deref; go_unfold; by rewrite Hu).
  rewrite (go_bind_ok _ _ _ _ _ Hg), Hl.
  destruct (writeEach_ok (byte_of HeaderType_SESSION :: b) (omap (λ '(_, usa), tcpConns us !! usa_String usa)
              (map_to_list (sessKeyToSessAddr us))) c) as (cs & E1 & E2).
  { apply Forall_forall. intros n ([k usa] & _ & Hn)%list_elem_of_In%list_elem_of_omap.
    unfold present in Hp. rewrite Forall_forall in Hp. apply Hp, list_elem_of_In, list_elem_of_fmap. exists (usa_String usa, n).
    split; [done | by apply elem_of_map_to_list]. }
  by exists (Ok tt), cs.
Qed.

Lemma established_cases u us c :
  h_udps (heap c) !! u = Some us → (∀ n, udpConn us = Some n → is_Some (h_udpconns (heap c) !! n)) →
  (∃ n x, Udp.GetEstablishedUDPConn u c = (Ok n, c) ∧ h_udpconns (heap c) !! n = Some x) ∨
  ∃ e, Udp.GetEstablishedUDPConn u c = (Err e, c).
Proof.
  intros Hu Hc. unfold Udp.GetEstablishedUDPConn, Udp.getUdp, peek, deref. go_unfold.
  destruct (isClosed c); [by eauto |]. rewrite Hu. destruct (udpConn us) as [n|]; [| by eauto].
  destruct (Hc n eq_refl) as [x Hx]. rewrite Hx. destruct (uc_IsClosed x); by eauto.
Qed.

Lemma UdpClose_ok u us c :
  h_udps (heap c) !! u = Some us → udp_alive us c →
  ∃ r c', Udp.Close u c = (r, c') ∧ is_panic r = false ∧ same_core c c'.
Proof.
  intros Hu Ha. destruct (sendClose_ok u us c Hu Ha) as (r & cs & Hs & Hr & Hle).
  destruct Ha as (Hl & Hp & Hc). unfold Udp.Close.
  assert (∃ o, try (Udp.sendCloseMsg u None) c = (Ok o, set_conns cs c)) as (o & Ho).
  { unfold try. rewrite Hs. destruct r; by eauto. }
  rewrite (go_bind_ok _ _ _ _ _ Ho). set (c1 := set_conns cs c).
  assert (∃ uc, Udp.closeSocket u c1 =
    (Ok tt, set_heap (mkHeap cs (h_sess (heap c)) uc (h_udps (heap c)) (h_exits (heap c))) c)) as (uc & Huc).
  { unfold Udp.closeSocket. destruct (established_cases u us c1 Hu Hc) as [(n & x & E & Hx)|[e E]].
    - rewrite (go_bind_ok _ _ _ _ _ (try_ok _ _ _ _ E)). unfold on_udpconn.
      rewrite (on_ok _ _ _ _ _ _ Hx). by eexists.
    - rewrite (go_bind_ok _ _ _ _ _ (try_err _ _ _ _ E)). by eexists. }
  set (c2 := set_heap _ c) in Huc.
  assert (Udp.getUdp u c2 = (Ok us, c2)) as Hg by (unfold Udp.getUdp, peek, deref; go_unfold; simpl; by rewrite Hu).
  destruct (closeEach_ok ((map_to_list (tcpConns us)).*2) c2) as (cs' & E1 & E2 & _);
    [by apply (present_le (h_conns (heap c))) |].
  assert (∀ f, Udp.updUdp u f (set_conns cs' c2) =
    (Ok tt, set_heap (put_udp u (f us) (heap (set_conns cs' c2))) (set_conns cs' c2))) as Hup.
  { intros f. unfold Udp.updUdp, on_udp. by rewrite (on_ok _ _ _ _ _ us). }
  rewrite (go_bind_ok _ _ _ _ _ Huc). unfold Udp.closeSection. rewrite (go_bind_ok _ _ _ _ _ Hg), Hl.
  rewrite (go_bind_ok _ _ _ _ _ E1), Hup. eexists _, _. split; [done |]. split; [done |].
  split_and!; try done. simpl. by etrans.
Qed.

(** Every pointer the client holds leads to an object. *)
Record alive (c : Client) : Prop := {
  al_sess : present (h_sess (heap c)) ((map_to_list (sessions (table c))).*2);
  al_conns : present (h_conns (heap c)) (all_conns (table c));
  al_exits : Forall (λ te, ∃ n, te = Some n ∧ is_Some (h_exits (heap c) !! n))
               (default [] (tunaExits (exits c)));
  al_udp : ∀ u, listenerUdpSess c = Some u →
    ∃ us, h_udps (heap c) !! u = Some us ∧ udp_alive us c
}.

Lemma all_conns_in t k id n : conn_of t k id = Some n → n ∈ all_conns t.
Proof.
  unfold conn_of, all_conns. destruct (sessionConns t !! k) as [m|] eqn:Ek; [| done]. simpl. intros Hn.
  apply list_elem_of_bind. exists m. split.
  - apply list_elem_of_fmap. exists (id, n). split; [done | by apply elem_of_map_to_list].
  - apply list_elem_of_fmap. exists (k, m). split; [done | by apply elem_of_map_to_list].
Qed.

(** [Close] closes everything, once.  It returns without a panic; afterwards the
    client is closed, every session of the table is closed, every registered connection
    and every listener is closed, the maps are kept, and another [Close] does nothing. *)
Theorem Close_closes c :
  alive c → isClosed c = false → onClose c = false →
  ∃ c', Close c = (Ok tt, c') ∧ isClosed c' = true ∧ onClose c' = true ∧ table c' = table c ∧
    (∀ k sess, sessions (table c) !! k = Some sess →
       ∃ s, h_sess (heap c') !! sess = Some s ∧ ncp_IsClosed s = true) ∧
    (∀ k id n, conn_of (table c) k id = Some n →
       ∃ x, h_conns (heap c') !! n = Some x ∧ conn_closed x = true) ∧
    Forall (λ l, l_closed l = true) (listeners (exits c')) ∧
    Close c' = (Ok tt, c').
Proof.
  intros [H1 H2 H3 H4] Hc Ho. pose proof multiClient_no_panic as Hmc. unfold Close at 1. unfold mbind at 1, go_bind at 1, get. rewrite Hc.
  assert (∃ o, try (lift_res multiClient_Close) c = (Ok o, c)) as (o & Hm).
  { unfold try, lift_res. destruct multiClient_Close; by eauto. }
  rewrite (go_bind_ok _ _ _ _ _ Hm). set (c1 := set_exits (closeListeners (exits c)) c).
  rewrite (go_bind_ok (modify (λ c, set_exits (closeListeners (exits c)) c)) _ c tt c1 eq_refl).
  destruct (closeSessions_ok _ c1 H1) as (ss & E1 & _ & E2). rewrite (go_bind_ok _ _ _ _ _ E1).
  destruct (closeEach_ok _ (set_sesss ss c1) H2) as (cs & E3 & Hle & E4). rewrite (go_bind_ok _ _ _ _ _ E3).
  set (c2 := set_conns cs (set_sesss ss c1)).
  destruct (closeExits_ok _ c2 H3) as (es & E5). rewrite (go_bind_ok _ _ _ _ _ E5).
  set (c3 := set_heap _ c2).
  assert (∃ c4, (match listenerUdpSess c with
    | Some u => try (Udp.Close u);; mret tt | None => mret tt end) c3 = (Ok tt, c4) ∧ same_core c3 c4)
    as (c4 & E6 & (K1 & K2 & K3 & K4 & K5 & K6 & _)).
  { destruct (listenerUdpSess c) as [u|] eqn:Eu; [| by exists c3].
    destruct (H4 u eq_refl) as (us & Hu & (Hl & Hp & Hcn)).
    destruct (UdpClose_ok u us c3) as (r & c4 & E & Hr & Hs); [done | |].
    - split_and!; [done | by apply (present_le (h_conns (heap c))) | done].
    - exists c4. split; [| done]. unfold try, mbind, go_bind. rewrite E. by destruct r. }
  rewrite (go_bind_ok _ _ _ _ _ E6). unfold mbind at 1, go_bind at 1. rewrite K6.
  change (onClose c3) with (onClose c). rewrite Ho. eexists. split; [done |].
  split_and!; try done.
  - intros k sess Hk. cbn [heap set_closed]. rewrite K1. apply E2, list_elem_of_fmap.
    exists (k, sess). split; [done | by apply elem_of_map_to_list].
  - intros k id n Hn. destruct (E4 n (all_conns_in _ _ _ _ Hn)) as (x & Hx & Hxc).
    destruct (K2 n x Hx) as (x' & ? & ?). exists x'. auto.
  - cbn [exits set_closed]. rewrite K4. apply Forall_fmap. by apply Forall_true.
Qed.

(** ** Accepting *)

(** [AcceptSession] returns the first queued session that can be accepted, dropping
    the ones before it; with nothing acceptable queued it waits while the client is open
    and reports that the client is closed afterwards. *)
Theorem AcceptSession_first choice c bad sess rest s s' :
  onClose c = false → acceptSession c = bad ++ sess :: rest → NoDup (bad ++ [sess]) →
  (∀ r, r ∈ bad → ∃ t e, h_sess (heap c) !! r = Some t ∧ (ncp_Accept t).1 = Err e) →
  h_sess (heap c) !! sess = Some s → ncp_Accept s = (Ok tt, s') →
  ∃ c', AcceptSession choice c = (Ok (Some sess), c') ∧ acceptSession c' = rest ∧
    h_sess (heap c') !! sess = Some s' ∧
    AcceptSession choice (set_acceptSession [] (set_closed true true c)) =
      (Err NknErrClosed, set_acceptSession [] (set_closed true true c)) ∧
    AcceptSession choice (set_acceptSession [] c) = (Ok None, set_acceptSession [] c).
Proof.
  intros Ho Hq Hnd Hbad Hs Hacc.
  assert (∃ c', AcceptSession choice c = (Ok (Some sess), c') ∧ acceptSession c' = rest ∧
    h_sess (heap c') !! sess = Some s') as (c' & ? & ? & ?).
  2:{ exists c'. split_and!; try done. unfold AcceptSession, get, mbind, go_bind. simpl.
      unfold mbind, go_bind, get. simpl. by rewrite Ho. }
  unfold AcceptSession, get. unfold mbind, go_bind. rewrite Hq.
  assert (∃ n, S (length (bad ++ sess :: rest)) = S (length bad) + n) as (n & ->).
  { exists (S (length rest)). rewrite length_app. simpl. lia. }
  revert c Ho Hq Hbad Hs. induction bad as [|r bad IH]; intros c Ho Hq Hbad Hs.
  - simpl. unfold mbind, go_bind, get. rewrite Hq, Ho. simpl. unfold modify, try, on_sess.
    rewrite (on_ok _ _ _ _ _ s) by done. rewrite Hacc. cbn. eexists. split_and!; [done.. |].
    apply lookup_insert_eq.
  - inversion Hnd as [|? ? Hr Hnd']; subst.
    destruct (Hbad r) as (t & e & Ht & He); [by left |]. cbn [length Nat.add acceptLoop].
    unfold mbind, go_bind, get. rewrite Hq, Ho. cbn [app andb]. unfold modify, try, on_sess.
    rewrite (on_ok _ _ _ _ _ t) by done. destruct (ncp_Accept t) as [ra t'] eqn:Ea. simpl in He. subst ra.
    cbn [fst snd]. apply IH; try done.
    + intros r' Hr'. destruct (Hbad r') as (t1 & e1 & Ht1 & He1); [by right |]. exists t1, e1.
      split; [| done]. simpl. rewrite lookup_insert_ne; [done |]. intros ->. apply Hr.
      apply elem_of_app. by left.
    + simpl. rewrite lookup_insert_ne; [done |]. intros ->. apply Hr. apply elem_of_app. right. left.
Qed.

End client.

(** ** Runs *)
Module ClientRuns.
Import Demo.

Definition id1 : bytes := [Byte.x61].
Definition nonce1 : bytes := replicate 24 Byte.x07.
Definition msgs1 : list (bytes * bytes) :=
  [(nonce1, string_bytes "one"); (nonce1, string_bytes "two")].

Definition table_with (key id : string) (conn sess : nat) : Table (CO := lib_cache) :=
  mkTable {[key := sess]} {[key := {[id := conn]}]} ∅ cache_New ∅ ∅.

(** A client with one session and one connection. *)
Definition client_with (a peer : string) (conn : Conn) (closed : bool) : Client :=
  set_table (table_with (sessionKey peer id1) (connID 0) 3 5)
    (demo_client a (mkHeap {[3 := conn]} {[5 := mkDemoSession peer closed []]} ∅ ∅ ∅)).

Lemma demo_account a : account_at (BO := lib_box) (toy_sk a) a (copy_array 32 (string_bytes a)).
Proof. apply toy_account. Qed.

Lemma demo_receiver peer conn closed :
  receiver (client_with "bob" peer conn closed) (mkNcpConfig 1300) (toy_sk peer) peer
    (copy_array 32 (string_bytes peer)) (copy_array 32 (string_bytes "bob")).
Proof.
  split; [by vm_compute | apply demo_account | apply (acc_len _ _ _ (demo_account "bob"))
    | apply (acc_curve _ _ _ (demo_account "bob")) | apply cache_ok_empty].
Qed.

Lemma session_end_to_end_witness :
  ∃ cA' x' cB', sendAll "bob" id1 (connID 0) 0 msgs1 (client_with "alice" "bob" (demo_conn []) false) = (Ok tt, cA') ∧
    h_conns (heap cA') !! 3 = Some x' ∧
    handleConn (Some 3) "alice" id1 0 (client_with "bob" "alice" (demo_conn [wr_out x']) false) = (Ok tt, cB') ∧
    h_sess (heap cB') !! 5 =
      Some (mkDemoSession "alice" true [(connID 0, string_bytes "one"); (connID 0, string_bytes "two")]).
Proof.
  destruct (session_end_to_end (client_with "alice" "bob" (demo_conn []) false) id1 (connID 0) 3 (toy_sk "bob") "bob"
    (copy_array 32 (string_bytes "bob")) (demo_conn []) 0 msgs1) as (cA' & x' & H1 & H2 & H3).
  - split; [by vm_compute | apply (acc_len _ _ _ (demo_account "alice")) | apply demo_account | apply cache_ok_empty].
  - by vm_compute.
  - done.
  - done.
  - by repeat constructor.
  - destruct (H3 (client_with "bob" "alice" (demo_conn [wr_out x']) false) (mkNcpConfig 1300) "alice"
      (copy_array 32 (string_bytes "alice")) 3 (demo_conn [wr_out x']) 5 (mkDemoSession "alice" false [])
      (mkDemoSession "alice" false [(connID 0, string_bytes "one"); (connID 0, string_bytes "two")]) 0%Z)
      as (cB' & E1 & E2 & _).
    + apply demo_receiver.
    + repeat constructor; by vm_compute.
    + done.
    + done.
    + apply app_nil_r.
    + by vm_compute.
    + done.
    + done.
    + done.
    + exists cA', x', cB'. split_and!; [done.. |]. etrans; [exact E2 | by vm_compute].
Defined.

Lemma handleConn_loop_terminates_witness :
  (handleLoop 6 3 5 0 (client_with "bob" "alice" (demo_conn [string_bytes "hello"]) false)).1 ≠ Ok false.
Proof. by apply (handleConn_loop_terminates 3 5 0 _ (demo_conn [string_bytes "hello"])). Defined.

Definition picky (conn : Conn) : Client := set_acceptAddrs ["carol"] (client_with "bob" "alice" conn false).

Lemma serveConn_rejects_witness :
  ∃ x', serveConn 0 3 (picky (demo_conn [frame (string_bytes "mallory")])) =
    (Ok tt, set_heap (put_conn 3 x' (heap (picky (demo_conn [frame (string_bytes "mallory")]))))
              (picky (demo_conn [frame (string_bytes "mallory")]))) ∧ conn_closed x' = true.
Proof.
  destruct (serveConn_rejects 0 3 (picky (demo_conn [frame (string_bytes "mallory")]))
    (demo_conn [frame (string_bytes "mallory")]) "mallory" []) as (x' & H1 & H2 & _);
    [done | done | by vm_compute | by vm_compute | by vm_compute | by eauto].
Defined.

Definition attack : Conn := demo_conn [frame (string_bytes "mallory") ++ frame (replicate 30 Byte.x00)].

Lemma serveConn_crash_witness :
  (serveConn 0 3 (client_with "bob" "alice" attack false)).1 = Panic MakeSliceLen.
Proof.
  eapply (serveConn_crash 0 3 (client_with "bob" "alice" attack false) attack "mallory" (replicate 30 Byte.x00) []);
    [done | done | by vm_compute | by vm_compute | by vm_compute | apply cache_ok_empty
    | by vm_compute | by vm_compute | by vm_compute; lia | by vm_compute].
Defined.

Lemma first_message_failure_witness :
  ∃ c', serveTcp 3 "dave" id1 1 (client_with "bob" "alice" (demo_conn []) false) = (Ok tt, c') ∧
    is_Some (sessions (table c') !! sessionKey "dave" id1) ∧ acceptSession c' = [].
Proof.
  destruct (first_message_failure 3 "dave" id1 1 (client_with "bob" "alice" (demo_conn []) false) (mkNcpConfig 1300)
    (mkDemoSession "dave" false []) (demo_conn []) EOF (demo_conn [])) as (c' & H1 & H2 & _ & _ & _ & H5);
    [by vm_compute.. | done | done | by vm_compute | by eauto].
Defined.

Lemma Close_closes_witness :
  ∃ c', Close (client_with "bob" "alice" (demo_conn []) false) = (Ok tt, c') ∧ isClosed c' = true ∧
    Close c' = (Ok tt, c').
Proof.
  destruct (Close_closes (client_with "bob" "alice" (demo_conn []) false)) as (c' & H1 & H2 & _ & _ & _ & _ & _ & H3);
    [split | done | done | by eauto].
  - vm_compute. by repeat constructor; eauto.
  - vm_compute. by repeat constructor; eauto.
  - vm_compute. by repeat constructor; eauto.
  - done.
Defined.

Lemma AcceptSession_first_witness :
  ∃ c', AcceptSession (λ _, true) (set_acceptSession [5] (client_with "bob" "alice" (demo_conn []) false)) =
    (Ok (Some 5), c') ∧ acceptSession c' = [].
Proof.
  destruct (AcceptSession_first (λ _, true) (set_acceptSession [5] (client_with "bob" "alice" (demo_conn []) false))
    [] 5 [] (mkDemoSession "alice" false []) (mkDemoSession "alice" false [])) as (c' & H1 & H2 & _);
    [done | done | apply NoDup_singleton | by intros r ?%not_elem_of_nil | by vm_compute | done | by eauto].
Defined.

End ClientRuns.
