(* ===== verification/Exits.v ===== *)
(** * client.go and udp.go: listeners, tuna exits, and the answers to other clients

    [newTunaExit], [Listen], [startExits], [RotateOne], [RotateAll], [getPubAddrs], the
    handling of one message by [listenNKN], and [ListenUDP] of udp.go. *)

From stdpp Require Import base gmap strings list numbers tactics pretty.
From Stdlib Require Import ZArith Lia Ascii.
From S2P Require Import Prelude Util Message Crypto Pb Config Table Json JsonInv World Udp Client.
Import Keys Client.

Module Exits.
Section exits.
Context `{L : LibOps}.

(** The port the operating system assigns when asked for any. *)
Context (pick : Port.OS → option Z).

Definition set_listeners (ls : list Listener) (e : Exits) : Exits :=
  mkExits ls (tunaExits e) (onConnect e) (e_wallet e) (tunaNode e) (e_os e).
Definition set_tunaExits (tes : option (list (option nat))) (e : Exits) : Exits :=
  mkExits (listeners e) tes (onConnect e) (e_wallet e) (tunaNode e) (e_os e).
Definition set_onConnect (b : bool) (e : Exits) : Exits :=
  mkExits (listeners e) (tunaExits e) b (e_wallet e) (tunaNode e) (e_os e).
Definition set_os (o : Port.OS) (e : Exits) : Exits :=
  mkExits (listeners e) (tunaExits e) (onConnect e) (e_wallet e) (tunaNode e) o.

Definition on_exits {A} (m : go Exits A) : go Client A := zoom exits set_exits m.
Definition on_os {A} (m : go Port.OS A) : go Client A := on_exits (zoom e_os set_os m).

(** ** Exits *)

(** The configuration [newTunaExit] passes on; a nil filter is a nil dereference. *)
Definition exit_config (c : Config) (port : Z) : res exitConfig :=
  match TunaIPFilter c, TunaNknFilter c with
  | Some ipf, Some nkf => Ok {|
      ec_tcp := [uint32_of port]; ec_udp := [uint32_of port];
      ec_maxPrice := TunaMaxPrice c; ec_nanoPayFee := TunaNanoPayFee c;
      ec_minNanoPayFee := TunaMinNanoPayFee c; ec_nanoPayFeeRatio := TunaNanoPayFeeRatio c;
      ec_serviceName := TunaServiceName c; ec_subscriptionPrefix := TunaSubscriptionPrefix c;
      ec_ipFilter := ipf; ec_nknFilter := nkf;
      ec_downloadGeoDB := TunaDownloadGeoDB c; ec_geoDBPath := TunaGeoDBPath c;
      ec_measureBandwidth := TunaMeasureBandwidth c;
      ec_measureStoragePath := TunaMeasureStoragePath c;
      ec_measurementBytes := TunaMeasurementBytesDownLink c;
      ec_dialTimeout := int32_of (Z.quot (TunaDialTimeout c) 1000);
      ec_minBalance := TunaMinBalance c |}
  | _, _ => Panic NilDeref
  end.

Definition errIndex : error := ErrText "index out of range".

(** [newTunaExit]: only the upper end of the index is checked. *)
Definition newTunaExit (i : Z) : go Client nat :=
  c ← get;
  if decide (Z.of_nat (length (listeners (exits c))) ≤ i)%Z then throw errIndex
  else if decide (i < 0)%Z then crash IndexRange
  else
    match listeners (exits c) !! Z.to_nat i with
    | None => crash IndexRange
    | Some l =>
        '(_, port) ← lift_res (Port.addr_port (l_addr l));
        cfg ← lift_res (exit_config (config c) port);
        te ← lift_res (NewTunaExit (e_wallet (exits c)) cfg);
        new_exit te
    end.

(** ** Starting *)

(** The listeners of [startExits]: a free port for each, then the listener on it. *)
Fixpoint openListeners (n : nat) : go Port.OS (list Listener) :=
  match n with
  | 0 => mret []
  | S n =>
      port ← Port.GetFreePort pick 0;
      a ← lift_res (Port.ResolveTCPAddr port);
      '(id, port) ← Port.ListenTCP pick a;
      ls ← openListeners n;
      mret (mkListener id (Port.loopback port) false :: ls)
  end.

(** The exits of [startExits], from index [i] on. *)
Fixpoint openExits (n : nat) (i : Z) : go Client (list (option nat)) :=
  match n with
  | 0 => mret []
  | S n =>
      te ← newTunaExit i;
      c ← get;
      (match tunaNode (exits c) with
       | Some nd => on_exit te (modify (te_SetRemoteNode nd))
       | None => mret tt
       end);;
      spawn (TExitConnected te);;
      spawn (TStartReverse te);;
      tes ← openExits n (i + 1);
      mret (Some te :: tes)
  end.

Definition startExits : go Client unit :=
  c ← get;
  match tunaExits (exits c) with
  | Some (_ :: _) => mret tt
  | _ =>
      let n := NumTunaListeners (config c) in
      if decide (n < 0)%Z then crash MakeSliceLen
      else
        ls ← on_os (openListeners (Z.to_nat n));
        on_exits (modify (set_listeners ls));;
        tes ← openExits (Z.to_nat n) 0;
        on_exits (modify (set_tunaExits (Some tes)));;
        spawn (TListenWhenConnected (length ls))
  end.

(** The goroutines [startExits] starts: the first exit that connects closes the channel
    [onConnect]; then the listening goroutines start. *)
Definition exitConnected : go Client unit := on_exits (modify (set_onConnect true)).

Fixpoint spawnAll (ts : list task) : go Client unit :=
  match ts with [] => mret tt | t :: ts => spawn t;; spawnAll ts end.

Definition listenWhenConnected (n : nat) : go Client unit :=
  spawn TListenNKN;; spawnAll ((λ i, TListenNet (Z.of_nat i)) <$> seq 0 n).

Definition Listen (addrsRe : option (list string)) : go Client unit :=
  acceptAddrs ← lift_res (getAcceptAddrs addrsRe);
  modify (set_acceptAddrs acceptAddrs);;
  c ← get;
  match listeners (exits c) with
  | _ :: _ => mret tt
  | [] =>
      match e_wallet (exits c) with
      | None => throw (ErrText "wallet is empty")
      | Some _ => startExits
      end
  end.

Definition OnConnect (c : Client) : bool := onConnect (exits c).

(** ** Rotating *)

(** [RotateOne]: the new exit, and the section that puts it in place of the old one. *)
Definition rotateStart (i : Z) : go Client nat :=
  te ← newTunaExit i;
  spawn (TStartReverse te);;
  mret te.

Definition rotateSwap (i : Z) (te : nat) : go Client unit :=
  c ← get;
  let tes := default [] (tunaExits (exits c)) in
  match tes !! Z.to_nat i with
  | None => crash IndexRange
  | Some oldTe =>
      on_exits (modify (set_tunaExits (Some (<[Z.to_nat i := Some te]> tes))));;
      match oldTe with
      | None => mret tt
      | Some old => on_exit old (modify (te_SetLinger (-1)));; spawn (TExitClose old)
      end
  end.

(** The new exit is taken to connect (the code waits for it). *)
Definition RotateOne (i : Z) : go Client unit :=
  te ← rotateStart i; rotateSwap i te.

Fixpoint rotateFrom (n : nat) (i : Z) : go Client unit :=
  match n with
  | 0 => mret tt
  | S n => RotateOne i;; rotateFrom n (i + 1)
  end.

Definition RotateAll : go Client unit :=
  c ← get; rotateFrom (length (listeners (exits c))) 0.

(** ** Public addresses *)

Fixpoint exitAddrs (includePrice : bool) (tes : list (option nat)) : go Client (list (option PubAddr)) :=
  match tes with
  | [] => mret []
  | te :: tes =>
      te ← deref te;
      e ← peek h_exits te;
      let ip := te_GetReverseIP e in
      let a :=
        match te_GetReverseTCPPorts e with
        | port :: _ =>
            if decide (ip = "") then mkPubAddr "" 0 "" ""
            else if includePrice
                 then mkPubAddr ip port (te_GetPrice e).1 (te_GetPrice e).2
                 else mkPubAddr ip port "" ""
        | [] => mkPubAddr "" 0 "" ""
        end in
      rest ← exitAddrs includePrice tes;
      mret (Some a :: rest)
  end.

Definition getPubAddrs (includePrice : bool) : go Client (option PubAddrs) :=
  c ← get;
  match tunaExits (exits c) with
  | None => mret None
  | Some tes => addrs ← exitAddrs includePrice tes; mret (Some (mkPubAddrs addrs false))
  end.

Definition GetPubAddrs : go Client (option PubAddrs) := getPubAddrs true.

(** ** Requests of other clients *)

Definition ActionGetPubAddr : string := "getPubAddr".

(** [strings.ToLower] on ASCII letters; no other character lowers to a letter of the
    action it is compared with. *)
Definition lower_char (a : ascii) : ascii :=
  let n := nat_of_ascii a in
  if decide (65 ≤ n ≤ 90) then ascii_of_nat (n + 32) else a.
Fixpoint ToLower (s : string) : string :=
  match s with EmptyString => EmptyString | String a s => String (lower_char a) (ToLower s) end.

(** [listenNKN], one message: the reply it sends, if any. *)
Definition handleRequest (src : string) (data : bytes) : go Client (option bytes) :=
  c ← get;
  if negb (shouldAcceptAddr c src) then mret None
  else
    r ← try (lift_res (UnmarshalRequest data));
    match r with
    | inr _ => mret None
    | inl req =>
        if decide (ToLower (Action req) = ToLower ActionGetPubAddr) then
          let sessKey := sessionKey src (SessionID req) in
          pubAddrs ← (if IsSessClosed sessKey c then mret (Some (mkPubAddrs [] true))
                      else getPubAddrs false);
          r ← try (lift_res (MarshalPubAddrs pubAddrs));
          mret (match r with inl buf => Some buf | inr _ => None end)
        else mret None
    end.

(** [listenNKN] over the messages that arrive until the channel is closed: the replies it
    sends, with the client each goes to. *)
Fixpoint listenNKN (msgs : list (string * bytes)) : go Client (list (string * bytes)) :=
  match msgs with
  | [] => mret []
  | (src, data) :: msgs =>
      reply ← handleRequest src data;
      replies ← listenNKN msgs;
      mret (match reply with Some buf => (src, buf) :: replies | None => replies end)
  end.

(** ** udp.go: listening *)

Definition ListenUDP : go Client nat :=
  c ← get;
  match listeners (exits c) with
  | [] => throw (ErrText "please call Listen() to start TCP first")
  | _ =>
      match listenerUdpSess c with
      | Some u => mret u
      | None =>
          u ← Udp.newUdpSession true;
          modify (set_udp (Some u));;
          startExits;;
          c ← get;
          match listeners (exits c) with
          | [] => crash IndexRange
          | l :: _ =>
              '(host, port) ← lift_res (Port.addr_port (l_addr l));
              x ← lift_res (net_ListenUDP host port);
              uc ← new_udpconn x;
              Udp.updUdp u (λ us, Udp.set_dialer (Some uc) (tcpConn us) (peer us) us);;
              spawn (TRecvMsg u);;
              mret u
          end
      end
  end.

End exits.
End Exits.
