(* ===== verification/ExitsInv.v ===== *)
(** * Properties of the listeners and exits *)

From stdpp Require Import base gmap strings list numbers tactics.
From Stdlib Require Import ZArith Lia.
From S2P Require Import Prelude Util Message Crypto Pb Config Table Json JsonInv World Demo Udp Client Exits.
Import Keys Client Exits.

Section exits.
Context `{L : LibOps}.
Context (pick : Port.OS → option Z)
  (Hpick : ∀ o p, pick o = Some p → (0 < p ≤ Port.maxPort)%Z ∧ ¬ Port.tcp_busy o p).

(** ** Listeners *)

(** What [openListeners] leaves in the system: each listener is bound to its own port. *)
Record bound (o o' : Port.OS) (ls : list Listener) (ports : list Z) : Prop := {
  bd_addr : Forall2 (λ l p, l_addr l = Port.loopback p ∧
                            Port.tcp_listeners o' !! l_id l = Some p ∧ l_closed l = false) ls ports;
  bd_nodup : NoDup ports;
  bd_free : Forall (λ p, (0 < p ≤ Port.maxPort)%Z ∧ ¬ Port.tcp_busy o p) ports;
  bd_kept : Port.tcp_listeners o ⊆ Port.tcp_listeners o'
}.

Lemma openListeners_bound n o ls o' :
  openListeners pick n o = (Ok ls, o') → length ls = n ∧ ∃ ports, bound o o' ls ports.
Proof.
  revert o ls. induction n as [|n IH]; intros o ls H; cbn [openListeners] in H.
  { injection H as <- <-. split; [done |]. exists []. split; [constructor.. | done]. }
  destruct (Port.GetFreePort_result pick Hpick 0 o) as (r & Hg & _ & Hok).
  apply go_bind_inv_ok in H as (p & o1 & H1 & H). rewrite Hg in H1. injection H1 as -> <-.
  destruct (Hok p eq_refl) as (Hp & Hb & _ & _).
  unfold Port.ResolveTCPAddr in H. rewrite decide_True in H by lia. rewrite (go_lift_ok _ _ _ p) in H by done.
  apply go_bind_inv_ok in H as ([id q] & o2 & H2 & H).
  apply Port.ListenTCP_ok in H2 as (Hid & Hq & -> & Hport); [| intros; by apply Hpick].
  destruct Hport as [[? _]|[_ ->]]; [lia |].
  apply go_bind_inv_ok in H as (ls' & o3 & H3 & H). injection H as <- <-.
  destruct (IH _ _ H3) as (Hl & ports & [B1 B2 B3 B4]). simpl in *.
  assert (Port.tcp_listeners o3 !! id = Some p) as Hbound.
  { eapply lookup_weaken; [| exact B4]. apply lookup_insert_eq. }
  split; [simpl; lia |]. exists (p :: ports). split.
  - constructor; [done | exact B1].
  - constructor; [| done]. intros Hin. rewrite Forall_forall in B3.
    destruct (B3 p) as [_ Hnb]; [by apply list_elem_of_In |]. apply Hnb. exists id. apply lookup_insert_eq.
  - constructor; [done |]. revert B3. apply Forall_impl. intros r' [? Hnb]. split; [done |].
    intros [id' Hid']. apply Hnb. exists id'. simpl. rewrite lookup_insert_ne; [done |]. congruence.
  - etrans; [| exact B4]. by apply insert_subseteq.
Qed.

(** ** Exits *)

(** What a successful [newTunaExit] did: a new exit for the port of its listener. *)
Lemma newTunaExit_inv i c te c' :
  newTunaExit i c = (Ok te, c') →
  ∃ l host port cfg e, (0 ≤ i)%Z ∧ listeners (exits c) !! Z.to_nat i = Some l ∧
    Port.addr_port (l_addr l) = Ok (host, port) ∧ exit_config (config c) port = Ok cfg ∧
    NewTunaExit (e_wallet (exits c)) cfg = Ok e ∧ h_exits (heap c) !! te = None ∧
    c' = set_heap (put_exit te e (heap c)) c.
Proof.
  intros H. unfold newTunaExit, get in H. unfold mbind at 1, go_bind at 1 in H.
  case_decide; [done |]. case_decide; [done |].
  destruct (listeners (exits c) !! Z.to_nat i) as [l|] eqn:El; [| done].
  unfold lift_res, mbind, go_bind in H.
  destruct (Port.addr_port (l_addr l)) as [[host port]| |] eqn:Ea; [| done..].
  destruct (exit_config (config c) port) as [cfg| |] eqn:Ec; [| done..].
  destruct (NewTunaExit _ cfg) as [e| |] eqn:En; [| done..]. injection H as <- <-.
  exists l, host, port, cfg, e. split_and!; try done; [lia |]. apply not_elem_of_dom, is_fresh.
Qed.

Lemma newTunaExit_err i c e c' : newTunaExit i c = (Err e, c') → c' = c.
Proof.
  intros H. unfold newTunaExit, get in H. unfold mbind at 1, go_bind at 1 in H.
  case_decide; [by injection H as _ <- |]. case_decide; [done |].
  destruct (listeners (exits c) !! Z.to_nat i) as [l|]; [| done].
  unfold lift_res, mbind, go_bind in H.
  destruct (Port.addr_port (l_addr l)) as [[host port]|e'|p]; [| by injection H as _ <- | done].
  destruct (exit_config (config c) port) as [cfg|e'|p]; [| by injection H as _ <- | done].
  destruct (NewTunaExit _ cfg) as [e1|e'|p]; [done | by injection H as _ <- | done].
Qed.

(** A panic of [newTunaExit]: a negative index, a nil filter, or the library's own. *)
Lemma newTunaExit_panic i c p c' :
  newTunaExit i c = (Panic p, c') →
  c' = c ∧ ((i < 0)%Z ∨ TunaIPFilter (config c) = None ∨ TunaNknFilter (config c) = None ∨
            ∃ cfg, NewTunaExit (e_wallet (exits c)) cfg = Panic p).
Proof.
  intros H. unfold newTunaExit, get in H. unfold mbind at 1, go_bind at 1 in H.
  case_decide as Hi; [done |]. case_decide; [injection H as <- <-; auto |].
  destruct (listeners (exits c) !! Z.to_nat i) as [l|] eqn:El; [| apply lookup_ge_None in El; lia].
  unfold lift_res, mbind, go_bind in H. pose proof (Port.addr_port_no_panic (l_addr l)) as Ha.
  destruct (Port.addr_port (l_addr l)) as [[host port]| |]; [| done..].
  unfold exit_config in H.
  destruct (TunaIPFilter (config c)); [| injection H as <- <-; auto].
  destruct (TunaNknFilter (config c)); [| injection H as <- <-; auto].
  destruct (NewTunaExit _ _) eqn:En; [done.. |]. injection H as <- <-. split; [done |]. eauto.
Qed.

Definition with_node (n : option node) (e : tunaExit) : tunaExit :=
  match n with Some nd => te_SetRemoteNode nd e | None => e end.

(** The exit at an index serves the port of the listener at that index. *)
Definition serves (c : Client) (i : nat) (hs : gmap nat tunaExit) (ote : option nat) : Prop :=
  ∃ te l host port cfg e, ote = Some te ∧ listeners (exits c) !! i = Some l ∧
    Port.addr_port (l_addr l) = Ok (host, port) ∧ exit_config (config c) port = Ok cfg ∧
    NewTunaExit (e_wallet (exits c)) cfg = Ok e ∧ hs !! te = Some (with_node (tunaNode (exits c)) e).

Lemma openExits_ok n i c tes c' :
  openExits n i c = (Ok tes, c') → (0 ≤ i)%Z →
  length tes = n ∧ exits c' = exits c ∧ h_exits (heap c) ⊆ h_exits (heap c') ∧
  ∀ j ote, tes !! j = Some ote → serves c (Z.to_nat i + j) (h_exits (heap c')) ote.
Proof.
  revert i c tes. induction n as [|n IH]; intros i c tes H Hi; cbn [openExits] in H.
  { injection H as <- <-. by split_and!. }
  apply go_bind_inv_ok in H as (te & c1 & H1 & H).
  apply newTunaExit_inv in H1 as (l & host & port & cfg & e & _ & El & Ea & Ec & En & Hf & ->).
  apply go_bind_inv_ok in H as (? & ? & [= <- <-] & H).
  set (c1 := set_heap (put_exit te e (heap c)) c) in *.
  assert (∃ c2, (match tunaNode (exits c1) with
    | Some nd => on_exit te (modify (te_SetRemoteNode nd)) | None => mret tt end) c1 = (Ok tt, c2) ∧
    exits c2 = exits c ∧ config c2 = config c ∧
    h_exits (heap c2) = <[te := with_node (tunaNode (exits c)) e]> (h_exits (heap c))) as (c2 & H2 & X1 & X2 & X3).
  { simpl. destruct (tunaNode (exits c)) as [nd|]; [| by exists c1]. unfold on_exit.
    rewrite (on_ok _ _ _ _ _ e) by apply lookup_insert_eq. eexists. split; [done |]. simpl.
    by rewrite insert_insert_eq. }
  rewrite (go_bind_ok _ _ _ _ _ H2) in H. unfold spawn, modify in H.
  do 2 (unfold mbind at 1, go_bind at 1 in H).
  apply go_bind_inv_ok in H as (tes' & c3 & H3 & H). injection H as <- <-.
  destruct (IH _ _ _ H3) as (Hl & Ex & Hsub & Hs); [lia |]. simpl in *.
  split_and!; [lia | by rewrite Ex | |].
  - etrans; [| exact Hsub]. rewrite X3. by apply insert_subseteq.
  - intros [|j] ote Hj; simpl in Hj.
    + simplify_eq. rewrite Nat.add_0_r. exists te, l, host, port, cfg, e. split_and!; try done.
      eapply lookup_weaken; [| exact Hsub]. rewrite X3. apply lookup_insert_eq.
    + destruct (Hs j ote Hj) as (te' & l' & host' & port' & cfg' & e' & Hv). unfold serves. simpl in Hv.
      rewrite X1, X2 in Hv. replace (Z.to_nat i + S j) with (Z.to_nat (i + 1) + j) by lia. naive_solver.
Qed.

(** C27: what listening sets up.  When [startExits] of a client without exits succeeds,
    the client has the configured number of listeners, on as many different ports that
    were free, all bound now; and as many exits, the i-th configured to forward TCP and
    UDP to the port of the i-th listener. *)
Theorem startExits_ok c c' :
  tunaExits (exits c) = None → startExits pick c = (Ok tt, c') →
  ∃ ports tes, bound (e_os (exits c)) (e_os (exits c')) (listeners (exits c')) ports ∧
    Z.of_nat (length ports) = NumTunaListeners (config c) ∧
    tunaExits (exits c') = Some tes ∧ length tes = length ports ∧
    ∀ j ote p, tes !! j = Some ote → ports !! j = Some p →
      ∃ te cfg e, ote = Some te ∧ exit_config (config c) p = Ok cfg ∧ ec_tcp cfg = [p] ∧ ec_udp cfg = [p] ∧
        NewTunaExit (e_wallet (exits c)) cfg = Ok e ∧
        h_exits (heap c') !! te = Some (with_node (tunaNode (exits c)) e).
Proof.
  intros Hn H. unfold startExits, get in H. unfold mbind at 1, go_bind at 1 in H. rewrite Hn in H.
  case_decide as Hneg; [done |].
  apply go_bind_inv_ok in H as (ls & c1 & H1 & H). unfold on_os, on_exits, zoom in H1.
  destruct (openListeners pick _ (e_os (exits c))) as [r o'] eqn:Eo. injection H1 as -> <-.
  apply openListeners_bound in Eo as (Hl & ports & HB).
  unfold on_exits, zoom, modify in H. unfold mbind at 1, go_bind at 1 in H.
  apply go_bind_inv_ok in H as (tes & c2 & H2 & H).
  apply openExits_ok in H2 as (Hlt & Ex & _ & Hs); [| lia].
  unfold spawn, modify, mbind, go_bind in H. injection H as <-. simpl in *. rewrite Ex. simpl.
  destruct HB as [B1 B2 B3 B4]. pose proof (Forall2_length B1) as Hlp.
  exists ports, tes. split_and!; [by split | lia | done | lia |].
  intros j ote p Hj Hp. destruct (Hs j ote Hj) as (te & l & host & port & cfg & e & -> & El & Ea & Ec & En & Hh).
  simpl in *. destruct (Forall2_lookup_r _ _ _ _ _ B1 Hp) as (l' & El' & Hla & _).
  rewrite El in El'. simplify_eq. rewrite Hla in Ea.
  assert (0 < p ≤ Port.maxPort)%Z as Hpr.
  { rewrite Forall_lookup in B3. by destruct (B3 _ _ Hp). }
  rewrite Port.addr_port_loopback in Ea by lia. simplify_eq. exists te, cfg, e. split_and!; try done;
    unfold exit_config in Ec; destruct (TunaIPFilter (config c)), (TunaNknFilter (config c)); simplify_eq/=;
    (by rewrite uint32_of_small by (unfold Port.maxPort in *; lia)).
Qed.


Lemma newTunaExit_fails c l p e ipf nkf :
  head (listeners (exits c)) = Some l → l_addr l = Port.loopback p → (0 ≤ p ≤ Port.maxPort)%Z →
  TunaIPFilter (config c) = Some ipf → TunaNknFilter (config c) = Some nkf →
  (∀ cfg, NewTunaExit (e_wallet (exits c)) cfg = Err e) → newTunaExit 0 c = (Err e, c).
Proof.
  intros Hl Hla Hp Hip Hnk Hnew. unfold newTunaExit, get. unfold mbind at 1, go_bind at 1.
  destruct (listeners (exits c)) as [|l' ls]; [done |]. injection Hl as ->.
  rewrite decide_False by (simpl; lia). rewrite decide_False by lia.
  change ((l :: ls) !! Z.to_nat 0) with (Some l). cbn iota. rewrite Hla, (go_lift_ok _ _ _ ("127.0.0.1", p)) by by apply Port.addr_port_loopback.
  unfold exit_config. rewrite Hip, Hnk. unfold lift_res, mbind, go_bind. by rewrite Hnew.
Qed.

(** A failed start is reported only once.  When the exits cannot be created after
    the listeners were opened, [Listen] returns the error, but the listeners stay and a
    second [Listen] reports success, with no exit at all. *)
Theorem Listen_after_failure addrsRe res c ls o' n e :
  getAcceptAddrs addrsRe = Ok res → is_Some (e_wallet (exits c)) →
  listeners (exits c) = [] → tunaExits (exits c) = None → NumTunaListeners (config c) = Z.of_nat (S n) →
  openListeners pick (S n) (e_os (exits c)) = (Ok ls, o') →
  is_Some (TunaIPFilter (config c)) → is_Some (TunaNknFilter (config c)) →
  (∀ cfg, NewTunaExit (e_wallet (exits c)) cfg = Err e) →
  ∃ c1, Listen pick addrsRe c = (Err e, c1) ∧ Listen pick addrsRe c1 = (Ok tt, c1) ∧
    listeners (exits c1) = ls ∧ tunaExits (exits c1) = None.
Proof.
  intros Hre [w Hw] Hl Ht Hnum Ho [ipf Hip] [nkf Hnk] Hnew.
  set (c0 := set_acceptAddrs res c). set (c1 := set_exits (set_listeners ls (set_os o' (exits c))) c0).
  destruct (openListeners_bound _ _ _ _ Ho) as (Hlen & ports & [B1 _ B3 _]).
  destruct ls as [|l ls]; [done |]. destruct ports as [|p ports]; [by inversion B1 |].
  inversion B1 as [|? ? ? ? [Hla _] _]; subst. apply Forall_cons_1 in B3 as [[Hp _] _].
  exists c1. split_and!; [| | done | done].
  - unfold Listen. rewrite (go_lift_ok _ _ _ _ Hre). unfold modify, get.
    do 2 (unfold mbind at 1, go_bind at 1). fold c0. change (listeners (exits c0)) with (listeners (exits c)).
    rewrite Hl. change (e_wallet (exits c0)) with (e_wallet (exits c)). rewrite Hw.
    unfold startExits, get. unfold mbind at 1, go_bind at 1.
    change (tunaExits (exits c0)) with (tunaExits (exits c)). rewrite Ht.
    change (config c0) with (config c). rewrite Hnum, decide_False by lia. rewrite Nat2Z.id.
    unfold on_os, on_exits, zoom, modify. unfold mbind at 1, go_bind at 1.
    change (e_os (exits c0)) with (e_os (exits c)). rewrite Ho. unfold mbind at 1, go_bind at 1.
    fold c1. cbn [openExits]. unfold mbind at 1, go_bind at 1.
    by rewrite (go_bind_err _ _ _ _ _ (newTunaExit_fails c1 l p e ipf nkf eq_refl Hla ltac:(lia) Hip Hnk Hnew)).
  - unfold Listen. rewrite (go_lift_ok _ _ _ _ Hre). by unfold modify, get, mbind, go_bind.
Qed.

End exits.

(** ** Runs *)
Module ExitsRuns.
Import Demo.

(** A system that assigns one of two ports. *)
Definition pick2 (o : Port.OS) : option Z :=
  if decide (Port.tcp_busy o 40000) then
    if decide (Port.tcp_busy o 40001) then None else Some 40001%Z
  else Some 40000%Z.

Lemma pick2_ok o p : pick2 o = Some p → (0 < p ≤ Port.maxPort)%Z ∧ ¬ Port.tcp_busy o p.
Proof. unfold pick2, Port.maxPort. intros H. repeat case_decide; simplify_eq; (split; [lia | done]). Qed.

Definition fresh_client (rich : bool) : Client :=
  set_exits (mkExits (L := demo_ops) [] None false (Some rich) None (Port.mkOS ∅ ∅))
    (demo_client "bob" (mkHeap ∅ ∅ ∅ ∅ ∅)).

Definition anyone : list (@regexp (@lib_regexp demo_ops)) := [""].

Definition started : Client := (startExits pick2 (fresh_client true)).2.

Lemma started_run : startExits pick2 (fresh_client true) = (Ok tt, started).
Proof.
  unfold started. assert ((startExits pick2 (fresh_client true)).1 = Ok tt) as H by (vm_compute; reflexivity).
  destruct (startExits pick2 (fresh_client true)) as [r c]. simpl in *. by subst.
Qed.

Lemma startExits_ok_witness :
  ∃ ports tes, bound (Port.mkOS ∅ ∅) (e_os (exits started)) (listeners (exits started)) ports ∧
    Z.of_nat (length ports) = 2%Z ∧ tunaExits (exits started) = Some tes ∧ length tes = length ports.
Proof.
  destruct (startExits_ok pick2 pick2_ok (fresh_client true) started eq_refl started_run)
    as (ports & tes & H1 & H2 & H3 & H4 & _).
  exists ports, tes. split; [exact H1 |]. split; [exact H2 |]. by split.
Defined.


Lemma Listen_after_failure_witness :
  ∃ c1, Listen pick2 None (fresh_client false) = (Err (ErrExt 9), c1) ∧ Listen pick2 None c1 = (Ok tt, c1) ∧
    tunaExits (exits c1) = None.
Proof.
  destruct (openListeners pick2 2 (Port.mkOS ∅ ∅)) as [[ls| |] o'] eqn:E; [| by vm_compute in E..].
  destruct (Listen_after_failure pick2 pick2_ok None anyone (fresh_client false) ls o' 1 (ErrExt 9))
    as (c1 & H1 & H2 & _ & H3);
    [reflexivity | by eexists | reflexivity | reflexivity | reflexivity | exact E | by eexists | by eexists
    | reflexivity | by eauto].
Defined.

End ExitsRuns.
