(* ===== verification/Remote.v ===== *)
(** * client.go, [getPubAddrsFromRemote]: asking another client for its addresses

    Three goroutines send the same request, the later ones after a delay; the first
    answer wins and cancels the others.  [Race] is their interleaving; [Remote] the whole
    function around it, with the outcome of the race as an argument. *)

From stdpp Require Import base gmap strings list numbers tactics relations.
From Stdlib Require Import ZArith Lia.
From S2P Require Import Prelude Util Message Crypto Pb Config Table Json JsonInv JsonText World Demo Udp Client Exits ExitsInv.
Import Keys Client Exits.

Module Race.

(** Where a goroutine is: before its timer, before [Send], waiting for the answer, between
    the send on [msgChan] and [doneCancel], finished. *)
Inductive pc := PSleep | PSend | PWait | PGot | PDone.

#[global] Instance pc_eq_dec : EqDecision pc.
Proof. solve_decision. Defined.

(** An answer; [None] is the nil message of a closed channel. *)
Definition answer : Type := option bytes.

Record state := mkR {
  r_pcs : list pc;
  r_msg : option answer;        (* msgChan, capacity 1 *)
  r_err : option error;         (* errChan, capacity 1 *)
  r_done : bool;                (* doneCtx is cancelled *)
  r_parent : option error       (* ctx.Err() *)
}.

Definition start : state := mkR [PSleep; PSleep; PSleep] None None false None.

(** [select { case ch <- v: default: }] on a channel of capacity 1. *)
Definition offer {A} (ch : option A) (v : A) : option A := match ch with None => Some v | _ => ch end.

Inductive step : state → state → Prop :=
  | st_parent ps m e d err :
      step (mkR ps m e d None) (mkR ps m e true (Some err))
  | st_timer l1 l2 m e d p :
      step (mkR (l1 ++ PSleep :: l2) m e d p) (mkR (l1 ++ PSend :: l2) m e d p)
  | st_sleep_done l1 l2 m e p :
      step (mkR (l1 ++ PSleep :: l2) m e true p) (mkR (l1 ++ PDone :: l2) m e true p)
  | st_send_err l1 l2 m e d p err :
      step (mkR (l1 ++ PSend :: l2) m e d p) (mkR (l1 ++ PDone :: l2) m (offer e err) d p)
  | st_send_ok l1 l2 m e d p :
      step (mkR (l1 ++ PSend :: l2) m e d p) (mkR (l1 ++ PWait :: l2) m e d p)
  | st_answer l1 l2 m e d p a :
      step (mkR (l1 ++ PWait :: l2) m e d p) (mkR (l1 ++ PGot :: l2) (offer m a) e d p)
  | st_cancel l1 l2 m e d p :
      step (mkR (l1 ++ PGot :: l2) m e d p) (mkR (l1 ++ PDone :: l2) m e true p)
  | st_wait_done l1 l2 m e p :
      step (mkR (l1 ++ PWait :: l2) m e true p) (mkR (l1 ++ PDone :: l2) m e true p).

(** [wg.Wait()] is over. *)
Definition finished (s : state) : Prop := Forall (eq PDone) (r_pcs s).

(** What the function reads from the two channels and [ctx.Err()] then; [ONil] would be a
    nil result with a nil error. *)
Inductive outcome := OMsg (a : answer) | OErr (e : error) | ONil.

Definition result (s : state) : outcome :=
  match r_msg s, r_err s, r_parent s with
  | Some a, _, _ => OMsg a
  | None, Some e, _ => OErr e
  | None, None, Some e => OErr e
  | None, None, None => ONil
  end.

(** ** Invariants *)

Record inv (s : state) : Prop := {
  inv_got : PGot ∈ r_pcs s → is_Some (r_msg s);
  inv_done : r_done s = true → is_Some (r_msg s) ∨ is_Some (r_parent s);
  inv_pc : PDone ∈ r_pcs s → is_Some (r_err s) ∨ is_Some (r_msg s) ∨ is_Some (r_parent s);
  inv_len : length (r_pcs s) = 3
}.

Lemma offer_some {A} (ch : option A) v : is_Some (offer ch v).
Proof. destruct ch; simpl; eauto. Qed.

Lemma offer_keep {A} (ch : option A) v : is_Some ch → offer ch v = ch.
Proof. by intros [x ->]. Qed.

Lemma elem_swap {A} (x y z : A) l1 l2 : z ∈ l1 ++ x :: l2 → z = x ∨ z ∈ l1 ++ y :: l2.
Proof. rewrite !elem_of_app, !elem_of_cons. tauto. Qed.

Lemma length_swap {A} (x y : A) l1 l2 : length (l1 ++ x :: l2) = length (l1 ++ y :: l2).
Proof. by rewrite !length_app. Qed.

Lemma inv_swap old new l1 l2 m e d p m' e' d' :
  inv (mkR (l1 ++ old :: l2) m e d p) →
  (is_Some m → is_Some m') → (is_Some e → is_Some e') →
  (new = PGot → is_Some m') → (d' = true → is_Some m' ∨ is_Some p) →
  (new = PDone → is_Some e' ∨ is_Some m' ∨ is_Some p) →
  inv (mkR (l1 ++ new :: l2) m' e' d' p).
Proof.
  intros [I1 I2 I3 I4] Hm He Hg Hd Hn. simpl in *. split; simpl; [| done | |].
  - intros [E|H]%(elem_swap _ old); [by apply Hg | by auto].
  - intros [E|H]%(elem_swap _ old); [by apply Hn |]. destruct (I3 H) as [?|[?|?]]; auto.
  - by rewrite (length_swap _ old).
Qed.

Lemma inv_step s s' : inv s → step s s' → inv s'.
Proof.
  intros I Hs. pose proof I as [I1 I2 I3 I4]. destruct Hs; simpl in *.
  - split; simpl; [done | by right; eauto | by right; right; eauto | done].
  - by eapply inv_swap.
  - eapply inv_swap; try done. intros _. destruct (I2 eq_refl); auto.
  - eapply inv_swap; try done; [by intros; apply offer_some | by left; apply offer_some].
  - by eapply inv_swap.
  - eapply inv_swap; try done; [by intros; apply offer_some.. | by left; apply offer_some].
  - assert (is_Some m) by (apply I1, elem_of_app; right; left). eapply inv_swap; try done; auto.
  - eapply inv_swap; try done. intros _. destruct (I2 eq_refl); auto.
Qed.

Lemma reachable_inv s : rtc step start s → inv s.
Proof.
  intros Hs. assert (inv start) as H0.
  { split; simpl; [| done | | done]; intros H; by repeat (apply elem_of_cons in H as [?|H]; [done |]);
      apply not_elem_of_nil in H. }
  revert H0. induction Hs; eauto using inv_step.
Qed.

(** C23: [getPubAddrsFromRemote] never ends with neither an answer nor an error.  However
    the three goroutines, the answers and the end of the context interleave, once all
    goroutines are done the function has an answer or an error to return. *)
Theorem race_never_nil s : rtc step start s → finished s → result s ≠ ONil.
Proof.
  intros [_ _ I3 I4]%reachable_inv Hf. unfold finished in Hf.
  assert (PDone ∈ r_pcs s) as Hd.
  { destruct (r_pcs s) as [|q ps]; [done |]. apply Forall_cons_1 in Hf as [<- _]. left. }
  unfold result. destruct (I3 Hd) as [[x ->]|[[x ->]|[x ->]]]; by repeat case_match.
Qed.

(** The first answer wins.  An answer that has arrived is never replaced, and when
    an answer has arrived it is the result, whatever errors other attempts report. *)
Theorem race_first_answer s s' a :
  r_msg s = Some a → rtc step s s' → r_msg s' = Some a ∧ result s' = OMsg a.
Proof.
  intros Hm Hs. assert (r_msg s' = Some a) as Hm'.
  { induction Hs as [|x y z Hxy _ IH]; [done |]. apply IH. destruct Hxy; simpl in *; subst; done. }
  split; [done |]. unfold result. by rewrite Hm'.
Qed.

(** *** Termination *)

Definition rank (p : pc) : nat :=
  match p with PSleep => 4 | PSend => 3 | PWait => 2 | PGot => 1 | PDone => 0 end.

Definition ranks (ps : list pc) : nat := foldr (λ p n, rank p + n) 0 ps.

Definition measure (s : state) : nat := ranks (r_pcs s) + (match r_parent s with Some _ => 0 | None => 1 end).

Lemma ranks_middle l1 p l2 : ranks (l1 ++ p :: l2) = rank p + ranks (l1 ++ l2).
Proof. induction l1 as [|q l1 IH]; simpl; [done |]. rewrite IH. lia. Qed.

Lemma step_measure s s' : step s s' → measure s' < measure s.
Proof. destruct 1; unfold measure; simpl; rewrite ?ranks_middle; simpl; lia. Qed.

(** C24: the race ends.  No run has more than 13 steps, and once the context is over
    (its timeout, or a cancelled session) a run that is not finished can go on without
    any answer arriving: [wg.Wait] returns. *)
Theorem race_terminates n s :
  nsteps step n start s →
  n ≤ 13 ∧ (is_Some (r_parent s) → ¬ finished s → ∃ s', step s s' ∧ r_msg s' = r_msg s).
Proof.
  intros Hn. split.
  - assert (∀ x, nsteps step n x s → n + measure s ≤ measure x) as H.
    { clear Hn. induction n as [|n IH]; intros x Hx; inversion Hx as [|? ? y ? Hs Hy]; subst; [simpl; lia |].
      apply step_measure in Hs. apply IH in Hy. lia. }
    apply H in Hn. unfold measure in Hn at 2. simpl in Hn. lia.
  - intros Hp Hf. assert (r_done s = true) as Hd.
    { apply rtc_nsteps_2 in Hn.
      assert (is_Some (r_parent start) → r_done start = true) as H0 by by intros [? ?].
      revert H0 Hp. generalize start Hn. intros st Hst. clear Hn Hf.
      induction Hst as [x|x y z Hxy _ IH]; [auto |]. intros Hx Hp. apply IH; [| done].
      intros Hy. destruct Hxy; simpl in *; auto. }
    unfold finished in Hf. apply not_Forall_Exists in Hf; [| apply _].
    apply Exists_exists in Hf as (q & Hq & Hne). apply list_elem_of_split in Hq as (l1 & l2 & Hq).
    destruct s as [ps m e d p]. simpl in *. subst.
    destruct q; [eexists; split; [apply st_sleep_done | done] | eexists; split; [apply st_send_ok | done]
      | eexists; split; [apply st_wait_done | done] | eexists; split; [apply st_cancel | done] | done].
Qed.

End Race.

Module Remote.
Section remote.
Context `{L : LibOps}.

(** The loop over the addresses: is there one to dial?  A nil entry panics. *)
Fixpoint hasPubAddr (addrs : list (option PubAddr)) : res bool :=
  match addrs with
  | [] => Ok false
  | None :: _ => Panic NilDeref
  | Some a :: addrs => if decide (IP a ≠ "" ∧ Port a ≠ 0%Z) then Ok true else hasPubAddr addrs
  end.

(** [getPubAddrsFromRemote] after the cache had nothing; [outcome] is how the race ends. *)
Definition remoteAnswer (outcome : Race.outcome) (remoteAddr : string) (sessionID : bytes)
    : go Client PubAddrs :=
  lift_res (MarshalRequest (mkRequest ActionGetPubAddr sessionID));;
  match outcome with
  | Race.OErr e => throw e
  | Race.ONil => crash NilDeref        (* (nil, nil): the callers use the nil pointer *)
  | Race.OMsg None => crash NilDeref
  | Race.OMsg (Some data) =>
      pa ← lift_res (UnmarshalPubAddrs data);
      if SessionClosed pa then throw ErrClosed
      else
        ok ← lift_res (hasPubAddr (Addrs pa));
        if ok : bool then
          modify (λ c, set_table (storePubAddrs remoteAddr pa (table c)) c);;
          mret pa
        else throw ErrNoPubAddr
  end.

Definition getPubAddrsFromRemote (outcome : Race.outcome) (remoteAddr : string) (sessionID : bytes)
    : go Client PubAddrs :=
  c ← get;
  match getCachedPubAddrs remoteAddr c with
  | Some pa => mret pa
  | None => remoteAnswer outcome remoteAddr sessionID
  end.

Context `{LL : !LibLaws L}.

(** ** Asking and answering *)

Lemma hasPubAddr_true addrs :
  hasPubAddr addrs = Ok true → ∃ a, Some a ∈ addrs ∧ IP a ≠ "" ∧ Port a ≠ 0%Z.
Proof.
  induction addrs as [|[a|] addrs IH]; simpl; [done | | done]. case_decide as H.
  - intros _. exists a. split; [left | done].
  - intros (b & ? & ?)%IH. exists b. split; [by right | done].
Qed.

Lemma getPubAddrs_cases outcome remoteAddr sessionID c r c' :
  getPubAddrsFromRemote outcome remoteAddr sessionID c = (r, c') →
  match r with
  | Ok pa =>
      getCachedPubAddrs remoteAddr c = Some pa ∧ c' = c ∨
      ((∃ data, outcome = Race.OMsg (Some data) ∧ UnmarshalPubAddrs data = Ok pa) ∧
       SessionClosed pa = false ∧ (∃ a, Some a ∈ Addrs pa ∧ IP a ≠ "" ∧ Port a ≠ 0%Z) ∧
       pubAddrs (table c') !! remoteAddr = Some pa)
  | Err _ => c' = c
  | Panic _ => c' = c
  end.
Proof.
  intros H. unfold getPubAddrsFromRemote, remoteAnswer, get, lift_res, throw, crash, modify in H.
  unfold mbind, go_bind, mret, go_ret in H.
  destruct (getCachedPubAddrs remoteAddr c) as [pa|] eqn:Hc; [simplify_eq; by left |].
  destruct (MarshalRequest _) as [b|e|p]; [| by simplify_eq..].
  destruct outcome as [[data|]|e|]; [| by simplify_eq..].
  destruct (UnmarshalPubAddrs data) as [pa|e|p] eqn:Hu; [| by simplify_eq..].
  destruct (SessionClosed pa) eqn:Hsc; [by simplify_eq |].
  destruct (hasPubAddr (Addrs pa)) as [[]|e|p] eqn:Hh; simplify_eq; try done.
  right. split_and!; [by eauto | done | by apply hasPubAddr_true | apply lookup_insert_eq].
Qed.

(** What [getPubAddrsFromRemote] returns.  A result without an error is the cached
    entry or the answer of the peer, which then holds an address that can be dialed and is
    in the cache; on an error or a panic the table is as it was.  An answer with a nil
    address before the first usable one is a nil dereference. *)
Theorem getPubAddrs_result outcome remoteAddr sessionID c r c' :
  getPubAddrsFromRemote outcome remoteAddr sessionID c = (r, c') →
  match r with
  | Ok pa =>
      getCachedPubAddrs remoteAddr c = Some pa ∧ c' = c ∨
      ((∃ data, outcome = Race.OMsg (Some data) ∧ UnmarshalPubAddrs data = Ok pa) ∧
       SessionClosed pa = false ∧ (∃ a, Some a ∈ Addrs pa ∧ IP a ≠ "" ∧ Port a ≠ 0%Z) ∧
       pubAddrs (table c') !! remoteAddr = Some pa)
  | Err _ => c' = c
  | Panic _ => c' = c
  end.
Proof. apply getPubAddrs_cases. Qed.

(** The addresses [getPubAddrs] lists: one for each exit, in order. *)
Lemma exitAddrs_length price tes c addrs c' :
  exitAddrs price tes c = (Ok addrs, c') → c' = c ∧ length addrs = length tes ∧ Forall is_Some addrs.
Proof.
  revert addrs. induction tes as [|te tes IH]; intros addrs H; cbn [exitAddrs] in H; [by injection H as <- <- |].
  apply go_bind_inv_ok in H as (n & c1 & H1 & H). unfold deref in H1.
  destruct te as [te|]; [| done]. injection H1 as <- <-.
  apply go_bind_inv_ok in H as (e & c2 & H2 & H). unfold peek, deref in H2. go_unfold.
  destruct (h_exits (heap c) !! te); simplify_eq.
  destruct (exitAddrs price tes _) as [[rest|er|p] c3] eqn:Er; simplify_eq.
  destruct (IH _ eq_refl) as (-> & Hl & ?). split_and!; [done | simpl; by rewrite Hl |]. constructor; eauto.
Qed.

(** Answering a request changes nothing. *)
Lemma exitAddrs_same price tes c : (exitAddrs price tes c).2 = c.
Proof.
  induction tes as [|te tes IH]; [done |]. cbn [exitAddrs]. unfold peek, deref. go_unfold.
  destruct te as [te|]; [| done]. destruct (h_exits (heap c) !! te); [| done].
  by destruct (exitAddrs price tes c) as [[] ?].
Qed.

Lemma handleRequest_same src data c : (handleRequest src data c).2 = c.
Proof.
  unfold handleRequest, getPubAddrs. go_unfold. destruct (negb _); [done |].
  destruct (UnmarshalRequest data) as [req|e|p]; [| done..]. case_decide; [| done].
  destruct (IsSessClosed _ c); [by destruct (MarshalPubAddrs _) |].
  destruct (tunaExits (exits c)) as [tes|]; [| by destruct (MarshalPubAddrs _)].
  pose proof (exitAddrs_same false tes c) as Hs.
  destruct (exitAddrs false tes c) as [[addrs|e|p] c1]; simpl in *; by subst.
Qed.


End remote.
End Remote.

(** ** Runs *)
Module RemoteRuns.
Import Demo Race Remote.

(** One goroutine gets an answer while the others sleep; all end. *)
Definition won : state := mkR [PDone; PDone; PDone] (Some (Some [Byte.x01])) None true None.

Lemma won_steps : nsteps step 6 start won.
Proof.
  unfold start.
  eapply nsteps_l; [apply (st_timer []) |]. eapply nsteps_l; [apply (st_send_ok []) |].
  eapply nsteps_l; [apply (st_answer [] _ _ _ _ _ (Some [Byte.x01])) |].
  eapply nsteps_l; [apply (st_cancel []) |].
  eapply nsteps_l; [apply (st_sleep_done [PDone]) |]. eapply nsteps_l; [apply (st_sleep_done [PDone; PDone]) |].
  apply nsteps_O.
Qed.

Lemma race_never_nil_witness : result won ≠ ONil.
Proof. apply race_never_nil; [by eapply rtc_nsteps_2, won_steps | by repeat constructor]. Defined.

Lemma race_first_answer_witness :
  r_msg won = Some (Some [Byte.x01]) ∧ result won = OMsg (Some [Byte.x01]).
Proof. apply (race_first_answer won won (Some [Byte.x01])); [reflexivity | apply rtc_refl]. Defined.

Lemma race_terminates_witness :
  6 ≤ 13 ∧ (is_Some (r_parent won) → ¬ finished won → ∃ s', step won s' ∧ r_msg s' = r_msg won).
Proof. apply (race_terminates 6 won), won_steps. Defined.

(** An answer of a peer with two exits. *)
Definition alice : Client := demo_client "alice" (mkHeap ∅ ∅ ∅ ∅ ∅).
Definition request : bytes :=
  match MarshalRequest (mkRequest ActionGetPubAddr [Byte.x61]) with Ok b => b | _ => [] end.
Definition reply : bytes :=
  match (handleRequest "alice" request ExitsRuns.started).1 with Ok (Some b) => b | _ => [] end.

(** A null entry before the first address to dial makes the asking client panic. *)
Example null_address_crash :
  (getPubAddrsFromRemote (OMsg (Some (JsonRuns.quoted "{'addrs':[null,{'ip':'1.2.3.4','port':1}]}")))
     "bob" [Byte.x61] alice).1 = Panic NilDeref.
Proof. vm_compute. reflexivity. Qed.

Lemma handleRequest_run : handleRequest "alice" request ExitsRuns.started = (Ok (Some reply), ExitsRuns.started).
Proof.
  assert ((handleRequest "alice" request ExitsRuns.started).1 = Ok (Some reply)) as H by (vm_compute; reflexivity).
  pose proof (handleRequest_same "alice" request ExitsRuns.started) as H2.
  destruct (handleRequest "alice" request ExitsRuns.started). simpl in *. by subst.
Qed.

Lemma getPubAddrs_result_witness :
  ∃ pa, (getPubAddrsFromRemote (OMsg (Some reply)) "bob" [Byte.x61] alice).1 = Ok pa ∧
    pubAddrs (table (getPubAddrsFromRemote (OMsg (Some reply)) "bob" [Byte.x61] alice).2) !! "bob" = Some pa.
Proof.
  pose proof (getPubAddrs_result (OMsg (Some reply)) "bob" [Byte.x61] alice
    (getPubAddrsFromRemote (OMsg (Some reply)) "bob" [Byte.x61] alice).1
    (getPubAddrsFromRemote (OMsg (Some reply)) "bob" [Byte.x61] alice).2) as H.
  assert (∃ pa, (getPubAddrsFromRemote (OMsg (Some reply)) "bob" [Byte.x61] alice).1 = Ok pa) as [pa Hpa].
  { eexists. vm_compute. reflexivity. }
  exists pa. split; [done |]. rewrite Hpa in H. destruct H as [[H _]|(_ & _ & _ & H)].
  - rewrite <- Hpa. by destruct (getPubAddrsFromRemote _ _ _ _).
  - vm_compute in H. discriminate H.
  - exact H.
Defined.


End RemoteRuns.
