(* ===== verification/Dial.v ===== *)
(** * client.go and udp.go: dialing and reconnecting

    [dialTcpConn], [reconnect], [DialWithConfig] and the goroutine it starts for each
    connection; [dialUdpConn], [DialUpSession] and [DialUDPWithConfig] with its reconnect
    goroutine.  What the network does is an argument: [dial] is [DialContext], [rand] the
    nonce an encryption draws, [outcome] how a request for addresses ends. *)

From stdpp Require Import base gmap strings list numbers tactics pretty.
From Stdlib Require Import ZArith Lia.
From S2P Require Import Prelude Util Message Crypto Pb Config Table Json JsonInv World Udp Client Exits Remote.
Import Keys Framing Client Remote.

Module Dial.
Section dial.
Context `{L : LibOps}.

(** What the network does during one attempt to connect. *)
Record net := mkNet {
  n_outcome : Race.outcome;
  n_dial : string → res Conn;
  n_rand : res bytes
}.

(** A count of milliseconds as a [time.Duration]. *)
Definition ms (t : Z) : Z := (t * 1000000)%Z.

(** [if err != nil { conn.Close(); return nil, err }]. *)
Definition orClose {A} (conn : nat) (m : go Client A) : go Client A :=
  r ← try m;
  match r with inl a => mret a | inr e => closeConn conn;; throw e end.

Definition errParams : error := ErrText "dialAConn wrong params addr".

Definition dialTcpConn (n : net) (remoteAddr : string) (sessionID : bytes) (sessType : Z) (i : Z)
    (a : option PubAddr) (config : dialConfig) : go Client nat :=
  match a with
  | None => throw errParams
  | Some a =>
      if decide (IP a = "" ∨ Port a = 0%Z) then throw errParams
      else
        netConn ← lift_res (n_dial n (PubAddr_String a));
        conn ← new_conn (newConn netConn);
        c ← get;
        orClose conn (
          on_conn conn (writeMessage (now c) (string_bytes (addr c)) (ms (DialTimeout config)));;
          metadataRaw ← lift_res (MarshalMetadata (mkMetadata sessionID sessType ""));
          buf ← on_keys (Crypto.encode (privKey c) (n_rand n) metadataRaw remoteAddr);
          on_conn conn (writeMessage (now c) buf (ms (DialTimeout config))));;
        (if decide (sessType = SessionType_TCP)
         then modify (λ c, set_table (dialPut (sessionKey remoteAddr sessionID) i conn (table c)) c)
         else mret tt);;
        mret conn
  end.

(** [reconnect]; [None] is a nil connection with a nil error. *)
Definition reconnect (n : net) (remoteAddr : string) (sessionID : bytes) (i : Z) (config : dialConfig)
    : go Client (option nat) :=
  c ← get;
  if isClosed c then throw ErrClosed
  else
    match sessions (table c) !! sessionKey remoteAddr sessionID with
    | None => throw NcpErrSessionClosed
    | Some sess =>
        s ← peek h_sess sess;
        if ncp_IsClosed s then throw NcpErrSessionClosed
        else
          r ← try (getPubAddrsFromRemote (n_outcome n) remoteAddr sessionID);
          match r with
          | inr e =>
              if decide (e = ErrClosed) then try (on_sess sess ncp_Close);; throw ErrClosed
              else throw e
          | inl pa =>
              if decide (i < Z.of_nat (length (Addrs pa)))%Z then
                match Addrs pa !! Z.to_nat i with
                | None => crash IndexRange
                | Some a =>
                    conn ← dialTcpConn n remoteAddr sessionID SessionType_TCP i a config;
                    mret (Some conn)
                end
              else mret None
          end
    end.

(** The attempts to reconnect, from number [j] on.  With [retries < 0] there is no end to
    them: [RcMore] is a loop that is still trying. *)
Inductive reconnected := RcConn (conn : option nat) | RcStop | RcMore.

Fixpoint tryReconnect (fuel : nat) (retries j : Z) (attempt : Z → go Client (option nat))
    : go Client reconnected :=
  if decide (retries < 0 ∨ j < retries)%Z then
    match fuel with
    | 0 => mret RcMore
    | S fuel =>
        r ← try (attempt j);
        match r with
        | inl conn => mret (RcConn conn)
        | inr e =>
            if decide (e = ErrClosed ∨ e = NcpErrSessionClosed) then mret RcStop
            else tryReconnect fuel retries (j + 1) attempt
        end
    end
  else mret (RcConn None).

(** The goroutine of [DialWithConfig] for one connection, for as many rounds as there are
    networks in [rounds] (each gives what the network does at each attempt).  The deferred
    [conn.Close] closes what the variable holds at the end; [reconnect] overwrites it. *)
Fixpoint dialConn (rounds : list (Z → net)) (fuel : nat) (conn : nat) (remoteAddr : string)
    (sessionID : bytes) (i : Z) (config : dialConfig) : go Client unit :=
  handleConn (Some conn) remoteAddr sessionID i;;
  c ← get;
  let retries := ReconnectRetries (World.config c) in
  if decide (retries = 0%Z) then closeConn conn
  else
    match rounds with
    | [] => mret tt
    | env :: rounds =>
        r ← tryReconnect fuel retries 0 (λ j, reconnect (env j) remoteAddr sessionID i config);
        match r with
        | RcConn (Some conn) => dialConn rounds fuel conn remoteAddr sessionID i config
        | _ => mret tt
        end
    end.

(** ** Dialing a session *)

Definition usable (a : option PubAddr) : bool :=
  match a with Some a => negb (bool_decide (IP a = "" ∨ Port a = 0%Z)) | None => false end.

(** The log line for an address that is skipped dereferences it. *)
Fixpoint checkAddrs (verbose : bool) (addrs : list (option PubAddr)) : res unit :=
  match addrs with
  | [] => Ok tt
  | None :: addrs => if verbose then Panic NilDeref else checkAddrs verbose addrs
  | Some _ :: addrs => checkAddrs verbose addrs
  end.

(** The goroutines that dial, in the order they finish; all of them assign the variable
    [err] of [DialWithConfig]. *)
Fixpoint dialAll (env : nat → net) (order : list nat) (remoteAddr : string) (sessionID : bytes)
    (addrs : list (option PubAddr)) (config : dialConfig) (err : option error) : go Client (option error) :=
  match order with
  | [] => mret err
  | i :: order =>
      match addrs !! i with
      | Some a =>
          if usable a then
            r ← try (dialTcpConn (env i) remoteAddr sessionID SessionType_TCP (Z.of_nat i) a config);
            dialAll env order remoteAddr sessionID addrs config
              (match r with inl _ => None | inr e => Some e end)
          else dialAll env order remoteAddr sessionID addrs config err
      | None => dialAll env order remoteAddr sessionID addrs config err
      end
  end.

Definition indices (addrs : list (option PubAddr)) : list Z := Z.of_nat <$> seq 0 (length addrs).

Fixpoint spawnConns (conns : gmap string nat) (remoteAddr : string) (sessionID : bytes) (config : dialConfig)
    (idx : list Z) : go Client unit :=
  match idx with
  | [] => mret tt
  | i :: idx =>
      (match conns !! connID i with
       | Some conn => spawn (TDialConn conn remoteAddr sessionID i config)
       | None => mret tt
       end);;
      spawnConns conns remoteAddr sessionID config idx
  end.

(** [DialWithConfig]; [None] is a nil session with a nil error.  [order] lists the indices
    of a number of addresses in the order their goroutines finish. *)
Definition DialWithConfig (n : net) (env : nat → net) (order : nat → list nat) (randID : res bytes)
    (remoteAddr : string) (dc : option dialConfig) : go Client (option nat) :=
  c ← get;
  config ← lift_res (MergeDialConfig (SessionConfig (World.config c)) dc);
  remoteAddr ← lift_res (ResolveDest remoteAddr);
  sessionID ← lift_res randID;
  pa ← getPubAddrsFromRemote (n_outcome n) remoteAddr sessionID;
  lift_res (checkAddrs (Verbose (World.config c)) (Addrs pa));;
  err ← dialAll env (order (length (Addrs pa))) remoteAddr sessionID (Addrs pa) config None;
  let sessKey := sessionKey remoteAddr sessionID in
  c ← get;
  let conns := default ∅ (sessionConns (table c) !! sessKey) in
  if decide (conns = ∅) then
    match err with Some e => throw e | None => mret None end
  else
    let connIDs := filter (λ id, is_Some (conns !! id)) (connID <$> indices (Addrs pa)) in
    s ← lift_res (newSession c remoteAddr connIDs (DialSessionConfig config));
    sess ← new_sess s;
    modify (λ c, set_table (dialSession sessKey sess (table c)) c);;
    spawnConns conns remoteAddr sessionID config (indices (Addrs pa));;
    on_sess sess ncp_Dial;;
    mret (Some sess).

Definition DialSession (n : net) (env : nat → net) (order : nat → list nat) (randID : res bytes)
    (remoteAddr : string) : go Client (option nat) :=
  DialWithConfig n env order randID remoteAddr None.

Definition Dial (n : net) (env : nat → net) (order : nat → list nat) (randID : res bytes)
    (remoteAddr : string) : go Client (option nat) :=
  DialSession n env order randID remoteAddr.

(** ** Dialing a UDP session *)

(** [dialUdpConn]: the first address that can be dialed; a nil one panics.  [None] with a
    nil error when there is no address to dial. *)
Fixpoint dialUdpConn (addrs : list (option PubAddr)) (err : option error) : res (option (udpconn * PubAddr)) :=
  match addrs with
  | [] => match err with Some e => Err e | None => Ok None end
  | None :: _ => Panic NilDeref
  | Some a :: addrs =>
      if decide (IP a ≠ "" ∧ 0 < Port a)%Z then
        match net_DialUDP (IP a) (Port a) with
        | Ok x => Ok (Some (x, a))
        | Err e => dialUdpConn addrs (Some e)
        | Panic p => Panic p
        end
      else dialUdpConn addrs err
  end.

(** [if err != nil { us.Close(); return err }]. *)
Definition orCloseUdp {A} (u : nat) (m : go Client A) : go Client A :=
  r ← try m;
  match r with inl a => mret a | inr e => try (Udp.Close u);; throw e end.

(** [DialUpSession] once the addresses are known: the two connections, which the session
    then uses; the UDP address of the peer. *)
Definition upConnect (n : net) (u : nat) (listenerNknAddr : string) (sessionID : bytes)
    (config : dialConfig) (pa : PubAddrs) : go Client string :=
  r ← lift_res (dialUdpConn (Addrs pa) None);
  let a := snd <$> r in
  uc ← (match r with Some (x, _) => r ← new_udpconn x; mret (Some r) | None => mret None end);
  t ← try (dialTcpConn n listenerNknAddr sessionID SessionType_UDP (-1) a config);
  match t with
  | inr e => uc ← deref uc; on_udpconn uc (modify uc_Close);; throw e
  | inl tcp =>
      a ← deref a;
      let ua := UDPAddr_String (IP a) (Port a) in
      let usa := newUdpSessionAddr sessionID listenerNknAddr ua in
      Udp.updUdp u (Udp.set_dialer uc (Some tcp) (Some usa));;
      mret ua
  end.

(** Then it introduces itself, and only then encrypts. *)
Definition upSession (n : net) (u : nat) (listenerNknAddr : string) (sessionID : bytes)
    (config : dialConfig) (pa : PubAddrs) : go Client unit :=
  ua ← upConnect n u listenerNknAddr sessionID config pa;
  orCloseUdp u (Udp.sendMetaData u sessionID);;
  orCloseUdp u (Udp.addCodec u ua listenerNknAddr).

Definition DialUpSession (n : net) (u : nat) (listenerNknAddr : string) (sessionID : bytes)
    (config : dialConfig) : go Client unit :=
  c ← get;
  if isClosed c then throw ErrClosed
  else
    pa ← getPubAddrsFromRemote (n_outcome n) listenerNknAddr sessionID;
    upSession n u listenerNknAddr sessionID config pa.

(** [DialUDPWithConfig]. *)
Definition DialUDPWithConfig (n : net) (randID : res bytes) (remoteAddr : string) (dc : option dialConfig)
    : go Client nat :=
  c ← get;
  config ← lift_res (MergeDialConfig (SessionConfig (World.config c)) dc);
  remoteAddr ← lift_res (ResolveDest remoteAddr);
  sessionID ← lift_res randID;
  u ← Udp.newUdpSession false;
  DialUpSession n u remoteAddr sessionID config;;
  spawn (TRecvMsg u);;
  spawn (TUdpReconnect u remoteAddr sessionID config);;
  mret u.

Definition DialUDP (n : net) (randID : res bytes) (remoteAddr : string) : go Client nat :=
  DialUDPWithConfig n randID remoteAddr None.

(** The attempts of its reconnect goroutine: the number of the attempt that succeeded or
    at which the loop ended. *)
Inductive redialed := RdEnd (j : Z) | RdStop | RdMore.

Fixpoint tryRedial (fuel : nat) (retries j : Z) (attempt : Z → go Client unit) : go Client redialed :=
  if decide (retries < 0 ∨ j < retries)%Z then
    match fuel with
    | 0 => mret RdMore
    | S fuel =>
        r ← try (attempt j);
        match r with
        | inl _ => mret (RdEnd j)
        | inr e => if decide (e = ErrClosed) then mret RdStop else tryRedial fuel retries (j + 1) attempt
        end
    end
  else mret (RdEnd j).

(** One round of that goroutine; [true] when it goes on to the next one. *)
Definition udpReconnectRound (env : Z → net) (fuel : nat) (u : nat) (remoteAddr : string)
    (sessionID : bytes) (config : dialConfig) : go Client bool :=
  us ← Udp.getUdp u;
  conn ← deref (tcpConn us);
  try (Udp.handleTcpMsg u conn (sessionKey remoteAddr sessionID));;
  c ← get;
  us ← Udp.getUdp u;
  uc ← deref (udpConn us);
  x ← peek h_udpconns uc;
  let retries := ReconnectRetries (World.config c) in
  if isClosed c || uc_IsClosed x then mret false
  else if decide (retries = 0%Z) then mret false
  else
    r ← tryRedial fuel retries 0 (λ j, DialUpSession (env j) u remoteAddr sessionID config);
    match r with
    | RdEnd j => mret (bool_decide (j < retries)%Z)
    | _ => mret false
    end.

End dial.
End Dial.
