(* ===== verification/DialInv.v ===== *)
(** * Properties of dialing and reconnecting *)

From stdpp Require Import base gmap strings list numbers tactics.
From Stdlib Require Import ZArith Lia.
From S2P Require Import Prelude Util Message Crypto Pb Config Table TableInv Json JsonInv World Demo Udp Frame Client ClientInv Exits Remote Dial.
Import Keys Framing Crypto Client Remote Dial.

Section dial.
Context `{L : LibOps} `{LL : !LibLaws L}.

(** ** The handshake *)

Lemma dialTcpConn_ok n skB addrB pB id ty i a cfg c nc nonce raw :
  IP a ≠ "" → Port a ≠ 0%Z → n_dial n (PubAddr_String a) = Ok nc → n_rand n = Ok nonce →
  writable nc → wr_out nc = [] → MarshalMetadata (mkMetadata id ty "") = Ok raw →
  length (privKey c) = PrivateKeySize → account_at skB addrB pB → cache_ok (privKey c) (sharedKeys c) →
  ∃ conn x ks, dialTcpConn n addrB id ty i (Some a) cfg c =
      (Ok conn, set_table (if decide (ty = SessionType_TCP) then dialPut (sessionKey addrB id) i conn (table c)
                           else table c)
                  (set_sharedKeys ks (set_heap (put_conn conn x (heap c)) c))) ∧
    h_conns (heap c) !! conn = None ∧ conn_closed x = false ∧ cache_ok (privKey c) ks ∧
    wr_out x = frame (string_bytes (addr c)) ++
               frame (nonce ++ SealAfterPrecomputation raw nonce
                        (Precompute pB (PrivateKeyToCurve25519PrivateKey (privKey c)))).
Proof.
  intros Hip Hport Hd Hr Hw Ho Hm Hl HB Hk. unfold dialTcpConn. rewrite decide_False by tauto.
  rewrite (go_lift_ok _ _ _ _ Hd). set (conn := fresh (dom (h_conns (heap c)))).
  set (c1 := set_heap (put_conn conn nc (heap c)) c).
  assert (new_conn (newConn nc) c = (Ok conn, c1)) as Hnew by done. rewrite (go_bind_ok _ _ _ _ _ Hnew).
  unfold get. unfold mbind at 1, go_bind at 1.
  destruct (writeMessage_ok (now c) (string_bytes (addr c)) (ms (DialTimeout cfg)) nc Hw)
    as (x1 & W1 & W2 & W3 & _ & _).
  destruct (encode_account (privKey c) skB addrB pB (sharedKeys c) nonce raw Hl HB Hk) as (ks & E1 & E2).
  set (buf := nonce ++ _) in E1.
  destruct (writeMessage_ok (now c) buf (ms (DialTimeout cfg)) x1 W2) as (x2 & W4 & W5 & W6 & _ & _).
  set (c2 := set_sharedKeys ks (set_heap (put_conn conn x2 (heap c)) c)).
  assert (orClose conn (
    on_conn conn (writeMessage (now c1) (string_bytes (addr c1)) (ms (DialTimeout cfg)));;
    metadataRaw ← lift_res (MarshalMetadata (mkMetadata id ty ""));
    buf ← on_keys (Crypto.encode (privKey c1) (n_rand n) metadataRaw addrB);
    on_conn conn (writeMessage (now c1) buf (ms (DialTimeout cfg)))) c1 = (Ok tt, c2)) as Hor.
  { change (now c1) with (now c). change (addr c1) with (addr c). change (privKey c1) with (privKey c).
    unfold orClose, try. unfold mbind at 1, go_bind at 1. unfold mbind at 1, go_bind at 1.
    unfold on_conn. rewrite (on_ok _ _ _ _ _ nc) by apply lookup_insert_eq.
    rewrite W1. cbn [fst snd]. rewrite (go_lift_ok _ _ _ _ Hm), Hr.
    unfold mbind at 1, go_bind at 1, on_keys, zoom.
    change (sharedKeys (set_heap _ c1)) with (sharedKeys c). rewrite E1.
    rewrite (on_ok _ _ _ _ _ x1) by apply lookup_insert_eq. rewrite W4. cbn [fst snd].
    unfold c2. by rewrite <- (put_conn_twice conn x1 x2 (heap c)), <- (put_conn_twice conn nc x1 (heap c)). }
  rewrite (go_bind_ok _ _ _ _ _ Hor). exists conn, x2, ks. split.
  - unfold modify, mbind, go_bind, mret, go_ret. by case_decide.
  - split_and!; [apply not_elem_of_dom, is_fresh | by destruct W5 | done |]. by rewrite W6, W3, Ho.
Qed.

(** The answering end: both messages are read and the metadata is decoded. *)
Lemma serveConn_handshake i conn c y addrA skA pA pB buf raw m rest :
  h_conns (heap c) !! conn = Some y → conn_closed y = false →
  stream y = frame (string_bytes addrA) ++ frame buf ++ rest →
  (Z.of_nat (length (string_bytes addrA)) ≤ maxAddrSize)%Z →
  (Z.of_nat (length buf) ≤ maxSessionMetadataSize)%Z →
  shouldAcceptAddr c addrA = true → account_at skA addrA pA → length (privKey c) = PrivateKeySize →
  PublicKeyToCurve25519PublicKey (PubKey (privKey c)) = Some pB → cache_ok (privKey c) (sharedKeys c) →
  sealed skA pB buf raw → UnmarshalMetadata raw = Ok m →
  ∃ segs ks, concat segs = rest ∧ cache_ok (privKey c) ks ∧
    let c1 := set_sharedKeys ks (set_heap (put_conn conn (set_rd segs y) (heap c)) c) in
    serveConn i conn c =
      (if decide (SessionType m = SessionType_UDP) then Udp.handleUdpListenerTcp conn addrA (Id m) c1
       else (serveTcp conn addrA (Id m) i;; closeConn conn) c1).
Proof.
  intros Hy Hcl Hst Hl1 Hl2 Hacc HA HlB HpB Hk (nonce & Hn & ->) Hu.
  destruct (serveConn_addr conn c y addrA _ Hy Hcl Hst Hl1) as (segs & H1 & H2).
  set (buf := nonce ++ _) in *.
  destruct (readMessage_frame maxSessionMetadataSize (set_rd segs y) buf rest) as (segs' & H3 & H4);
    [done | by rewrite stream_set_rd, H2 | unfold maxSessionMetadataSize in *; lia |].
  destruct (decode_account skA (privKey c) addrA pA pB (sharedKeys c) nonce raw) as (ks & H5 & H6); [done.. |].
  exists segs', ks. split_and!; [done.. |]. cbv zeta.
  unfold serveConn. rewrite (go_bind_ok _ _ _ _ _ (try_ok _ _ _ _ H1)), bytes_string_bytes.
  unfold get. unfold mbind at 1, go_bind at 1.
  change (shouldAcceptAddr (set_heap _ c) addrA) with (shouldAcceptAddr c addrA). rewrite Hacc.
  change (negb true) with false. cbn iota.
  set (c1 := set_sharedKeys ks (set_heap (put_conn conn (set_rd segs' y) (heap c)) c)).
  assert ((buf ← on_conn conn (readMessage maxSessionMetadataSize);
    metadataRaw ← on_keys (Crypto.decode (privKey c) buf addrA); lift_res (UnmarshalMetadata metadataRaw))
    (set_heap (put_conn conn (set_rd segs y) (heap c)) c) = (Ok m, c1)) as Hr.
  { unfold mbind, go_bind, on_conn. rewrite (on_ok _ _ _ _ _ (set_rd segs y)) by apply lookup_insert_eq.
    rewrite H3. unfold on_keys, zoom. cbn [fst snd sharedKeys set_heap heap]. fold buf in H5. rewrite H5.
    unfold lift_res. rewrite Hu, put_conn_twice. done. }
  change (privKey (set_heap _ c)) with (privKey c). rewrite (go_bind_ok _ _ _ _ _ (try_ok _ _ _ _ Hr)).
  by case_decide.
Qed.

(** C9: both ends of the handshake agree.  What [dialTcpConn] writes for a session is
    accepted by [listenNet] of a peer that allows the dialer's address: the peer reads the
    dialer's address and the session's id and type, and goes on with exactly the bytes
    that follow, as the connection of that session (TCP) or of the UDP session with that
    id.  The dialer has registered the connection under the same id. *)
Theorem dial_handshake n addrB pB id ty i a cfg cA nc nonce raw :
  IP a ≠ "" → Port a ≠ 0%Z → n_dial n (PubAddr_String a) = Ok nc → n_rand n = Ok nonce →
  length nonce = nonceSize → writable nc → wr_out nc = [] →
  int32_ok ty → sized id → MarshalMetadata (mkMetadata id ty "") = Ok raw →
  length (privKey cA) = PrivateKeySize → cache_ok (privKey cA) (sharedKeys cA) →
  ∀ cB pA, account_at (privKey cB) addrB pB → account_at (privKey cA) (addr cA) pA →
  cache_ok (privKey cB) (sharedKeys cB) → shouldAcceptAddr cB (addr cA) = true →
  (Z.of_nat (length (string_bytes (addr cA))) ≤ maxAddrSize)%Z →
  (Z.of_nat (nonceSize + length raw + Overhead) ≤ maxSessionMetadataSize)%Z →
  ∃ conn x cA', dialTcpConn n addrB id ty i (Some a) cfg cA = (Ok conn, cA') ∧
    h_conns (heap cA') !! conn = Some x ∧
    (ty = SessionType_TCP → conn_of (table cA') (sessionKey addrB id) (connID i) = Some conn) ∧
    ∀ j connB y rest, h_conns (heap cB) !! connB = Some y → conn_closed y = false →
      stream y = wr_out x ++ rest →
      ∃ segs ks, concat segs = rest ∧
        let c1 := set_sharedKeys ks (set_heap (put_conn connB (set_rd segs y) (heap cB)) cB) in
        serveConn j connB cB =
          (if decide (ty = SessionType_UDP) then Udp.handleUdpListenerTcp connB (addr cA) id c1
           else (serveTcp connB (addr cA) id j;; closeConn connB) c1).
Proof.
  intros Hip Hport Hd Hr Hn Hw Ho Hty Hid Hm HlA HkA cB pA HB HA HkB Hacc Hla Hlm.
  destruct (dialTcpConn_ok n (privKey cB) addrB pB id ty i a cfg cA nc nonce raw)
    as (conn & x & ks & H1 & _ & _ & _ & H2); [done.. |].
  eexists conn, x, _. split; [exact H1 |]. split; [apply lookup_insert_eq |]. split.
  { intros ->. rewrite decide_True by done. unfold conn_of. simpl. rewrite lookup_insert_eq. simpl.
    apply lookup_insert_eq. }
  intros j connB y rest Hy Hcl Hst. rewrite H2, <- (assoc_L (++)) in Hst.
  destruct (serveConn_handshake j connB cB y (addr cA) (privKey cA) pA pB _ raw (mkMetadata id ty "") rest
    Hy Hcl Hst Hla) as (segs & ks' & E1 & _ & E2); [| done | done | apply HB | apply HB | done | | | ].
  - rewrite length_app, seal_length, Hn. lia.
  - by exists nonce.
  - apply metadata_round_trip; [done.. | unfold sized; simpl; lia | done].
  - exists segs, ks'. split; [exact E1 | exact E2].
Qed.

(** ** What leaves the table alone *)

Lemma kt_handleMsg conn sess i : keeps table (handleMsg conn sess i).
Proof. unfold handleMsg. auto 20 with frame. Qed.

Lemma kt_handleLoop fuel conn sess i : keeps table (handleLoop fuel conn sess i).
Proof.
  induction fuel as [|fuel IH]; cbn [handleLoop]; [apply kt_ret |].
  apply kt_bind; [apply kt_try, kt_handleMsg |]. intros []; [done | apply kt_ret].
Qed.

Lemma kt_orClose {A} conn (m : go Client A) : keeps table m → keeps table (orClose conn m).
Proof. intros Hm. unfold orClose. auto 20 with frame. Qed.

(** [dialTcpConn]: on success the connection is registered, otherwise the table is kept. *)
Lemma dialTcpConn_table n remoteAddr id ty i a cfg c r c' :
  dialTcpConn n remoteAddr id ty i a cfg c = (r, c') →
  (∃ conn, r = Ok conn ∧ table c' = if decide (ty = SessionType_TCP)
     then dialPut (sessionKey remoteAddr id) i conn (table c) else table c) ∨
  ((∀ conn, r ≠ Ok conn) ∧ table c' = table c).
Proof.
  unfold dialTcpConn. destruct a as [a|]; [| intros [= <- <-]; by right].
  case_decide as Hbad; [intros [= <- <-]; by right |].
  destruct (n_dial n (PubAddr_String a)) as [nc|e|p] eqn:Ed; [| intros [= <- <-]; by right..].
  rewrite (go_lift_ok _ _ _ nc) by done. set (conn := fresh (dom (h_conns (heap c)))).
  set (c1 := set_heap (put_conn conn nc (heap c)) c).
  assert (new_conn (newConn nc) c = (Ok conn, c1)) as Hnew by done. rewrite (go_bind_ok _ _ _ _ _ Hnew).
  unfold get. unfold mbind at 1, go_bind at 1. intros H.
  match type of H with (orClose conn ?m ≫= _) _ = _ =>
    assert (keeps table (orClose conn m)) as Hk by (apply kt_orClose; auto 20 with frame);
    specialize (Hk c1); destruct (orClose conn m c1) as [[[]|e|p] c2] eqn:Eo end; simpl in Hk.
  - rewrite (go_bind_ok _ _ _ _ _ Eo) in H. left. exists conn. unfold modify, mbind, go_bind, mret, go_ret in H.
    case_decide; injection H as <- <-; (split; [done |]); simpl; by rewrite Hk.
  - rewrite (go_bind_err _ _ _ _ _ Eo) in H. injection H as <- <-. by right.
  - rewrite (go_bind_panic _ _ _ _ _ Eo) in H. injection H as <- <-. by right.
Qed.

(** ** A dial that returns *)

(** The session has a registered connection. *)
Definition dialed (key : string) (t : Table) : Prop :=
  ∃ m, sessionConns t !! key = Some m ∧ m ≠ ∅.

Lemma dialPut_dialed key i conn t : dialed key (dialPut key i conn t).
Proof. eexists. split; [apply lookup_insert_eq | apply insert_non_empty]. Qed.

Lemma dialTcpConn_keeps n remoteAddr id i a cfg c :
  dialed (sessionKey remoteAddr id) (table c) →
  dialed (sessionKey remoteAddr id) (table (dialTcpConn n remoteAddr id SessionType_TCP i a cfg c).2).
Proof.
  intros Hd. destruct (dialTcpConn n remoteAddr id SessionType_TCP i a cfg c) as [r c'] eqn:E.
  apply dialTcpConn_table in E as [(conn & _ & Ht)|[_ Ht]]; simpl; rewrite Ht; [| done].
  rewrite decide_True by done. apply dialPut_dialed.
Qed.

Lemma dialAll_err env order remoteAddr id addrs cfg err c err' c' :
  dialAll env order remoteAddr id addrs cfg err c = (Ok err', c') →
  (dialed (sessionKey remoteAddr id) (table c) → dialed (sessionKey remoteAddr id) (table c')) ∧
  (err' = None →
     err = None ∧ (∀ i a, i ∈ order → addrs !! i = Some a → usable a = false) ∨
     dialed (sessionKey remoteAddr id) (table c')).
Proof.
  revert err c. induction order as [|i order IH]; intros err c H; cbn [dialAll] in H.
  { injection H as <- <-. split; [done |]. intros ->. left. split; [done |]. by intros i a ?%not_elem_of_nil. }
  assert (∀ a, addrs !! i = Some a → usable a = false →
    dialAll env order remoteAddr id addrs cfg err c = (Ok err', c') →
    (dialed (sessionKey remoteAddr id) (table c) → dialed (sessionKey remoteAddr id) (table c')) ∧
    (err' = None → err = None ∧ (∀ i' a, i' ∈ i :: order → addrs !! i' = Some a → usable a = false) ∨
       dialed (sessionKey remoteAddr id) (table c'))) as Hskip.
  { intros a Ha Hu H'. apply IH in H' as [H1 H2]. split; [done |]. intros He.
    destruct (H2 He) as [[? H3]|?]; [left; split; [done |] | by right].
    intros i' a' [->|Hi]%elem_of_cons Ha'; [congruence | by eapply H3]. }
  destruct (addrs !! i) as [a|] eqn:Ea.
  2:{ apply IH in H as [H1 H2]. split; [done |]. intros He.
      destruct (H2 He) as [[? H3]|?]; [left; split; [done |] | by right].
      intros i' a' [->|Hi]%elem_of_cons Ha'; [congruence | by eapply H3]. }
  destruct (usable a) eqn:Hu; [| by eapply Hskip].
  pose proof (dialTcpConn_keeps (env i) remoteAddr id (Z.of_nat i) a cfg c) as Hk.
  destruct (dialTcpConn (env i) remoteAddr id SessionType_TCP (Z.of_nat i) a cfg c) as [[conn|e|p] c1] eqn:Ed.
  - rewrite (go_bind_ok _ _ _ _ _ (try_ok _ _ _ _ Ed)) in H.
    apply dialTcpConn_table in Ed as [(conn' & _ & Ht)|[Hno _]]; [| by destruct (Hno conn)].
    rewrite decide_True in Ht by done. apply IH in H as [H1 H2].
    assert (dialed (sessionKey remoteAddr id) (table c')) by (apply H1; rewrite Ht; apply dialPut_dialed). auto.
  - rewrite (go_bind_ok _ _ _ _ _ (try_err _ _ _ _ Ed)) in H. apply IH in H as [H1 H2].
    split; [auto |]. intros He. right. by destruct (H2 He) as [[? _]|?].
  - unfold try, mbind, go_bind in H. by rewrite Ed in H.
Qed.

Lemma spawnConns_table conns remoteAddr id cfg idx c c' :
  spawnConns conns remoteAddr id cfg idx c = (Ok tt, c') → table c' = table c.
Proof.
  revert c. induction idx as [|i idx IH]; intros c H; cbn [spawnConns] in H; [by injection H as <- |].
  apply go_bind_inv_ok in H as ([] & c1 & H1 & H). rewrite (IH _ H).
  destruct (conns !! connID i); by injection H1 as <-.
Qed.

(** C26: [DialWithConfig] never returns a nil session without an error.  When every
    address of the peer is dialed, in whatever order the attempts finish, and every cached
    list of addresses has one that can be dialed, a call that returns no error returns a
    session, which is stored under a session key of the peer. *)
Theorem DialWithConfig_not_nil n env order randID remoteAddr dc c r c' :
  (∀ a pa, pubAddrs (table c) !! a = Some pa → ∃ a, Some a ∈ Addrs pa ∧ IP a ≠ "" ∧ Port a ≠ 0%Z) →
  (∀ k i, i < k → i ∈ order k) →
  DialWithConfig n env order randID remoteAddr dc c = (Ok r, c') →
  ∃ sess addr id, r = Some sess ∧ ResolveDest remoteAddr = Ok addr ∧ randID = Ok id ∧
    sessions (table c') !! sessionKey addr id = Some sess.
Proof.
  intros Hcache Horder H. unfold DialWithConfig in H.
  apply go_bind_inv_ok in H as (? & ? & [= <- <-] & H).
  apply go_bind_inv_ok in H as (cfg & ? & H1 & H). injection H1 as _ <-.
  apply go_bind_inv_ok in H as (raddr & ? & H1 & H). injection H1 as Hres <-.
  apply go_bind_inv_ok in H as (id & ? & H1 & H). injection H1 as Hid <-.
  apply go_bind_inv_ok in H as (pa & c1 & Hpa & H).
  apply go_bind_inv_ok in H as ([] & ? & H1 & H). injection H1 as _ <-.
  apply go_bind_inv_ok in H as (err & c2 & Hall & H).
  apply go_bind_inv_ok in H as (? & ? & [= <- <-] & H).
  apply getPubAddrs_cases in Hpa.
  assert (∃ a, Some a ∈ Addrs pa ∧ IP a ≠ "" ∧ Port a ≠ 0%Z) as (a & Ha & Hip & Hport).
  { destruct Hpa as [[Hpa _]|(_ & _ & Hpa & _)]; [| done]. apply (Hcache raddr).
    unfold Client.getCachedPubAddrs, Table.getCachedPubAddrs in Hpa.
    destruct (pubAddrs (table c) !! raddr) as [p|] eqn:Ep; [| done]. cbn in Hpa.
    destruct (all_counted _ _); [by injection Hpa as -> | done]. }
  apply dialAll_err in Hall as [_ Hall].
  case_decide as Hconns.
  - exfalso. destruct err as [e|]; [done |]. destruct (Hall eq_refl) as [[_ Hno]|(m & Hm & Hne)].
    + apply list_elem_of_lookup_1 in Ha as [i Hi].
      assert (usable (Some a) = false) as Hu.
      { apply (Hno i); [| done]. apply Horder. by apply lookup_lt_Some in Hi. }
      simpl in Hu. apply negb_false_iff, bool_decide_eq_true in Hu. tauto.
    + by rewrite Hm in Hconns.
  - apply go_bind_inv_ok in H as (s & ? & H1 & H). injection H1 as _ <-.
    apply go_bind_inv_ok in H as (sess & c3 & H3 & H).
    apply go_bind_inv_ok in H as ([] & c4 & H4 & H). injection H4 as <-.
    apply go_bind_inv_ok in H as ([] & c5 & H5 & H).
    apply go_bind_inv_ok in H as ([] & c6 & H6 & H). injection H as <- <-.
    exists sess, raddr, id. split_and!; [done.. |].
    pose proof (kt_on table h_sess put_sess sess ncp_Dial c5) as K6. unfold on_sess in H6. rewrite H6 in K6. simpl in K6.
    rewrite K6, (spawnConns_table _ _ _ _ _ _ _ H5). apply lookup_insert_eq.
Qed.

(** ** Reconnecting *)

Definition transient (e : error) : Prop := e ≠ ErrClosed ∧ e ≠ NcpErrSessionClosed.

Lemma tryReconnect_run fuel retries j attempt cs es k conn c' :
  (retries < 0 ∨ j + Z.of_nat k < retries)%Z → k < fuel →
  (∀ i, i < k → attempt (j + Z.of_nat i)%Z (cs i) = (Err (es i), cs (S i)) ∧ transient (es i)) →
  attempt (j + Z.of_nat k)%Z (cs k) = (Ok conn, c') →
  tryReconnect fuel retries j attempt (cs 0) = (Ok (RcConn conn), c').
Proof.
  revert fuel j cs es. induction k as [|k IH]; intros fuel j cs es Hr Hf Hfail Hok;
    (destruct fuel as [|fuel]; [lia |]); cbn [tryReconnect]; rewrite decide_True by lia.
  - rewrite Z.add_0_r in Hok. by rewrite (go_bind_ok _ _ _ _ _ (try_ok _ _ _ _ Hok)).
  - destruct (Hfail 0) as [H0 [T1 T2]]; [lia |]. rewrite Z.add_0_r in H0.
    rewrite (go_bind_ok _ _ _ _ _ (try_err _ _ _ _ H0)), decide_False by tauto.
    apply (IH fuel (j + 1)%Z (λ i, cs (S i)) (λ i, es (S i))).
    + lia.
    + lia.
    + intros i Hi. replace (j + 1 + Z.of_nat i)%Z with (j + Z.of_nat (S i))%Z by lia. apply Hfail. lia.
    + by replace (j + 1 + Z.of_nat k)%Z with (j + Z.of_nat (S k))%Z by lia.
Qed.

Lemma tryReconnect_bounded fuel retries j attempt c :
  (0 ≤ retries)%Z → (retries ≤ j + Z.of_nat fuel)%Z →
  (tryReconnect fuel retries j attempt c).1 ≠ Ok RcMore.
Proof.
  revert j c. induction fuel as [|fuel IH]; intros j c Hr Hf; cbn [tryReconnect].
  { rewrite decide_False by lia. done. }
  case_decide; [| done]. unfold try, mbind, go_bind. destruct (attempt j c) as [[conn|e|p] c1]; [done | | done].
  case_decide; [done |]. apply IH; lia.
Qed.

(** The attempts to reconnect.  A limited number of attempts always ends; and while
    attempts are left (or their number is unlimited), the first attempt that succeeds
    after failures of other kinds than a closed session is the result. *)
Theorem tryReconnect_spec retries attempt :
  (∀ c, 0 ≤ retries → (tryReconnect (Z.to_nat retries) retries 0 attempt c).1 ≠ Ok RcMore)%Z ∧
  (∀ cs es k conn c' fuel,
     (retries < 0 ∨ Z.of_nat k < retries)%Z → k < fuel →
     (∀ i, i < k → attempt (Z.of_nat i) (cs i) = (Err (es i), cs (S i)) ∧ transient (es i)) →
     attempt (Z.of_nat k) (cs k) = (Ok conn, c') →
     tryReconnect fuel retries 0 attempt (cs 0) = (Ok (RcConn conn), c')).
Proof.
  split.
  - intros c Hr. apply tryReconnect_bounded; lia.
  - intros cs es k conn c' fuel Hr Hf Hfail Hok. by apply (tryReconnect_run fuel retries 0 attempt cs es k).
Qed.

(** A reconnect without an address gives up.  When the peer lists fewer addresses
    than before, [reconnect] returns a nil connection with a nil error, which the loop
    takes for a success: the goroutine ends, however many retries are left. *)
Theorem reconnect_gives_up n remoteAddr id i cfg c c1 sess s pa retries fuel :
  isClosed c = false → sessions (table c) !! sessionKey remoteAddr id = Some sess →
  h_sess (heap c) !! sess = Some s → ncp_IsClosed s = false →
  getPubAddrsFromRemote (n_outcome n) remoteAddr id c = (Ok pa, c1) →
  (Z.of_nat (length (Addrs pa)) ≤ i)%Z → (retries < 0 ∨ 0 < retries)%Z →
  tryReconnect (S fuel) retries 0 (λ _, reconnect n remoteAddr id i cfg) c = (Ok (RcConn None), c1).
Proof.
  intros Hc Hs Hh Ho Hp Hi Hr. cbn [tryReconnect]. rewrite decide_True by lia.
  assert (reconnect n remoteAddr id i cfg c = (Ok None, c1)) as H.
  { unfold reconnect, get. unfold mbind at 1, go_bind at 1. rewrite Hc, Hs.
    assert (peek h_sess sess c = (Ok s, c)) as Hpk by (unfold peek, deref; go_unfold; by rewrite Hh).
    rewrite (go_bind_ok _ _ _ _ _ Hpk), Ho, (go_bind_ok _ _ _ _ _ (try_ok _ _ _ _ Hp)).
    by rewrite decide_False by lia. }
  by rewrite (go_bind_ok _ _ _ _ _ (try_ok _ _ _ _ H)).
Qed.

(** The table after a run of [handleConn]: its two critical sections. *)
Lemma handleConn_table conn remoteAddr id i c c' sess :
  sessions (table c) !! sessionKey remoteAddr id = Some sess →
  connCount (table c) !! sessionKey remoteAddr id = None →
  handleConn (Some conn) remoteAddr id i c = (Ok tt, c') →
  sessions (table c') !! sessionKey remoteAddr id = None.
Proof.
  intros Hs Hn H. set (key := sessionKey remoteAddr id) in *. unfold handleConn in H. fold key in H.
  apply go_bind_inv_ok in H as (x & c0 & Hx & H).
  assert (c0 = c) as -> by (unfold peek, deref in Hx; go_unfold; destruct (h_conns (heap c) !! conn); by simplify_eq).
  apply go_bind_inv_ok in H as (? & ? & [= <- <-] & H).
  destruct (connEnter key remoteAddr (conn_remote x) (table c)) as [[sess' t1]|] eqn:He.
  2:{ unfold connEnter in He. by rewrite Hs in He. }
  apply go_bind_inv_ok in H as ([] & c1 & H1 & H). injection H1 as <-.
  apply go_bind_inv_ok in H as (b & c2 & H2 & H).
  pose proof (kt_handleLoop (S (length (stream x))) conn sess' i (set_table t1 c)) as Hk.
  rewrite H2 in Hk. simpl in Hk.
  apply go_bind_inv_ok in H as (? & ? & [= <- <-] & H).
  apply go_bind_inv_ok in H as ([sc t2] & c3 & H3 & H). injection H3 as Hex <-. rewrite Hk in Hex.
  apply connExit_sessions in Hex as [Hb Ht].
  assert (sc = true) as ->.
  { rewrite Hb. unfold connEnter in He. rewrite Hs in He. injection He as <- <-. simpl.
    unfold bump. rewrite lookup_insert_eq, Hn. by apply bool_decide_true. }
  destruct Ht as (Ht & _). apply go_bind_inv_ok in H as ([] & c4 & H4 & H). injection H4 as <-.
  apply go_bind_inv_ok in H as (r & c5 & H5 & H). injection H as <-.
  pose proof (kt_try table (on_sess sess' ncp_Close) (kt_on table _ _ _ _) (set_table t2 c2)) as K. rewrite H5 in K.
  simpl in K. rewrite K, Ht. apply lookup_delete_eq.
Qed.

(** The last connection of a session cannot be reconnected.  When the only
    connection of a session ends, [handleConn] drops the session, so every attempt of the
    dialer to reconnect reports a closed session and the goroutine stops, whatever number
    of retries is configured. *)
Theorem last_connection_not_reconnected conn remoteAddr id i c c' sess env cfg retries fuel :
  sessions (table c) !! sessionKey remoteAddr id = Some sess →
  connCount (table c) !! sessionKey remoteAddr id = None →
  handleConn (Some conn) remoteAddr id i c = (Ok tt, c') → (retries < 0 ∨ 0 < retries)%Z →
  tryReconnect (S fuel) retries 0 (λ j, reconnect (env j) remoteAddr id i cfg) c' = (Ok RcStop, c').
Proof.
  intros Hs Hn H Hr. pose proof (handleConn_table _ _ _ _ _ _ _ Hs Hn H) as Hnone.
  cbn [tryReconnect]. rewrite decide_True by lia.
  assert (∃ e, reconnect (env 0%Z) remoteAddr id i cfg c' = (Err e, c') ∧ ¬ transient e) as (e & He & Ht).
  { unfold reconnect, get. unfold mbind, go_bind. destruct (isClosed c'); [by exists ErrClosed; split; [| intros []] |].
    rewrite Hnone. exists NcpErrSessionClosed. split; [done | by intros []]. }
  rewrite (go_bind_ok _ _ _ _ _ (try_err _ _ _ _ He)).
  rewrite decide_True; [done |]. unfold transient in Ht. destruct e; try (exfalso; apply Ht; split; congruence); tauto.
Qed.

(** ** UDP *)

Lemma tryRedial_count fuel retries j attempt c j' c' :
  tryRedial fuel retries j attempt c = (Ok (RdEnd j'), c') → (j ≤ j')%Z.
Proof.
  revert j c. induction fuel as [|fuel IH]; intros j c H; cbn [tryRedial] in H.
  { case_decide; [done |]. injection H as <- <-. lia. }
  case_decide; [| injection H as <- <-; lia]. unfold try, mbind, go_bind in H.
  destruct (attempt j c) as [[[]|e|p] c1]; [injection H as <- <-; lia | | done].
  case_decide; [done |]. apply IH in H. lia.
Qed.

Lemma kt_established u : keeps World.config (Udp.GetEstablishedUDPConn u).
Proof. unfold Udp.GetEstablishedUDPConn. auto 20 with frame. Qed.

Lemma kt_tcpMsg fuel u conn key b : keeps World.config (Udp.tcpMsg_loop fuel u conn key b).
Proof.
  revert b. induction fuel as [|fuel IH]; intros b; cbn [Udp.tcpMsg_loop]; [apply kt_ret |].
  assert (keeps World.config (Udp.handleConnClosed u key)) by (unfold Udp.handleConnClosed; auto 20 with frame).
  apply kt_bind; [apply kt_established |]. intros _. auto 20 with frame.
Qed.

(** Unlimited reconnects of a UDP session end after the first one.  With a negative
    number of retries, which stands for no limit, the reconnect goroutine of
    [DialUDPWithConfig] never goes into a second round, even after a successful
    reconnect: the loop is left when [j >= ReconnectRetries]. *)
Theorem udp_reconnect_unlimited_ends env fuel u remoteAddr id cfg c b c' :
  (ReconnectRetries (World.config c) < 0)%Z →
  udpReconnectRound env fuel u remoteAddr id cfg c = (Ok b, c') → b = false.
Proof.
  intros Hr H. unfold udpReconnectRound in H.
  apply go_bind_inv_ok in H as (us & c1 & H1 & H).
  assert (c1 = c) as -> by (unfold Udp.getUdp, peek, deref in H1; go_unfold; destruct (h_udps (heap c) !! u); by simplify_eq).
  apply go_bind_inv_ok in H as (conn & c1 & H2 & H).
  assert (c1 = c) as -> by (unfold deref, mret, go_ret in H2; destruct (tcpConn us); by simplify_eq).
  apply go_bind_inv_ok in H as (r & c1 & H3 & H).
  assert (World.config c1 = World.config c) as Hc.
  { assert (keeps World.config (try (Udp.handleTcpMsg u conn (sessionKey remoteAddr id)))) as K.
    { apply kt_try. unfold Udp.handleTcpMsg. apply kt_bind; [apply kt_peek | intros x; apply kt_tcpMsg]. }
    specialize (K c). by rewrite H3 in K. }
  apply go_bind_inv_ok in H as (? & ? & [= <- <-] & H). rewrite Hc in H.
  apply go_bind_inv_ok in H as (us2 & c2 & _ & H). apply go_bind_inv_ok in H as (uc & c3 & _ & H).
  apply go_bind_inv_ok in H as (x & c4 & _ & H).
  destruct (isClosed c1 || uc_IsClosed x); [by injection H as <- _ |].
  rewrite decide_False in H by lia. apply go_bind_inv_ok in H as (rd & c5 & H6 & H).
  destruct rd as [j| |]; [| by injection H as <- _..].
  apply tryRedial_count in H6. injection H as <- _. apply bool_decide_false. lia.
Qed.

End dial.

(** ** Runs *)
Module DialRuns.
Import Demo ClientRuns.

Definition entry : PubAddr := mkPubAddr "1.2.3.4" 40000 "" "".
Definition up : net := mkNet (Race.OErr CtxDeadlineExceeded) (λ _, Ok (demo_conn [])) (Ok nonce1).
Definition cfg0 : dialConfig := mkDialConfig 1000 None.
Definition carol : Client := client_with "carol" "dave" (demo_conn []) false.

(** What the dialer puts on the wire for session [id1]. *)
Definition meta1 : bytes :=
  match MarshalMetadata (mkMetadata id1 SessionType_TCP "") with Ok b => b | _ => [] end.

Lemma dial_handshake_witness :
  ∃ conn x cA', dialTcpConn up "bob" id1 SessionType_TCP 2 (Some entry) cfg0 carol = (Ok conn, cA') ∧
    h_conns (heap cA') !! conn = Some x ∧
    conn_of (table cA') (sessionKey "bob" id1) (connID 2) = Some conn ∧
    ∃ c1, serveConn 2 3 (client_with "bob" "alice" (demo_conn [wr_out x]) false) =
      (serveTcp 3 "carol" id1 2;; closeConn 3) c1.
Proof.
  destruct (dial_handshake up "bob" (copy_array 32 (string_bytes "bob")) id1 SessionType_TCP 2 entry cfg0 carol
    (demo_conn []) nonce1 meta1) with (cB := client_with "bob" "alice" (demo_conn []) false)
    (pA := copy_array 32 (string_bytes "carol")) as (conn & x & cA' & H1 & H2 & H3 & _);
    [done | done | reflexivity | reflexivity | reflexivity | done | reflexivity | by vm_compute; split; congruence
    | by vm_compute | reflexivity | apply (acc_len _ _ _ (demo_account "carol")) | apply cache_ok_empty
    | apply demo_account | apply demo_account | apply cache_ok_empty | reflexivity | by vm_compute; congruence
    | by vm_compute; congruence |].
  destruct (dial_handshake up "bob" (copy_array 32 (string_bytes "bob")) id1 SessionType_TCP 2 entry cfg0 carol
    (demo_conn []) nonce1 meta1) with (cB := client_with "bob" "alice" (demo_conn [wr_out x]) false)
    (pA := copy_array 32 (string_bytes "carol")) as (conn' & x' & cA'' & H1' & H2' & _ & H4);
    [done | done | reflexivity | reflexivity | reflexivity | done | reflexivity | by vm_compute; split; congruence
    | by vm_compute | reflexivity | apply (acc_len _ _ _ (demo_account "carol")) | apply cache_ok_empty
    | apply demo_account | apply demo_account | apply cache_ok_empty | reflexivity | by vm_compute; congruence
    | by vm_compute; congruence |].
  rewrite H1 in H1'. injection H1' as <- <-. rewrite H2 in H2'. injection H2' as <-.
  exists conn, x, cA'. split; [exact H1 |]. split; [exact H2 |]. split; [by apply H3 |].
  destruct (H4 2%Z 3 (demo_conn [wr_out x]) []) as (segs & ks & _ & E); [reflexivity | reflexivity | done |].
  eexists. exact E.
Defined.

(** The peer answers with two addresses; both are dialed, the second one first. *)
Definition answered : net := mkNet (Race.OMsg (Some RemoteRuns.reply)) (λ _, Ok (demo_conn [])) (Ok nonce1).
Definition dial_run : res (option nat) * Client :=
  DialWithConfig answered (λ _, up) (λ k, reverse (seq 0 k)) (Ok id1) "bob" (Some cfg0) RemoteRuns.alice.

Lemma DialWithConfig_not_nil_witness :
  ∃ sess, dial_run.1 = Ok (Some sess) ∧ sessions (table dial_run.2) !! sessionKey "bob" id1 = Some sess.
Proof.
  assert (∃ r, dial_run.1 = Ok r) as [r Hr] by (eexists; vm_compute; reflexivity).
  destruct (DialWithConfig_not_nil answered (λ _, up) (λ k, reverse (seq 0 k)) (Ok id1) "bob" (Some cfg0)
    RemoteRuns.alice r dial_run.2) as (sess & a & id & -> & Ha & Hid & H).
  - intros a pa. simpl. by rewrite lookup_empty.
  - intros k i Hi. apply elem_of_reverse, elem_of_seq. lia.
  - rewrite <- Hr. by destruct dial_run eqn:E; unfold dial_run in E.
  - injection Ha as <-. injection Hid as <-. exists sess. by split.
Defined.

(** The peer of the session of [carol] lists two addresses; her third connection ends. *)
Definition carol_bob : Client := client_with "carol" "bob" (demo_conn []) false.

Lemma reconnect_gives_up_witness :
  (tryReconnect 5 (-1) 0 (λ _, reconnect answered "bob" id1 2 cfg0) carol_bob).1 = Ok (RcConn None).
Proof.
  destruct (getPubAddrsFromRemote (n_outcome answered) "bob" id1 carol_bob) as [r c1] eqn:E.
  assert (r = Ok (mkPubAddrs [Some (mkPubAddr "1.2.3.4" 40000 "" ""); Some (mkPubAddr "1.2.3.4" 40001 "" "")] false)) as ->.
  { change r with (r, c1).1. rewrite <- E. vm_compute. reflexivity. }
  rewrite (reconnect_gives_up answered "bob" id1 2 cfg0 carol_bob c1 5 (mkDemoSession "bob" false [])
    (mkPubAddrs [Some (mkPubAddr "1.2.3.4" 40000 "" ""); Some (mkPubAddr "1.2.3.4" 40001 "" "")] false) (-1) 4);
    [reflexivity | reflexivity | by vm_compute | reflexivity | by vm_compute | exact E
    | by vm_compute | by left].
Defined.

Lemma last_connection_not_reconnected_witness :
  ∃ c', handleConn (Some 3) "bob" id1 0 carol_bob = (Ok tt, c') ∧
    tryReconnect 5 (-1) 0 (λ _, reconnect answered "bob" id1 0 cfg0) c' = (Ok RcStop, c').
Proof.
  destruct (handleConn (Some 3) "bob" id1 0 carol_bob) as [r c'] eqn:E.
  assert (r = Ok tt) as ->.
  { change r with (r, c').1. rewrite <- E. vm_compute. reflexivity. }
  exists c'. split; [done |].
  apply (last_connection_not_reconnected 3 "bob" id1 0 carol_bob c' 5 (λ _, answered) cfg0 (-1) 4);
    [by vm_compute | by vm_compute | exact E | by left].
Defined.

(** A dialer whose TCP connection ends; the network is up again. *)
Definition udp_client : Client :=
  demo_client "carol" (mkHeap {[0 := demo_conn []]} ∅ {[0 := mkDemoSocket false [] []]}
    {[0 := mkUdp false (Some 0) 4 [] 0 None (Some 0) None ∅ ∅ ∅]} ∅).

Lemma udp_reconnect_unlimited_ends_witness :
  (udpReconnectRound (λ _, answered) 5 0 "bob" id1 cfg0 udp_client).1 = Ok false.
Proof.
  destruct (udpReconnectRound (λ _, answered) 5 0 "bob" id1 cfg0 udp_client) as [r c'] eqn:E.
  assert (∃ b, r = Ok b) as [b ->].
  { eexists. change r with (r, c').1. rewrite <- E. vm_compute. reflexivity. }
  rewrite (udp_reconnect_unlimited_ends (λ _, answered) 5 0 "bob" id1 cfg0 udp_client b c');
    [reflexivity | by vm_compute | exact E].
Defined.

End DialRuns.
