(* ===== verification/System.v ===== *)
(** * The client as a system of goroutines

    The handlers of [Client], [Dial] and [Udp] cut at the points where a goroutine can be
    interrupted: between two critical sections, and between two messages.  [gstep] runs one
    such piece and returns the goroutines that go on; [sys_step] interleaves the pieces of
    all goroutines with the calls of the application and the passing of time.  The pieces
    of [serveConn] put together again are that handler ([serveConn_split]). *)

From stdpp Require Import base gmap strings list numbers tactics relations.
From Stdlib Require Import ZArith Lia.
From S2P Require Import Prelude Util Message Crypto Pb Config Table Json JsonInv World Udp Client Exits Remote Dial.
Import Keys Framing Client Exits Remote Dial.

Section system.
Context `{L : LibOps, MO : !MergeOps}.

(** ** Pieces of handlers *)

(** [listenNet]: the two messages that introduce a connection; a connection that is not
    accepted is closed. *)
Definition handshake (conn : nat) : go Client (option (string * SessionMetadata)) :=
  r ← try (on_conn conn (readMessage maxAddrSize));
  match r with
  | inr _ => closeConn conn;; mret None
  | inl buf =>
      let remoteAddr := bytes_string buf in
      c ← get;
      if negb (shouldAcceptAddr c remoteAddr) then closeConn conn;; mret None
      else
        r ← try (buf ← on_conn conn (readMessage maxSessionMetadataSize);
                 metadataRaw ← on_keys (Crypto.decode (privKey c) buf remoteAddr);
                 lift_res (UnmarshalMetadata metadataRaw));
        match r with
        | inr _ => closeConn conn;; mret None
        | inl metadata => mret (Some (remoteAddr, metadata))
        end
  end.

(** The session [listenNet] makes, with a connection for each listener. *)
Definition listenSession (c : Client) (remoteAddr : string) : res session :=
  if decide (NumTunaListeners (config c) < 0)%Z then Panic MakeSliceLen
  else newSession c remoteAddr
         ((λ j, connID (Z.of_nat j)) <$> seq 0 (Z.to_nat (NumTunaListeners (config c)))) (SessionConfig (config c)).

(** [listenNet]: the critical section that finds or makes the session. *)
Definition register (conn : nat) (remoteAddr : string) (sessionID : bytes) (i : Z) : go Client registered :=
  let sessKey := sessionKey remoteAddr sessionID in
  c ← get;
  let mk := listenSession c remoteAddr in
  let ref := fresh (dom (h_sess (heap c))) in
  '(r, t) ← lift_res (registerConn (now c) sessKey i conn (mk ≫= λ _, Ok ref) (table c));
  (match r with
   | RegNew _ => s ← lift_res mk; modify (λ c, set_heap (put_sess ref s (heap c)) c)
   | _ => mret tt
   end);;
  modify (set_table t);;
  mret r.

(** The select that queues a new session for [AcceptSession]. *)
Definition queueSession (sess : nat) : go Client unit :=
  modify (λ c, if decide (length (acceptSession c) < acceptSessionBufSize)
               then set_acceptSession (acceptSession c ++ [sess]) c else c).

(** [handleTcpMsg], one turn after its check; [None] when it returns. *)
Definition tcpMsg_turn (u conn : nat) (sessKey : string) (b : bytes) : go Client (option bytes) :=
  r ← try (on_conn conn (Message.Read 1024));
  match r with
  | inr _ => mret None
  | inl got =>
      let n := length got in
      let b := got ++ drop n b in
      if decide (head b ≠ Some (byte_of HeaderType_SESSION)) then mret (Some b)
      else if decide (n = 0) then crash SliceRange
      else
        r ← try (lift_res (parseSessionData (drop 1 got)));
        match r with
        | inr _ => mret (Some b)
        | inl sessData =>
            if decide (MsgType sessData = MsgType_CLOSE)
            then Udp.handleConnClosed u sessKey;; mret None
            else mret (Some b)
        end
  end.

(** ** Goroutines *)

(** A connection with its index, its peer and the id of its session. *)
Record link := mkLink { k_i : Z; k_conn : nat; k_remote : string; k_id : bytes }.

Definition k_key (l : link) : string := sessionKey (k_remote l) (k_id l).

(** Who called [handleConn]: the goroutine of [listenNet] or that of [DialWithConfig]. *)
Inductive caller := KServe | KDial (config : dialConfig).

(** A dialer's UDP session, its peer and the configuration it was dialed with. *)
Record uplink := mkUp { p_udp : nat; p_remote : string; p_id : bytes; p_config : dialConfig }.

(** Who called [DialUpSession]: [DialUDPWithConfig], or attempt [j] of its goroutine. *)
Inductive dialer := DFirst | DAgain (j : Z).

(** Who called [handleTcpMsg]: the goroutine of a listener, or that of a dialer. *)
Inductive watcher := WListener (u : nat) (sessKey : string) | WDialer (l : uplink).

Definition w_udp (w : watcher) : nat := match w with WListener u _ => u | WDialer l => p_udp l end.
Definition w_key (w : watcher) : string :=
  match w with WListener _ sessKey => sessKey | WDialer l => sessionKey (p_remote l) (p_id l) end.

(** Who called [Close] of a UDP session: the application, or [DialUpSession] after an error. *)
Inductive closer := XCall | XDial (k : dialer) (l : uplink) (err : error).

Inductive goroutine :=
  (* listenNet, and its goroutine for a connection *)
  | GListen (i : Z)
  | GServe (i : Z) (conn : nat)
  | GRegister (l : link)
  | GFirst (l : link) (sess : nat)
  | GQueue (l : link) (sess : nat)
  (* handleConn: before its first section, in its loop, before its deferred section and
     before it closes the session; [connStr] is the address it counts *)
  | GEnter (k : caller) (l : link)
  | GLoop (k : caller) (l : link) (connStr : string) (sess : nat)
  | GExit (k : caller) (l : link) (connStr : string) (sess : nat)
  | GSessClose (k : caller) (l : link) (sess : nat)
  | GAfter (k : caller) (l : link)
  | GCloseConn (conn : nat)
  (* the attempts to reconnect a dialed connection; without any (the limit was set to 0
     meanwhile) the loop goes on with the old one *)
  | GRetry (config : dialConfig) (l : link) (j : Z)
  | GAsk (config : dialConfig) (l : link) (j : Z) (sess : nat)
  | GAnswer (config : dialConfig) (l : link) (j : Z) (sess : nat)
  | GRedial (config : dialConfig) (l : link) (j : Z) (pa : PubAddrs)
  (* DialWithConfig: the request, the connections still to be dialed, the session *)
  | GDial (remoteAddr : string) (dc : option dialConfig) (randID : res bytes)
  | GDialAnswer (config : dialConfig) (remoteAddr : string) (sessionID : bytes)
  | GDialAll (config : dialConfig) (remoteAddr : string) (sessionID : bytes)
      (addrs : list (option PubAddr)) (pending : list nat)
  | GDialStore (config : dialConfig) (remoteAddr : string) (sessionID : bytes)
      (addrs : list (option PubAddr)) (conns : gmap string nat) (sess : nat)
  | GDialSess (sess : nat)
  (* the other goroutines of the client *)
  | GRemover
  | GNKN
  | GExitConnected (te : nat)
  | GExitClose (te : nat)
  | GWhenConnected (n : nat)
  (* RotateAll with [n] exits to go, and before its new exit is put in place *)
  | GRotate (n : nat) (i : Z)
  | GRotateSwap (n : nat) (i : Z) (te : nat)
  (* UDP: the receive loop before its check and before its read returns *)
  | GRecv (u : nat) (buf : bytes)
  | GRecvFrom (u : nat) (buf : bytes)
  (* ReadFrom in its select, with the context it waits for, and with what it received *)
  | GRead (u : nat) (ctx : option Z)
  | GRelease (u : nat) (msg : recvData)
  (* Close of a UDP session: before its message, before the socket, before its section *)
  | GUdpClose (x : closer) (u : nat)
  | GUdpCloseSocket (x : closer) (u : nat)
  | GUdpCloseMaps (x : closer) (u : nat)
  (* handleTcpMsg before its check and before its read; the end of a listener's *)
  | GMonitor (w : watcher) (conn : nat) (b : bytes)
  | GMonitorRead (w : watcher) (conn : nat) (b : bytes)
  | GMonitorEnd (u : nat) (sessKey : string)
  (* DialUDPWithConfig, and the goroutine that dials its session again *)
  | GUdpDial (remoteAddr : string) (dc : option dialConfig) (randID : res bytes)
  | GUp (k : dialer) (l : uplink)
  | GUpAnswer (k : dialer) (l : uplink)
  | GUpConnect (k : dialer) (l : uplink) (pa : PubAddrs)
  | GUpMeta (k : dialer) (l : uplink) (ua : string)
  | GUpCodec (k : dialer) (l : uplink) (ua : string)
  | GUpRound (l : uplink)
  | GUpAfter (l : uplink)
  | GUpRetry (l : uplink) (j : Z).

(** What the outside does during one step. *)
Record env := mkEnv {
  e_net : net;                           (* the network, for requests and dials *)
  e_accept : res Conn;                   (* Accept of a listener *)
  e_dgram : option Udp.datagram;         (* a datagram, or an error of the read *)
  e_msg : option (string * bytes);       (* a message of the NKN network, or its end *)
  e_pick : nat;                          (* which dialing goroutine finishes next *)
  e_choice : bool                        (* a datagram before an expired deadline *)
}.

(** The network reports failures as errors, as does the source of random bytes. *)
Definition net_ok (n : net) : Prop :=
  (∀ a, is_panic (n_dial n a) = false) ∧ is_panic (n_rand n) = false.

Record env_ok (e : env) : Prop := {
  eo_net : net_ok (e_net e);
  eo_accept : is_panic (e_accept e) = false
}.

(** The retry loop after an error: a closed session ends it. *)
Definition retryNext (config : dialConfig) (l : link) (j : Z) (err : error) : list goroutine :=
  if decide (err = ErrClosed ∨ err = NcpErrSessionClosed) then [] else [GRetry config l (j + 1)].

(** [DialWithConfig] with the addresses of the peer: the goroutines that dial. *)
Definition dialStart (config : dialConfig) (remoteAddr : string) (sessionID : bytes) (pa : PubAddrs)
    : go Client (list goroutine) :=
  c ← get;
  lift_res (checkAddrs (Verbose (World.config c)) (Addrs pa));;
  mret [GDialAll config remoteAddr sessionID (Addrs pa)
          (filter (λ i, Is_true (from_option usable false (Addrs pa !! i))) (seq 0 (length (Addrs pa))))].

(** [DialWithConfig], once every connection was tried: the session, when there is one.  The
    connections it goes on with are those it sees now: the map is shared, but only a peer
    that takes the key of the session could change it before they are handled. *)
Definition dialJoin (config : dialConfig) (remoteAddr : string) (sessionID : bytes)
    (addrs : list (option PubAddr)) : go Client (list goroutine) :=
  c ← get;
  let conns := default ∅ (sessionConns (table c) !! sessionKey remoteAddr sessionID) in
  if decide (conns = ∅) then mret []
  else
    let connIDs := filter (λ id, is_Some (conns !! id)) (connID <$> indices addrs) in
    r ← try (lift_res (newSession c remoteAddr connIDs (DialSessionConfig config)));
    match r with
    | inr _ => mret []
    | inl s => sess ← new_sess s; mret [GDialStore config remoteAddr sessionID addrs conns sess]
    end.

(** What follows [DialUpSession]: the first time its goroutines start; after a success at
    attempt [j] the reconnect loop goes on when [j] is below the limit; an error other than
    [ErrClosed] is followed by the next attempt. *)
Definition upNext (k : dialer) (l : uplink) (r : unit + error) : go Client (list goroutine) :=
  match k, r with
  | DFirst, inl _ =>
      spawn (TRecvMsg (p_udp l));;
      spawn (TUdpReconnect (p_udp l) (p_remote l) (p_id l) (p_config l));;
      mret []
  | DFirst, inr _ => mret []
  | DAgain j, inl _ =>
      c ← get;
      mret (if decide (j < ReconnectRetries (World.config c))%Z then [GUpRound l] else [])
  | DAgain j, inr e => mret (if decide (e = ErrClosed) then [] else [GUpRetry l (j + 1)])
  end.

(** [Close] of a UDP session has returned. *)
Definition closeNext (x : closer) : go Client (list goroutine) :=
  match x with
  | XCall => mret []
  | XDial k l err => upNext k l (inr err)
  end.

(** [handleTcpMsg] has returned. *)
Definition watchNext (w : watcher) : list goroutine :=
  match w with WListener u sessKey => [GMonitorEnd u sessKey] | WDialer l => [GUpAfter l] end.

Definition gstep (e : env) (g : goroutine) : go Client (list goroutine) :=
  match g with
  | GListen i => again ← listenNet i (e_accept e); mret (if again : bool then [GListen i] else [])
  | GServe i conn =>
      r ← handshake conn;
      match r with
      | None => mret []
      | Some (remoteAddr, metadata) =>
          if decide (SessionType metadata = SessionType_UDP)
          then Udp.handleUdpListenerTcp conn remoteAddr (Id metadata);; mret []
          else mret [GRegister (mkLink i conn remoteAddr (Id metadata))]
      end
  | GRegister l =>
      r ← register (k_conn l) (k_remote l) (k_id l) (k_i l);
      mret (match r with
            | RegRefused => [GCloseConn (k_conn l)]
            | RegOld _ => [GEnter KServe l]
            | RegNew sess => [GFirst l sess]
            end)
  | GFirst l sess =>
      r ← try (handleMsg (k_conn l) sess (k_i l));
      mret (match r with inl _ => [GQueue l sess] | inr _ => [GCloseConn (k_conn l)] end)
  | GQueue l sess => queueSession sess;; mret [GEnter KServe l]
  | GEnter k l =>
      x ← peek h_conns (k_conn l);
      c ← get;
      match connEnter (k_key l) (k_remote l) (conn_remote x) (table c) with
      | None => mret [GAfter k l]
      | Some (sess, t) => modify (set_table t);; mret [GLoop k l (conn_remote x) sess]
      end
  | GLoop k l connStr sess =>
      r ← try (handleMsg (k_conn l) sess (k_i l));
      mret (match r with inl _ => [GLoop k l connStr sess] | inr _ => [GExit k l connStr sess] end)
  | GExit k l connStr sess =>
      c ← get;
      '(shouldClose, t) ← lift_res (connExit (now c) (k_key l) (k_remote l) connStr (k_i l) (table c));
      modify (set_table t);;
      mret (if shouldClose : bool then [GSessClose k l sess] else [GAfter k l])
  | GSessClose k l sess => try (on_sess sess ncp_Close);; mret [GAfter k l]
  | GAfter KServe l => closeConn (k_conn l);; mret []
  | GAfter (KDial config) l =>
      c ← get;
      if decide (ReconnectRetries (World.config c) = 0%Z) then closeConn (k_conn l);; mret []
      else mret [GRetry config l 0]
  | GCloseConn conn => closeConn conn;; mret []
  | GRetry config l j =>
      c ← get;
      let retries := ReconnectRetries (World.config c) in
      if decide (retries < 0 ∨ j < retries)%Z then
        if isClosed c then mret []
        else
          match sessions (table c) !! k_key l with
          | None => mret []
          | Some sess =>
              s ← peek h_sess sess;
              mret (if ncp_IsClosed s then [] else [GAsk config l j sess])
          end
      else mret (if decide (j = 0%Z) then [GEnter (KDial config) l] else [])
  | GAsk config l j sess =>
      c ← get;
      mret (match getCachedPubAddrs (k_remote l) c with
            | Some pa => [GRedial config l j pa]
            | None => [GAnswer config l j sess]
            end)
  | GAnswer config l j sess =>
      r ← try (remoteAnswer (n_outcome (e_net e)) (k_remote l) (k_id l));
      match r with
      | inl pa => mret [GRedial config l j pa]
      | inr err =>
          if decide (err = ErrClosed) then try (on_sess sess ncp_Close);; mret []
          else mret (retryNext config l j err)
      end
  | GRedial config l j pa =>
      if decide (k_i l < Z.of_nat (length (Addrs pa)))%Z then
        match Addrs pa !! Z.to_nat (k_i l) with
        | None => crash IndexRange
        | Some a =>
            r ← try (dialTcpConn (e_net e) (k_remote l) (k_id l) SessionType_TCP (k_i l) a config);
            mret (match r with
                  | inl conn => [GEnter (KDial config) (mkLink (k_i l) conn (k_remote l) (k_id l))]
                  | inr err => retryNext config l j err
                  end)
        end
      else mret []
  | GDial remoteAddr dc randID =>
      c ← get;
      r ← try (lift_res (config ← MergeDialConfig (SessionConfig (World.config c)) dc;
                         remoteAddr ← ResolveDest remoteAddr;
                         sessionID ← randID;
                         Ok (config, remoteAddr, sessionID)));
      match r with
      | inr _ => mret []
      | inl (config, remoteAddr, sessionID) =>
          match getCachedPubAddrs remoteAddr c with
          | Some pa => dialStart config remoteAddr sessionID pa
          | None => mret [GDialAnswer config remoteAddr sessionID]
          end
      end
  | GDialAnswer config remoteAddr sessionID =>
      r ← try (remoteAnswer (n_outcome (e_net e)) remoteAddr sessionID);
      match r with
      | inl pa => dialStart config remoteAddr sessionID pa
      | inr _ => mret []
      end
  | GDialAll config remoteAddr sessionID addrs pending =>
      match pending with
      | [] => dialJoin config remoteAddr sessionID addrs
      | _ =>
          let k := e_pick e mod length pending in
          let i := default 0 (pending !! k) in
          try (dialTcpConn (e_net e) remoteAddr sessionID SessionType_TCP (Z.of_nat i)
                 (default None (addrs !! i)) config);;
          mret [GDialAll config remoteAddr sessionID addrs (delete k pending)]
      end
  | GDialStore config remoteAddr sessionID addrs conns sess =>
      modify (λ c, set_table (dialSession (sessionKey remoteAddr sessionID) sess (table c)) c);;
      spawnConns conns remoteAddr sessionID config (indices addrs);;
      mret [GDialSess sess]
  | GDialSess sess => try (on_sess sess ncp_Dial);; mret []
  | GRemover => again ← removeClosedSessions; mret (if again : bool then [GRemover] else [])
  | GNKN =>
      match e_msg e with
      | None => mret []
      | Some (src, data) => handleRequest src data;; mret [GNKN]
      end
  | GExitConnected _ => c ← get; if onClose c then mret [] else exitConnected;; mret []
  | GExitClose te => on_exit te (modify te_Close);; mret []
  | GWhenConnected n =>
      c ← get;
      if onClose c then mret []
      else if onConnect (exits c) then listenWhenConnected n;; mret []
      else mret [GWhenConnected n]
  | GRotate n i =>
      match n with
      | 0 => mret []
      | S n =>
          r ← try (rotateStart i);
          mret (match r with inl te => [GRotateSwap n i te] | inr _ => [] end)
      end
  | GRotateSwap n i te => rotateSwap i te;; mret [GRotate n (i + 1)]
  | GRecv u buf =>
      r ← try (Udp.GetEstablishedUDPConn u);
      mret (match r with inl _ => [GRecvFrom u buf] | inr _ => [] end)
  | GRecvFrom u buf =>
      match e_dgram e with
      | None => mret [GRecv u buf]
      | Some dg => buf ← Udp.recvOne u buf dg; mret [GRecv u buf]
      end
  | GRead u ctx =>
      us ← Udp.getUdp u;
      c ← get;
      let expired := match ctx with Some t => bool_decide (t ≤ now c)%Z | None => false end in
      match Udp.readTake us with
      | Some (msg, us') =>
          if expired && negb (e_choice e) then mret []
          else Udp.updUdp u (λ _, us');; mret [GRelease u msg]
      | None => mret (if expired then [] else [GRead u ctx])
      end
  | GRelease u msg => Udp.updUdp u (Udp.readRelease (Z.of_nat (length (rd_data msg))));; mret []
  | GUdpClose x u => try (Udp.sendCloseMsg u None);; mret [GUdpCloseSocket x u]
  | GUdpCloseSocket x u => Udp.closeSocket u;; mret [GUdpCloseMaps x u]
  | GUdpCloseMaps x u => try (Udp.closeSection u);; closeNext x
  | GMonitor w conn b =>
      r ← try (Udp.GetEstablishedUDPConn (w_udp w));
      mret (match r with inl _ => [GMonitorRead w conn b] | inr _ => watchNext w end)
  | GMonitorRead w conn b =>
      r ← tcpMsg_turn (w_udp w) conn (w_key w) b;
      mret (match r with Some b => [GMonitor w conn b] | None => watchNext w end)
  | GMonitorEnd u sessKey => Udp.updUdp u (Udp.delTcp sessKey);; mret []
  | GUdpDial remoteAddr dc randID =>
      c ← get;
      r ← try (lift_res (config ← MergeDialConfig (SessionConfig (World.config c)) dc;
                         remoteAddr ← ResolveDest remoteAddr;
                         sessionID ← randID;
                         Ok (config, remoteAddr, sessionID)));
      match r with
      | inr _ => mret []
      | inl (config, remoteAddr, sessionID) =>
          u ← Udp.newUdpSession false;
          mret [GUp DFirst (mkUp u remoteAddr sessionID config)]
      end
  | GUp k l =>
      c ← get;
      if isClosed c then upNext k l (inr ErrClosed)
      else mret (match getCachedPubAddrs (p_remote l) c with
                 | Some pa => [GUpConnect k l pa]
                 | None => [GUpAnswer k l]
                 end)
  | GUpAnswer k l =>
      r ← try (remoteAnswer (n_outcome (e_net e)) (p_remote l) (p_id l));
      match r with
      | inl pa => mret [GUpConnect k l pa]
      | inr err => upNext k l (inr err)
      end
  | GUpConnect k l pa =>
      r ← try (upConnect (e_net e) (p_udp l) (p_remote l) (p_id l) (p_config l) pa);
      match r with
      | inl ua => mret [GUpMeta k l ua]
      | inr err => upNext k l (inr err)
      end
  | GUpMeta k l ua =>
      r ← try (Udp.sendMetaData (p_udp l) (p_id l));
      mret (match r with
            | inl _ => [GUpCodec k l ua]
            | inr err => [GUdpClose (XDial k l err) (p_udp l)]
            end)
  | GUpCodec k l ua =>
      r ← try (Udp.addCodec (p_udp l) ua (p_remote l));
      match r with
      | inl _ => upNext k l (inl tt)
      | inr err => mret [GUdpClose (XDial k l err) (p_udp l)]
      end
  | GUpRound l =>
      us ← Udp.getUdp (p_udp l);
      conn ← deref (tcpConn us);
      mret [GMonitor (WDialer l) conn (replicate 1024 Byte.x00)]
  | GUpAfter l =>
      c ← get;
      us ← Udp.getUdp (p_udp l);
      uc ← deref (udpConn us);
      x ← peek h_udpconns uc;
      mret (if isClosed c || uc_IsClosed x then []
            else if decide (ReconnectRetries (World.config c) = 0%Z) then [] else [GUpRetry l 0])
  | GUpRetry l j =>
      c ← get;
      let retries := ReconnectRetries (World.config c) in
      mret (if decide (retries < 0 ∨ j < retries)%Z then [GUp (DAgain j) l]
            else [])
  end.

(** The goroutine a [go] statement starts; [StartReverse] runs library code only. *)
Definition start_task (t : task) : list goroutine :=
  match t with
  | TServe i conn => [GServe i conn]
  | TListenNet i => [GListen i]
  | TListenNKN => [GNKN]
  | TStartReverse _ => []
  | TExitConnected te => [GExitConnected te]
  | TExitClose te => [GExitClose te]
  | TListenWhenConnected n => [GWhenConnected n]
  | TDialConn conn remoteAddr sessionID i config =>
      [GEnter (KDial config) (mkLink i conn remoteAddr sessionID)]
  | TRecvMsg u => [GRecv u (replicate MaxUDPBufferSize Byte.x00)]
  | TUdpMonitor u conn sessKey => [GMonitor (WListener u sessKey) conn (replicate 1024 Byte.x00)]
  | TUdpReconnect u remoteAddr sessionID config => [GUpRound (mkUp u remoteAddr sessionID config)]
  end.

(** ** Calls of the application *)

Inductive call :=
  | CSend (rand : res bytes) (remoteAddr : string) (sessionID : bytes) (connId : string) (buf : bytes)
      (writeTimeout : Z)                                   (* the send callback of a session *)
  | CAccept (choice : nat → bool)
  | CClose
  | CSetConfig (conf : Config)
  | CSetTunaNode (n : node)
  | CListen (pick : Port.OS → option Z) (addrsRe : option (list string))
  | CRotateOne (i : Z)
  | CRotateAll
  | CCloseOneConn (sess : nat) (connId : string)
  | CDial (remoteAddr : string) (dc : option dialConfig) (randID : res bytes)
  | CListenUDP (pick : Port.OS → option Z)
  | CReadFrom (u : nat)
  | CWriteTo (u : nat) (b : bytes) (a : Udp.netAddr)
  | CWrite (u : nat) (b : bytes)
  | CUdpSet (u : nat) (o : sockopt)
  | CUdpClose (u : nat)
  | CDialUDP (remoteAddr : string) (dc : option dialConfig) (randID : res bytes).

(** The arguments an application passes: sessions it was given, random bytes drawn without
    a panic, and free ports the system really picks. *)
Definition pick_ok (pick : Port.OS → option Z) : Prop :=
  ∀ o p, pick o = Some p → (0 < p ≤ Port.maxPort)%Z ∧ ¬ Port.tcp_busy o p.

Definition call_ok (h : Heap) (a : call) : Prop :=
  match a with
  | CSend rand _ _ _ _ _ => is_panic rand = false
  | CDial _ _ randID | CDialUDP _ _ randID => is_panic randID = false
  | CListen pick _ | CListenUDP pick => pick_ok pick
  | CReadFrom u | CWriteTo u _ _ | CWrite u _ | CUdpSet u _ | CUdpClose u => is_Some (h_udps h !! u)
  | _ => True
  end.

Definition discard {S A} (m : go S A) : go S (list goroutine) := try m;; mret [].

(** A call, and the goroutine that runs the ones that can be interrupted.  The error a
    call returns is for the application. *)
Definition run_call (a : call) : go Client (list goroutine) :=
  match a with
  | CSend rand remoteAddr sessionID connId buf writeTimeout =>
      discard (sessionSend rand remoteAddr sessionID connId buf writeTimeout)
  | CAccept choice => discard (AcceptSession choice)
  | CClose => discard Close
  | CSetConfig conf => discard (SetConfig conf)
  | CSetTunaNode n => discard (SetTunaNode n)
  | CListen pick addrsRe => discard (Listen pick addrsRe)
  | CRotateOne i =>
      r ← try (rotateStart i);
      mret (match r with inl te => [GRotateSwap 0 i te] | inr _ => [] end)
  | CRotateAll => c ← get; mret [GRotate (length (listeners (exits c))) 0]
  | CCloseOneConn sess connId => discard (CloseOneConn sess connId)
  | CDial remoteAddr dc randID => mret [GDial remoteAddr dc randID]
  | CListenUDP pick => discard (ListenUDP pick)
  | CReadFrom u =>
      closed ← Udp.IsClosed u;
      us ← Udp.getUdp u;
      mret (if closed : bool then [] else [GRead u (readContext us)])
  | CWriteTo u b a => discard (Udp.WriteTo u b a)
  | CWrite u b => discard (Udp.Write u b)
  | CUdpSet u o =>
      discard (match o with
               | OptDeadline t => Udp.SetDeadline u t
               | OptReadDeadline t => Udp.SetReadDeadline u t
               | OptWriteDeadline t => Udp.SetWriteDeadline u t
               | OptReadBuffer size => Udp.SetReadBuffer u size
               | OptWriteBuffer size => Udp.SetWriteBuffer u size
               end)
  | CUdpClose u => mret [GUdpClose XCall u]
  | CDialUDP remoteAddr dc randID => mret [GUdpDial remoteAddr dc randID]
  end.

(** ** The system *)

Record sys := mkSys { s_client : Client; s_gs : list goroutine }.

(** A step of the system; a panic ends the process, so it is not a step. *)
Inductive sys_step : sys → sys → Prop :=
  | ss_run e g l1 l2 c gs c' :
      env_ok e → gstep e g c = (Ok gs, c') →
      sys_step (mkSys c (l1 ++ g :: l2)) (mkSys c' (gs ++ l1 ++ l2))
  | ss_start t ts1 ts2 c l :
      tasks c = ts1 ++ t :: ts2 →
      sys_step (mkSys c l) (mkSys (set_tasks (ts1 ++ ts2) c) (start_task t ++ l))
  | ss_call a c gs c' l :
      call_ok (heap c) a → run_call a c = (Ok gs, c') → sys_step (mkSys c l) (mkSys c' (gs ++ l))
  | ss_tick t c l :
      (now c ≤ t)%Z → sys_step (mkSys c l) (mkSys (set_now t c) l).

(** A client as [NewTunaSessionClient] returns it, with its cleaner. *)
Inductive sys_start : sys → Prop :=
  | sys_new sk a w conf o t c :
      (0 ≤ t)%Z → NewTunaSessionClient sk a w conf o t = Ok c → sys_start (mkSys c [GRemover]).

Definition sys_reachable (s : sys) : Prop := ∃ s0, sys_start s0 ∧ rtc sys_step s0 s.

(** ** The pieces make up the handlers *)

Lemma serveConn_split i conn c :
  serveConn i conn c =
  (r ← handshake conn;
   match r with
   | None => mret tt
   | Some (remoteAddr, metadata) =>
       if decide (SessionType metadata = SessionType_UDP)
       then Udp.handleUdpListenerTcp conn remoteAddr (Id metadata)
       else serveTcp conn remoteAddr (Id metadata) i;; closeConn conn
   end) c.
Proof.
  unfold serveConn, handshake. rewrite <- go_assoc. apply go_bind_ext. intros [buf|e] c1.
  - rewrite <- go_assoc. apply go_bind_ext. intros c2 c3. destruct (negb _).
    + rewrite <- go_assoc. unfold mbind, go_bind. by destruct (closeConn conn c3) as [[[]| |] ?].
    + rewrite <- go_assoc. apply go_bind_ext. intros [md|e] c4; [done |].
      rewrite <- go_assoc. unfold mbind, go_bind. by destruct (closeConn conn c4) as [[[]| |] ?].
  - rewrite <- go_assoc. unfold mbind, go_bind. by destruct (closeConn conn c1) as [[[]| |] ?].
Qed.

Lemma registerConn_new now key i conn ref mk t s t' :
  registerConn now key i conn (mk ≫= λ _ : session, Ok ref) t = Ok (RegNew s, t') →
  s = ref ∧ ∃ x, mk = Ok x.
Proof.
  unfold registerConn, putConn, mbind, res_bind, mret, res_ret. intros H.
  repeat (case_match; simplify_eq/=; try done); eauto.
Qed.

Lemma serveTcp_split conn remoteAddr id i c :
  serveTcp conn remoteAddr id i c =
  (r ← register conn remoteAddr id i;
   match r with
   | RegRefused => mret tt
   | RegOld _ => handleConn (Some conn) remoteAddr id i
   | RegNew sess =>
       first ← try (handleMsg conn sess i);
       match first with
       | inr _ => mret tt
       | inl _ => queueSession sess;; handleConn (Some conn) remoteAddr id i
       end
   end) c.
Proof.
  unfold serveTcp, register, queueSession. generalize (handleConn (Some conn) remoteAddr id i) as h. intros h.
  set (hm := λ sess, try (handleMsg conn sess i)).
  change (try (handleMsg conn ?s i)) with (hm s).
  unfold get, lift_res, modify. unfold mbind, go_bind, mret, go_ret. cbv zeta. fold (listenSession c remoteAddr).
  destruct (registerConn _ _ _ _ _ _) as [[r t]| |] eqn:Er; [| done..].
  destruct r as [s|s|]; [done | | done].
  apply registerConn_new in Er as [-> [x Hx]]. by rewrite Hx.
Qed.

End system.
