(* ===== verification/SystemRuns.v ===== *)
(** * Goroutines that run alone

    The handlers of [Client] and [Dial] are runs of the system: scheduled without
    interruption, the pieces of a goroutine do what the whole handler does.  So what is
    proved of a handler is proved of runs of the system. *)

From stdpp Require Import base gmap strings list numbers tactics relations.
From Stdlib Require Import ZArith Lia.
From S2P Require Import Prelude Util Message Crypto Pb Config Table Json JsonInv World Demo Udp Frame Client ClientInv Exits Remote Dial DialInv System.
Import Keys Framing Client Remote Dial.

Section runs.
Context `{L : LibOps, MO : !MergeOps, LL : !LibLaws L}.

(** The network of a step that does not use it. *)
Definition no_env : env :=
  mkEnv (mkNet Race.ONil (λ _, Err NetErrClosed) (Err NetErrClosed)) (Err NetErrClosed) None None 0 false.

(** One step of the first goroutine. *)
Lemma run_step e g gs c c' l l' :
  env_ok e → gstep e g c = (Ok gs, c') →
  rtc sys_step (mkSys c' (gs ++ l)) l' → rtc sys_step (mkSys c (g :: l)) l'.
Proof. intros He H Hr. eapply rtc_l; [| exact Hr]. by apply (ss_run e g [] l). Qed.

Lemma no_env_ok : env_ok no_env.
Proof. done. Qed.

(** Take the step whose first action is known to have succeeded. *)
Ltac run_piece H :=
  eapply (run_step no_env); [exact no_env_ok | cbn [gstep]; rewrite (go_bind_ok _ _ _ _ _ H); reflexivity |]; cbn [app].

Lemma loop_alone fuel k l str sess gs c c' :
  handleLoop fuel (k_conn l) sess (k_i l) c = (Ok true, c') →
  rtc sys_step (mkSys c (GLoop k l str sess :: gs)) (mkSys c' (GExit k l str sess :: gs)).
Proof.
  revert c. induction fuel as [|fuel IH]; intros c H; cbn [handleLoop] in H; [done |].
  apply go_bind_inv_ok in H as ([[]|e] & c1 & H1 & H).
  - run_piece H1. by apply IH.
  - injection H as <-. run_piece H1. done.
Qed.

Lemma handleConn_alone k l gs c c' :
  handleConn (Some (k_conn l)) (k_remote l) (k_id l) (k_i l) c = (Ok tt, c') →
  rtc sys_step (mkSys c (GEnter k l :: gs)) (mkSys c' (GAfter k l :: gs)).
Proof.
  intros H. unfold handleConn in H. apply go_bind_inv_ok in H as (x & c1 & H1 & H).
  assert (c1 = c ∧ h_conns (heap c) !! k_conn l = Some x) as [-> Hx].
  { unfold peek, deref in H1. go_unfold. destruct (h_conns (heap c) !! k_conn l); by simplify_eq. }
  unfold get in H. unfold mbind at 1, go_bind at 1 in H.
  assert (∀ gs c1, (match connEnter (k_key l) (k_remote l) (conn_remote x) (table c) with
      | None => mret [GAfter k l]
      | Some (sess, t) => modify (set_table t);; mret [GLoop k l (conn_remote x) sess]
      end) c = (Ok gs, c1) → gstep no_env (GEnter k l) c = (Ok gs, c1)) as Henter.
  { intros gs' c1 Hg. cbn [gstep]. rewrite (go_bind_ok _ _ _ _ _ H1). exact Hg. }
  unfold k_key in Henter.
  destruct (connEnter _ _ _ _) as [[sess t]|] eqn:Ee.
  2:{ injection H as <-. eapply run_step; [exact no_env_ok | by apply Henter |]. done. }
  eapply run_step; [exact no_env_ok | by apply Henter |]. cbn [app].
  unfold modify in H. unfold mbind at 1, go_bind at 1 in H. set (c1 := set_table t c) in *.
  apply go_bind_inv_ok in H as (b & c2 & H2 & H).
  assert (b = true) as ->.
  { destruct b; [done |]. exfalso. apply (handleLoop_terminates (S (length (stream x))) (k_conn l) sess (k_i l) c1 x);
      [done | lia | by rewrite H2]. }
  etrans; [by eapply (loop_alone _ k l (conn_remote x)) |].
  apply go_bind_inv_ok in H as (? & ? & [= <- <-] & H).
  apply go_bind_inv_ok in H as ([sc t'] & c3 & H3 & H). unfold lift_res in H3. injection H3 as H3 <-.
  unfold modify in H. unfold mbind at 1, go_bind at 1 in H.
  eapply (run_step no_env (GExit k l (conn_remote x) sess)); [exact no_env_ok | |].
  { cbn [gstep]. unfold get, mbind at 1, go_bind at 1. unfold lift_res. unfold mbind at 1, go_bind at 1.
    unfold k_key. rewrite H3. done. }
  destruct sc.
  - apply go_bind_inv_ok in H as (r & c4 & H4 & H). injection H as <-.
    run_piece H4. done.
  - injection H as <-. done.
Qed.

Lemma serveTcp_alone i conn remoteAddr id gs c c' :
  (serveTcp conn remoteAddr id i;; closeConn conn) c = (Ok tt, c') →
  rtc sys_step (mkSys c (GRegister (mkLink i conn remoteAddr id) :: gs)) (mkSys c' gs).
Proof.
  intros H. apply go_bind_inv_ok in H as ([] & c1 & H & Hcl). rewrite serveTcp_split in H.
  assert (∀ g, g = GCloseConn conn ∨ g = GAfter KServe (mkLink i conn remoteAddr id) →
    gstep no_env g c1 = (Ok [], c')) as Hend.
  { intros g [->| ->]; cbn [gstep]; by rewrite (go_bind_ok _ _ _ _ _ Hcl). }
  apply go_bind_inv_ok in H as (r & c2 & Hr & H).
  run_piece Hr.
  assert (∀ c, handleConn (Some conn) remoteAddr id i c = (Ok tt, c1) →
    rtc sys_step (mkSys c (GEnter KServe (mkLink i conn remoteAddr id) :: gs)) (mkSys c' gs)) as Hconn.
  { intros c0 H0. etrans; [by apply (handleConn_alone KServe (mkLink i conn remoteAddr id)) |].
    eapply run_step; [exact no_env_ok | by apply Hend; right | done]. }
  destruct r as [sess|sess|].
  - by apply Hconn.
  - apply go_bind_inv_ok in H as (o & c3 & H1 & H).
    run_piece H1. destruct o.
    + apply go_bind_inv_ok in H as ([] & c4 & H2 & H).
      run_piece H2. by apply Hconn.
    + injection H as <-. eapply run_step; [exact no_env_ok | by apply Hend; left | done].
  - injection H as <-. eapply run_step; [exact no_env_ok | by apply Hend; left | done].
Qed.


End runs.
