(* ===== verification/WellFormed.v ===== *)
(** * Well-formed clients

    [wf] is the type invariant of a [TunaSessionClient]: every pointer it holds leads to an
    object, the channel and the flag that say it is closed agree, the accept queue is within
    its capacity, the configuration has its pointers, and the cached keys are the computed
    ones.  [le] is how a client may evolve: objects stay, connections only lose input,
    closed things stay closed.  Every handler keeps [wf] and moves along [le]. *)

From stdpp Require Import base gmap strings list numbers tactics.
From Stdlib Require Import ZArith Lia.
From S2P Require Import Prelude Hoare Util Message Crypto Pb Config Table Json JsonInv World Udp Client ClientInv Exits Remote Dial.
Import Keys Framing Crypto Client.

(** ** Connections *)

Record conn_le (x x' : Conn) : Prop := {
  cl_stream : length (stream x') ≤ length (stream x);
  cl_remote : conn_remote x' = conn_remote x;
  cl_closed : conn_closed x = true → conn_closed x' = true
}.

#[export] Instance conn_le_preorder : PreOrder conn_le.
Proof.
  split; [by intros x; split |]. intros x y z [] []. split; [lia | congruence | auto].
Qed.

(** A computation on a connection that does not panic and moves along [conn_le]. *)
Definition conn_safe {A} (m : go Conn A) : Prop :=
  ∀ x, spec (λ _, True) conn_le no_panic m (λ _ _, True) x.

Lemma conn_safe_bind {A B} (m : go Conn A) (f : A → go Conn B) :
  conn_safe m → (∀ a, conn_safe (f a)) → conn_safe (m ≫= f).
Proof. intros Hm Hf x. eapply spec_bind; [apply _ | apply Hm |]. intros. apply Hf. Qed.

Lemma conn_safe_try {A} (m : go Conn A) : conn_safe m → conn_safe (try m).
Proof. intros Hm x. by eapply spec_try. Qed.

Lemma conn_safe_ret {A} (a : A) : conn_safe (mret a).
Proof. by intros x. Qed.

Lemma conn_safe_throw {A} e : conn_safe (A := A) (throw e).
Proof. by intros x. Qed.

Create HintDb conn.
#[export] Hint Resolve conn_safe_bind conn_safe_try conn_safe_ret conn_safe_throw : conn.

Lemma Read_safe n : conn_safe (Read n).
Proof.
  intros x. unfold spec, Read. destruct (conn_closed x) eqn:Ec; [done |].
  destruct (rd_segs x) as [|seg segs] eqn:Es; [done |].
  case_decide; split_and!; try done; split; simpl; try done; unfold stream; rewrite Es; simpl.
  - rewrite !length_app, length_drop. lia.
  - rewrite !length_app. lia.
Qed.

Lemma Write_safe b : conn_safe (Write b).
Proof.
  intros x. unfold spec, Write. destruct (conn_closed x) eqn:Ec; [done |].
  destruct (wr_room x); [case_decide |]; split_and?; done.
Qed.

Lemma SetWriteDeadline_safe d : conn_safe (SetWriteDeadline d).
Proof. done. Qed.

#[export] Hint Resolve Read_safe Write_safe SetWriteDeadline_safe : conn.

Lemma ReadFull_loop_safe fuel need acc : conn_safe (ReadFull_loop fuel need acc).
Proof.
  revert need acc. induction fuel as [|fuel IH]; intros [|need] acc; simpl; auto with conn.
  apply conn_safe_bind; [auto with conn |]. intros [b|e]; auto with conn.
Qed.

Lemma ReadFull_safe n : conn_safe (ReadFull n).
Proof. intros x. apply ReadFull_loop_safe. Qed.

#[export] Hint Resolve ReadFull_safe : conn.

Lemma readMessage_safe n : conn_safe (readMessage n).
Proof. apply conn_safe_bind; [auto with conn |]. intros b. cbv zeta. case_decide; auto with conn. Qed.

Lemma writeMessage_safe now b t : conn_safe (writeMessage now b t).
Proof.
  unfold writeMessage, write_header.
  repeat first [case_decide | apply conn_safe_bind; [| intros []]]; auto with conn.
Qed.

Lemma close_safe : conn_safe (modify close_conn).
Proof. intros x. unfold spec. simpl. split_and!; [done | by split | done]. Qed.

#[export] Hint Resolve readMessage_safe writeMessage_safe close_safe : conn.

(** ** The invariant *)

Section wf.
Context `{L : LibOps}.

Definition has {X} (m : gmap nat X) (r : nat) : Prop := is_Some (m !! r).

(** The pointers of the table. *)
Record table_wf (t : Table) (h : Heap) : Prop := {
  tw_sess k r : sessions t !! k = Some r → has (h_sess h) r;
  tw_conns k m id n : sessionConns t !! k = Some m → m !! id = Some n → has (h_conns h) n
}.

(** The pointers of a UDP session. *)
Record udp_wf (us : UdpSession) (h : Heap) : Prop := {
  uw_conn n : udpConn us = Some n → has (h_udpconns h) n;
  uw_tcp n : tcpConn us = Some n → has (h_conns h) n;
  uw_tcps k n : tcpConns us !! k = Some n → has (h_conns h) n
}.

(** The pointers a goroutine is started with. *)
Definition task_ok (h : Heap) (t : task) : Prop :=
  match t with
  | TServe _ conn => has (h_conns h) conn
  | TDialConn conn _ _ i _ => has (h_conns h) conn ∧ (0 ≤ i)%Z
  | TStartReverse te | TExitConnected te | TExitClose te => has (h_exits h) te
  | TRecvMsg u | TUdpReconnect u _ _ _ => has (h_udps h) u
  | TUdpMonitor u conn _ => has (h_conns h) conn ∧ ∃ us, h_udps h !! u = Some us ∧ isListener us = true
  | TListenNet _ | TListenNKN | TListenWhenConnected _ => True
  end.

Record wf (c : Client) : Prop := {
  wf_table : table_wf (table c) (heap c);
  wf_accept : Forall (has (h_sess (heap c))) (acceptSession c);
  wf_queue : length (acceptSession c) ≤ acceptSessionBufSize;
  wf_exits tes : tunaExits (exits c) = Some tes →
    Forall (λ te, ∃ n, te = Some n ∧ has (h_exits (heap c)) n) tes;
  wf_listener u : listenerUdpSess c = Some u →
    ∃ us, h_udps (heap c) !! u = Some us ∧ isListener us = true;
  wf_udps u us : h_udps (heap c) !! u = Some us → udp_wf us (heap c);
  wf_config : config_ok (config c);
  wf_closed : onClose c = isClosed c;
  wf_keys : cache_ok (privKey c) (sharedKeys c);
  wf_tasks : Forall (task_ok (heap c)) (tasks c)
}.

(** Objects stay where they are. *)
Record heap_le (h h' : Heap) : Prop := {
  hl_conns n x : h_conns h !! n = Some x → ∃ x', h_conns h' !! n = Some x' ∧ conn_le x x';
  hl_sess n : has (h_sess h) n → has (h_sess h') n;
  hl_udpconns n : has (h_udpconns h) n → has (h_udpconns h') n;
  hl_udps n us : h_udps h !! n = Some us →
    ∃ us', h_udps h' !! n = Some us' ∧ isListener us' = isListener us;
  hl_exits n : has (h_exits h) n → has (h_exits h') n
}.

Record le (c c' : Client) : Prop := {
  le_heap : heap_le (heap c) (heap c');
  le_key : privKey c' = privKey c;
  le_addr : addr c' = addr c;
  le_closed : isClosed c = true → isClosed c' = true
}.

#[export] Instance heap_le_preorder : PreOrder heap_le.
Proof.
  split.
  - intros h. split; eauto. intros n x Hx. exists x. by split.
  - intros h1 h2 h3 [A1 A2 A3 A4 A5] [B1 B2 B3 B4 B5]. split; eauto.
    + intros n x Hx. destruct (A1 _ _ Hx) as (y & Hy & Hxy). destruct (B1 _ _ Hy) as (z & Hz & Hyz).
      exists z. split; [done | by etrans].
    + intros n us Hu. destruct (A4 _ _ Hu) as (vs & Hv & E). destruct (B4 _ _ Hv) as (ws & Hw & E').
      exists ws. split; [done | congruence].
Qed.

#[export] Instance le_preorder : PreOrder le.
Proof.
  split; [by intros c; split |]. intros c1 c2 c3 [A1 A2 A3 A4] [B1 B2 B3 B4].
  split; [by etrans | congruence | congruence | auto].
Qed.

(** *** What grows with the heap *)

Lemma has_conn_le h h' n : has (h_conns h) n → heap_le h h' → has (h_conns h') n.
Proof. intros [x Hx] Hle. destruct (hl_conns _ _ Hle _ _ Hx) as (x' & ? & _). by exists x'. Qed.

Lemma table_wf_le t h h' : table_wf t h → heap_le h h' → table_wf t h'.
Proof.
  intros [H1 H2] Hle. split; [intros k r Hr; eapply hl_sess; eauto |].
  intros k m id n Hm Hn. eapply has_conn_le; eauto.
Qed.

Lemma udp_wf_le us h h' : udp_wf us h → heap_le h h' → udp_wf us h'.
Proof.
  intros [H1 H2 H3] Hle. split; intros; [eapply hl_udpconns; eauto | eapply has_conn_le; eauto..].
Qed.

Lemma task_ok_le t h h' : task_ok h t → heap_le h h' → task_ok h' t.
Proof.
  intros Ht Hle. destruct t; simpl in *; try done; try (by eapply has_conn_le); try (by eapply hl_exits).
  - destruct Ht. split; [by eapply has_conn_le | done].
  - destruct Ht as [us0 Hu]. destruct (hl_udps _ _ Hle _ _ Hu) as (us' & ? & _). by exists us'.
  - destruct Ht as (? & us0 & Hu & Hl). split; [by eapply has_conn_le |].
    destruct (hl_udps _ _ Hle _ _ Hu) as (us' & ? & ?). exists us'. split; congruence.
  - destruct Ht as [us0 Hu]. destruct (hl_udps _ _ Hle _ _ Hu) as (us' & ? & _). by exists us'.
Qed.

(** *** Updates of the heap *)

Lemma has_insert {X} (m : gmap nat X) r x n : has m n → has (<[r := x]> m) n.
Proof.
  unfold has. destruct (decide (r = n)) as [->|]; [rewrite lookup_insert_eq; eauto |].
  by rewrite lookup_insert_ne.
Qed.

Lemma has_insert_eq {X} (m : gmap nat X) r x : has (<[r := x]> m) r.
Proof. unfold has. rewrite lookup_insert_eq. eauto. Qed.

Lemma heap_le_conn h r x x' : h_conns h !! r = Some x → conn_le x x' → heap_le h (put_conn r x' h).
Proof.
  intros Hx Hle. split; simpl; eauto. intros n y Hy. destruct (decide (r = n)) as [->|].
  - rewrite lookup_insert_eq. simplify_eq. eauto.
  - rewrite lookup_insert_ne by done. exists y. by split.
Qed.

Lemma heap_le_new_conn h r x : h_conns h !! r = None → heap_le h (put_conn r x h).
Proof.
  intros Hx. split; simpl; eauto. intros n y Hy. rewrite lookup_insert_ne by congruence.
  exists y. by split.
Qed.

Lemma heap_le_sess h r s : heap_le h (put_sess r s h).
Proof. split; simpl; eauto using has_insert. intros n x Hx. exists x. by split. Qed.

Lemma heap_le_udpconn h r s : heap_le h (put_udpconn r s h).
Proof. split; simpl; eauto using has_insert. intros n x Hx. exists x. by split. Qed.

Lemma heap_le_exit h r s : heap_le h (put_exit r s h).
Proof. split; simpl; eauto using has_insert. intros n x Hx. exists x. by split. Qed.

Lemma heap_le_udp h u us' :
  (∀ vs, h_udps h !! u = Some vs → isListener us' = isListener vs) → heap_le h (put_udp u us' h).
Proof.
  intros Hl. split; simpl; eauto; [intros n x Hx; exists x; by split |].
  intros n vs Hv. destruct (decide (u = n)) as [->|].
  - rewrite lookup_insert_eq. eauto.
  - rewrite lookup_insert_ne by done. eauto.
Qed.

(** *** Updates of the client *)

Lemma wf_heap c h :
  wf c → heap_le (heap c) h → (∀ u us, h_udps h !! u = Some us → udp_wf us h) →
  wf (set_heap h c) ∧ le c (set_heap h c).
Proof.
  intros [W1 W2 W3 W4 W5 W6 W7 W8 W9 W10] Hle Hu. split; [| by split].
  split; simpl; try done.
  - by eapply table_wf_le.
  - revert W2. apply Forall_impl. intros r. by apply hl_sess.
  - intros tes Ht. generalize (W4 _ Ht). apply Forall_impl. intros te (n & -> & Hn). exists n.
    split; [done | by eapply hl_exits].
  - intros u Hlu. destruct (W5 u Hlu) as (us & Hus & El).
    destruct (hl_udps _ _ Hle _ _ Hus) as (us' & ? & ?). exists us'. split; congruence.
  - revert W10. apply Forall_impl. intros t Ht. by eapply task_ok_le.
Qed.

(** The same, when no UDP session is touched. *)
Lemma wf_heap_same c h :
  wf c → heap_le (heap c) h → h_udps h = h_udps (heap c) → wf (set_heap h c) ∧ le c (set_heap h c).
Proof.
  intros Hw Hle E. apply wf_heap; [done.. |]. rewrite E. intros u us Hu.
  eapply udp_wf_le; [by eapply wf_udps | done].
Qed.

Lemma wf_set_table c t : wf c → table_wf t (heap c) → wf (set_table t c) ∧ le c (set_table t c).
Proof. intros [] Ht. split; by split. Qed.

Lemma wf_set_tasks c ts :
  wf c → Forall (task_ok (heap c)) ts → wf (set_tasks ts c) ∧ le c (set_tasks ts c).
Proof. intros [] ?. split; by split. Qed.

Lemma wf_set_now c t : wf c → wf (set_now t c) ∧ le c (set_now t c).
Proof. intros []. split; by split. Qed.

Lemma wf_set_keys c m :
  wf c → cache_ok (privKey c) m → wf (set_sharedKeys m c) ∧ le c (set_sharedKeys m c).
Proof. intros [] Ht. split; by split. Qed.

Lemma wf_set_accept c q :
  wf c → Forall (has (h_sess (heap c))) q → length q ≤ acceptSessionBufSize →
  wf (set_acceptSession q c) ∧ le c (set_acceptSession q c).
Proof. intros [] ? ?. split; by split. Qed.

Lemma wf_set_exits c e :
  wf c → (∀ tes, tunaExits e = Some tes →
            Forall (λ te, ∃ n, te = Some n ∧ has (h_exits (heap c)) n) tes) →
  wf (set_exits e c) ∧ le c (set_exits e c).
Proof. intros [] ?. split; by split. Qed.

Lemma wf_set_closed c : wf c → wf (set_closed true true c) ∧ le c (set_closed true true c).
Proof. intros []. split; by split. Qed.

Lemma wf_set_config c cfg : wf c → config_ok cfg → wf (set_config cfg c) ∧ le c (set_config cfg c).
Proof. intros [] ?. split; by split. Qed.

Lemma wf_set_udp c u us :
  wf c → h_udps (heap c) !! u = Some us → isListener us = true →
  wf (set_udp (Some u) c) ∧ le c (set_udp (Some u) c).
Proof. intros [] ? ?. split; split; try done. intros v [= <-]. eauto. Qed.

Lemma wf_set_accepts c rs : wf c → wf (set_acceptAddrs rs c) ∧ le c (set_acceptAddrs rs c).
Proof. intros []. split; by split. Qed.

End wf.

(** ** Rules for the client *)

Abbreviation ok := (spec wf le).
Abbreviation ok_mono := (spec_mono wf le).
Abbreviation ok_ret := (spec_ret wf le).
Abbreviation ok_throw := (spec_throw wf le).
Abbreviation ok_crash := (spec_crash wf le).
Abbreviation ok_get := (spec_get wf le).
Abbreviation ok_lift := (spec_lift wf le).
Abbreviation ok_bind := (spec_bind wf le).
Abbreviation ok_try := (spec_try wf le).

Section rules.
Context `{L : LibOps}.
Implicit Types (E : panic → Prop) (c : Client).

Lemma ok_modify E (f : Client → Client) (Q : unit → Client → Prop) c :
  wf (f c) ∧ le c (f c) → Q tt (f c) → ok E (modify f) Q c.
Proof. intros [? ?] ?. by apply (spec_modify wf le). Qed.

Lemma ok_spawn E t (Q : unit → Client → Prop) c :
  wf c → task_ok (heap c) t → Q tt (set_tasks (tasks c ++ [t]) c) → ok E (spawn t) Q c.
Proof.
  intros Hw Ht HQ. apply ok_modify; [| done]. apply (wf_set_tasks c (tasks c ++ [t]) Hw).
  apply Forall_app. split; [apply Hw | by constructor].
Qed.

Lemma ok_deref E {A} (p : option A) (Q : A → Client → Prop) c :
  wf c → is_Some p → (∀ a, p = Some a → Q a c) → ok E (deref p) Q c.
Proof. intros ? [a ->] HQ. apply ok_ret; auto. Qed.

Lemma ok_peek E {X} (lookup : Heap → gmap nat X) r (Q : X → Client → Prop) c :
  wf c → has (lookup (heap c)) r → (∀ x, lookup (heap c) !! r = Some x → Q x c) →
  ok E (peek lookup r) Q c.
Proof.
  intros Hw [x Hx] HQ. unfold peek. apply (ok_bind _ _ _ (λ c' s, c' = c ∧ s = c)); [by apply ok_get |].
  intros ? s _ _ [-> ->]. rewrite Hx. apply ok_ret; auto.
Qed.

(** Methods of an object behind a pointer. *)
Lemma ok_on E {X A} (lookup : Heap → gmap nat X) put r (m : go X A) (Q : A → Client → Prop) c x :
  lookup (heap c) !! r = Some x →
  (∀ p, (m x).1 = Panic p → E p) →
  (is_panic (m x).1 = false → wf (set_heap (put r (m x).2 (heap c)) c) ∧ le c (set_heap (put r (m x).2 (heap c)) c)) →
  (∀ a, (m x).1 = Ok a → Q a (set_heap (put r (m x).2 (heap c)) c)) →
  ok E (on lookup put r m) Q c.
Proof.
  intros Hx HE Hw HQ. unfold spec. rewrite (on_ok _ _ _ _ _ _ Hx).
  destruct (m x) as [[a|e|p] x']; simpl in *; [| | auto]; destruct (Hw eq_refl); auto.
Qed.

Lemma ok_on_conn E {A} r (m : go Conn A) (Q : A → Client → Prop) c :
  wf c → has (h_conns (heap c)) r → conn_safe m →
  (∀ a x, h_conns (heap c) !! r = Some x → (m x).1 = Ok a → Q a (set_heap (put_conn r (m x).2 (heap c)) c)) →
  ok E (on_conn r m) Q c.
Proof.
  intros Hw [x Hx] Hm HQ. pose proof (Hm x) as Hs. unfold spec in Hs.
  apply (ok_on _ _ _ _ _ _ _ x); [done | | | eauto].
  - intros p Hp. destruct (m x) as [[] ?]; naive_solver.
  - intros Hp. apply wf_heap_same; [done | | done]. eapply heap_le_conn; [done |].
    destruct (m x) as [[] ?]; naive_solver.
Qed.

Lemma ok_on_sess E {A} r (m : go session A) (Q : A → Client → Prop) c :
  wf c → has (h_sess (heap c)) r → (∀ s, is_panic (m s).1 = false) →
  (∀ a s, h_sess (heap c) !! r = Some s → (m s).1 = Ok a → Q a (set_heap (put_sess r (m s).2 (heap c)) c)) →
  ok E (on_sess r m) Q c.
Proof.
  intros Hw [s Hs] Hm HQ. pose proof (Hm s). apply (ok_on _ _ _ _ _ _ _ s); [done | | | eauto].
  - intros p Hp. by rewrite Hp in *.
  - intros _. apply wf_heap_same; [done | apply heap_le_sess | done].
Qed.

Lemma ok_on_udpconn E {A} r (m : go udpconn A) (Q : A → Client → Prop) c :
  wf c → has (h_udpconns (heap c)) r → (∀ s, is_panic (m s).1 = false) →
  (∀ a s, h_udpconns (heap c) !! r = Some s → (m s).1 = Ok a → Q a (set_heap (put_udpconn r (m s).2 (heap c)) c)) →
  ok E (on_udpconn r m) Q c.
Proof.
  intros Hw [s Hs] Hm HQ. pose proof (Hm s). apply (ok_on _ _ _ _ _ _ _ s); [done | | | eauto].
  - intros p Hp. by rewrite Hp in *.
  - intros _. apply wf_heap_same; [done | apply heap_le_udpconn | done].
Qed.

Lemma ok_on_exit E r f (Q : unit → Client → Prop) c :
  wf c → has (h_exits (heap c)) r →
  (∀ c', wf c' → le c c' → exits c' = exits c → Q tt c') → ok E (on_exit r (modify f)) Q c.
Proof.
  intros Hw [s Hs] HQ.
  assert (wf (set_heap (put_exit r (f s) (heap c)) c) ∧ le c (set_heap (put_exit r (f s) (heap c)) c)) as [? ?]
    by (apply wf_heap_same; [done | apply heap_le_exit | done]).
  apply (ok_on _ _ _ _ _ _ _ s); [done | done | done |]. intros [] _. by apply HQ.
Qed.

Lemma ok_updUdp E u f (Q : unit → Client → Prop) c :
  wf c → has (h_udps (heap c)) u →
  (∀ us, h_udps (heap c) !! u = Some us → isListener (f us) = isListener us ∧ udp_wf (f us) (heap c)) →
  (∀ us, h_udps (heap c) !! u = Some us → Q tt (set_heap (put_udp u (f us) (heap c)) c)) →
  ok E (Udp.updUdp u f) Q c.
Proof.
  intros Hw [us Hu] Hf HQ. destruct (Hf us Hu) as [Hl Hfw].
  assert (heap_le (heap c) (put_udp u (f us) (heap c))) as Hle.
  { apply heap_le_udp. intros. by simplify_eq. }
  apply (ok_on _ _ _ _ _ _ _ us); [done | done | | by intros [] _; apply HQ]. intros _. simpl.
  apply wf_heap; [done.. |]. simpl. intros v vs Hv. destruct (decide (u = v)) as [->|].
  - rewrite lookup_insert_eq in Hv. simplify_eq. by eapply udp_wf_le.
  - rewrite lookup_insert_ne in Hv by done. eapply udp_wf_le; [by eapply wf_udps | done].
Qed.

(** New objects. *)
Lemma ok_new_conn E x (Q : nat → Client → Prop) c :
  wf c → (∀ r, h_conns (heap c) !! r = None → Q r (set_heap (put_conn r x (heap c)) c)) →
  ok E (new_conn x) Q c.
Proof.
  intros Hw HQ. unfold spec, new_conn, alloc. set (r := fresh _).
  assert (h_conns (heap c) !! r = None) as Hr by apply not_elem_of_dom, is_fresh.
  destruct (wf_heap_same c (put_conn r x (heap c)) Hw) as [? ?];
    [by apply heap_le_new_conn | done |]. by split_and!; auto.
Qed.

Lemma ok_new_sess E s (Q : nat → Client → Prop) c :
  wf c → (∀ r, h_sess (heap c) !! r = None → Q r (set_heap (put_sess r s (heap c)) c)) →
  ok E (new_sess s) Q c.
Proof.
  intros Hw HQ. unfold spec, new_sess, alloc. set (r := fresh _).
  assert (h_sess (heap c) !! r = None) as Hr by apply not_elem_of_dom, is_fresh.
  destruct (wf_heap_same c (put_sess r s (heap c)) Hw) as [? ?];
    [by apply heap_le_sess | done |]. by split_and!; auto.
Qed.

Lemma ok_new_udpconn E s (Q : nat → Client → Prop) c :
  wf c → (∀ r, Q r (set_heap (put_udpconn r s (heap c)) c)) → ok E (new_udpconn s) Q c.
Proof.
  intros Hw HQ. unfold spec, new_udpconn, alloc. set (r := fresh _).
  destruct (wf_heap_same c (put_udpconn r s (heap c)) Hw) as [? ?];
    [by apply heap_le_udpconn | done |]. by split_and!; auto.
Qed.

Lemma ok_new_exit E s (Q : nat → Client → Prop) c :
  wf c → (∀ r, Q r (set_heap (put_exit r s (heap c)) c)) → ok E (new_exit s) Q c.
Proof.
  intros Hw HQ. unfold spec, new_exit, alloc. set (r := fresh _).
  destruct (wf_heap_same c (put_exit r s (heap c)) Hw) as [? ?];
    [by apply heap_le_exit | done |]. by split_and!; auto.
Qed.

Lemma ok_new_udp E us (Q : nat → Client → Prop) c :
  wf c → udp_wf us (heap c) →
  (∀ u, h_udps (heap c) !! u = None → Q u (set_heap (put_udp u us (heap c)) c)) →
  ok E (new_udp us) Q c.
Proof.
  intros Hw Hus HQ. unfold spec, new_udp, alloc. set (u := fresh _).
  assert (h_udps (heap c) !! u = None) as Hr by apply not_elem_of_dom, is_fresh.
  assert (heap_le (heap c) (put_udp u us (heap c))) as Hle.
  { apply heap_le_udp. intros. congruence. }
  destruct (wf_heap c (put_udp u us (heap c)) Hw) as [? ?]; [done | | by split_and!; auto].
  simpl. intros v vs Hv. destruct (decide (u = v)) as [->|].
  - rewrite lookup_insert_eq in Hv. simplify_eq. by eapply udp_wf_le.
  - rewrite lookup_insert_ne in Hv by done. eapply udp_wf_le; [by eapply wf_udps | done].
Qed.

End rules.
