(* ===== verification/HandlersWf.v ===== *)
(** * The handlers keep clients well-formed

    For each handler: run on a well-formed client with pointers that lead to objects, it
    keeps the client well-formed and panics only in the ways its lemma allows. *)

From stdpp Require Import base gmap strings list numbers tactics.
From Stdlib Require Import ZArith Lia.
From S2P Require Import Prelude Hoare Util Message Crypto Pb Config Table TableInv Json JsonInv World Udp Client ClientInv Exits Remote Dial WellFormed.
Import Keys Framing Crypto Client Exits.

(** What is there stays there. *)
Section stay.
Context `{L : LibOps}.

Lemma le_conn c c' n : has (h_conns (heap c)) n → le c c' → has (h_conns (heap c')) n.
Proof. intros H Hle. eapply has_conn_le; [done | apply Hle]. Qed.
Lemma le_sess c c' n : has (h_sess (heap c)) n → le c c' → has (h_sess (heap c')) n.
Proof. intros H Hle. eapply hl_sess; [apply Hle | done]. Qed.
Lemma le_udpconn c c' n : has (h_udpconns (heap c)) n → le c c' → has (h_udpconns (heap c')) n.
Proof. intros H Hle. eapply hl_udpconns; [apply Hle | done]. Qed.
Lemma le_udp c c' n : has (h_udps (heap c)) n → le c c' → has (h_udps (heap c')) n.
Proof. intros [us H] Hle. destruct (hl_udps _ _ (le_heap _ _ Hle) _ _ H) as (us' & ? & _). by exists us'. Qed.
Lemma le_exit c c' n : has (h_exits (heap c)) n → le c c' → has (h_exits (heap c')) n.
Proof. intros H Hle. eapply hl_exits; [apply Hle | done]. Qed.
Lemma le_trans c c' c'' : le c c' → le c' c'' → le c c''.
Proof. apply transitivity. Qed.
End stay.

Create HintDb wf.
#[export] Hint Resolve le_conn le_sess le_udpconn le_udp le_exit : wf.

(** The next action of a sequence: its rule, and then the rest from a later client. *)
Ltac ok_then := eapply ok_bind; [| let a := fresh "a" in let c := fresh "c" in
  let W := fresh "W" in let G := fresh "G" in let H := fresh "H" in intros a c W G H].

(** An action whose value does not matter. *)
Ltac ok_skip := eapply (ok_bind _ _ _ (λ _ _, True)); [| let a := fresh "a" in let c := fresh "c" in
  let W := fresh "W" in let G := fresh "G" in intros a c W G _].

(** The state a handler reads first. *)
Ltac ok_read c := eapply (ok_bind _ _ _ (λ x c', x = c ∧ c' = c)); [by apply ok_get |];
  intros ? ? _ _ [-> ->].

Section client.
Context `{L : LibOps, LL : !LibLaws L}.
Implicit Types (E : panic → Prop) (c : Client).

(** A value nothing is known about. *)
Abbreviation any := (λ _ _, True).

Lemma ok_any E {A} (m : go Client A) (Q : A → Client → Prop) c : ok E m Q c → ok E m any c.
Proof. intros H. by eapply ok_mono. Qed.

Lemma ok_tryany E {A} (m : go Client A) c : ok E m any c → ok E (try m) any c.
Proof. intros H. by eapply ok_try. Qed.

Lemma ok_lift_safe E {A} (r : res A) c : wf c → is_panic r = false → ok E (lift_res r) (λ a _, r = Ok a) c.
Proof. intros Hw Hr. apply ok_lift; [done | | done]. by intros p ->. Qed.

(** ** Keys *)

Lemma ok_keys E {A} (m : go (gmap string bytes) A) c :
  wf c → (∀ p, (m (sharedKeys c)).1 = Panic p → E p) → cache_ok (privKey c) (m (sharedKeys c)).2 →
  ok E (on_keys m) (λ a _, (m (sharedKeys c)).1 = Ok a) c.
Proof.
  intros Hw Hp Hk. unfold spec, on_keys, zoom. destruct (m (sharedKeys c)) as [r ks]. simpl in *.
  destruct (wf_set_keys c ks Hw Hk). destruct r; auto.
Qed.

Lemma encode_cache sk rand msg a m : cache_ok sk m → cache_ok sk (encode sk rand msg a m).2.
Proof.
  intros Hm. unfold encode, lift_res, mbind, go_bind. destruct (ClientAddrToPubKey a) as [pk| |]; [| done..].
  destruct (getOrCompute_result sk pk m Hm) as (m' & -> & Hm'). destruct (computeSharedKey sk pk); [| done..].
  by destruct (encrypt _ _ _) as [[]| |].
Qed.

Lemma decode_cache sk buf a m : cache_ok sk m → cache_ok sk (decode sk buf a m).2.
Proof.
  intros Hm. unfold decode, lift_res, mbind, go_bind. case_decide; [done |].
  destruct (ClientAddrToPubKey a) as [pk| |]; [| done..].
  destruct (getOrCompute_result sk pk m Hm) as (m' & -> & Hm'). by destruct (computeSharedKey sk pk).
Qed.

Lemma encode_panic sk rand msg a m : is_panic rand = false → is_panic (encode sk rand msg a m).1 = false.
Proof.
  intros Hr. unfold encode, lift_res, mbind, go_bind. pose proof (addr_no_panic a).
  destruct (ClientAddrToPubKey a) as [pk| |]; [| done..].
  pose proof (getOrCompute_no_panic sk pk m). destruct (getOrComputeSharedKey sk pk m) as [[k| |] m']; [| done..].
  unfold encrypt, mbind, res_bind. by destruct rand.
Qed.

Lemma decode_panic sk buf a m p : (decode sk buf a m).1 = Panic p → p = MakeSliceLen.
Proof.
  unfold decode, lift_res, mbind, go_bind. case_decide; [done |]. pose proof (addr_no_panic a).
  destruct (ClientAddrToPubKey a) as [pk| |]; [| done..].
  pose proof (getOrCompute_no_panic sk pk m). destruct (getOrComputeSharedKey sk pk m) as [[k| |] m']; [| done..].
  unfold decrypt. case_decide; [by intros [= <-] |]. by destruct (OpenAfterPrecomputation _ _ _).
Qed.

Lemma ok_decode E sk buf a c :
  wf c → sk = privKey c → E MakeSliceLen → ok E (on_keys (decode sk buf a)) any c.
Proof.
  intros Hw -> HE. eapply ok_any, ok_keys; [done | | apply decode_cache, Hw].
  by intros p ->%decode_panic.
Qed.

Lemma ok_encode E sk rand msg a c :
  wf c → sk = privKey c → is_panic rand = false → ok E (on_keys (encode sk rand msg a)) any c.
Proof.
  intros Hw -> Hr. eapply ok_any, ok_keys; [done | | apply encode_cache, Hw].
  intros p Hp. pose proof (encode_panic (privKey c) rand msg a (sharedKeys c) Hr) as Hn. by rewrite Hp in Hn.
Qed.

Lemma ok_sharedKey E sk pk c :
  wf c → sk = privKey c → ok E (on_keys (getOrComputeSharedKey sk pk)) any c.
Proof.
  intros Hw ->. destruct (getOrCompute_result (privKey c) pk (sharedKeys c)) as (m & Hm & Hk); [apply Hw |].
  eapply ok_any, ok_keys; [done | | by rewrite Hm].
  intros p Hp. pose proof (getOrCompute_no_panic (privKey c) pk (sharedKeys c)) as Hn. by rewrite Hp in Hn.
Qed.

(** ** The table *)

Lemma table_wf_enter key r cs t h sess t' :
  table_wf t h → connEnter key r cs t = Some (sess, t') → table_wf t' h ∧ has (h_sess h) sess.
Proof.
  intros [H1 H2] H. unfold connEnter in H. destruct (sessions t !! key) eqn:E; simplify_eq.
  split; [by split | by eapply H1].
Qed.

Lemma table_wf_sub t t' h :
  table_wf t h → sessions t' ⊆ sessions t →
  (∀ k m', sessionConns t' !! k = Some m' → ∃ m, sessionConns t !! k = Some m ∧ m' ⊆ m) → table_wf t' h.
Proof.
  intros [H1 H2] Hs Hc. split.
  - intros k r Hr. eapply H1, lookup_weaken; eauto.
  - intros k m' id n Hm Hn. destruct (Hc _ _ Hm) as (m & ? & ?). eapply H2; [done |]. by eapply lookup_weaken.
Qed.

Lemma table_wf_drop now key t h : table_wf t h → table_wf (dropSession now key t) h.
Proof.
  intros H. eapply table_wf_sub; [done | apply delete_subseteq |]. simpl.
  intros k m' [_ Hk]%lookup_delete_Some. by exists m'.
Qed.

Lemma table_wf_exit now key r cs i t h b t' :
  table_wf t h → connExit now key r cs i t = Ok (b, t') → table_wf t' h.
Proof.
  intros H He. apply TableInv.connExit_sessions in He as [_ He]. destruct b; destruct He as (E1 & E2 & _).
  - eapply table_wf_sub; [done | rewrite E1; apply delete_subseteq |].
    rewrite E2. intros k m' [_ Hk]%lookup_delete_Some. by exists m'.
  - eapply table_wf_sub; [done | by rewrite E1 |]. rewrite E2. intros k m'. rewrite lookup_alter.
    case_decide as Ek; [| by intros ->; exists m']. subst. destruct (sessionConns t !! k) as [m|]; [| done].
    intros [= <-]. exists m. split; [done | apply delete_subseteq].
Qed.

Lemma table_wf_remove now closed t h : table_wf t h → table_wf (removePass now closed t).2 h.
Proof.
  unfold removePass. generalize (map_to_list (sessions t)) as l. generalize (@nil nat) as cs.
  intros cs l. revert cs t. induction l as [|[k r] l IH]; intros cs t H; simpl; [done |].
  destruct (closed r); apply IH; [by apply table_wf_drop | done].
Qed.

Lemma removePass_conns now closed t h :
  table_wf t h → Forall (has (h_conns h)) (removePass now closed t).1.
Proof.
  unfold removePass. generalize (map_to_list (sessions t)) as l.
  assert (Forall (has (h_conns h)) (@nil nat)) as H0 by constructor. revert H0.
  generalize (@nil nat) as cs. intros cs H0 l H. revert cs t H0 H.
  induction l as [|[k r] l IH]; intros cs t H0 H; simpl; [done |].
  destruct (closed r); apply IH; try done; [| by apply table_wf_drop]. apply Forall_app. split; [done |].
  apply Forall_forall. intros n ([id n'] & -> & Hn)%list_elem_of_In%list_elem_of_fmap.
  apply elem_of_map_to_list in Hn. destruct (sessionConns t !! k) as [m|] eqn:Em; simpl in Hn.
  - by eapply (tw_conns _ _ H).
  - by rewrite lookup_empty in Hn.
Qed.

Lemma table_wf_putConn key id n t h t' :
  table_wf t h → has (h_conns h) n → putConn key id n t = Ok t' → table_wf t' h.
Proof.
  intros [H1 H2] Hn Hp. unfold putConn in Hp. destruct (sessionConns t !! key) as [m|] eqn:Em; simplify_eq.
  split; simpl; [done |]. intros k m' id' n' Hm Hn'. destruct (decide (key = k)) as [->|].
  - rewrite lookup_insert_eq in Hm. simplify_eq. destruct (decide (id = id')) as [->|].
    + rewrite lookup_insert_eq in Hn'. by simplify_eq.
    + rewrite lookup_insert_ne in Hn' by done. eauto.
  - rewrite lookup_insert_ne in Hm by done. eauto.
Qed.

Lemma table_wf_register now key i n mk t h r t' :
  table_wf t h → has (h_conns h) n → (∀ x, mk = Ok x → has (h_sess h) x) →
  registerConn now key i n mk t = Ok (r, t') →
  table_wf t' h ∧ (∀ sess, r = RegOld sess ∨ r = RegNew sess → has (h_sess h) sess).
Proof.
  intros H Hn Hmk Hr. pose proof H as [H1 H2]. unfold registerConn, mbind, res_bind, mret, res_ret in Hr.
  destruct (sessions t !! key) as [sess|] eqn:Es.
  - destruct (putConn _ _ _ _) as [t1| |] eqn:Ep; simplify_eq.
    split; [by eapply table_wf_putConn | intros ? [[= <-]|[=]]; eauto].
  - destruct (cache_Get _ _ _); [simplify_eq; split; [done | by intros ? [|]] |].
    destruct mk as [sess|e|p]; [| simplify_eq; split; [done | by intros ? [|]] | done].
    destruct (putConn _ _ _ _) as [t1| |] eqn:Ep; simplify_eq.
    split; [| intros ? [[=]|[= <-]]; eauto]. eapply table_wf_putConn; [| done | exact Ep]. split; simpl.
    + intros k r Hr. destruct (decide (key = k)) as [->|];
        [rewrite lookup_insert_eq in Hr; simplify_eq; eauto | rewrite lookup_insert_ne in Hr by done; eauto].
    + intros k m id n' Hm Hn'. destruct (decide (key = k)) as [->|];
        [rewrite lookup_insert_eq in Hm; simplify_eq; by rewrite lookup_empty in Hn'
        | rewrite lookup_insert_ne in Hm by done; eauto].
Qed.

Lemma table_wf_dialPut key i n t h : table_wf t h → has (h_conns h) n → table_wf (dialPut key i n t) h.
Proof.
  intros [H1 H2] Hn. split; simpl; [done |]. intros k m id n' Hm Hn'. destruct (decide (key = k)) as [->|].
  - rewrite lookup_insert_eq in Hm. simplify_eq. destruct (decide (connID i = id)) as [<-|].
    + rewrite lookup_insert_eq in Hn'. by simplify_eq.
    + rewrite lookup_insert_ne in Hn' by done. destruct (sessionConns t !! k) as [m|] eqn:E; simpl in Hn';
        [eauto | by rewrite lookup_empty in Hn'].
  - rewrite lookup_insert_ne in Hm by done. eauto.
Qed.

Lemma table_wf_dialSession key sess t h :
  table_wf t h → has (h_sess h) sess → table_wf (dialSession key sess t) h.
Proof.
  intros [H1 H2] Hs. split; simpl; [| done]. intros k r Hr. destruct (decide (key = k)) as [->|];
    [rewrite lookup_insert_eq in Hr; by simplify_eq | rewrite lookup_insert_ne in Hr by done; eauto].
Qed.

(** ** Connections and messages *)

Lemma ok_conn E {A} r (m : go Conn A) c :
  wf c → has (h_conns (heap c)) r → conn_safe m → ok E (on_conn r m) any c.
Proof. intros. by apply ok_on_conn. Qed.

Lemma ok_closeConn E r c : wf c → has (h_conns (heap c)) r → ok E (closeConn r) any c.
Proof. intros. apply ok_conn; auto with conn. Qed.

Lemma ok_closeConnErr E r c : wf c → has (h_conns (heap c)) r → ok E (closeConnErr r) any c.
Proof.
  intros. apply ok_conn; [done.. |]. intros x. unfold spec.
  destruct (conn_closed x); by split_and!.
Qed.

Lemma ok_sess E {A} r (m : go session A) c :
  wf c → has (h_sess (heap c)) r → (∀ s, is_panic (m s).1 = false) → ok E (on_sess r m) any c.
Proof. intros. by apply ok_on_sess. Qed.

Lemma ok_handleMsg E conn sess i c :
  wf c → has (h_conns (heap c)) conn → has (h_sess (heap c)) sess → E MakeSliceLen →
  ok E (handleMsg conn sess i) any c.
Proof.
  intros Hw Hc Hs HE. unfold handleMsg. ok_read c. eapply (ok_bind _ _ _ (λ _ c', c' = c)).
  { apply ok_deref; [done | apply (wf_config _ Hw) | done]. }
  intros cfg ? _ _ ->. ok_skip; [apply ok_conn; auto with conn |].
  ok_skip; [eapply ok_any, (ok_peek _ _ _ any); eauto with wf |].
  ok_skip; [apply ok_decode; [done | symmetry; etrans; apply le_key; eauto | done] |].
  apply ok_sess; [done | eauto with wf | intros; apply receive_no_panic].
Qed.

Lemma ok_closeEach E conns c : wf c → Forall (has (h_conns (heap c))) conns → ok E (Udp.closeEach conns) any c.
Proof.
  revert c. induction conns as [|n conns IH]; intros c Hw Hc; cbn [Udp.closeEach]; [by apply ok_ret |].
  apply Forall_cons_1 in Hc as [Hn Hc]. ok_skip; [by apply ok_closeConn |]. apply IH; [done |].
  revert Hc. apply Forall_impl. eauto with wf.
Qed.

Lemma ok_send E rand a id connId buf wt c :
  wf c → is_panic rand = false → ok E (sessionSend rand a id connId buf wt) any c.
Proof.
  intros Hw Hr. unfold sessionSend. ok_read c. unfold conn_of. destruct (sessionConns (table c) !! _) as [m|] eqn:Em; simpl;
    [| by apply ok_throw]. destruct (m !! connId) as [conn|] eqn:Ec; [| by apply ok_throw].
  assert (has (h_conns (heap c)) conn) as Hc by (by eapply (tw_conns _ _ (wf_table _ Hw))).
  ok_skip; [by apply ok_encode |]. ok_skip; [apply ok_tryany, ok_conn; eauto with wf conn |].
  destruct a1; [by apply ok_ret |]. ok_skip; [apply ok_closeConn; eauto with wf | by apply ok_throw].
Qed.

Lemma ok_removeClosed E c : wf c → ok E removeClosedSessions any c.
Proof.
  intros Hw. unfold removeClosedSessions. ok_read c. destruct (isClosed c); [by apply ok_ret |].
  destruct (removePass _ _ _) as [conns t] eqn:Er.
  pose proof (removePass_conns (now c) (sess_closed c) _ _ (wf_table _ Hw)) as H1.
  pose proof (table_wf_remove (now c) (sess_closed c) _ _ (wf_table _ Hw)) as H2.
  rewrite Er in H1, H2. ok_skip; [by apply ok_closeEach |].
  ok_skip; [| by apply ok_ret]. apply ok_modify; [| done]. apply wf_set_table; [done |].
  eapply table_wf_le; [exact H2 | apply G].
Qed.

(** ** The application's calls *)

Lemma ok_accept E choice fuel c : wf c → ok E (acceptLoop fuel choice) any c.
Proof.
  revert c. induction fuel as [|fuel IH]; intros c Hw; cbn [acceptLoop]; [by apply ok_ret |].
  ok_read c.
  pose proof (wf_accept _ Hw) as Ha. pose proof (wf_queue _ Hw) as Hq.
  destruct (acceptSession c) as [|sess rest] eqn:Es;
    [destruct (onClose c); [by apply ok_throw | by apply ok_ret] |].
  destruct (_ && _); [by apply ok_throw |]. apply Forall_cons_1 in Ha as [Hs Ha].
  eapply (ok_bind _ _ _ (λ _ c', has (h_sess (heap c')) sess)).
  { apply ok_modify; [| done]. apply wf_set_accept; [done.. |]. simpl in Hq. lia. }
  intros _ c1 W1 G1 Hs1. ok_skip; [apply ok_tryany, ok_sess; [done.. | apply accept_no_panic] |].
  destruct a; [by apply ok_ret | by apply IH].
Qed.

Lemma ok_setConfig E `{!MergeOps, !MergeLaws _} conf c : wf c → ok E (SetConfig conf) any c.
Proof.
  intros Hw. unfold spec, SetConfig, zoom. destruct (Config.SetConfig conf (config c)) as [r cfg] eqn:Es.
  destruct (SetConfig_keeps conf (config c) r cfg (wf_config _ Hw) Es) as (Hc & Hp).
  destruct (wf_set_config c cfg Hw Hc). by destruct r.
Qed.

(** ** UDP sessions *)

Lemma ok_established E u c :
  wf c → has (h_udps (heap c)) u →
  ok E (Udp.GetEstablishedUDPConn u) (λ n c', c' = c ∧ has (h_udpconns (heap c)) n) c.
Proof.
  intros Hw [us Hu]. pose proof (uw_conn _ _ (wf_udps _ Hw _ _ Hu)) as Hc.
  unfold spec, Udp.GetEstablishedUDPConn, Udp.getUdp, peek, deref. go_unfold.
  destruct (isClosed c); [done |]. rewrite Hu. destruct (udpConn us) as [n|]; [| done].
  destruct (Hc n eq_refl) as [x Hx]. rewrite Hx. destruct (uc_IsClosed x); [done |].
  split_and!; try done. by exists x.
Qed.

Lemma ok_getUdp E u c :
  wf c → has (h_udps (heap c)) u →
  ok E (Udp.getUdp u) (λ us c', c' = c ∧ h_udps (heap c) !! u = Some us) c.
Proof. intros Hw Hu. by apply ok_peek. Qed.

Lemma ok_udpconn E {A} r (m : go udpconn A) c :
  wf c → has (h_udpconns (heap c)) r → (∀ s, is_panic (m s).1 = false) → ok E (on_udpconn r m) any c.
Proof. intros. by apply ok_on_udpconn. Qed.

Lemma ok_set_option E u o c :
  wf c → has (h_udps (heap c)) u →
  ok E (conn ← Udp.GetEstablishedUDPConn u; on_udpconn conn (uc_Set o)) any c.
Proof.
  intros Hw Hu. ok_then; [by apply ok_established |]. destruct H as [-> Hc].
  apply ok_udpconn; [done.. | intros; apply uc_set_no_panic].
Qed.

(** An update that leaves the pointers of the session alone. *)
Lemma ok_upd_same E u f c :
  wf c → has (h_udps (heap c)) u →
  (∀ us, isListener (f us) = isListener us ∧ udpConn (f us) = udpConn us ∧ tcpConn (f us) = tcpConn us ∧
         tcpConns (f us) ⊆ tcpConns us) →
  ok E (Udp.updUdp u f) any c.
Proof.
  intros Hw Hu Hf. apply ok_updUdp; [done | done | | done]. intros us Hus.
  destruct (Hf us) as (H1 & H2 & H3 & H4). split; [done |].
  destruct (wf_udps _ Hw _ _ Hus) as [U1 U2 U3]. split; rewrite ?H2, ?H3; [done | done |].
  intros k n Hn. eapply U3, lookup_weaken; eauto.
Qed.

Lemma ok_newUdpSession E l c :
  wf c → E MakeSliceLen →
  ok E (Udp.newUdpSession l) (λ u c', ∃ us, h_udps (heap c') !! u = Some us ∧ isListener us = l) c.
Proof.
  intros Hw HE. unfold Udp.newUdpSession. ok_read c. case_decide; [by apply ok_crash |].
  eapply (ok_bind _ _ _ (λ u c', ∃ us, h_udps (heap c') !! u = Some us ∧ isListener us = l)).
  { apply ok_new_udp; [done | | intros u _; eexists; split; [apply lookup_insert_eq | done]].
    by split. }
  intros u c1 W1 G1 (us & Hu & Hl). ok_skip.
  { apply ok_tryany. unfold Udp.SetReadDeadline. ok_skip; [apply ok_upd_same; [done | by exists us | done] |].
    eapply ok_set_option; [done |]. eapply le_udp; [by exists us | done]. }
  destruct (hl_udps _ _ (le_heap _ _ G) _ _ Hu) as (us' & ? & ?). apply ok_ret; [done |].
  exists us'. split; congruence.
Qed.

Lemma ok_addCodec E u a r c : wf c → has (h_udps (heap c)) u → ok E (Udp.addCodec u a r) any c.
Proof.
  intros Hw Hu. unfold Udp.addCodec. ok_then; [apply ok_lift_safe; [done | apply addr_no_panic] |].
  ok_read c0.
  ok_skip; [by apply ok_sharedKey |]. ok_then; [apply ok_established; eauto with wf |]. destruct H0 as [-> Hc].
  apply ok_udpconn; [done.. |]. intros x. apply (uc_no_panic [] (Some a) _ x).
Qed.

Lemma ok_writeEach E b conns c :
  wf c → Forall (has (h_conns (heap c))) conns → ok E (Udp.writeEach b conns) any c.
Proof.
  revert c. induction conns as [|n conns IH]; intros c Hw Hc; cbn [Udp.writeEach]; [by apply ok_ret |].
  apply Forall_cons_1 in Hc as [Hn Hc]. ok_skip; [apply ok_tryany, ok_conn; auto with conn |]. apply IH; [done |].
  revert Hc. apply Forall_impl. eauto with wf.
Qed.

Lemma ok_sendClose E u dst c : wf c → has (h_udps (heap c)) u → ok E (Udp.sendCloseMsg u dst) any c.
Proof.
  intros Hw Hu. unfold Udp.sendCloseMsg. ok_then.
  { apply ok_lift_safe; [done |]. destruct (newSessionData_ok MsgType_CLOSE []) as (b & -> & _);
      [by vm_compute; split; congruence | unfold sized; simpl; lia | done]. }
  ok_then; [apply ok_getUdp; eauto with wf |]. destruct H0 as [-> Hus].
  destruct (wf_udps _ W _ _ Hus) as [U1 U2 U3].
  assert (∀ conn, has (h_conns (heap c0)) conn → ok E (Udp.writeRaw conn a) any c0) as Hwr
    by (intros; apply ok_conn; auto with conn).
  assert (∀ o, ok E (match o with
     | Some a' => match udpAddrToSessAddr a0 !! a' with
                  | Some usa => match tcpConns a0 !! usa_String usa with
                                | Some conn => Udp.writeRaw conn a | None => mret tt end
                  | None => mret tt end
     | None => Udp.writeEach a (omap (λ '(_, usa), tcpConns a0 !! usa_String usa)
                 (map_to_list (sessKeyToSessAddr a0)))
     end) any c0) as Hrest.
  { intros [x|].
    - destruct (udpAddrToSessAddr a0 !! x) as [usa|]; [| by apply ok_ret].
      destruct (tcpConns a0 !! usa_String usa) eqn:E1; [eauto | by apply ok_ret].
    - apply ok_writeEach; [done |]. apply Forall_forall.
      intros n ([k usa] & _ & Hn)%list_elem_of_In%list_elem_of_omap. eauto. }
  destruct (isListener a0); [exact (Hrest dst) |].
  destruct (tcpConn a0) as [conn|] eqn:Et; [eauto | exact (Hrest dst)].
Qed.

Lemma ok_closeSocket E u c : wf c → has (h_udps (heap c)) u → ok E (Udp.closeSocket u) any c.
Proof.
  intros Hw Hu. unfold Udp.closeSocket.
  eapply (ok_bind _ _ _ (λ r c', match r with inl n => has (h_udpconns (heap c')) n | inr _ => True end)).
  { eapply ok_try; [apply ok_established; eauto with wf | by intros ? ? ? ? [-> ?] | done]. }
  intros r c1 W1 G1 Hr. destruct r as [n|]; [| by apply ok_ret]. by apply ok_udpconn.
Qed.

Lemma ok_closeSection E u c : wf c → has (h_udps (heap c)) u → ok E (Udp.closeSection u) any c.
Proof.
  intros Hw Hu. unfold Udp.closeSection. ok_then; [by apply ok_getUdp |]. destruct H as [-> Hus].
  destruct (wf_udps _ Hw _ _ Hus) as [U1 U2 U3]. destruct (isListener a) eqn:El.
  - ok_skip; [apply ok_closeEach; [done |] |].
    + apply Forall_forall. intros n ([k n'] & -> & Hn)%list_elem_of_In%list_elem_of_fmap.
      apply elem_of_map_to_list in Hn. eauto.
    + apply ok_upd_same; [done | eapply le_udp; [by exists a | done] |].
      intros us. split_and!; try done. apply map_empty_subseteq.
  - ok_skip; [apply ok_upd_same; [done | by exists a | done] |].
    destruct (tcpConn a) as [n|] eqn:Et; [| by apply ok_ret]. apply ok_closeConnErr; eauto with wf.
Qed.

Lemma ok_udpClose E u c : wf c → has (h_udps (heap c)) u → ok E (Udp.Close u) any c.
Proof.
  intros Hw Hu. unfold Udp.Close. ok_skip; [by apply ok_tryany, ok_sendClose |].
  ok_skip; [apply ok_closeSocket | apply ok_closeSection]; eauto with wf.
Qed.

Lemma ok_connClosed E u us key c :
  wf c → h_udps (heap c) !! u = Some us → isListener us = true ∨ E NilDeref →
  ok E (Udp.handleConnClosed u key) any c.
Proof.
  intros Hw Hu HE. assert (has (h_udps (heap c)) u) as Hhu by by exists us.
  unfold Udp.handleConnClosed. ok_then; [by apply ok_getUdp |]. destruct H as [-> Hus]. rewrite Hu in Hus. injection Hus as <-.
  destruct (wf_udps _ W _ _ Hu) as [U1 U2 U3]. destruct (isListener us) eqn:El.
  - unfold Udp.dropUdpSession. destruct (sessKeyToSessAddr us !! key) as [usa|].
    + ok_skip; [destruct (tcpConns us !! key) eqn:Et; [apply ok_closeConn; eauto | by apply ok_ret] |].
      apply ok_updUdp; [done | eauto with wf | | done]. intros vs Hv. simpl.
      destruct (hl_udps _ _ (le_heap _ _ G0) _ _ Hu) as (us' & Hu' & El'). simplify_eq. split; [congruence |].
      split; simpl; [| |].
      * intros n Hn. eapply le_udpconn; eauto.
      * intros n Hn. eapply le_conn; eauto.
      * intros k n [_ Hn]%lookup_delete_Some. eapply le_conn; eauto.
    + ok_skip; [by apply ok_ret |]. apply ok_updUdp; [done | eauto with wf | | done]. intros vs Hv.
      destruct (hl_udps _ _ (le_heap _ _ G0) _ _ Hu) as (us' & Hu' & El'). simplify_eq.
      split; [congruence |]. eapply udp_wf_le; [by split | apply G0].
  - destruct HE as [|HE]; [done |]. ok_skip; [by apply ok_upd_same |].
    eapply (ok_bind _ _ _ (λ n c', c' = c0 ∧ udpConn us = Some n)).
    { destruct (udpConn us) eqn:E1; [by apply ok_ret | by apply ok_crash]. }
    intros n ? _ _ [-> Hn]. ok_skip; [apply ok_udpconn; eauto with wf |].
    eapply (ok_bind _ _ _ (λ n c', c' = c1 ∧ tcpConn us = Some n)).
    { destruct (tcpConn us) eqn:E1; [by apply ok_ret | by apply ok_crash]. }
    intros m ? _ _ [-> Hm]. apply ok_closeConn; eauto with wf.
Qed.

Lemma parse_no_panic d : is_panic (parseSessionData d) = false.
Proof. apply data_dec_no_panic. Qed.

Lemma ok_metaData E u us b a c :
  wf c → h_udps (heap c) !! u = Some us → ok E (Udp.handleMetaData u b a) any c.
Proof.
  intros Hw Hu. assert (has (h_udps (heap c)) u) as Hhu by by exists us.
  unfold Udp.handleMetaData. ok_then; [by apply ok_getUdp |]. destruct H as [-> Hus].
  rewrite Hu in Hus. injection Hus as <-. destruct (isListener us) eqn:El; [| by apply ok_ret]. cbn [negb].
  ok_then; [apply ok_lift_safe; [done | apply parse_no_panic] |]. case_decide.
  - ok_then; [apply ok_lift_safe; [done | apply metadata_dec_no_panic] |]. case_match; [by apply ok_ret |].
    ok_skip; [apply ok_upd_same; [done | eauto with wf | done] |].
    ok_skip; [apply ok_tryany, ok_addCodec; eauto 6 with wf | by apply ok_ret].
  - case_decide; [| by apply ok_throw]. case_match; [| by apply ok_ret].
    destruct (hl_udps _ _ (le_heap _ _ G0) _ _ Hu) as (us' & Hu' & El').
    eapply ok_connClosed; [done | exact Hu' | left; congruence].
Qed.

(** What a turn of the receive loop may panic with. *)
Definition recv_panic (listener : bool) (p : panic) : Prop :=
  p = SliceRange ∨ p = MakeSliceLen ∨ listener = false ∧ p = NilDeref.

Lemma ok_recvOne E u us buf dg c :
  wf c → h_udps (heap c) !! u = Some us → buf ≠ [] →
  (∀ p, recv_panic (isListener us) p → E p) →
  ok E (Udp.recvOne u buf dg) (λ buf' _, buf' ≠ []) c.
Proof.
  intros Hw Hu Hb HE. assert (has (h_udps (heap c)) u) as Hhu by by exists us.
  unfold Udp.recvOne. cbv zeta. set (buf' := Udp.dg_data dg ++ _).
  assert (buf' ≠ []) as Hne.
  { unfold buf'. destruct (Udp.dg_data dg) as [|b d]; [by rewrite drop_0 | done]. }
  ok_then; [by apply ok_getUdp |]. destruct H as [-> Hus]. rewrite Hu in Hus. injection Hus as <-.
  ok_read c.
  clearbody buf'. destruct buf' as [|header rest]; [done |]. case_decide.
  - destruct (negb _); [by apply ok_ret |].
    eapply (ok_bind _ _ _ (λ _ c', c' = c)).
    { destruct (isListener us) eqn:El; [by apply ok_ret |].
      eapply (ok_bind _ _ _ (λ _ c', c' = c)); [| by intros ? ? ? ? ->; apply ok_ret].
      destruct (peer us); [by apply ok_ret | apply ok_crash, HE; right; by right]. }
    intros [o usa] ? _ _ ->. destruct o; [| by apply ok_ret]. case_decide.
    + case_decide; [apply ok_crash, HE; right; by left | by apply ok_ret].
    + ok_skip; [apply ok_upd_same; [done | done |] | by apply ok_ret].
      intros vs. unfold Udp.recvPush. by repeat case_decide.
  - case_decide; [| by apply ok_ret]. case_decide; [apply ok_crash, HE; by left |].
    ok_skip; [by eapply ok_tryany, ok_metaData | by apply ok_ret].
Qed.

Lemma ok_udpIsClosed E u c : wf c → has (h_udps (heap c)) u → ok E (Udp.IsClosed u) (λ _ c', c' = c) c.
Proof.
  intros Hw [us Hu]. unfold spec, Udp.IsClosed, try, mbind, go_bind.
  destruct (established_cases u us c Hu) as [(n & x & -> & _)|[e ->]]; [| done..].
  intros n Hn. by eapply (uw_conn _ _ (wf_udps _ Hw _ _ Hu)).
Qed.

Lemma ok_readTake E u us msg us' c :
  wf c → h_udps (heap c) !! u = Some us → Udp.readTake us = Some (msg, us') →
  ok E (Udp.updUdp u (λ _, us')) any c.
Proof.
  intros Hw Hus Ht. unfold Udp.readTake in Ht. destruct (recvChan us); simplify_eq.
  apply ok_updUdp; [done | by exists us | | done]. intros vs Hv. rewrite Hus in Hv. injection Hv as <-.
  split; [done |]. pose proof (wf_udps _ Hw _ _ Hus) as []. by split.
Qed.

Lemma ok_writeTo E u b a c :
  wf c → has (h_udps (heap c)) u → ok E (Udp.WriteTo u b a) any c.
Proof.
  intros Hw Hu. unfold Udp.WriteTo. cbv zeta. ok_then; [by apply ok_getUdp |]. destruct H as [-> Hus].
  ok_skip.
  { destruct (isListener a0) eqn:El; [| by apply ok_ret]. ok_skip; [| by apply ok_ret].
    unfold Udp.getUdpAddr. ok_then; [by apply ok_getUdp |]. destruct H as [-> Hus'].
    rewrite Hus in Hus'. injection Hus' as <-. rewrite El. simpl. destruct a as [|usa|]; [by apply ok_throw | | by apply ok_throw].
    case_match; [by apply ok_ret | by apply ok_throw]. }
  ok_then; [apply ok_established; eauto with wf |]. destruct H as [-> Hc].
  ok_skip; [apply ok_udpconn; [done.. |] | by apply ok_ret]. intros x. apply (uc_no_panic _ _ [] x).
Qed.

Lemma ok_write E u b c : wf c → has (h_udps (heap c)) u → ok E (Udp.Write u b) any c.
Proof.
  intros Hw Hu. unfold Udp.Write. ok_then; [by apply ok_getUdp |]. destruct H as [-> _].
  destruct (isListener a); [by apply ok_throw | by apply ok_writeTo].
Qed.

Lemma ok_setReadDeadline E u t c : wf c → has (h_udps (heap c)) u → ok E (Udp.SetReadDeadline u t) any c.
Proof.
  intros Hw Hu. unfold Udp.SetReadDeadline. ok_skip; [by apply ok_upd_same |].
  apply ok_set_option; eauto with wf.
Qed.

Lemma ok_udpSet E u o c :
  wf c → has (h_udps (heap c)) u →
  ok E (match o with
        | OptDeadline t => Udp.SetDeadline u t
        | OptReadDeadline t => Udp.SetReadDeadline u t
        | OptWriteDeadline t => Udp.SetWriteDeadline u t
        | OptReadBuffer size => Udp.SetReadBuffer u size
        | OptWriteBuffer size => Udp.SetWriteBuffer u size
        end) any c.
Proof.
  intros Hw Hu. destruct o; [| by apply ok_setReadDeadline | by apply ok_set_option..].
  unfold Udp.SetDeadline. ok_read c. case_match; [by apply ok_throw | by apply ok_set_option].
Qed.

Lemma ok_listenerTcp E conn a id c :
  wf c → has (h_conns (heap c)) conn → ok E (Udp.handleUdpListenerTcp conn a id) any c.
Proof.
  intros Hw Hc. unfold Udp.handleUdpListenerTcp.
  ok_read c.
  destruct (listenerUdpSess c) as [u|] eqn:Eu; [| by apply ok_closeConn].
  destruct (wf_listener _ Hw _ Eu) as (us & Hu & El). cbv zeta.
  ok_skip; [apply ok_updUdp; [done | by exists us | | done] |].
  { intros vs Hv. split; [done |]. pose proof (wf_udps _ Hw _ _ Hv) as [U1 U2 U3]. split; simpl; try done.
    intros k n. destruct (decide (sessionKey a id = k)) as [->|];
      [rewrite lookup_insert_eq; by intros [= <-] | rewrite lookup_insert_ne by done; apply U3]. }
  apply ok_spawn; [done | | done]. split; [eauto with wf |].
  destruct (hl_udps _ _ (le_heap _ _ G) _ _ Hu) as (us' & ? & ?). exists us'. split; congruence.
Qed.

End client.
