(* ===== verification/CallsWf.v ===== *)
(** * The calls of the application keep clients well-formed

    The lemmas of [HandlersWf] for closing, listening, rotating exits, answering requests,
    and dialing. *)

From stdpp Require Import base gmap strings list numbers tactics.
From Stdlib Require Import ZArith Lia.
From S2P Require Import Prelude Hoare Util Message Crypto Pb Config Table TableInv Json JsonInv World Udp Frame Client ClientInv Exits ExitsInv Remote Dial System WellFormed HandlersWf.
Import Keys Framing Crypto Client Exits Remote Dial.

Section calls.
Context `{L : LibOps, LL : !LibLaws L}.
Implicit Types (E : panic → Prop) (c : Client).

Abbreviation any := (λ _ _, True).

(** ** Closing *)

Lemma ok_closeSessions E sesss c :
  wf c → Forall (has (h_sess (heap c))) sesss → ok E (closeSessions sesss) any c.
Proof.
  revert c. induction sesss as [|n sesss IH]; intros c Hw Hc; cbn [closeSessions]; [by apply ok_ret |].
  apply Forall_cons_1 in Hc as [Hn Hc].
  eapply (ok_bind _ _ _ (λ _ c', c' = c)); [by apply ok_peek |]. intros s ? _ _ ->. ok_skip.
  { destruct (ncp_IsClosed s); [by apply ok_ret |].
    ok_skip; [apply ok_tryany, ok_sess; [done.. | apply close_no_panic] | by apply ok_ret]. }
  apply IH; [done |]. revert Hc. apply Forall_impl. eauto with wf.
Qed.

Lemma ok_closeExits E tes c :
  wf c → Forall (λ te, ∃ n, te = Some n ∧ has (h_exits (heap c)) n) tes → ok E (closeExits tes) any c.
Proof.
  revert c. induction tes as [|te tes IH]; intros c Hw Hc; cbn [closeExits]; [by apply ok_ret |].
  apply Forall_cons_1 in Hc as [(n & -> & Hn) Hc].
  eapply (ok_bind _ _ _ (λ a c', c' = c ∧ a = n)); [by apply ok_ret |]. intros ? ? _ _ [-> ->].
  ok_skip; [by apply ok_on_exit |]. apply IH; [done |]. revert Hc. apply Forall_impl.
  intros te (m & -> & Hm). exists m. split; [done | eauto with wf].
Qed.

Lemma all_conns_wf t h : table_wf t h → Forall (has (h_conns h)) (all_conns t).
Proof.
  intros [_ H]. apply Forall_forall. intros n Hn%list_elem_of_In. unfold all_conns in Hn.
  apply list_elem_of_bind in Hn as (m & Hn & Hm).
  apply list_elem_of_fmap in Hn as ([id n'] & -> & Hn%elem_of_map_to_list).
  apply list_elem_of_fmap in Hm as ([k m'] & -> & Hm%elem_of_map_to_list). eauto.
Qed.

Lemma all_sess_wf t h : table_wf t h → Forall (has (h_sess h)) ((map_to_list (sessions t)).*2).
Proof.
  intros [H _]. apply Forall_forall.
  intros n ([k n'] & -> & Hn%elem_of_map_to_list)%list_elem_of_In%list_elem_of_fmap. eauto.
Qed.

(** A field the computation does not touch. *)
Lemma ok_keeps E {A B} (f : Client → B) (m : go Client A) Q c :
  ok E m Q c → keeps f m → ok E m (λ a c', Q a c' ∧ f c' = f c) c.
Proof.
  unfold spec. intros H Hk. specialize (Hk c). destruct (m c) as [[a|e|p] c']; [| done..]. simpl in *.
  destruct H as (? & ? & ?). by split_and!.
Qed.

Section keeps_closed.
Context {B} (f : Client → B) `{!Stable f}.

Lemma kf_closeEach conns : keeps f (Udp.closeEach conns).
Proof. induction conns; cbn [Udp.closeEach]; auto with frame. Qed.
Lemma kf_closeSessions sesss : keeps f (closeSessions sesss).
Proof. induction sesss; cbn [closeSessions]; auto 8 with frame. Qed.
Lemma kf_closeExits tes : keeps f (closeExits tes).
Proof. induction tes; cbn [closeExits]; auto 8 with frame. Qed.
Lemma kf_writeEach b conns : keeps f (Udp.writeEach b conns).
Proof. induction conns; cbn [Udp.writeEach]; auto 8 with frame. unfold Udp.writeRaw. auto 8 with frame. Qed.
Lemma kf_sendClose u d : keeps f (Udp.sendCloseMsg u d).
Proof.
  unfold Udp.sendCloseMsg, Udp.writeRaw. apply kt_bind; [auto with frame |]. intros b.
  apply kt_bind; [auto with frame |]. intros us. repeat case_match; auto using kf_writeEach with frame.
Qed.
Lemma kf_established u : keeps f (Udp.GetEstablishedUDPConn u).
Proof. unfold Udp.GetEstablishedUDPConn. auto 10 with frame. Qed.
Lemma kf_closeSocket u : keeps f (Udp.closeSocket u).
Proof. unfold Udp.closeSocket. apply kt_bind; [apply kt_try, kf_established |]. intros r. auto with frame. Qed.
Lemma kf_closeSection u : keeps f (Udp.closeSection u).
Proof.
  unfold Udp.closeSection. apply kt_bind; [auto with frame |]. intros us.
  case_match; auto 8 using kf_closeEach with frame.
Qed.
Lemma kf_udpClose u : keeps f (Udp.Close u).
Proof.
  unfold Udp.Close. apply kt_bind; [apply kt_try, kf_sendClose |]. intros _.
  apply kt_bind; [apply kf_closeSocket |]. intros _. apply kf_closeSection.
Qed.
End keeps_closed.

(** A step of [Close] that does not mark the client closed. *)
Lemma ok_open_step E {A} (m : go Client A) c :
  ok E m any c → keeps isClosed m → isClosed c = false → ok E m (λ _ c', isClosed c' = false) c.
Proof.
  intros H Hk Hc. eapply ok_mono; [by eapply (ok_keeps _ isClosed) | done |].
  intros a c' _ _ [_ ->]. done.
Qed.

Lemma ok_close E c : wf c → ok E Close any c.
Proof.
  intros Hw. unfold Close. ok_read c. destruct (isClosed c) eqn:Ec; [by apply ok_ret |].
  ok_then. { apply ok_open_step; [| auto with frame | done].
    eapply ok_tryany, ok_any, ok_lift_safe; [done | apply multiClient_no_panic]. }
  ok_then. { apply ok_open_step; [| done | done]. apply ok_modify; [| done].
    apply wf_set_exits; [done |]. apply (wf_exits _ W). }
  assert (heap_le (heap c) (heap c1)) as Hle by (etrans; [apply G | apply G0]).
  ok_then. { apply ok_open_step; [| apply kf_closeSessions; apply _ | done].
    apply ok_closeSessions; [done |]; eapply all_sess_wf, table_wf_le; [apply Hw | done]. }
  ok_then. { apply ok_open_step; [| apply kf_closeEach; apply _ | done]. apply ok_closeEach; [done |].
    eapply all_conns_wf, table_wf_le; [apply Hw | etrans; [done | apply G1]]. }
  ok_then. { apply ok_open_step; [| apply kf_closeExits; apply _ | done]. apply ok_closeExits; [done |].
    destruct (tunaExits (exits c)) as [tes|] eqn:Et; [| by constructor]. simpl.
    generalize (wf_exits _ Hw _ Et). apply Forall_impl. intros te (n & -> & Hn). exists n.
    split; [done |]. eauto 8 with wf. }
  ok_then.
  { apply ok_open_step; [| | done].
    - destruct (listenerUdpSess c) as [u|] eqn:Eu; [| by apply ok_ret].
      destruct (wf_listener _ Hw _ Eu) as (us & Hu & _).
      ok_skip; [| by apply ok_ret]. apply ok_tryany, ok_udpClose; [done |].
      assert (has (h_udps (heap c)) u) by by exists us. eauto 8 with wf.
    - destruct (listenerUdpSess c); [| apply kt_ret].
      apply kt_bind; [apply kt_try, kf_udpClose; apply _ | intros; apply kt_ret]. }
  ok_read c5. rewrite (wf_closed _ W4), H4. apply ok_modify; [by apply wf_set_closed | done].
Qed.

(** ** Listening and exits *)

Lemma ok_newTunaExit E i c :
  wf c → (0 ≤ i)%Z ∨ E IndexRange →
  ok E (newTunaExit i) (λ te c', has (h_exits (heap c')) te ∧ (0 ≤ i)%Z ∧ exits c' = exits c) c.
Proof.
  intros Hw Hi. unfold newTunaExit. ok_read c. case_decide; [by apply ok_throw |].
  case_decide; [destruct Hi; [lia | by apply ok_crash] |].
  destruct (listeners (exits c) !! Z.to_nat i) as [l|] eqn:El; [| apply lookup_ge_None in El; lia].
  eapply (ok_bind _ _ _ (λ _ c', c' = c)).
  { apply ok_lift; [done | | done]. intros p Hp. pose proof (Port.addr_port_no_panic (l_addr l)) as Hn. by rewrite Hp in Hn. }
  intros [host port] ? _ _ ->. eapply (ok_bind _ _ _ (λ _ c', c' = c)).
  { apply ok_lift; [done | | done]. destruct (wf_config _ Hw) as ([f Hf] & [g Hg] & _).
    unfold exit_config. by rewrite Hf, Hg. }
  intros cfg ? _ _ ->. eapply (ok_bind _ _ _ (λ _ c', c' = c)).
  { apply ok_lift; [done | | done]. intros p Hp. pose proof (exit_no_panic (e_wallet (exits c)) cfg) as Hn.
    by rewrite Hp in Hn. }
  intros te ? _ _ ->. apply ok_new_exit; [done |]. intros r. split; [apply has_insert_eq |]. split; [lia | done].
Qed.

Lemma ok_openExits E n i c :
  wf c → (0 ≤ i)%Z →
  ok E (openExits n i) (λ tes c', Forall (λ te, ∃ n, te = Some n ∧ has (h_exits (heap c')) n) tes) c.
Proof.
  revert i c. induction n as [|n IH]; intros i c Hw Hi; cbn [openExits]; [apply ok_ret; [done | constructor] |].
  eapply (ok_bind _ _ _ (λ te c', has (h_exits (heap c')) te)).
  { eapply ok_mono; [apply (ok_newTunaExit E); [done | by left] | done | by intros ? ? ? ? []]. }
  intros te c1 W1 G1 Hte. ok_read c1. ok_skip.
  { destruct (tunaNode (exits c1)); [by apply ok_on_exit | by apply ok_ret]. }
  ok_skip; [apply ok_spawn; [done | simpl; eauto with wf | done] |].
  ok_skip; [apply ok_spawn; [done | simpl; eauto with wf | done] |].
  ok_then; [apply IH; [done | lia] |]. apply ok_ret; [done |]. constructor; [| done].
  exists te. split; [done |]. eauto 8 with wf.
Qed.

Lemma openListeners_no_panic pick n o :
  pick_ok pick →
  is_panic (openListeners pick n o).1 = false.
Proof.
  intros Hpick. revert o. induction n as [|n IH]; intros o; cbn [openListeners]; [done |].
  destruct (Port.GetFreePort_result pick Hpick 0 o) as (r & Hg & Hr & _).
  unfold mbind at 1, go_bind at 1. rewrite Hg. destruct r as [p| |]; [| done..].
  unfold lift_res, Port.ResolveTCPAddr. unfold mbind at 1, go_bind at 1. case_decide; [| done].
  unfold mbind at 1, go_bind at 1. destruct (Port.ListenTCP pick p o) as [r o'] eqn:El.
  destruct (Port.ListenTCP_err pick _ _ _ _ El) as [[[id q] ->]|[-> _]]; [| done].
  unfold mbind, go_bind. specialize (IH o'). by destruct (openListeners pick n o') as [[]].
Qed.

Lemma ok_os E {A} (m : go Port.OS A) c :
  wf c → (∀ o, is_panic (m o).1 = false) → ok E (on_os m) any c.
Proof.
  intros Hw Hm. unfold spec, on_os, on_exits, zoom. specialize (Hm (e_os (exits c))).
  destruct (m _) as [r o]. simpl in *. destruct (wf_set_exits c (set_os o (exits c)) Hw (wf_exits _ Hw)).
  by destruct r.
Qed.

Lemma ok_exits E f c :
  wf c → (∀ tes, tunaExits (f (exits c)) = Some tes →
            Forall (λ te, ∃ n, te = Some n ∧ has (h_exits (heap c)) n) tes) →
  ok E (on_exits (modify f)) any c.
Proof.
  intros Hw Hf. unfold spec, on_exits, zoom. simpl.
  by destruct (wf_set_exits c (f (exits c)) Hw Hf).
Qed.

Lemma ok_startExits E pick c :
  wf c → pick_ok pick → E MakeSliceLen →
  ok E (startExits pick) any c.
Proof.
  intros Hw Hpick HE. unfold startExits. ok_read c.
  assert (ok E (
      if decide (NumTunaListeners (config c) < 0)%Z then crash MakeSliceLen
      else
        ls ← on_os (openListeners pick (Z.to_nat (NumTunaListeners (config c))));
        on_exits (modify (set_listeners ls));;
        tes ← openExits (Z.to_nat (NumTunaListeners (config c))) 0;
        on_exits (modify (set_tunaExits (Some tes)));;
        spawn (TListenWhenConnected (length ls))) any c) as H; [| by destruct (tunaExits (exits c)) as [[]|]; [| apply ok_ret |]].
  case_decide; [by apply ok_crash |].
  ok_skip; [apply ok_os; [done | intros; by apply openListeners_no_panic] |].
  ok_skip; [apply ok_exits; [done | apply (wf_exits _ W)] |].
  ok_then; [by apply ok_openExits |].
  ok_skip; [apply ok_exits; [done |]; by intros tes [= <-] |]. by apply ok_spawn.
Qed.

Lemma compileAll_no_panic addrs : is_panic (compileAll addrs) = false.
Proof.
  induction addrs as [|a addrs IH]; simpl; [done |]. pose proof (compile_no_panic a) as Ha.
  destruct (regexp_Compile a); [| done..]. simpl. by destruct (compileAll addrs).
Qed.

Lemma ok_listen E pick addrsRe c :
  wf c → pick_ok pick → E MakeSliceLen →
  ok E (Listen pick addrsRe) any c.
Proof.
  intros Hw Hpick HE. unfold Listen. ok_then; [apply ok_lift_safe; [done | apply compileAll_no_panic] |].
  ok_skip; [apply ok_modify; [by apply wf_set_accepts | done] |]. ok_read c1.
  destruct (listeners (exits c1)); [| by apply ok_ret].
  destruct (e_wallet (exits c1)); [by apply ok_startExits | by apply ok_throw].
Qed.

Lemma ok_setNode E n c : wf c → ok E (SetTunaNode n) any c.
Proof. intros Hw. apply ok_modify; [| done]. apply wf_set_exits; [done | apply (wf_exits _ Hw)]. Qed.

Lemma ok_rotateStart E i c :
  wf c → (0 ≤ i)%Z ∨ E IndexRange → ok E (rotateStart i) (λ te c', (0 ≤ i)%Z ∧ has (h_exits (heap c')) te) c.
Proof.
  intros Hw HE. unfold rotateStart. ok_then; [by apply (ok_newTunaExit E) |]. destruct H as (Hte & Hi & _).
  ok_skip; [apply ok_spawn; [done | simpl; eauto with wf | done] |]. apply ok_ret; [done |]. eauto with wf.
Qed.

Lemma ok_rotateSwap E i te c :
  wf c → has (h_exits (heap c)) te → E IndexRange → ok E (rotateSwap i te) any c.
Proof.
  intros Hw Hte HE. unfold rotateSwap. ok_read c. set (tes := default [] (tunaExits (exits c))).
  assert (Forall (λ te, ∃ n, te = Some n ∧ has (h_exits (heap c)) n) tes) as Ht.
  { unfold tes. destruct (tunaExits (exits c)) eqn:Et; [by apply (wf_exits _ Hw) | constructor]. }
  destruct (tes !! Z.to_nat i) as [old|] eqn:Eo; [| by apply ok_crash].
  ok_skip.
  { apply ok_exits; [done |]. intros tes' [= <-]. apply Forall_insert; [done |]. exists te. eauto with wf. }
  destruct old as [o|]; [| by apply ok_ret]. destruct (Forall_lookup_1 _ _ _ _ Ht Eo) as (n & [= <-] & Hn).
  ok_skip; [apply ok_on_exit; eauto with wf |]. apply ok_spawn; [done | simpl; eauto with wf | done].
Qed.

(** ** Requests *)

Lemma ok_exitAddrs E b tes c :
  wf c → Forall (λ te, ∃ n, te = Some n ∧ has (h_exits (heap c)) n) tes → ok E (exitAddrs b tes) any c.
Proof.
  intros Hw. revert c Hw. induction tes as [|te tes IH]; intros c Hw Ht; cbn [exitAddrs]; [by apply ok_ret |].
  apply Forall_cons_1 in Ht as [(n & -> & Hn) Ht].
  eapply (ok_bind _ _ _ (λ a c', c' = c ∧ a = n)); [by apply ok_ret |]. intros ? ? _ _ [-> ->].
  eapply (ok_bind _ _ _ (λ _ c', c' = c)); [by apply ok_peek |]. intros e ? _ _ ->. cbv zeta.
  ok_skip; [by apply IH | by apply ok_ret].
Qed.

Lemma ok_request E src data c : wf c → ok E (handleRequest src data) any c.
Proof.
  intros Hw. unfold handleRequest. ok_read c. destruct (negb _); [by apply ok_ret |]. ok_skip.
  { eapply ok_tryany, ok_any, ok_lift_safe; [done | apply (json_no_panic (mkRequest "" []) None data)]. }
  destruct a as [req|]; [| by apply ok_ret]. case_decide; [| by apply ok_ret]. cbv zeta. ok_skip.
  { destruct (IsSessClosed _ _); [by apply ok_ret |]. unfold getPubAddrs. ok_read c0.
    destruct (tunaExits (exits c0)) as [tes|] eqn:Et; [| by apply ok_ret].
    ok_skip; [apply ok_exitAddrs; [done | by apply (wf_exits _ W)] | by apply ok_ret]. }
  ok_skip; [| by apply ok_ret]. eapply ok_tryany, ok_any, ok_lift_safe; [done | apply (json_no_panic (mkRequest "" []) a [])].
Qed.

Lemma closeOneConn_cases sess id t h :
  table_wf t h →
  match closeOneConn sess id t with
  | Ok (Some n) => has (h_conns h) n
  | Ok None => True
  | Err _ => False
  | Panic p => p = NilDeref
  end.
Proof.
  intros Ht. unfold closeOneConn, conn_of. destruct (list_find _ _) as [[k [key s]]|]; [| done].
  destruct (sessionConns t !! key) as [m|] eqn:Em; simpl; [| done].
  destruct (m !! id) eqn:En; [| done]. by eapply (tw_conns _ _ Ht).
Qed.

Lemma ok_closeOne E sess id c : wf c → E NilDeref → ok E (CloseOneConn sess id) any c.
Proof.
  intros Hw HE. unfold CloseOneConn. ok_read c.
  pose proof (closeOneConn_cases sess id _ _ (wf_table _ Hw)) as Hc.
  destruct (closeOneConn sess id (table c)) as [[n|]|e|p] eqn:Eo; [| | done | by subst].
  - eapply (ok_bind _ _ _ (λ o c', c' = c ∧ o = Some n)); [by apply ok_lift; naive_solver |].
    intros ? ? _ _ [-> ->]. by apply ok_closeConn.
  - eapply (ok_bind _ _ _ (λ o c', c' = c ∧ o = None)); [by apply ok_lift; naive_solver |].
    intros ? ? _ _ [-> ->]. by apply ok_ret.
Qed.

(** ** Listening for UDP *)

Lemma ok_listenUDP E pick c :
  wf c → pick_ok pick →
  E MakeSliceLen → E IndexRange →
  ok E (ListenUDP pick) any c.
Proof.
  intros Hw Hpick HM HI. unfold ListenUDP. ok_read c.
  destruct (listeners (exits c)); [by apply ok_throw |].
  destruct (listenerUdpSess c); [by apply ok_ret |].
  ok_then; [by apply ok_newUdpSession |]. destruct H as (us & Hu & Hl).
  ok_skip; [apply ok_modify; [by eapply wf_set_udp | done] |].
  ok_skip; [by apply ok_startExits |]. ok_read c2. destruct (listeners (exits c2)) as [|l' ls]; [by apply ok_crash |].
  ok_then; [apply ok_lift_safe; [done |]; apply Port.addr_port_no_panic |]. destruct a2 as [host port].
  ok_then; [apply ok_lift_safe; [done |]; apply net_no_panic |].
  assert (has (h_udps (heap c4)) a) as Hh by (assert (has (h_udps (heap c0)) a) by (by exists us); eauto 8 with wf).
  eapply (ok_bind _ _ _ (λ r c', has (h_udpconns (heap c')) r)).
  { apply ok_new_udpconn; [done |]. intros r. apply has_insert_eq. }
  intros uc c5 W5 G5 Huc. ok_skip.
  { apply ok_updUdp; [done | eauto with wf | | done]. intros vs Hv. split; [done |].
    destruct (wf_udps _ W5 _ _ Hv) as [U1 U2 U3]. split; simpl; try done. by intros n [= <-]. }
  ok_skip; [apply ok_spawn; [done | simpl; eauto with wf | done] | by apply ok_ret].
Qed.

(** ** Dialing *)

Lemma hasPubAddr_panic addrs p : hasPubAddr addrs = Panic p → p = NilDeref.
Proof.
  induction addrs as [|[a|] addrs IH]; simpl; [done | | by intros [= <-]]. by case_decide.
Qed.

Lemma ok_remoteAnswer E outcome a id c :
  wf c → E NilDeref → ok E (remoteAnswer outcome a id) any c.
Proof.
  intros Hw HE. unfold remoteAnswer.
  ok_then; [apply ok_lift_safe; [done | apply (json_no_panic (mkRequest ActionGetPubAddr id) None [])] |].
  destruct outcome as [[data|]|e|]; [| by apply ok_crash | by apply ok_throw | by apply ok_crash].
  ok_then; [apply ok_lift_safe; [done | apply (json_no_panic (mkRequest "" []) None data)] |].
  destruct (SessionClosed a1); [by apply ok_throw |].
  ok_skip; [apply ok_lift; [done | by intros p ->%hasPubAddr_panic | done] |].
  destruct a2; [| by apply ok_throw]. ok_skip; [| by apply ok_ret]. apply ok_modify; [| done].
  apply wf_set_table; [done |]. by destruct (wf_table _ W1).
Qed.

Lemma ok_orClose E {A} conn (m : go Client A) c :
  has (h_conns (heap c)) conn → ok E m any c → ok E (orClose conn m) any c.
Proof.
  intros Hc Hm. unfold orClose. ok_skip; [by apply ok_tryany |]. destruct a; [by apply ok_ret |].
  ok_skip; [apply ok_closeConn; eauto with wf | by apply ok_throw].
Qed.

Lemma ok_dialTcpConn E n a id ty i pa cfg c :
  wf c → net_ok n →
  ok E (dialTcpConn n a id ty i pa cfg) (λ conn c', has (h_conns (heap c')) conn) c.
Proof.
  intros Hw [Hd Hr]. unfold dialTcpConn. destruct pa as [pa|]; [| by apply ok_throw].
  case_decide; [by apply ok_throw |]. ok_then; [by apply ok_lift_safe |].
  eapply (ok_bind _ _ _ (λ r c', has (h_conns (heap c')) r)).
  { apply ok_new_conn; [done |]. intros r _. apply has_insert_eq. }
  intros conn c1 W1 G1 Hc. ok_read c1. ok_skip.
  { apply ok_orClose; [done |]. ok_skip; [apply ok_conn; auto with conn |].
    ok_then; [apply ok_lift_safe; [done |]; apply metadata_no_panic |].
    ok_skip; [apply ok_encode; [done | | done]; symmetry; apply le_key; by etrans |].
    apply ok_conn; eauto with wf conn. }
  eapply (ok_bind _ _ _ (λ _ c', has (h_conns (heap c')) conn)); [| by intros; apply ok_ret].
  case_decide; [| apply ok_ret; eauto with wf]. apply ok_modify; [| simpl; eauto with wf].
  apply wf_set_table; [done |]. apply table_wf_dialPut; [apply W0 | eauto with wf].
Qed.

Lemma ok_spawnConns E conns a id cfg idx c :
  wf c → (∀ k n, conns !! k = Some n → has (h_conns (heap c)) n) → Forall (λ i, 0 ≤ i)%Z idx →
  ok E (spawnConns conns a id cfg idx) any c.
Proof.
  revert c. induction idx as [|i idx IH]; intros c Hw Hc Hi; cbn [spawnConns]; [by apply ok_ret |].
  apply Forall_cons_1 in Hi as [Hi0 Hi]. ok_skip.
  { destruct (conns !! connID i) eqn:Ec; [| by apply ok_ret].
    apply ok_spawn; [done | split; [eauto | done] | done]. }
  apply IH; [done | eauto with wf | done].
Qed.

Lemma indices_nonneg addrs : Forall (λ i, 0 ≤ i)%Z (indices addrs).
Proof. apply Forall_forall. intros i (n & -> & _)%list_elem_of_In%list_elem_of_fmap. lia. Qed.

Lemma ok_listenNet E i acc c : wf c → is_panic acc = false → ok E (listenNet i acc) any c.
Proof.
  intros Hw Ha. unfold listenNet. destruct acc as [x|e|p]; [| ok_read c; by apply ok_ret | done].
  eapply (ok_bind _ _ _ (λ r c', has (h_conns (heap c')) r)).
  { apply ok_new_conn; [done |]. intros r _. apply has_insert_eq. }
  intros conn c1 W1 G1 Hc. ok_skip; [by apply ok_spawn | by apply ok_ret].
Qed.

Lemma ok_spawnAll E ts c : wf c → Forall (λ t, ∀ h, task_ok h t) ts → ok E (spawnAll ts) any c.
Proof.
  revert c. induction ts as [|t ts IH]; intros c Hw Ht; cbn [spawnAll]; [by apply ok_ret |].
  apply Forall_cons_1 in Ht as [Ht0 Ht]. ok_skip; [by apply ok_spawn; auto |]. by apply IH.
Qed.

Lemma ok_whenConnected E n c : wf c → ok E (listenWhenConnected n) any c.
Proof.
  intros Hw. unfold listenWhenConnected. ok_skip; [by apply ok_spawn |]. apply ok_spawnAll; [done |].
  by apply Forall_forall; intros t (i & -> & _)%list_elem_of_In%list_elem_of_fmap.
Qed.

End calls.
