(* ===== verification/StepsWf.v ===== *)
(** * Every step of a goroutine keeps the client well-formed

    [g_ok] is the type of a goroutine: the pointers it holds lead to objects.  [step_ok]: a
    step on a well-formed client keeps the client well-formed, the goroutines that go on
    are well-typed, and the step panics only in the ways [g_panic] lists. *)

From stdpp Require Import base gmap strings list numbers tactics relations.
From Stdlib Require Import ZArith Lia.
From S2P Require Import Prelude Hoare Util Message Crypto Pb Config Table TableInv Json JsonInv World Udp Frame Client ClientInv Exits ExitsInv Remote Dial System WellFormed HandlersWf CallsWf.
Import Keys Framing Crypto Client Exits Remote Dial.

Section steps.
Context `{L : LibOps, MO : !MergeOps, LL : !LibLaws L, ML : !MergeLaws MO}.
Implicit Types (E : panic → Prop) (c : Client).

Abbreviation any := (λ _ _, True).

(** ** Pieces of handlers *)

Lemma ok_handshake E conn c :
  wf c → has (h_conns (heap c)) conn → E MakeSliceLen → ok E (handshake conn) any c.
Proof.
  intros Hw Hc HE. unfold handshake. ok_skip; [apply ok_tryany, ok_conn; auto with conn |].
  assert (∀ c' (W : wf c') (G : le c c'), ok E (closeConn conn;; mret (None (A := string * SessionMetadata))) any c') as Hcl.
  { intros. ok_skip; [apply ok_closeConn; eauto with wf | by apply ok_ret]. }
  destruct a as [buf|]; [| by apply Hcl]. cbv zeta. ok_read c0. destruct (negb _); [by apply Hcl |].
  ok_skip; [| destruct a; [by apply ok_ret | apply Hcl; [done | by etrans]]]. apply ok_tryany.
  ok_skip; [apply ok_conn; eauto with wf conn |].
  ok_skip; [apply ok_decode; [done | symmetry; by apply le_key | done] |].
  eapply ok_any, ok_lift_safe; [done | apply metadata_dec_no_panic].
Qed.

(** Only a new session depends on what makes it. *)
Lemma registerConn_not_new now key i conn mk t r t' e :
  registerConn now key i conn mk t = Ok (r, t') → (∀ s, r ≠ RegNew s) →
  registerConn now key i conn (Err e) t = Ok (r, t').
Proof.
  unfold registerConn, mbind, res_bind, mret, res_ret. intros H Hr.
  destruct (sessions t !! key); [done |]. destruct (cache_Get _ _ _); [done |].
  destruct mk as [s| |]; [| done..]. destruct (putConn _ _ _ _); simplify_eq. by destruct (Hr s).
Qed.

Lemma registerConn_panic now key i conn mk t p :
  registerConn now key i conn mk t = Panic p → mk = Panic p ∨ p = NilMapWrite.
Proof.
  unfold registerConn, putConn, mbind, res_bind, mret, res_ret. intros H.
  destruct mk; repeat (case_match; simplify_eq/=; try done); auto.
Qed.

Lemma listenSession_panic c a p :
  listenSession c a = Panic p → p = MakeSliceLen ∧ ¬ (0 ≤ NumTunaListeners (config c))%Z.
Proof.
  unfold listenSession. case_decide; [intros [= <-]; split; [done | lia] |]. intros Hp. unfold newSession in Hp.
  match type of Hp with NewSession ?l ?r ?ids ?cfg = _ => pose proof (new_session_no_panic l r ids cfg) as Hn end.
  by rewrite Hp in Hn.
Qed.

Lemma ok_register E conn a id i c :
  wf c → has (h_conns (heap c)) conn → E MakeSliceLen → E NilMapWrite →
  ok E (register conn a id i)
    (λ r c', ∀ sess, r = RegOld sess ∨ r = RegNew sess → has (h_sess (heap c')) sess) c.
Proof.
  intros Hw Hc HM HN. unfold register. ok_read c. cbv zeta. set (ref := fresh _).
  eapply (ok_bind _ _ _ (λ rt c', c' = c ∧
    registerConn (now c) (sessionKey a id) i conn (listenSession c a ≫= λ _, Ok ref) (table c) = Ok rt)).
  { apply ok_lift; [done | | done]. intros p [Hp| ->]%registerConn_panic; [| done].
    destruct (listenSession c a) eqn:Em; simplify_eq/=.
    by apply listenSession_panic in Em as [-> _]. }
  intros [r t] ? _ _ [-> Hr]. assert ((∃ s, r = RegNew s) ∨ ∀ s, r ≠ RegNew s) as [[s ->]|Hnew]
    by (destruct r; eauto).
  - destruct (registerConn_new _ _ _ _ _ _ _ _ _ Hr) as [-> [x Hx]]. rewrite Hx in *.
    eapply (ok_bind _ _ _ (λ _ c', heap c' = put_sess ref x (heap c))).
    { eapply (ok_bind _ _ _ (λ y c', c' = c ∧ y = x)); [apply ok_lift; naive_solver |].
      intros ? ? _ _ [-> ->]. apply ok_modify; [| done].
      apply wf_heap_same; [done | apply heap_le_sess | done]. }
    intros _ c1 W1 G1 H1.
    eapply (table_wf_register _ _ _ _ _ _ (put_sess ref x (heap c))) in Hr as [Ht Hs];
      [| eapply table_wf_le; [apply Hw | apply heap_le_sess] | done | intros ? [= <-]; apply has_insert_eq].
    eapply (ok_bind _ _ _ (λ _ c', heap c' = put_sess ref x (heap c))).
    { apply ok_modify; [| done]. apply wf_set_table; [done | by rewrite H1]. }
    intros _ c2 W2 G2 H2. apply ok_ret; [done |]. by rewrite H2.
  - apply (registerConn_not_new _ _ _ _ _ _ _ _ ErrClosed) in Hr; [| done].
    eapply table_wf_register in Hr as [Ht Hs]; [| apply Hw | done | done].
    eapply (ok_bind _ _ _ (λ _ c', c' = c)).
    { destruct r as [s|s|]; [by apply ok_ret | by destruct (Hnew s) | by apply ok_ret]. }
    intros _ ? _ _ ->. eapply (ok_bind _ _ _ (λ _ c', heap c' = heap c)).
    { apply ok_modify; [| done]. by apply wf_set_table. }
    intros _ c2 W2 G2 H2. apply ok_ret; [done |]. by rewrite H2.
Qed.

Lemma ok_queue E sess c : wf c → has (h_sess (heap c)) sess → ok E (queueSession sess) any c.
Proof.
  intros Hw Hs. apply ok_modify; [| done]. case_decide; [| by split].
  apply wf_set_accept; [done | | rewrite length_app; simpl; lia].
  apply Forall_app. split; [apply Hw | by constructor].
Qed.

Lemma ok_tcpMsg_turn E u us conn key b c :
  wf c → h_udps (heap c) !! u = Some us → has (h_conns (heap c)) conn →
  isListener us = true ∨ E NilDeref → E SliceRange →
  ok E (tcpMsg_turn u conn key b) any c.
Proof.
  intros Hw Hu Hc HE HS. unfold tcpMsg_turn. ok_skip; [apply ok_tryany, ok_conn; auto with conn |].
  destruct a as [got|]; [| by apply ok_ret]. case_decide; [by apply ok_ret |].
  case_decide; [by apply ok_crash |].
  ok_skip; [eapply ok_tryany, ok_any, ok_lift_safe; [done | apply parse_no_panic] |].
  destruct a; [| by apply ok_ret]. case_decide; [| by apply ok_ret].
  ok_skip; [| by apply ok_ret].
  destruct (hl_udps _ _ (le_heap _ _ (le_trans _ _ _ G G0)) _ _ Hu) as (us' & ? & Hl).
  eapply ok_connClosed; [done.. |]. by rewrite Hl.
Qed.

(** *** Dialing *)

Lemma dialUdpConn_panic addrs err p : dialUdpConn addrs err = Panic p → p = NilDeref.
Proof.
  revert err. induction addrs as [|[a|] addrs IH]; intros err; simpl; [by destruct err | | by intros [= <-]].
  case_decide; [| apply IH]. pose proof (proj1 (net_no_panic (IP a) (Port a))).
  destruct (net_DialUDP _ _); [done | apply IH | done].
Qed.

Lemma metadata_sent E u id c : wf c → has (h_udps (heap c)) u → ok E (Udp.sendMetaData u id) any c.
Proof.
  intros Hw Hu. unfold Udp.sendMetaData. ok_read c.
  ok_then; [apply ok_lift_safe; [done | apply metadata_no_panic] |].
  ok_then; [apply ok_lift_safe; [done | apply newSessionData_no_panic] |].
  ok_then; [apply ok_established; eauto with wf |]. destruct H1 as [-> Hc].
  ok_skip; [apply ok_udpconn; [done.. |] | by apply ok_ret]. intros x. apply (uc_no_panic _ _ [] x).
Qed.

Lemma ok_upConnect E n u a id cfg pa c :
  wf c → has (h_udps (heap c)) u → net_ok n → E NilDeref → ok E (upConnect n u a id cfg pa) any c.
Proof.
  intros Hw Hu Hn HE. unfold upConnect.
  ok_skip; [apply ok_lift; [done | by intros p ->%dialUdpConn_panic | done] |]. rename a0 into r. cbv zeta.
  eapply (ok_bind _ _ _ (λ o c', ∀ n, o = Some n → has (h_udpconns (heap c')) n)).
  { destruct r as [[x b]|]; [| by apply ok_ret].
    eapply (ok_bind _ _ _ (λ r c', has (h_udpconns (heap c')) r)).
    - apply ok_new_udpconn; [done |]. intros m. apply has_insert_eq.
    - intros m c2 W2 G2 Hm. apply ok_ret; [done |]. by intros ? [= <-]. }
  intros uc c1 W1 G1 Huc.
  eapply (ok_bind _ _ _ (λ r c', ∀ n, r = inl n → has (h_conns (heap c')) n)).
  { eapply ok_try; [by apply ok_dialTcpConn | by intros ? ? ? ? ? ? [= <-] | done]. }
  intros [tcp|e] c2 W2 G2 Htcp.
  - eapply (ok_bind _ _ _ (λ _ c', c' = c2)); [destruct (snd <$> r); [by apply ok_ret | by apply ok_crash] |].
    intros b ? _ _ ->. ok_skip.
    { apply ok_updUdp; [done | eauto 6 with wf | | done]. intros us Hus. split; [done |].
      destruct (wf_udps _ W2 _ _ Hus) as [U1 U2 U3]. split; simpl; [| by intros ? [= <-]; auto | done].
      intros m Hm. eapply le_udpconn; [by apply Huc | done]. }
    by apply ok_ret.
  - eapply (ok_bind _ _ _ (λ m c', c' = c2 ∧ uc = Some m)); [destruct uc; [by apply ok_ret | by apply ok_crash] |].
    intros m ? _ _ [-> ->]. ok_skip; [apply ok_udpconn; eauto with wf | by apply ok_throw].
Qed.

Lemma ok_dialStart E cfg a id pa c :
  wf c → E NilDeref →
  ok E (dialStart cfg a id pa) (λ gs _, ∃ pend, gs = [GDialAll cfg a id (Addrs pa) pend]) c.
Proof.
  intros Hw HE. unfold dialStart. ok_read c. ok_skip; [| apply ok_ret; eauto].
  apply ok_lift; [done | | done]. generalize (Addrs pa). intros l p.
  induction l as [|[b|] l IH]; simpl; [done | done |]. by destruct (Verbose (config c)); [intros [= <-] |].
Qed.

Lemma ok_dialJoin E cfg a id addrs c :
  wf c →
  ok E (dialJoin cfg a id addrs)
    (λ gs c', gs = [] ∨ ∃ conns sess, gs = [GDialStore cfg a id addrs conns sess] ∧
       has (h_sess (heap c')) sess ∧ ∀ k n, conns !! k = Some n → has (h_conns (heap c')) n) c.
Proof.
  intros Hw. unfold dialJoin. ok_read c. case_decide; [apply ok_ret; auto |].
  ok_skip.
  { eapply ok_tryany, ok_any, ok_lift_safe; [done | apply new_session_no_panic]. }
  destruct a0 as [s|]; [| apply ok_ret; auto].
  eapply (ok_bind _ _ _ (λ r c', has (h_sess (heap c')) r)).
  { apply ok_new_sess; [done |]. intros. apply has_insert_eq. }
  intros sess c1 W1 G1 Hs. apply ok_ret; [done |]. right. eexists _, _. split_and!; [done.. |].
  intros k n. destruct (sessionConns (table c) !! sessionKey a id) as [m|] eqn:Em; simpl;
    [| by rewrite lookup_empty]. intros Hn.
  assert (has (h_conns (heap c)) n) by (by eapply (tw_conns _ _ (wf_table _ Hw))). eauto with wf.
Qed.

(** ** Goroutines *)

(** A dialed connection has an index of the address list. *)
Definition caller_ok (k : caller) (l : link) : Prop :=
  match k with KServe => True | KDial _ => (0 ≤ k_i l)%Z end.

Definition listener_at (h : Heap) (u : nat) : Prop :=
  ∃ us, h_udps h !! u = Some us ∧ isListener us = true.

Definition watcher_ok (h : Heap) (w : watcher) : Prop :=
  match w with WListener u _ => listener_at h u | WDialer l => has (h_udps h) (p_udp l) end.

Definition closer_ok (h : Heap) (x : closer) : Prop :=
  match x with XCall => True | XDial _ l _ => has (h_udps h) (p_udp l) end.

Definition g_ok (h : Heap) (g : goroutine) : Prop :=
  match g with
  | GListen _ | GRemover | GNKN | GWhenConnected _ => True
  | GDialAnswer _ _ _ | GDialAll _ _ _ _ _ => True
  | GRotate _ i => (0 ≤ i)%Z
  | GServe _ conn | GCloseConn conn => has (h_conns h) conn
  | GRegister l => has (h_conns h) (k_conn l)
  | GFirst l sess | GQueue l sess => has (h_conns h) (k_conn l) ∧ has (h_sess h) sess
  | GEnter k l | GAfter k l => has (h_conns h) (k_conn l) ∧ caller_ok k l
  | GLoop k l _ sess | GExit k l _ sess | GSessClose k l sess =>
      has (h_conns h) (k_conn l) ∧ has (h_sess h) sess ∧ caller_ok k l
  | GRetry _ l _ | GRedial _ l _ _ => has (h_conns h) (k_conn l) ∧ (0 ≤ k_i l)%Z
  | GAsk _ l _ sess | GAnswer _ l _ sess =>
      has (h_conns h) (k_conn l) ∧ (0 ≤ k_i l)%Z ∧ has (h_sess h) sess
  | GDial _ _ randID | GUdpDial _ _ randID => is_panic randID = false
  | GDialStore _ _ _ _ conns sess =>
      has (h_sess h) sess ∧ ∀ k n, conns !! k = Some n → has (h_conns h) n
  | GDialSess sess => has (h_sess h) sess
  | GExitConnected te | GExitClose te => has (h_exits h) te
  | GRotateSwap _ i te => (0 ≤ i)%Z ∧ has (h_exits h) te
  | GRecv u buf | GRecvFrom u buf => has (h_udps h) u ∧ buf ≠ []
  | GRead u _ | GRelease u _ => has (h_udps h) u
  | GUdpClose x u | GUdpCloseSocket x u | GUdpCloseMaps x u => has (h_udps h) u ∧ closer_ok h x
  | GMonitor w conn _ | GMonitorRead w conn _ => has (h_conns h) conn ∧ watcher_ok h w
  | GMonitorEnd u _ => listener_at h u
  | GUp _ l | GUpAnswer _ l | GUpConnect _ l _ | GUpMeta _ l _ | GUpCodec _ l _
  | GUpRound l | GUpAfter l | GUpRetry l _ => has (h_udps h) (p_udp l)
  end.

(** The panics a step may end with. *)
Definition g_panic (g : goroutine) (p : panic) : Prop :=
  match g with
  | GServe _ _ | GFirst _ _ | GLoop _ _ _ _ | GUdpDial _ _ _ => p = MakeSliceLen
  | GRegister _ => p = MakeSliceLen ∨ p = NilMapWrite
  | GExit _ _ _ _ => p = NilMapWrite
  | GAnswer _ _ _ _ | GDial _ _ _ | GDialAnswer _ _ _ => p = NilDeref
  | GRotateSwap _ _ _ => p = IndexRange
  | GRecvFrom _ _ => p = SliceRange ∨ p = MakeSliceLen ∨ p = NilDeref
  | GMonitorRead (WListener _ _) _ _ => p = SliceRange
  | GMonitorRead (WDialer _) _ _ => p = SliceRange ∨ p = NilDeref
  | GUpAnswer _ _ | GUpConnect _ _ _ | GUpRound _ | GUpAfter _ => p = NilDeref
  | _ => False
  end.

Lemma g_ok_le h h' g : g_ok h g → heap_le h h' → g_ok h' g.
Proof.
  intros Hg Hle.
  assert (∀ n, has (h_conns h) n → has (h_conns h') n) by (intros; by eapply has_conn_le).
  assert (∀ n, has (h_sess h) n → has (h_sess h') n) by (intros; by eapply hl_sess).
  assert (∀ n, has (h_exits h) n → has (h_exits h') n) by (intros; by eapply hl_exits).
  assert (∀ n, has (h_udps h) n → has (h_udps h') n).
  { intros n [us Hu]. destruct (hl_udps _ _ Hle _ _ Hu) as (us' & ? & _). by exists us'. }
  assert (∀ n, listener_at h n → listener_at h' n).
  { intros n (us & Hu & El). destruct (hl_udps _ _ Hle _ _ Hu) as (us' & ? & ?). exists us'. split; congruence. }
  assert (∀ w, watcher_ok h w → watcher_ok h' w) by (intros []; simpl; auto).
  assert (∀ x, closer_ok h x → closer_ok h' x) by (intros []; simpl; auto).
  destruct g; simpl in *; try naive_solver.
Qed.

(** A step that goes on in the same way whatever its action returns. *)
Lemma ok_last E {A B} (m : go Client A) (f : A → B) (Q : B → Client → Prop) c :
  ok E m any c → (∀ a c', wf c' → le c c' → Q (f a) c') → ok E (a ← m; mret (f a)) Q c.
Proof. intros Hm HQ. ok_skip; [done |]. apply ok_ret; auto. Qed.

Lemma connExit_panic now key r str i t p : connExit now key r str i t = Panic p → p = NilMapWrite.
Proof.
  unfold connExit, addrRelease. destruct (addrConnCount t !! r); [case_decide; by cbn | by intros [= <-]].
Qed.

Abbreviation goes_on := (λ gs c', Forall (g_ok (heap c')) gs).

Lemma step_serve e g c :
  wf c → g_ok (heap c) g → env_ok e →
  match g with
  | GListen _ | GServe _ _ | GRegister _ | GFirst _ _ | GQueue _ _ | GEnter _ _ | GLoop _ _ _ _
  | GExit _ _ _ _ | GSessClose _ _ _ | GAfter _ _ | GCloseConn _ => True
  | _ => False
  end →
  ok (g_panic g) (gstep e g) goes_on c.
Proof.
  intros Hw Hg He Hk. destruct g; try done; clear Hk; simpl in Hg; cbn [gstep].
  - apply ok_last; [by apply ok_listenNet, He |]. intros [] ? ? ?; by repeat constructor.
  - ok_skip; [by apply ok_handshake |]. destruct a as [[remoteAddr md]|]; [| by apply ok_ret; [| constructor]].
    case_decide; [apply ok_last; [apply ok_listenerTcp; eauto with wf | by constructor] |].
    apply ok_ret; [done |]. repeat constructor. simpl. eauto with wf.
  - ok_then; [apply ok_register; [done | done | by left | by right] |]. apply ok_ret; [done |].
    destruct a as [s|s|]; (constructor; [| constructor]); simpl; [| split | ]; eauto with wf.
  - destruct Hg as [Hc Hs]. apply ok_last; [apply ok_tryany; by apply ok_handleMsg |].
    intros [] ? ? ?; (constructor; [| constructor]); simpl; [split |]; eauto with wf.
  - destruct Hg as [Hc Hs]. apply (ok_last _ _ (λ _, [GEnter KServe l])); [by apply ok_queue |].
    intros _ ? ? ?. repeat constructor. simpl. eauto with wf.
  - destruct Hg as [Hc Hk]. eapply (ok_bind _ _ _ (λ _ c', c' = c)); [by apply ok_peek |].
    intros x ? _ _ ->. ok_read c. destruct (connEnter _ _ _ _) as [[sess t]|] eqn:Ee.
    + destruct (table_wf_enter _ _ _ _ _ _ _ (wf_table _ Hw) Ee) as [Ht Hs].
      apply (ok_last _ _ (λ _, [GLoop k l (conn_remote x) sess])); [apply ok_modify; [by apply wf_set_table | done] |].
      intros _ ? ? ?. repeat constructor; simpl; eauto with wf.
    + apply ok_ret; [done |]. repeat constructor; simpl; eauto.
  - destruct Hg as (Hc & Hs & Hk). apply ok_last; [apply ok_tryany; by apply ok_handleMsg |].
    intros [] ? ? ?; (constructor; [| constructor]); simpl; split_and!; eauto with wf.
  - destruct Hg as (Hc & Hs & Hk). ok_read c.
    eapply (ok_bind _ _ _ (λ bt c', c' = c ∧ table_wf bt.2 (heap c))).
    { apply ok_lift; [done | |].
      - apply connExit_panic.
      - intros [b t] Hb. split; [done |]. eapply table_wf_exit; [apply Hw | exact Hb]. }
    intros [b t] ? _ _ [-> Ht]. apply (ok_last _ _ (λ _, if b then _ else _)); [apply ok_modify; [by apply wf_set_table | done] |].
    intros _ ? ? ?. destruct b; (constructor; [| constructor]); simpl; split_and!; eauto with wf.
  - destruct Hg as (Hc & Hs & Hk).
    apply (ok_last _ _ (λ _, [GAfter k l])); [apply ok_tryany, ok_sess; [done.. | apply close_no_panic] |].
    intros _ ? ? ?. repeat constructor; simpl; eauto with wf.
  - destruct Hg as [Hc Hk]. destruct k as [|cfg].
    + apply (ok_last _ _ (λ _, [])); [by apply ok_closeConn | by constructor].
    + ok_read c. case_decide; [apply (ok_last _ _ (λ _, [])); [by apply ok_closeConn | by constructor] |].
      apply ok_ret; [done |]. by repeat constructor.
  - apply (ok_last _ _ (λ _, [])); [by apply ok_closeConn | by constructor].
Qed.

Lemma retryNext_ok h cfg l j err :
  has (h_conns h) (k_conn l) → (0 ≤ k_i l)%Z → Forall (g_ok h) (retryNext cfg l j err).
Proof. intros. unfold retryNext. case_decide; by repeat constructor. Qed.

Lemma step_redial e g c :
  wf c → g_ok (heap c) g → env_ok e →
  match g with GRetry _ _ _ | GAsk _ _ _ _ | GAnswer _ _ _ _ | GRedial _ _ _ _ => True | _ => False end →
  ok (g_panic g) (gstep e g) goes_on c.
Proof.
  intros Hw Hg He Hk. destruct g; try done; clear Hk; simpl in Hg; cbn [gstep].
  - destruct Hg as [Hc Hi]. ok_read c. case_decide; [| apply ok_ret; [done |]; case_decide; by repeat constructor].
    destruct (isClosed c); [by apply ok_ret; [| constructor] |].
    destruct (sessions (table c) !! k_key l) as [sess|] eqn:Es; [| by apply ok_ret; [| constructor]].
    assert (has (h_sess (heap c)) sess) by (by eapply (tw_sess _ _ (wf_table _ Hw))).
    eapply (ok_bind _ _ _ (λ _ c', c' = c)); [by apply ok_peek |]. intros s ? _ _ ->.
    apply ok_ret; [done |]. destruct (ncp_IsClosed s); by repeat constructor.
  - destruct Hg as (Hc & Hi & Hs). ok_read c. apply ok_ret; [done |].
    destruct (getCachedPubAddrs _ _); by repeat constructor.
  - destruct Hg as (Hc & Hi & Hs). ok_skip; [by apply ok_tryany, ok_remoteAnswer |].
    destruct a as [pa|err]; [apply ok_ret; [done | repeat constructor; simpl; eauto with wf] |].
    case_decide; [| by apply ok_ret; [| apply retryNext_ok; eauto with wf]].
    apply (ok_last _ _ (λ _, [])); [apply ok_tryany, ok_sess; eauto with wf; apply close_no_panic | by constructor].
  - destruct Hg as [Hc Hi]. case_decide; [| by apply ok_ret; [| constructor]].
    destruct (Addrs pa !! Z.to_nat (k_i l)) as [a|] eqn:Ea; [| apply lookup_ge_None in Ea; lia].
    eapply (ok_bind _ _ _ (λ r c', ∀ n, r = inl n → has (h_conns (heap c')) n)).
    { eapply ok_try; [by apply ok_dialTcpConn, He | by intros ? ? ? ? ? ? [= <-] | done]. }
    intros r c1 W1 G1 Hr. apply ok_ret; [done |].
    destruct r; [repeat constructor; simpl; auto | apply retryNext_ok; eauto with wf].
Qed.

(** The arguments of a dial. *)
Lemma dial_args E c remoteAddr dc (randID : res bytes) :
  wf c → is_panic randID = false →
  ok E (try (lift_res (config ← MergeDialConfig (SessionConfig (World.config c)) dc;
                       remoteAddr ← ResolveDest remoteAddr;
                       sessionID ← randID;
                       Ok (config, remoteAddr, sessionID)))) any c.
Proof.
  intros Hw Hr. eapply ok_tryany, ok_any, ok_lift_safe; [done |].
  destruct (dialing_no_panic (SessionConfig (World.config c)) dc remoteAddr).
  destruct (MergeDialConfig _ _); [| done..]. cbn. destruct (ResolveDest _); [| done..]. cbn.
  by destruct randID.
Qed.

Lemma step_dial e g c :
  wf c → g_ok (heap c) g → env_ok e →
  match g with
  | GDial _ _ _ | GDialAnswer _ _ _ | GDialAll _ _ _ _ _ | GDialStore _ _ _ _ _ _ | GDialSess _ => True
  | _ => False
  end →
  ok (g_panic g) (gstep e g) goes_on c.
Proof.
  intros Hw Hg He Hk. destruct g; try done; clear Hk; simpl in Hg; cbn [gstep].
  - ok_read c. ok_skip; [by apply dial_args |]. destruct a as [[[cfg a'] id]|]; [| by apply ok_ret; [| constructor]].
    destruct (getCachedPubAddrs _ _); [| apply ok_ret; [done | by repeat constructor]].
    eapply ok_mono; [by apply (ok_dialStart (λ p, p = NilDeref)) | done |]. intros gs ? _ _ [pend ->]. by repeat constructor.
  - ok_skip; [by apply ok_tryany, ok_remoteAnswer |]. destruct a; [| by apply ok_ret; [| constructor]].
    eapply ok_mono; [by apply (ok_dialStart (λ p, p = NilDeref)) | done |]. intros gs ? _ _ [pend ->]. by repeat constructor.
  - destruct pending as [|i pend].
    + eapply ok_mono; [by apply (ok_dialJoin no_panic) | done |].
      intros gs ? _ _ [-> | (conns & sess & -> & ? & ?)]; [constructor | by repeat constructor].
    + cbv zeta. apply (ok_last _ _ (λ _, [_])); [| by repeat constructor].
      eapply ok_tryany, ok_any, ok_dialTcpConn; [done | apply He].
  - destruct Hg as [Hs Hc]. ok_skip; [apply ok_modify; [| done]; apply wf_set_table; [done |];
      apply table_wf_dialSession; [apply Hw | done] |].
    apply (ok_last _ _ (λ _, [GDialSess sess])).
    + apply ok_spawnConns; [done | eauto with wf | apply indices_nonneg].
    + intros _ ? ? ?. repeat constructor. simpl. eauto with wf.
  - apply (ok_last _ _ (λ _, [])); [apply ok_tryany, ok_sess; [done.. | apply dial_no_panic] | by constructor].
Qed.

(** The first part of [RotateOne]; a negative index that gets past it has panicked. *)
Lemma ok_rotation E n i c :
  wf c → (0 ≤ i)%Z ∨ E IndexRange →
  ok E (r ← try (rotateStart i); mret (match r with inl te => [GRotateSwap n i te] | inr _ => [] end)) goes_on c.
Proof.
  intros Hw HE. eapply (ok_bind _ _ _ (λ r c', ∀ te, r = inl te → (0 ≤ i)%Z ∧ has (h_exits (heap c')) te)).
  { eapply ok_try; [by apply ok_rotateStart | by intros ? ? ? ? ? ? [= <-] | done]. }
  intros r c' W G Hr. apply ok_ret; [done |]. destruct r as [te|]; [| constructor].
  constructor; [| constructor]. by apply Hr.
Qed.

Lemma step_listen e g c :
  wf c → g_ok (heap c) g → env_ok e →
  match g with
  | GRemover | GNKN | GExitConnected _ | GExitClose _ | GWhenConnected _ | GRotate _ _
  | GRotateSwap _ _ _ => True
  | _ => False
  end →
  ok (g_panic g) (gstep e g) goes_on c.
Proof.
  intros Hw Hg He Hk. destruct g; try done; clear Hk; simpl in Hg; cbn [gstep].
  - apply ok_last; [by apply ok_removeClosed |]. intros [] ? ? ?; by repeat constructor.
  - destruct (e_msg e) as [[src data]|]; [| by apply ok_ret; [| constructor]].
    apply (ok_last _ _ (λ _, [GNKN])); [by apply ok_request | by repeat constructor].
  - ok_read c. destruct (onClose c); [by apply ok_ret; [| constructor] |].
    apply (ok_last _ _ (λ _, [])); [| by constructor]. apply ok_exits; [done | apply (wf_exits _ Hw)].
  - apply (ok_last _ _ (λ _, [])); [by apply ok_on_exit | by constructor].
  - ok_read c. destruct (onClose c); [by apply ok_ret; [| constructor] |].
    destruct (onConnect (exits c)); [| apply ok_ret; [done | by repeat constructor]].
    apply (ok_last _ _ (λ _, [])); [by apply ok_whenConnected | by constructor].
  - destruct n; [by apply ok_ret; [| constructor] |].
    by apply ok_rotation; [| left].
  - destruct Hg as [Hi Hte]. apply (ok_last _ _ (λ _, [_])); [by apply ok_rotateSwap |].
    intros _ ? ? ?. repeat constructor. simpl. lia.
Qed.

Lemma ok_upNext E k l r c :
  wf c → has (h_udps (heap c)) (p_udp l) → ok E (upNext k l r) goes_on c.
Proof.
  intros Hw Hu. unfold upNext. destruct k as [|j], r as [[]|e].
  - ok_skip; [by apply ok_spawn |]. apply (ok_last _ _ (λ _, [])); [| by constructor].
    apply ok_spawn; [done | simpl; eauto with wf | done].
  - by apply ok_ret; [| constructor].
  - ok_read c. apply ok_ret; [done |]. case_decide; by repeat constructor.
  - apply ok_ret; [done |]. case_decide; by repeat constructor.
Qed.

Lemma ok_closeNext E x c : wf c → closer_ok (heap c) x → ok E (closeNext x) goes_on c.
Proof. intros Hw Hx. destruct x; [by apply ok_ret; [| constructor] | by apply ok_upNext]. Qed.

Lemma watchNext_ok h w : watcher_ok h w → Forall (g_ok h) (watchNext w).
Proof. intros Hw. by destruct w; repeat constructor. Qed.

(** [GetEstablishedUDPConn] changes nothing. *)
Lemma ok_check E u c : wf c → has (h_udps (heap c)) u → ok E (try (Udp.GetEstablishedUDPConn u)) (λ _ c', c' = c) c.
Proof.
  intros Hw [us Hu]. pose proof (established_cases u us c Hu) as Hc. unfold spec, try.
  destruct Hc as [(n & x & -> & _)|[err ->]]; [| done..].
  intros n Hn. by eapply (uw_conn _ _ (wf_udps _ Hw _ _ Hu)).
Qed.

Lemma watcher_udp h w : watcher_ok h w → has (h_udps h) (w_udp w).
Proof. destruct w; [intros (us & ? & _); by exists us | done]. Qed.

Lemma step_udp e g c :
  wf c → g_ok (heap c) g → env_ok e →
  match g with
  | GRecv _ _ | GRecvFrom _ _ | GRead _ _ | GRelease _ _ | GUdpClose _ _ | GUdpCloseSocket _ _
  | GUdpCloseMaps _ _ | GMonitor _ _ _ | GMonitorRead _ _ _ | GMonitorEnd _ _ => True
  | _ => False
  end →
  ok (g_panic g) (gstep e g) goes_on c.
Proof.
  intros Hw Hg He Hk. destruct g; try done; clear Hk; simpl in Hg; cbn [gstep].
  - ok_then; [by apply ok_check, Hg |]. simpl in H; subst. apply ok_ret; [done |]. destruct a; [| constructor].
    by apply Forall_singleton.
  - destruct Hg as [Hu Hb]. destruct (e_dgram e) as [dg|]; [| apply ok_ret; [done | by repeat constructor]].
    destruct (id Hu) as [us Hus].
    ok_then; [eapply (ok_recvOne (g_panic (GRecvFrom u buf))); [done.. |] |].
    + intros p [?|[?|[_ ?]]]; simpl; auto.
    + apply ok_ret; [done |]. repeat constructor; simpl; [eauto with wf | done].
  - ok_then; [by apply ok_getUdp |]. destruct H as [-> Hu]. ok_read c. cbv zeta.
    destruct (Udp.readTake a) as [[msg us']|] eqn:Et; [| by apply ok_ret; [done |]; case_match; repeat constructor].
    destruct (_ && _); [by apply ok_ret; [| constructor] |].
    apply (ok_last _ _ (λ _, [GRelease u msg])); [| intros; repeat constructor; simpl; eauto with wf].
    by eapply ok_readTake.
  - apply (ok_last _ _ (λ _, [])); [| by constructor]. by apply ok_upd_same.
  - destruct Hg. apply (ok_last _ _ (λ _, [_])); [by apply ok_tryany, ok_sendClose |].
    intros _ c' ? G. constructor; [| constructor]. eapply (g_ok_le _ _ (GUdpCloseSocket x u)); [done | apply G].
  - destruct Hg. apply (ok_last _ _ (λ _, [_])); [by apply ok_closeSocket |].
    intros _ c' ? G. constructor; [| constructor]. eapply (g_ok_le _ _ (GUdpCloseMaps x u)); [done | apply G].
  - ok_skip; [by apply ok_tryany, ok_closeSection, Hg |]. apply ok_closeNext; [done |].
    by destruct (g_ok_le _ _ (GUdpCloseMaps x u) Hg (le_heap _ _ G)).
  - destruct Hg as [Hc Hwt]. ok_then; [apply ok_check; [done | by apply watcher_udp] |]. simpl in H; subst.
    apply ok_ret; [done |]. destruct a; [by repeat constructor | by apply watchNext_ok].
  - apply ok_last.
    + destruct Hg as [Hc Hwt]. destruct (watcher_udp _ _ Hwt) as [us Hu].
      eapply ok_tcpMsg_turn; [done.. | |]; destruct w; simpl; auto.
      left. destruct Hwt as (us' & ? & ?). simpl in Hu. by simplify_eq.
    + intros r c' W' G'. destruct (g_ok_le _ _ (GMonitorRead w conn b) Hg (le_heap _ _ G')).
      destruct r; [by repeat constructor | by apply watchNext_ok].
  - destruct Hg as (us & Hu & El). apply (ok_last _ _ (λ _, [])); [| by constructor].
    apply ok_upd_same; [done | by exists us |]. intros vs. split_and!; try done. apply delete_subseteq.
Qed.

Lemma step_up e g c :
  wf c → g_ok (heap c) g → env_ok e →
  match g with
  | GUdpDial _ _ _ | GUp _ _ | GUpAnswer _ _ | GUpConnect _ _ _ | GUpMeta _ _ _ | GUpCodec _ _ _
  | GUpRound _ | GUpAfter _ | GUpRetry _ _ => True
  | _ => False
  end →
  ok (g_panic g) (gstep e g) goes_on c.
Proof.
  intros Hw Hg He Hk. destruct g; try done; clear Hk; simpl in Hg; cbn [gstep].
  - ok_read c. ok_skip; [by apply dial_args |]. destruct a as [[[cfg a'] id]|]; [| by apply ok_ret; [| constructor]].
    ok_then; [by apply ok_newUdpSession |]. destruct H as (us & Hu & _). apply ok_ret; [done |].
    repeat constructor. simpl. by exists us.
  - ok_read c. destruct (isClosed c); [by apply ok_upNext |].
    apply ok_ret; [done |]. destruct (getCachedPubAddrs _ _); by repeat constructor.
  - ok_skip; [by apply ok_tryany, ok_remoteAnswer |].
    destruct a; [| apply ok_upNext; eauto with wf]. apply ok_ret; [done |]. repeat constructor. simpl. eauto with wf.
  - ok_skip; [apply ok_tryany, ok_upConnect; [done | done | apply He | done] |].
    destruct a; [apply ok_ret; [done |]; repeat constructor; simpl | apply ok_upNext]; eauto with wf.
  - apply ok_last; [by apply ok_tryany, metadata_sent |].
    intros [] ? ? ?; (constructor; [| constructor]); simpl; [| split]; eauto with wf.
  - ok_skip; [by apply ok_tryany, ok_addCodec |]. destruct a; [apply ok_upNext; eauto with wf |].
    apply ok_ret; [done |]. constructor; [| constructor]. simpl. split; eauto with wf.
  - ok_then; [by apply ok_getUdp |]. destruct H as [-> Hu].
    eapply (ok_bind _ _ _ (λ n c', c' = c ∧ has (h_conns (heap c)) n)).
    { destruct (tcpConn a) eqn:Et; [| by apply ok_crash]. apply ok_ret; [done |]. split; [done |].
      by eapply (uw_tcp _ _ (wf_udps _ Hw _ _ Hu)). }
    intros n ? _ _ [-> Hn]. apply ok_ret; [done |]. by repeat constructor.
  - ok_read c. ok_then; [by apply ok_getUdp |]. destruct H as [-> Hu].
    eapply (ok_bind _ _ _ (λ n c', c' = c ∧ has (h_udpconns (heap c)) n)).
    { destruct (udpConn a) eqn:Et; [| by apply ok_crash]. apply ok_ret; [done |]. split; [done |].
      by eapply (uw_conn _ _ (wf_udps _ Hw _ _ Hu)). }
    intros n ? _ _ [-> Hn]. eapply (ok_bind _ _ _ (λ _ c', c' = c)); [by apply ok_peek |].
    intros x ? _ _ ->. apply ok_ret; [done |]. destruct (_ || _); [by repeat constructor |].
    case_decide; by repeat constructor.
  - ok_read c. apply ok_ret; [done |]. case_decide; by repeat constructor.
Qed.

(** A step keeps the client well-formed, whatever goroutine takes it. *)
Lemma step_ok e g c :
  wf c → g_ok (heap c) g → env_ok e → ok (g_panic g) (gstep e g) goes_on c.
Proof.
  intros Hw Hg He. destruct g; first
    [by apply step_serve | by apply step_redial | by apply step_dial | by apply step_listen
    | by apply step_udp | by apply step_up].
Qed.

(** ** Calls *)

(** The panics a call of the application may end with. *)
Definition call_panic (a : call) (p : panic) : Prop :=
  match a with
  | CListen _ _ => p = MakeSliceLen
  | CRotateOne _ => p = IndexRange
  | CCloseOneConn _ _ => p = NilDeref
  | CListenUDP _ => p = MakeSliceLen ∨ p = IndexRange
  | _ => False
  end.

Lemma call_step a c :
  wf c → call_ok (heap c) a → ok (call_panic a) (run_call a) goes_on c.
Proof.
  intros Hw Ha. assert (∀ E A (m : go Client A), ok E m any c → ok E (discard m) goes_on c) as Hd.
  { intros E A m Hm. apply (ok_last _ _ (λ _, [])); [by apply ok_tryany | by constructor]. }
  destruct a; simpl in Ha; cbn [run_call]; try (apply Hd).
  - by apply ok_send.
  - unfold AcceptSession. ok_read c. by apply ok_accept.
  - by apply ok_close.
  - by apply ok_setConfig.
  - by apply ok_setNode.
  - by apply ok_listen.
  - apply ok_rotation; [done | by right].
  - ok_read c. apply ok_ret; [done |]. by repeat constructor.
  - by apply ok_closeOne.
  - apply ok_ret; [done |]. by repeat constructor.
  - apply ok_listenUDP; [done | done | by left | by right].
  - ok_then; [by apply ok_udpIsClosed |]. simpl in H; subst. ok_then; [by apply ok_getUdp |]. destruct H as [-> _].
    apply ok_ret; [done |]. case_match; by repeat constructor.
  - by apply ok_writeTo.
  - by apply ok_write.
  - by apply ok_udpSet.
  - apply ok_ret; [done |]. by repeat constructor.
  - apply ok_ret; [done |]. by repeat constructor.
Qed.

Lemma start_ok h t : task_ok h t → Forall (g_ok h) (start_task t).
Proof.
  intros Ht. pose proof buffer_not_empty. destruct t; simpl in *; repeat constructor; simpl; try done; try apply Ht.
  destruct MaxUDPBufferSize; [lia | done].
Qed.

End steps.
