(* ===== verification/SystemTable.v ===== *)
(** * The system of goroutines runs the critical sections of [TableInv]

    Seen through its maps, the system takes the steps of [TableInv.tstep]: each step of a
    goroutine is one critical section or leaves the maps alone, and the live handlers are
    the goroutines between [connEnter] and [connExit].  So the theorems of [TableInv] hold
    of every interleaving of the whole client. *)

From stdpp Require Import base gmap strings list numbers tactics relations.
From Stdlib Require Import ZArith Lia.
From S2P Require Import Prelude Hoare Util Message Crypto Pb Config Table TableInv Json JsonInv World Demo Udp Frame Client ClientInv Exits ExitsInv Remote Dial DialInv System WellFormed HandlersWf CallsWf.
Import Keys Framing Client Exits Remote Dial TableInv.

(** ** What the steps leave alone *)

Section view.
Context `{L : LibOps, MO : !MergeOps}.

(** The maps and the clock. *)
Definition view (c : Client) : Table * Z := (table c, now c).

#[export] Instance stable_view : Stable view.
Proof. done. Qed.

#[local] Hint Resolve stable_view : frame.

Lemma kv_modify (f : Client → Client) : (∀ c, view (f c) = view c) → keeps view (modify f).
Proof. intros H c. apply H. Qed.
Lemma kv_spawn t : keeps view (spawn t).
Proof. done. Qed.
Lemma kv_exits {A} (m : go Exits A) : keeps view (on_exits m).
Proof. intros c. unfold on_exits, zoom. by destruct (m (exits c)). Qed.
Lemma kv_config {A} (m : go Config A) : keeps view (zoom World.config World.set_config m).
Proof. intros c. unfold zoom. by destruct (m (World.config c)). Qed.

(** Follow the structure of a handler down to the parts [frame] knows. *)
Ltac kv := repeat first
  [ progress intros | solve [auto with frame] | apply kt_bind | apply kt_try | apply kv_spawn | apply kv_exits
  | solve [apply kv_modify; intros; repeat case_match; done]
  | progress cbv beta zeta | case_match ].

Lemma kv_handleMsg conn sess i : keeps view (handleMsg conn sess i).
Proof. unfold handleMsg. kv. Qed.
Lemma kv_established u : keeps view (Udp.GetEstablishedUDPConn u).
Proof. unfold Udp.GetEstablishedUDPConn. kv. Qed.
Lemma kv_handshake conn : keeps view (handshake conn).
Proof. unfold handshake. kv. Qed.
Lemma kv_listenerTcp conn a id : keeps view (Udp.handleUdpListenerTcp conn a id).
Proof. unfold Udp.handleUdpListenerTcp. kv. Qed.
Lemma kv_listenNet i acc : keeps view (listenNet i acc).
Proof. unfold listenNet, new_conn. kv. Qed.
Lemma kv_queue sess : keeps view (queueSession sess).
Proof. unfold queueSession. kv. Qed.
Lemma kv_request src data : keeps view (handleRequest src data).
Proof.
  assert (∀ b tes, keeps view (exitAddrs b tes)) as H by (intros b tes; induction tes; cbn [exitAddrs]; kv; auto).
  unfold handleRequest, getPubAddrs. kv.
Qed.

#[local] Hint Resolve kv_established : frame.

Lemma kv_connClosed u key : keeps view (Udp.handleConnClosed u key).
Proof. unfold Udp.handleConnClosed. kv. Qed.
Lemma kv_addCodec u a r : keeps view (Udp.addCodec u a r).
Proof. unfold Udp.addCodec. kv. Qed.
#[local] Hint Resolve kv_connClosed kv_addCodec : frame.

Lemma kv_metaData u b a : keeps view (Udp.handleMetaData u b a).
Proof. unfold Udp.handleMetaData. kv. Qed.
#[local] Hint Resolve kv_metaData : frame.

Lemma kv_recvOne u buf dg : keeps view (Udp.recvOne u buf dg).
Proof. unfold Udp.recvOne. kv. Qed.
Lemma kv_turn u conn key b : keeps view (tcpMsg_turn u conn key b).
Proof. unfold tcpMsg_turn. kv. Qed.
Lemma kv_udpClose u : keeps view (Udp.Close u).
Proof. apply kf_udpClose, _. Qed.
#[local] Hint Resolve kv_udpClose : frame.

Lemma kv_setReadDeadline u t : keeps view (Udp.SetReadDeadline u t).
Proof. unfold Udp.SetReadDeadline. kv. Qed.
#[local] Hint Resolve kv_setReadDeadline : frame.
Lemma kv_newUdp b : keeps view (Udp.newUdpSession b).
Proof. unfold Udp.newUdpSession, new_udp. kv. Qed.

(** Dialing a connection of a UDP session. *)
Lemma kv_dialUdp n a id i pa cfg : keeps view (dialTcpConn n a id SessionType_UDP i pa cfg).
Proof. unfold dialTcpConn, new_conn. kv. Qed.
Lemma kv_sendMeta u id : keeps view (Udp.sendMetaData u id).
Proof. unfold Udp.sendMetaData. kv. Qed.
#[local] Hint Resolve kv_dialUdp kv_sendMeta : frame.
Lemma kv_upConnect n u a id cfg pa : keeps view (upConnect n u a id cfg pa).
Proof. unfold upConnect, new_udpconn. kv. Qed.
Lemma kv_upNext k l r : keeps view (upNext k l r).
Proof. unfold upNext. kv. Qed.
Lemma kv_closeNext x : keeps view (closeNext x).
Proof. pose proof kv_upNext. unfold closeNext. kv. Qed.

(** Exits. *)
Lemma kv_newTunaExit i : keeps view (newTunaExit i).
Proof. unfold newTunaExit, new_exit. kv. Qed.
#[local] Hint Resolve kv_newTunaExit : frame.
Lemma kv_rotateStart i : keeps view (rotateStart i).
Proof. unfold rotateStart. kv. Qed.
Lemma kv_rotateSwap i te : keeps view (rotateSwap i te).
Proof. unfold rotateSwap. kv. Qed.
#[local] Hint Resolve kv_rotateStart kv_rotateSwap : frame.
Lemma kv_openExits n i : keeps view (openExits n i).
Proof. revert i. induction n; intros i; cbn [openExits]; kv. Qed.
#[local] Hint Resolve kv_openExits : frame.
Lemma kv_startExits pick : keeps view (startExits pick).
Proof. unfold startExits, on_os. kv. Qed.
Lemma kv_whenConnected n : keeps view (listenWhenConnected n).
Proof.
  assert (∀ ts, keeps view (spawnAll ts)) by (intros ts; induction ts; cbn [spawnAll]; kv).
  unfold listenWhenConnected. kv.
Qed.
#[local] Hint Resolve kv_startExits : frame.

Lemma kv_dialStart cfg a id pa : keeps view (dialStart cfg a id pa).
Proof. unfold dialStart. kv. Qed.
Lemma kv_dialJoin cfg a id addrs : keeps view (dialJoin cfg a id addrs).
Proof. unfold dialJoin, new_sess. kv. Qed.
Lemma kv_spawnConns conns a id cfg idx : keeps view (spawnConns conns a id cfg idx).
Proof. induction idx; cbn [spawnConns]; kv. Qed.

(** The calls of the application. *)
Lemma kv_acceptLoop fuel choice : keeps view (acceptLoop fuel choice).
Proof. induction fuel; cbn [acceptLoop]; kv. Qed.
Lemma kv_close : keeps view Close.
Proof.
  pose proof (kf_closeEach view). pose proof (kf_closeSessions view). pose proof (kf_closeExits view).
  unfold Close. kv.
Qed.
Lemma kv_udpIsClosed u : keeps view (Udp.IsClosed u).
Proof. unfold Udp.IsClosed. kv. Qed.
Lemma kv_getUdpAddr u a : keeps view (Udp.getUdpAddr u a).
Proof. unfold Udp.getUdpAddr. kv. Qed.
#[local] Hint Resolve kv_udpIsClosed kv_getUdpAddr kv_acceptLoop kv_close kv_newUdp : frame.
Lemma kv_writeTo u b a : keeps view (Udp.WriteTo u b a).
Proof. unfold Udp.WriteTo. kv. Qed.
#[local] Hint Resolve kv_writeTo : frame.

Lemma kv_call a : keeps view (run_call a).
Proof.
  destruct a; cbn [run_call]; [unfold discard, sessionSend | unfold discard, AcceptSession | unfold discard
    | apply kt_bind; [apply kt_try, kv_config | intros; apply kt_ret] | unfold discard, SetTunaNode | unfold discard, Listen
    | | | unfold discard, CloseOneConn | | unfold discard, ListenUDP, new_udpconn
    | | unfold discard | unfold discard, Udp.Write | unfold discard, Udp.SetDeadline, Udp.SetWriteDeadline,
      Udp.SetReadBuffer, Udp.SetWriteBuffer | |]; kv.
Qed.

(** ** The critical sections of a step *)

(** The handler a goroutine stands for, between its two sections. *)
Definition live_of (g : goroutine) : option handler :=
  match g with
  | GLoop _ l connStr _ | GExit _ l connStr _ => Some (mkHandler (k_key l) (k_remote l) connStr (k_i l))
  | _ => None
  end.

Definition handlers (gs : list goroutine) : list handler := omap live_of gs.

(** The goroutines whose step leaves the maps alone. *)
Definition leaves_maps (g : goroutine) : bool :=
  match g with
  | GRegister _ | GEnter _ _ | GExit _ _ _ _ | GAnswer _ _ _ _ | GRedial _ _ _ _ | GDialAnswer _ _ _
  | GDialAll _ _ _ _ _ | GDialStore _ _ _ _ _ _ | GRemover | GUpAnswer _ _ => false
  | _ => true
  end.

Lemma leaves_view e g : leaves_maps g = true → keeps view (gstep e g).
Proof.
  pose proof kv_handleMsg. pose proof kv_established. pose proof kv_handshake. pose proof kv_listenerTcp.
  pose proof kv_listenNet. pose proof kv_queue. pose proof kv_request. pose proof kv_recvOne.
  pose proof kv_turn. pose proof kv_newUdp. pose proof kv_upConnect. pose proof kv_upNext.
  pose proof kv_closeNext. pose proof (kf_closeSocket view). pose proof (kf_closeSection view). pose proof (kf_sendClose view).
  pose proof kv_whenConnected. pose proof kv_dialStart. pose proof stable_view.
  assert (keeps view exitConnected) by apply kv_exits.
  intros Hq. destruct g; try done; clear Hq; cbn [gstep]; kv.
Qed.

Lemma upNext_handlers k l r : returns (λ gs, handlers gs = []) (upNext k l r).
Proof. unfold upNext. ret. Qed.

Lemma closeNext_handlers x : returns (λ gs, handlers gs = []) (closeNext x).
Proof. pose proof upNext_handlers. unfold closeNext. ret. Qed.

Lemma leaves_handlers e g : leaves_maps g = true → returns (λ gs, handlers gs = handlers [g]) (gstep e g).
Proof.
  assert (∀ cfg a id pa, returns (λ gs, handlers gs = []) (dialStart cfg a id pa)) by (intros; unfold dialStart; ret).
  pose proof upNext_handlers. pose proof closeNext_handlers.
  intros Hq. destruct g; try done; clear Hq; cbn [gstep handlers live_of omap list_omap]; unfold retryNext, watchNext; ret.
Qed.

(** [DialWithConfig] stores its session while its connections are registered and no other
    session has the key; [dial_race_panics] is about a peer that breaks this. *)
Definition dial_clear (t : Table) (g : goroutine) : Prop :=
  match g with
  | GDialStore _ remoteAddr sessionID _ _ _ =>
      is_Some (sessionConns t !! sessionKey remoteAddr sessionID) ∧
      sessions t !! sessionKey remoteAddr sessionID = None
  | _ => True
  end.

(** A section that is not one of [handleConn]'s. *)
Definition section (c c' : Client) : Prop :=
  ∀ l, rtc (tstep true) (mkT (table c) l (now c)) (mkT (table c') l (now c')).

Lemma section_view c c' : view c' = view c → section c c'.
Proof. intros [= Ht Hn] l. by rewrite Ht, Hn. Qed.

Lemma section_step c c' t :
  (∀ l, tstep true (mkT (table c) l (now c)) (mkT t l (now c))) → view c' = (t, now c) → section c c'.
Proof. intros H [= Ht Hn] l. rewrite Ht, Hn. by apply rtc_once. Qed.

(** The table a step has set is the last thing it does to the maps. *)
Lemma keeps_run {A} (m : go Client A) c r c' : keeps view m → m c = (r, c') → view c' = view c.
Proof. intros Hk H. specialize (Hk c). by rewrite H in Hk. Qed.

Lemma register_section conn a id i c r c' : register conn a id i c = (Ok r, c') → section c c'.
Proof.
  intros H. unfold register in H. apply go_bind_inv_ok in H as (? & ? & [= <- <-] & H). cbv zeta in H.
  apply go_bind_inv_ok in H as ([r' t] & c1 & H1 & H). unfold lift_res in H1. injection H1 as Hr <-.
  cbv beta iota in H. apply go_bind_inv_ok in H as (? & c2 & H2 & H).
  assert (view c2 = view c) as Hv by (revert H2; apply keeps_run; kv).
  apply go_bind_inv_ok in H as ([] & c3 & [= <-] & H). injection H as <- <-.
  apply (section_step _ _ t); [intros l; by eapply ts_register |]. unfold view in *. simpl. congruence.
Qed.

Lemma answer_section outcome a id c r c' : remoteAnswer outcome a id c = (r, c') → section c c'.
Proof.
  intros H. unfold remoteAnswer, lift_res, throw, crash, modify in H. unfold mbind, go_bind, mret, go_ret in H.
  destruct (MarshalRequest _); [| injection H as _ <-; by apply section_view..].
  destruct outcome as [[data|]|e|]; try (injection H as _ <-; by apply section_view).
  destruct (UnmarshalPubAddrs data) as [pa| |]; try (injection H as _ <-; by apply section_view).
  destruct (SessionClosed pa); [injection H as _ <-; by apply section_view |].
  destruct (hasPubAddr (Addrs pa)) as [[]| |]; injection H as _ <-; try by apply section_view.
  eapply section_step; [intros l; apply ts_store | done].
Qed.

Lemma dial_section n a id i pa cfg c r c' :
  dialTcpConn n a id SessionType_TCP i pa cfg c = (r, c') → section c c'.
Proof.
  intros H. assert (now c' = now c) as Hn.
  { assert (keeps now (dialTcpConn n a id SessionType_TCP i pa cfg)) as Hk; [| specialize (Hk c); by rewrite H in Hk].
    assert (Stable now) by done. unfold dialTcpConn, orClose, new_conn.
    repeat first [progress intros | solve [auto with frame] | apply kt_bind | apply kt_try | done | case_match]. }
  apply dialTcpConn_table in H as [(conn & _ & Ht)|[_ Ht]].
  - rewrite decide_True in Ht by done. eapply section_step; [intros l; apply ts_dialput |].
    unfold view. by rewrite Ht, Hn.
  - apply section_view. unfold view. by rewrite Ht, Hn.
Qed.

Lemma remove_section c b c' : removeClosedSessions c = (Ok b, c') → section c c'.
Proof.
  intros H. unfold removeClosedSessions in H. apply go_bind_inv_ok in H as (? & ? & [= <- <-] & H).
  destruct (isClosed c); [injection H as _ <-; by apply section_view |].
  destruct (removePass _ _ _) as [conns t] eqn:Er. apply go_bind_inv_ok in H as (? & c1 & H1 & H).
  assert (view c1 = view c) as Hv by (revert H1; apply keeps_run, kf_closeEach, _).
  apply go_bind_inv_ok in H as ([] & c2 & [= <-] & H). injection H as _ <-.
  apply (section_step _ _ t); [| unfold view in *; simpl; congruence]. intros l.
  change t with (conns, t).2. rewrite <- Er. by apply ts_remove.
Qed.

(** A section, and then steps that leave the maps alone. *)
Lemma section_bind {A B} (m : go Client A) (f : A → go Client B) c b c' :
  (m ≫= f) c = (Ok b, c') → (∀ a c1, m c = (Ok a, c1) → section c c1) → (∀ a, keeps view (f a)) →
  section c c'.
Proof.
  intros (a & c1 & H1 & H2)%go_bind_inv_ok Hm Hf l. specialize (Hm a c1 H1 l).
  assert (view c' = view c1) as [= -> ->]; [| done]. revert H2. by apply keeps_run.
Qed.

Lemma try_inv {A} (m : go Client A) c a c1 : try m c = (Ok a, c1) → ∃ r, m c = (r, c1).
Proof. unfold try. destruct (m c) as [[] ?]; naive_solver. Qed.

Lemma other_sections e g c gs c' :
  gstep e g c = (Ok gs, c') → dial_clear (table c) g → leaves_maps g = false →
  match g with GEnter _ _ | GExit _ _ _ _ => False | _ => True end → section c c' ∧ handlers gs = [].
Proof.
  intros H Hd Hl Hg. split.
  - destruct g; try done; cbn [gstep] in H.
    + eapply section_bind; [exact H | intros; by eapply register_section | kv].
    + eapply section_bind; [exact H | intros ? ? [r ?]%try_inv; by eapply answer_section | kv].
    + case_decide; [| injection H as _ <-; by apply section_view].
      destruct (Addrs pa !! _); [| done].
      eapply section_bind; [exact H | intros ? ? [r ?]%try_inv; by eapply dial_section | kv].
    + pose proof kv_dialStart.
      eapply section_bind; [exact H | intros ? ? [r ?]%try_inv; by eapply answer_section | kv].
    + destruct pending; [apply section_view; revert H; apply keeps_run, kv_dialJoin |].
      eapply section_bind; [exact H | intros ? ? [r ?]%try_inv; by eapply dial_section | kv].
    + destruct Hd. pose proof kv_spawnConns. eapply section_bind; [exact H | | kv].
      intros [] ? [= <-]. eapply section_step; [intros l; by apply ts_dial | done].
    + eapply section_bind; [exact H | intros; by eapply remove_section | kv].
    + pose proof kv_upNext.
      eapply section_bind; [exact H | intros ? ? [r ?]%try_inv; by eapply answer_section | kv].
  - assert (returns (λ gs, handlers gs = []) (gstep e g)) as Hr; [| by eapply Hr].
    assert (∀ cfg a id pa, returns (λ gs, handlers gs = []) (dialStart cfg a id pa)) by (intros; unfold dialStart; ret).
    assert (∀ cfg a id pa, returns (λ gs, handlers gs = []) (dialJoin cfg a id pa)) by (intros; unfold dialJoin; ret).
    pose proof upNext_handlers.
    destruct g; try done; cbn [gstep]; unfold retryNext; ret.
Qed.

Lemma gstep_sections e g c gs c' rest l :
  gstep e g c = (Ok gs, c') → dial_clear (table c) g → l ≡ₚ handlers [g] ++ rest →
  ∃ l', l' ≡ₚ handlers gs ++ rest ∧
    rtc (tstep true) (mkT (table c) l (now c)) (mkT (table c') l' (now c')).
Proof.
  intros H Hd Hl. destruct (leaves_maps g) eqn:Em.
  { exists l. split; [by rewrite (leaves_handlers e g Em c gs c' H) |].
    apply section_view. revert H. by apply keeps_run, leaves_view. }
  destruct g; try done;
    try (eapply other_sections in H as [Hs Hh]; [| done..]; exists l; rewrite Hh; by split; [| apply Hs]).
  - cbn [gstep] in H. apply go_bind_inv_ok in H as (x & c1 & H1 & H).
    assert (view c1 = view c) as [= Ht Hn] by (revert H1; apply keeps_run, kt_peek).
    apply go_bind_inv_ok in H as (? & ? & [= <- <-] & H). rewrite Ht in H.
    destruct (connEnter _ _ _ _) as [[sess t]|] eqn:Ee.
    + apply go_bind_inv_ok in H as ([] & ? & [= <-] & H). injection H as <- <-. rewrite <- Hn. simpl in *.
      eexists (_ :: l). split; [by rewrite Hl |]. apply rtc_once. by eapply ts_enter.
    + injection H as <- <-. exists l. split; [done |]. rewrite Ht, Hn. done.
  - cbn [gstep] in H. apply go_bind_inv_ok in H as (? & ? & [= <- <-] & H).
    apply go_bind_inv_ok in H as ([b t] & c1 & H1 & H). unfold lift_res in H1. injection H1 as He <-.
    apply go_bind_inv_ok in H as ([] & ? & [= <-] & H). injection H as <- <-. simpl in *.
    assert (mkHandler (k_key l0) (k_remote l0) connStr (k_i l0) ∈ l) as (l1 & l2 & ->)%list_elem_of_split
      by (rewrite Hl; left).
    exists (l1 ++ l2). split; [| apply rtc_once; by eapply ts_exit].
    assert (handlers (if b then [GSessClose k l0 sess] else [GAfter k l0]) = []) as -> by by destruct b.
    rewrite <- Permutation_middle in Hl. by apply Permutation_cons_inv in Hl.
Qed.

End view.
