(* ===== verification/SystemInv.v ===== *)
(** * Invariants of the system of goroutines

    Every state the client can reach, under any interleaving of its goroutines with the
    calls of the application, is well-typed: the client is well-formed, every goroutine
    holds pointers that lead to objects, and the counters of the addresses count the
    goroutines that handle connections.  From it follow which panics can happen, what the
    cache of public addresses holds, and that a closed client winds down. *)

From stdpp Require Import base gmap gmultiset strings list numbers tactics relations.
From Stdlib Require Import ZArith Lia.
From S2P Require Import Prelude Hoare Util Message Crypto Pb Config Table TableInv Json JsonInv World Demo Udp Frame Client ClientInv Exits ExitsInv Remote Dial DialInv System WellFormed HandlersWf CallsWf StepsWf SystemTable.
Import Keys Framing Client Exits Remote Dial.

(** ** No step ends with an error *)

Section noerr.
Context `{L : LibOps, MO : !MergeOps}.

Lemma noerr_on {X A} (lookup : Heap → gmap nat X) put r (m : go X A) : noerr m → noerr (on lookup put r m).
Proof.
  intros Hm c e c'. unfold on. destruct (lookup (heap c) !! r) as [x|]; [| done]. specialize (Hm x).
  destruct (m x) as [[] y]; [done | by destruct (Hm e0 y) | done].
Qed.
Lemma noerr_deref {S A} (o : option A) : noerr (S := S) (deref o).
Proof. by destruct o. Qed.
Lemma noerr_peek {X} (lookup : Heap → gmap nat X) r : noerr (peek lookup r).
Proof. apply noerr_bind; auto using noerr_deref with noerr. Qed.
Lemma noerr_closeConn r : noerr (closeConn r).
Proof. by apply noerr_on. Qed.
Lemma noerr_updUdp u f : noerr (Udp.updUdp u f).
Proof. by apply noerr_on. Qed.
Lemma noerr_alloc {X} (lookup : Heap → gmap nat X) put x : noerr (alloc lookup put x).
Proof. done. Qed.
Lemma noerr_spawn t : noerr (spawn t).
Proof. done. Qed.
Lemma noerr_exits f : noerr (on_exits (modify f)).
Proof. done. Qed.
#[local] Hint Resolve noerr_deref noerr_peek noerr_closeConn noerr_updUdp noerr_alloc noerr_spawn noerr_exits : noerr.

Ltac ne := repeat first
  [ progress intros | solve [auto with noerr] | apply noerr_bind | apply noerr_try | solve [by apply noerr_on]
  | progress cbv beta zeta | case_match ].

Lemma ne_register conn a id i : noerr (register conn a id i).
Proof.
  unfold register. apply noerr_bind; [done |]. intros c. cbv zeta. set (ref := fresh _). intros c1. unfold lift_res, modify. unfold mbind, go_bind, mret, go_ret.
  destruct (registerConn _ _ _ _ _ _) as [[r t]|e'|p] eqn:Er; [| | done].
  - destruct r; [done | | done]. apply registerConn_new in Er as [_ [x ->]]. done.
  - exfalso. unfold registerConn, putConn, mbind, res_bind, mret, res_ret in Er.
    destruct (listenSession c a); repeat (case_match; simplify_eq/=; try done).
Qed.

Lemma ne_turn u conn key b : noerr (tcpMsg_turn u conn key b).
Proof. unfold tcpMsg_turn, Udp.handleConnClosed, Udp.getUdp. ne. Qed.
Lemma ne_recvOne u buf dg : noerr (Udp.recvOne u buf dg).
Proof. unfold Udp.recvOne, Udp.getUdp. ne. Qed.
Lemma ne_handshake conn : noerr (handshake conn).
Proof. unfold handshake. ne. Qed.
Lemma ne_dialStart cfg a id pa : noerr (dialStart cfg a id pa).
Proof.
  unfold dialStart. ne. apply noerr_lift. intros e. generalize (Addrs pa). intros l.
  induction l as [|[x|] l IH]; simpl; [done | done |]. by case_match.
Qed.
Lemma ne_dialJoin cfg a id addrs : noerr (dialJoin cfg a id addrs).
Proof. unfold dialJoin, new_sess. ne. Qed.
Lemma ne_spawnConns conns a id cfg idx : noerr (spawnConns conns a id cfg idx).
Proof. induction idx; cbn [spawnConns]; ne. Qed.
Lemma ne_whenConnected n : noerr (listenWhenConnected n).
Proof.
  assert (∀ ts, noerr (spawnAll ts)) by (intros ts; induction ts; cbn [spawnAll]; ne).
  unfold listenWhenConnected. ne.
Qed.
Lemma ne_request src data : noerr (handleRequest src data).
Proof.
  assert (∀ b tes, noerr (exitAddrs b tes)) by (intros b tes; induction tes; cbn [exitAddrs]; ne).
  unfold handleRequest, getPubAddrs. ne.
Qed.
Lemma ne_remover : noerr removeClosedSessions.
Proof.
  assert (∀ conns, noerr (Udp.closeEach conns)) by (intros conns; induction conns; cbn [Udp.closeEach]; ne).
  unfold removeClosedSessions. ne.
Qed.
Lemma ne_upNext k l r : noerr (upNext k l r).
Proof. unfold upNext. ne. Qed.
Lemma ne_closeNext x : noerr (closeNext x).
Proof. pose proof ne_upNext. unfold closeNext. ne. Qed.
Lemma ne_closeSocket u : noerr (Udp.closeSocket u).
Proof. unfold Udp.closeSocket. ne. Qed.
Lemma ne_rotateSwap i te : noerr (rotateSwap i te).
Proof. unfold rotateSwap. ne. Qed.
#[local] Hint Resolve ne_register ne_turn ne_recvOne ne_handshake ne_dialStart ne_dialJoin ne_spawnConns
  ne_whenConnected ne_request ne_remover ne_upNext ne_closeNext ne_closeSocket ne_rotateSwap : noerr.

Lemma ne_gstep e g : noerr (gstep e g).
Proof.
  assert (∀ t r str i n k, ∀ e, connExit n k r str i t ≠ Err e).
  { intros t r str i n k err. unfold connExit, addrRelease. destruct (addrConnCount t !! r); [| done].
    case_decide; done. }
  destruct g; cbn [gstep]; try (unfold listenNet, queueSession, new_conn, Udp.handleUdpListenerTcp, exitConnected, Udp.newUdpSession, new_udp, Udp.getUdp;
    ne; try by apply noerr_lift).
Qed.
End noerr.

Section system.
Context `{L : LibOps, MO : !MergeOps, LL : !LibLaws L, ML : !MergeLaws MO}.

(** ** The invariant *)

Record sys_ok (s : sys) : Prop := {
  so_wf : wf (s_client s);
  so_gs : Forall (g_ok (heap (s_client s))) (s_gs s);
  so_counts : ∃ S, refines (mkT (table (s_client s)) (handlers (s_gs s)) (now (s_client s))) S
}.

Lemma refines_perm t l l' n S : l ≡ₚ l' → refines (mkT t l n) S → refines (mkT t l' n) S.
Proof.
  intros Hl [H1 H2 H3]. split; simpl in *; [done | | done]. rewrite H2. unfold live_set.
  apply list_to_set_disj_perm. by rewrite Hl.
Qed.

Lemma refines_rtc s s' S : rtc (tstep true) s s' → refines s S → ∃ S', refines s' S'.
Proof.
  intros H. revert S. induction H as [|s1 s2 s3 H _ IH]; intros S HS; [eauto |].
  destruct (refines_step _ _ _ _ HS H) as (S2 & _ & H2). by eapply IH.
Qed.

(** The counters after a step of a goroutine, whatever it is. *)
Lemma step_counts e g c gs c' rest S :
  gstep e g c = (Ok gs, c') → refines (mkT (table c) (handlers (g :: rest)) (now c)) S →
  ∃ S', refines (mkT (table c') (handlers (gs ++ rest)) (now c')) S'.
Proof.
  intros H HS. assert (dial_clear (table c) g ∨ ∃ cfg a id addrs conns sess, g = GDialStore cfg a id addrs conns sess)
    as [Hd|(cfg & a & id & addrs & conns & sess & ->)] by (destruct g; simpl; naive_solver).
  - destruct (gstep_sections e g c gs c' (handlers rest) (handlers (g :: rest)) H Hd) as (l' & Hl & Hr).
    { unfold handlers. cbn [omap list_omap]. by destruct (live_of g). }
    destruct (refines_rtc _ _ _ Hr HS) as [S' HS']. exists S'. eapply refines_perm; [| done].
    unfold handlers. by rewrite omap_app.
  - cbn [gstep] in H. apply go_bind_inv_ok in H as ([] & c1 & [= <-] & H).
    apply go_bind_inv_ok in H as ([] & c2 & H2 & H). injection H as <- <-.
    assert (view c2 = view (set_table (dialSession (sessionKey a id) sess (table c)) c)) as [= Ht Hn].
    { revert H2. apply keeps_run, kv_spawnConns. }
    exists S. destruct HS as [H1 H3 H4]. split; simpl in *; by rewrite ?Ht.
Qed.

Lemma start_handlers t : handlers (start_task t) = [].
Proof. by destruct t. Qed.

Lemma call_handlers a : returns (λ gs, handlers gs = []) (run_call a).
Proof. destruct a; cbn [run_call]; unfold discard; ret. Qed.

Lemma sys_start_ok s : sys_start s → sys_ok s.
Proof.
  intros [sk a w conf o t c _ Hc]. unfold NewTunaSessionClient in Hc.
  destruct (MergedConfig conf) as [cfg|e|p] eqn:Em; [| done..]. injection Hc as <-.
  split; simpl; [| by repeat constructor | exists (mkSpec ∅ ∅); split; simpl; [apply represents_empty | done | done]].
  split; simpl; try done; [lia | by eapply MergedConfig_ok].
Qed.

Lemma sys_step_ok s s' : sys_ok s → sys_step s s' → sys_ok s' ∧ le (s_client s) (s_client s').
Proof.
  intros [Hw Hg HS] Hs. destruct Hs as [e g l1 l2 c gs c' He Hr|t ts1 ts2 c l Ht|a c gs c' l Ha Hr|t c l Ht]; simpl in *.
  - apply Forall_app in Hg as [H1 [Hg H2]%Forall_cons_1].
    destruct (spec_ok_inv _ _ _ _ _ _ _ _ (step_ok e g c Hw Hg He) Hr) as (W & G & Hgs).
    split; [| done]. split; simpl; [done | |].
    + rewrite !Forall_app. split; [done |].
      split; (eapply Forall_impl; [done |]; intros; eapply g_ok_le; [done | apply G]).
    + destruct HS as [S HS]. eapply step_counts; [done |]. eapply refines_perm; [| done].
      unfold handlers. apply omap_Permutation. by rewrite <- Permutation_middle.
  - destruct (wf_set_tasks c (ts1 ++ ts2) Hw) as [W G].
    { pose proof (wf_tasks _ Hw) as Hts. rewrite Ht in Hts. rewrite Forall_app, Forall_cons in Hts.
      apply Forall_app. naive_solver. }
    split; [| done]. split; simpl; [done | |].
    + apply Forall_app. split; [| done]. apply start_ok. pose proof (wf_tasks _ Hw) as Hts.
      rewrite Ht in Hts. rewrite Forall_app, Forall_cons in Hts. naive_solver.
    + unfold handlers in *. by rewrite omap_app, start_handlers.
  - destruct (spec_ok_inv _ _ _ _ _ _ _ _ (call_step a c Hw Ha) Hr) as (W & G & Hgs).
    split; [| done]. split; simpl; [done | |].
    + apply Forall_app. split; [done |]. eapply Forall_impl; [done |]. intros. eapply g_ok_le; [done | apply G].
    + pose proof (keeps_run _ _ _ _ (kv_call a) Hr) as [= Et En]. pose proof (call_handlers a c gs c' Hr) as Hh.
      unfold handlers in *. by rewrite omap_app, Hh, Et, En.
  - destruct (wf_set_now c t Hw) as [W G]. split; [| done]. split; simpl; [done.. |].
    destruct HS as [S []]. exists S. by split.
Qed.

Lemma sys_steps_ok s s' : sys_ok s → rtc sys_step s s' → sys_ok s' ∧ le (s_client s) (s_client s').
Proof.
  intros Hs H. revert Hs. induction H as [s|s1 s2 s3 H _ IH]; intros Hs; [done |].
  destruct (sys_step_ok _ _ Hs H) as [H2 G2]. destruct (IH H2). split; [done | by etrans].
Qed.

Lemma sys_reachable_ok s : sys_reachable s → sys_ok s.
Proof. intros (s0 & H0%sys_start_ok & H). by eapply sys_steps_ok. Qed.

(** ** What holds in every state *)

(** C2: whatever the goroutines, the application, the peers and the network do, the client
    stays well-formed and every goroutine well-typed: pointers of the maps, of the accept
    queue, of the UDP sessions and of the goroutines lead to objects, the flag and the
    channel that say the client is closed agree, the configuration has the pointers the
    code dereferences, the cached keys are the computed ones. *)
Theorem reachable_well_typed s :
  sys_reachable s → wf (s_client s) ∧ Forall (g_ok (heap (s_client s))) (s_gs s).
Proof. intros []%sys_reachable_ok. done. Qed.

(** C6: which panics can end the process.  A step of a goroutine in a reachable state goes
    on, or panics in one of the ways [g_panic] lists for it; the deferred section of
    [handleConn] never does, so an unbalanced counter cannot crash the client. *)
Theorem goroutine_panics s g e :
  sys_reachable s → g ∈ s_gs s → env_ok e →
  match (gstep e g (s_client s)).1 with
  | Ok _ => True
  | Err _ => False
  | Panic p => g_panic g p ∧ match g with GExit _ _ _ _ => False | _ => True end
  end.
Proof.
  intros [Hw Hgs [S HS]]%sys_reachable_ok Hg He.
  assert (g_ok (heap (s_client s)) g) as Hok.
  { apply list_elem_of_lookup in Hg as [i Hi]. by eapply Forall_lookup_1. }
  destruct (gstep e g (s_client s)) as [r c'] eqn:Er. simpl. destruct r as [a|err|p]; [done | |].
  - by apply (ne_gstep e g (s_client s) err c').
  - split; [by eapply spec_panic_inv; [apply step_ok |] |].
    destruct g; try done.
    cbn [gstep] in Er. unfold get, lift_res, modify in Er. unfold mbind, go_bind, mret, go_ret in Er.
    destruct (connExit_refines (now (s_client s)) (k_key l) (k_remote l) connStr (k_i l) (table (s_client s)) (sp_live S))
      as (b & t' & He' & _); [apply HS | | by rewrite He' in Er].
    rewrite (ref_live _ _ HS). unfold live_set. apply elem_of_list_to_set_disj, list_elem_of_fmap.
    exists (mkHandler (k_key l) (k_remote l) connStr (k_i l)). split; [done |]. simpl.
    apply list_elem_of_omap. by exists (GExit k l connStr sess).
Qed.

(** C13: the cache of public addresses is honest.  In every reachable state, an address a
    dial or a reconnect takes from the cache belongs to a connection that a goroutine of
    this client is handling for that peer. *)
Theorem cached_addrs_live s remoteAddr pa a :
  sys_reachable s → Client.getCachedPubAddrs remoteAddr (s_client s) = Some pa → a ∈ Addrs pa →
  ∃ x g h, a = Some x ∧ g ∈ s_gs s ∧ live_of g = Some h ∧
    h_remote h = remoteAddr ∧ h_conn h = PubAddr_String x.
Proof.
  intros [_ _ [S HS]]%sys_reachable_ok Hc Ha. unfold Client.getCachedPubAddrs, Table.getCachedPubAddrs in Hc.
  destruct (pubAddrs (table (s_client s)) !! remoteAddr) as [pa'|]; [| done]. simpl in Hc.
  destruct (all_counted _ _) eqn:Eall; [| done]. injection Hc as ->.
  rewrite (all_counted_served _ _ _ _ (ref_counts _ _ HS)) in Eall.
  rewrite forallb_forall in Eall. specialize (Eall a (proj1 (list_elem_of_In _ _) Ha)).
  destruct a as [x|]; [| done]. simpl in Eall. apply bool_decide_eq_true in Eall.
  rewrite (ref_live _ _ HS) in Eall. unfold live_set in Eall.
  apply elem_of_list_to_set_disj, list_elem_of_fmap in Eall as (h & [= -> Hx] & Hh). simpl in Hh.
  apply list_elem_of_omap in Hh as (g & Hg & Hlive). by exists x, g, h.
Qed.

(** C14: the accept queue stays within the buffer of its channel, and what it holds are
    sessions: a connection that finds it full leaves it as it is. *)
Theorem accept_queue_bounded s :
  sys_reachable s →
  length (acceptSession (s_client s)) ≤ 1024 ∧
  Forall (has (h_sess (heap (s_client s)))) (acceptSession (s_client s)) ∧
  (length (acceptSession (s_client s)) = 1024 →
     ∀ sess, queueSession sess (s_client s) = (Ok tt, s_client s)).
Proof.
  intros [Hw _ _]%sys_reachable_ok. split_and!; [apply Hw | apply Hw |].
  intros Hl sess. unfold queueSession, modify. by rewrite decide_False by (rewrite Hl; unfold acceptSessionBufSize; lia).
Qed.


(** ** The maps *)

(** Runs in which no peer takes the key of a session that is being dialed. *)
Definition clear_step (s s' : sys) : Prop :=
  Forall (dial_clear (table (s_client s))) (s_gs s) ∧ sys_step s s'.

Definition clear_reachable (s : sys) : Prop := ∃ s0, sys_start s0 ∧ rtc clear_step s0 s.

(** The state of [TableInv] a state of the system stands for. *)
Definition abstracts (s : sys) (T : tstate) : Prop :=
  tab T = table (s_client s) ∧ clock T = now (s_client s) ∧ live T ≡ₚ handlers (s_gs s).

Lemma clear_step_maps s s' T :
  abstracts s T → clear_step s s' → ∃ T', abstracts s' T' ∧ rtc (tstep true) T T'.
Proof.
  destruct T as [t l n]. intros (H1 & H2 & H3) [Hd Hs]. simpl in *. subst.
  destruct Hs as [e g l1 l2 c gs c' He Hr|t ts1 ts2 c gs Ht|a c gs c' gs0 Ha Hr|t c gs Ht]; simpl in *.
  - apply Forall_app in Hd as [_ [Hd _]%Forall_cons_1].
    destruct (gstep_sections e g c gs c' (handlers (l1 ++ l2)) l Hr Hd) as (l' & Hl & Hrtc).
    { rewrite H3. unfold handlers. rewrite <- omap_app. apply omap_Permutation. by rewrite <- Permutation_middle. }
    eexists. split; [| exact Hrtc]. split_and!; [done.. |]. simpl. rewrite Hl. unfold handlers. by rewrite <- omap_app.
  - eexists. split; [| done]. split_and!; [done.. |]. simpl. rewrite H3. unfold handlers in *.
    by rewrite omap_app, start_handlers.
  - pose proof (keeps_run _ _ _ _ (kv_call a) Hr) as [= Et En]. pose proof (call_handlers a c gs c' Hr) as Hh.
    eexists. split; [| done]. split_and!; simpl; [by rewrite Et | by rewrite En |]. rewrite H3.
    unfold handlers in *. by rewrite omap_app, Hh.
  - exists (mkT (table c) l t). split; [done |]. by apply rtc_once, ts_tick.
Qed.

Lemma sys_start_maps s : sys_start s → ∃ T, abstracts s T ∧ reachable true T.
Proof.
  intros [sk a w conf o t c Ht Hc]. unfold NewTunaSessionClient in Hc.
  destruct (MergedConfig conf); [| done..]. injection Hc as <-. exists (mkT newTable [] t).
  split; [done |]. by apply rtc_once, ts_tick.
Qed.

Lemma clear_reachable_maps s : clear_reachable s → ∃ T, abstracts s T ∧ reachable true T.
Proof.
  intros (s0 & H0 & H). apply sys_start_maps in H0 as (T0 & HT & HR). revert T0 HT HR.
  induction H as [s|s1 s2 s3 H _ IH]; intros T HT HR; [eauto |].
  destruct (clear_step_maps _ _ _ HT H) as (T' & HT' & Hr). eapply IH; [done |]. unfold reachable in *. by etrans.
Qed.

(** C3: the client refines its maps.  As long as no peer takes the key of a session that is
    being dialed, every run of the system of goroutines, seen through the maps, the clock
    and the goroutines that handle connections, is a run of the critical sections of
    [TableInv]; so what is proved of those holds of the whole client. *)
Theorem system_refines_maps s :
  clear_reachable s →
  ∃ l, l ≡ₚ handlers (s_gs s) ∧ reachable true (mkT (table (s_client s)) l (now (s_client s))).
Proof.
  intros ([t l n] & (H1 & H2 & H3) & HR)%clear_reachable_maps. simpl in *. subst. eauto.
Qed.

(** Where every session has its map, only making a session can panic. *)
Lemma registerConn_safe now key i conn mk t p :
  conns_ok t → registerConn now key i conn mk t = Panic p → mk = Panic p.
Proof.
  intros Hc. unfold registerConn, putConn, mbind, res_bind, mret, res_ret.
  destruct (sessions t !! key) eqn:Es; [destruct (Hc key (mk_is_Some _ _ Es)) as [m Hm]; by rewrite Hm |].
  destruct (cache_Get _ _ _); [done |]. destruct mk; [| done | by intros [= ->]]. simpl. by rewrite lookup_insert_eq.
Qed.

Lemma register_panic conn a id i c p c' :
  conns_ok (table c) → register conn a id i c = (Panic p, c') →
  p = MakeSliceLen ∧ ¬ (0 ≤ NumTunaListeners (config c))%Z.
Proof.
  intros Hc H. unfold register, get, lift_res, modify in H. unfold mbind, go_bind, mret, go_ret in H. cbv zeta in H.
  destruct (registerConn _ _ _ _ _ _) as [[[] t]|e|q] eqn:Er; simplify_eq.
  - apply registerConn_new in Er as [_ [x Hx]]. by rewrite Hx in H.
  - apply registerConn_safe in Er; [| done]. destruct (listenSession _ a) eqn:El; simplify_eq/=.
    by apply listenSession_panic in El.
Qed.

(** In such runs [listenNet] never writes to a nil map.  With a number of listeners that
    is not negative, the critical section of a new connection goes through in every
    reachable state, whatever session the connection names. *)
Theorem register_goes_through s l e :
  clear_reachable s → (0 ≤ NumTunaListeners (config (s_client s)))%Z →
  ∃ gs c', gstep e (GRegister l) (s_client s) = (Ok gs, c').
Proof.
  intros (T & (H1 & _) & HR)%clear_reachable_maps Hn.
  assert (conns_ok (table (s_client s))) as Hc.
  { rewrite <- H1. revert HR. generalize T. apply reachable_ind; [| by eauto using conns_ok_step].
    intros k [r Hk]. simpl in Hk. by rewrite lookup_empty in Hk. }
  destruct (gstep e (GRegister l) (s_client s)) as [[gs|err|p] c'] eqn:H; [by eauto | by apply ne_gstep in H |].
  cbn [gstep] in H. unfold mbind, go_bind in H.
  destruct (register _ _ _ _ _) as [[r|e'|q] c1] eqn:Er; simplify_eq.
  by apply register_panic in Er as [_ Hneg].
Qed.

End system.
