(* ===== verification/SystemLive.v ===== *)
(** * What ends, and when

    The goroutine that serves a connection ends after a number of its own steps that the
    bytes on the connection bound, however the others interleave; a closed client winds
    down. *)

From stdpp Require Import base gmap strings list numbers tactics relations.
From Stdlib Require Import ZArith Lia.
From S2P Require Import Prelude Hoare Util Message Crypto Pb Config Table TableInv Json JsonInv World Udp Frame Client ClientInv Exits Remote Dial System WellFormed HandlersWf CallsWf StepsWf SystemTable SystemInv.
Import Keys Framing Client Exits Remote Dial.

Section live.
Context `{L : LibOps, MO : !MergeOps, LL : !LibLaws L, ML : !MergeLaws MO}.

(** ** Serving a connection *)

(** The place in [listenNet]'s goroutine for a connection, and the connection. *)
Definition serving (g : goroutine) : option (nat * nat) :=
  match g with
  | GServe _ conn => Some (9, conn)
  | GRegister l => Some (8, k_conn l)
  | GFirst l _ => Some (7, k_conn l)
  | GQueue l _ => Some (6, k_conn l)
  | GEnter KServe l => Some (5, k_conn l)
  | GLoop KServe l _ _ => Some (4, k_conn l)
  | GExit KServe l _ _ => Some (3, k_conn l)
  | GSessClose KServe l _ => Some (2, k_conn l)
  | GAfter KServe l => Some (1, k_conn l)
  | GCloseConn conn => Some (1, conn)
  | _ => None
  end.

(** The bytes that are still to be read from a connection. *)
Definition unread (c : Client) (conn : nat) : nat :=
  from_option (λ x, length (stream x)) 0 (h_conns (heap c) !! conn).

Definition steps_left (g : goroutine) (c : Client) : nat :=
  match serving g with Some (rank, conn) => rank + unread c conn | None => 0 end.

Lemma unread_le c c' conn : has (h_conns (heap c)) conn → le c c' → unread c' conn ≤ unread c conn.
Proof.
  intros [x Hx] G. unfold unread. rewrite Hx. destruct (hl_conns _ _ (le_heap _ _ G) _ _ Hx) as (x' & -> & []). done.
Qed.

Lemma serving_conn h g rank conn : g_ok h g → serving g = Some (rank, conn) → has (h_conns h) conn.
Proof. destruct g; simpl; try done; try (destruct k; [| done]); naive_solver. Qed.

Lemma steps_left_le g c c' : g_ok (heap c) g → le c c' → steps_left g c' ≤ steps_left g c.
Proof.
  intros Hg G. unfold steps_left. destruct (serving g) as [[rank conn]|] eqn:Es; [| done].
  pose proof (unread_le c c' conn (serving_conn _ _ _ _ Hg Es) G). lia.
Qed.

(** What can follow a goroutine on its connection, before the connection is read. *)
Lemma serving_next e g rank conn :
  serving g = Some (rank, conn) →
  returns (λ gs, gs = [] ∨ ∃ g' rank', gs = [g'] ∧ serving g' = Some (rank', conn) ∧
             (rank' < rank ∨ ∃ l str sess, g = GLoop KServe l str sess ∧ g' = g)) (gstep e g).
Proof.
  intros Hs. destruct g; simpl in Hs; try done; try (destruct k; [| done]); injection Hs as <- <-; cbn [gstep];
    ret; try (by left); right; (eexists _, _; split_and!; [reflexivity | reflexivity |]); first [left; lia | right; eauto].
Qed.

(** A step of such a goroutine ends it or comes nearer to its end. *)
Lemma serving_step e g c gs c' :
  wf c → g_ok (heap c) g → env_ok e → is_Some (serving g) → gstep e g c = (Ok gs, c') →
  gs = [] ∨ ∃ g', gs = [g'] ∧ is_Some (serving g') ∧ steps_left g' c' < steps_left g c.
Proof.
  intros Hw Hg He [[rank conn] Hs] Hr.
  destruct (spec_ok_inv _ _ _ _ _ _ _ _ (step_ok e g c Hw Hg He) Hr) as (W & G & _).
  pose proof (serving_conn _ _ _ _ Hg Hs) as Hc. pose proof (unread_le c c' conn Hc G).
  destruct (serving_next e g rank conn Hs c gs c' Hr) as [->|(g' & rank' & -> & Hs' & [Hlt|(l & str & sess & -> & ->)])];
    [by left | right; eexists..]; (split; [done |]); (split; [by eexists |]); unfold steps_left; rewrite ?Hs', ?Hs; [lia |].
  simplify_eq/=. destruct Hc as [x Hx]. cbn [gstep] in Hr. apply go_bind_inv_ok in Hr as ([[]|err] & c1 & H1 & H2); [| done].
  injection H2 as <-. unfold try in H1.
  destruct (handleMsg _ _ _ c) as [[[]|?|?] c2] eqn:Eh; simplify_eq.
  destruct (handleMsg_consumes _ _ _ _ _ _ Eh Hx) as (x' & Hx' & Hl). unfold unread. rewrite Hx, Hx'. simpl. lia.
Qed.

(** The goroutine followed through a run: how many steps it has taken itself, while others
    run, start and call as they please. *)
Inductive follow : nat → goroutine → sys → Prop :=
  | f_here g s : follow 0 g s
  | f_own n e g g' c c' l :
      env_ok e → gstep e g c = (Ok [g'], c') → follow n g' (mkSys c' l) → follow (S n) g (mkSys c l)
  | f_other n g s s' :
      sys_step s s' → follow n g s' → follow n g s.

(** A step of the others, with the goroutine put back. *)
Lemma other_step g s s' :
  sys_step s s' → ∃ l, l ≡ₚ g :: s_gs s' ∧ sys_step (mkSys (s_client s) (g :: s_gs s)) (mkSys (s_client s') l).
Proof.
  intros Hs. destruct Hs as [e h l1 l2 c gs c' He Hr|t ts1 ts2 c l Ht|a c gs c' l Ha Hr|t c l Ht]; simpl.
  - exists (gs ++ (g :: l1) ++ l2). split; [by rewrite Permutation_middle |]. by apply (ss_run e h (g :: l1) l2).
  - exists (start_task t ++ g :: l). split; [by rewrite Permutation_middle |]. by apply ss_start.
  - exists (gs ++ g :: l). split; [by rewrite Permutation_middle |]. by apply (ss_call a).
  - exists (g :: l). split; [done |]. by apply ss_tick.
Qed.

Lemma sys_ok_perm c l l' : l ≡ₚ l' → sys_ok (mkSys c l) → sys_ok (mkSys c l').
Proof.
  intros Hl [Hw Hg [S HS]]. split; simpl in *; [done | by rewrite <- Hl |]. exists S.
  eapply refines_perm; [| done]. unfold handlers. by rewrite Hl.
Qed.

Lemma follow_bound n g s :
  follow n g s → sys_ok (mkSys (s_client s) (g :: s_gs s)) → is_Some (serving g) →
  n < steps_left g (s_client s).
Proof.
  induction 1 as [g s|n e g g' c c' l He Hr Hf IH|n g s s' Hs Hf IH]; intros Hok Hsv.
  - destruct Hsv as [[rank conn] Hs]. unfold steps_left. rewrite Hs. destruct g; simpl in Hs; try done;
      try (destruct k; [| done]); simplify_eq; lia.
  - assert (sys_ok (mkSys c' (g' :: l))) as Hok'.
    { eapply sys_step_ok; [exact Hok |]. by apply (ss_run e g [] l c [g']). }
    destruct Hok as [Hw Hg _]. simpl in *. apply Forall_cons_1 in Hg as [Hg _].
    destruct (serving_step e g c [g'] c' Hw Hg He Hsv Hr) as [[=]|(g2 & [= <-] & Hsv' & Hlt)].
    specialize (IH Hok' Hsv'). lia.
  - destruct (other_step g _ _ Hs) as (l & Hl & Hs'). destruct (sys_step_ok _ _ Hok Hs') as [Hok' G].
    assert (g_ok (heap (s_client s)) g) by (destruct Hok as [_ Hg _]; by apply Forall_cons_1 in Hg as [Hg _]).
    pose proof (steps_left_le g _ _ H G). simpl in *.
    specialize (IH (sys_ok_perm _ _ _ Hl Hok') Hsv). lia.
Qed.


(** ** Closing *)

Lemma wf_alive c : wf c → alive c.
Proof.
  intros Hw. split.
  - apply (all_sess_wf _ _ (wf_table _ Hw)).
  - apply (all_conns_wf _ _ (wf_table _ Hw)).
  - destruct (tunaExits (exits c)) eqn:Et; [by apply (wf_exits _ Hw) | constructor].
  - intros u Hu. destruct (wf_listener _ Hw u Hu) as (us & Hus & El). exists us. split; [done |].
    pose proof (wf_udps _ Hw _ _ Hus) as [U1 U2 U3]. split_and!; [done | | done].
    apply Forall_forall. intros n ([k n'] & -> & Hn%elem_of_map_to_list)%list_elem_of_fmap. by eapply U3.
Qed.

(** Reading from a closed connection. *)
Lemma readMessage_closed n x : conn_closed x = true → readMessage n x = (Err NetErrClosed, x).
Proof.
  intros Hx. unfold readMessage, ReadFull, mbind, go_bind. cbn [ReadFull_loop].
  unfold try, Read, mbind, go_bind. by rewrite Hx.
Qed.

Lemma handleMsg_closed conn sess i c x :
  wf c → h_conns (heap c) !! conn = Some x → conn_closed x = true → handleMsg conn sess i c = (Err NetErrClosed, c).
Proof.
  intros Hw Hx Hc. destruct (wf_config _ Hw) as (_ & _ & [cfg Hcfg]).
  unfold handleMsg, get, deref. unfold mbind at 1, go_bind at 1. rewrite Hcfg.
  unfold mbind, go_bind, mret, go_ret. unfold on_conn. rewrite (on_ok _ _ _ _ _ _ Hx), readMessage_closed by done.
  simpl. unfold put_conn. rewrite insert_id by done. by destruct c as [? ? ? ? ? ? ? ? ? ? ? [] ? ?].
Qed.

(** What a goroutine still does once the client is closed. *)
Definition wound_down (e : env) (c : Client) (g : goroutine) : Prop :=
  match g with
  | GRemover | GWhenConnected _ | GExitConnected _ | GUp _ _ | GRecv _ _ => gstep e g c = (Ok [], c)
  | GMonitor w _ _ => gstep e g c = (Ok (watchNext w), c)
  | GRetry _ _ j => j ≠ 0%Z ∨ ReconnectRetries (config c) ≠ 0%Z → gstep e g c = (Ok [], c)
  | GListen _ => (∃ err, e_accept e = Err err) → gstep e g c = (Ok [], c)
  | GLoop k l connStr sess =>
      (∃ x, h_conns (heap c) !! k_conn l = Some x ∧ conn_closed x = true) →
      gstep e g c = (Ok [GExit k l connStr sess], c)
  | _ => True
  end.

Lemma closed_winds_down e c g : wf c → isClosed c = true → wound_down e c g.
Proof.
  intros Hw Hc. pose proof (wf_closed _ Hw) as Ho. rewrite Hc in Ho.
  destruct g; simpl; try done; cbn [gstep]; unfold listenNet, removeClosedSessions, get, modify.
  - intros [err ->]. unfold mbind, go_bind, mret, go_ret. by rewrite Hc.
  - intros (x & Hx & Hcl). unfold mbind, go_bind. unfold try.
    by rewrite (handleMsg_closed _ _ _ _ _ Hw Hx Hcl).
  - intros Hj. unfold mbind, go_bind, mret, go_ret. rewrite Hc. case_decide; [done |].
    rewrite decide_False; [done | lia].
  - unfold mbind, go_bind, mret, go_ret. by rewrite Hc.
  - unfold mbind, go_bind. by rewrite Ho.
  - unfold mbind, go_bind. by rewrite Ho.
  - unfold mbind, go_bind, try, Udp.GetEstablishedUDPConn. unfold mbind, go_bind, get. by rewrite Hc.
  - unfold mbind, go_bind, try, Udp.GetEstablishedUDPConn. unfold mbind, go_bind, get. by rewrite Hc.
  - unfold mbind, go_bind. rewrite Hc. unfold upNext. by destruct k.
Qed.


End live.
