(* ===== verification/SystemUdp.v ===== *)
(** * The UDP sessions of the system

    Seen through one UDP session, the system of goroutines takes the steps of
    [UdpInv.ustep]: every piece of a goroutine and every call is a critical section of the
    session or leaves it alone, and the datagrams that were taken from the channel but not
    yet released are those of the goroutines in [GRelease].  So the buffer and the maps of
    a session are right in every interleaving of the whole client. *)

From stdpp Require Import base gmap strings list numbers tactics relations.
From Stdlib Require Import ZArith Lia.
From S2P Require Import Prelude Hoare Util Message Crypto Pb Config Table TableInv Json JsonInv World Demo Udp Frame UdpInv Client ClientInv Exits ExitsInv Remote Dial DialInv System.
Import Keys Framing Client Exits Remote Dial.

(** ** What leaves the sessions alone *)

Section uview.
Context `{L : LibOps, MO : !MergeOps}.

(** The UDP sessions and the configuration. *)
Definition uview (c : Client) : gmap nat UdpSession * Config := (h_udps (heap c), World.config c).

Lemma ku_on {X A} (lookup : Heap → gmap nat X) put r (m : go X A) :
  (∀ r x h, h_udps (put r x h) = h_udps h) → keeps uview (on lookup put r m).
Proof.
  intros Hp c. unfold on. destruct (lookup (heap c) !! r); [| done]. destruct (m x). unfold uview. simpl. by rewrite Hp.
Qed.
Lemma ku_alloc {X} (lookup : Heap → gmap nat X) put x :
  (∀ r x h, h_udps (put r x h) = h_udps h) → keeps uview (alloc lookup put x).
Proof. intros Hp c. unfold uview, alloc. simpl. by rewrite Hp. Qed.
Lemma ku_keys {A} (m : go (gmap string bytes) A) : keeps uview (on_keys m).
Proof. intros c. unfold on_keys, zoom. by destruct (m (sharedKeys c)). Qed.
Lemma ku_exits {A} (m : go Exits A) : keeps uview (on_exits m).
Proof. intros c. unfold on_exits, zoom. by destruct (m (exits c)). Qed.
Lemma ku_spawn t : keeps uview (spawn t).
Proof. done. Qed.
Lemma ku_modify (f : Client → Client) : (∀ c, uview (f c) = uview c) → keeps uview (modify f).
Proof. intros H c. apply H. Qed.

Create HintDb uframe.
#[local] Hint Resolve kt_ret kt_throw kt_crash kt_lift kt_get kt_deref kt_peek ku_keys ku_exits ku_spawn : uframe.

(** Follow the structure of a handler down to the objects it works on. *)
Ltac ku := repeat first
  [ progress intros | solve [auto 2 with uframe] | apply kt_bind | apply kt_try
  | solve [by apply ku_on] | solve [by apply ku_alloc]
  | solve [apply ku_modify; intros; repeat case_match; done]
  | progress cbv beta zeta | case_match ].

Lemma ku_closeEach conns : keeps uview (Udp.closeEach conns).
Proof. induction conns; cbn [Udp.closeEach]; ku. Qed.
Lemma ku_writeEach b conns : keeps uview (Udp.writeEach b conns).
Proof. induction conns; cbn [Udp.writeEach]; ku. Qed.
Lemma ku_spawnAll ts : keeps uview (spawnAll ts).
Proof. induction ts; cbn [spawnAll]; ku. Qed.
Lemma ku_exitAddrs b tes : keeps uview (exitAddrs b tes).
Proof. induction tes; cbn [exitAddrs]; ku. Qed.
Lemma ku_closeSessions l : keeps uview (closeSessions l).
Proof. induction l; cbn [closeSessions]; ku. Qed.
Lemma ku_closeExits tes : keeps uview (closeExits tes).
Proof. induction tes; cbn [closeExits]; ku. Qed.
Lemma ku_spawnConns conns a id cfg idx : keeps uview (spawnConns conns a id cfg idx).
Proof. induction idx; cbn [spawnConns]; ku. Qed.
Lemma ku_acceptLoop fuel choice : keeps uview (acceptLoop fuel choice).
Proof. induction fuel; cbn [acceptLoop]; ku. Qed.
#[local] Hint Resolve ku_closeEach ku_writeEach ku_spawnAll ku_exitAddrs ku_closeSessions ku_closeExits
  ku_spawnConns ku_acceptLoop : uframe.


Lemma ku_established u : keeps uview (Udp.GetEstablishedUDPConn u).
Proof. unfold Udp.GetEstablishedUDPConn, Udp.getUdp. ku. Qed.
Lemma ku_handleMsg conn sess i : keeps uview (handleMsg conn sess i).
Proof. unfold handleMsg. ku. Qed.
Lemma ku_newTunaExit i : keeps uview (newTunaExit i).
Proof. unfold newTunaExit. ku. Qed.
Lemma ku_dialTcpConn n a id ty i pa cfg : keeps uview (dialTcpConn n a id ty i pa cfg).
Proof. unfold dialTcpConn, orClose. ku. Qed.
Lemma ku_remoteAnswer o a id : keeps uview (remoteAnswer o a id).
Proof. unfold remoteAnswer. ku. Qed.
Lemma ku_register conn a id i : keeps uview (register conn a id i).
Proof. unfold register. ku. Qed.
Lemma ku_handshake conn : keeps uview (handshake conn).
Proof. unfold handshake. ku. Qed.
Lemma ku_sendClose u dst : keeps uview (Udp.sendCloseMsg u dst).
Proof. unfold Udp.sendCloseMsg, Udp.getUdp, Udp.writeRaw. ku. Qed.
#[local] Hint Resolve ku_established ku_handleMsg ku_newTunaExit ku_dialTcpConn ku_remoteAnswer ku_register
  ku_handshake ku_sendClose : uframe.

Lemma ku_closeSocket u : keeps uview (Udp.closeSocket u).
Proof. unfold Udp.closeSocket. ku. Qed.
Lemma ku_addCodec u a r : keeps uview (Udp.addCodec u a r).
Proof. unfold Udp.addCodec. ku. Qed.
Lemma ku_sendMeta u id : keeps uview (Udp.sendMetaData u id).
Proof. unfold Udp.sendMetaData. ku. Qed.
Lemma ku_getUdpAddr u a : keeps uview (Udp.getUdpAddr u a).
Proof. unfold Udp.getUdpAddr, Udp.getUdp. ku. Qed.
Lemma ku_writeTo u b a : keeps uview (Udp.WriteTo u b a).
Proof. pose proof ku_getUdpAddr. unfold Udp.WriteTo, Udp.getUdp. ku. Qed.
Lemma ku_request src data : keeps uview (handleRequest src data).
Proof. unfold handleRequest, getPubAddrs. ku. Qed.
Lemma ku_remover : keeps uview removeClosedSessions.
Proof. unfold removeClosedSessions. ku. Qed.
Lemma ku_openExits n i : keeps uview (openExits n i).
Proof. revert i. induction n; intros i; cbn [openExits]; ku. Qed.
#[local] Hint Resolve ku_closeSocket ku_addCodec ku_sendMeta ku_writeTo ku_request ku_remover ku_openExits : uframe.
Lemma ku_startExits pick : keeps uview (startExits pick).
Proof. unfold startExits, on_os. ku. Qed.
Lemma ku_dialStart cfg a id pa : keeps uview (dialStart cfg a id pa).
Proof. unfold dialStart. ku. Qed.
Lemma ku_dialJoin cfg a id addrs : keeps uview (dialJoin cfg a id addrs).
Proof. unfold dialJoin. ku. Qed.
Lemma ku_upNext k l r : keeps uview (upNext k l r).
Proof. unfold upNext. ku. Qed.
#[local] Hint Resolve ku_startExits ku_dialStart ku_dialJoin ku_upNext : uframe.

(** The goroutines whose steps leave every UDP session alone. *)
Definition leaves_udp (g : goroutine) : bool :=
  match g with
  | GServe _ _ | GRecvFrom _ _ | GRead _ _ | GRelease _ _ | GUdpCloseMaps _ _ | GMonitorRead _ _ _
  | GMonitorEnd _ _ | GUdpDial _ _ _ | GUpConnect _ _ _ => false
  | _ => true
  end.

Lemma leaves_uview e g : leaves_udp g = true → keeps uview (gstep e g).
Proof.
  intros Hq. destruct g; try done; clear Hq; cbn [gstep];
    unfold listenNet, queueSession, exitConnected, listenWhenConnected, rotateStart, rotateSwap, Udp.getUdp; ku.
Qed.

(** ** How the sessions move *)

Context (limit : Z).

(** A session between two states, whatever readers have in flight. *)
Definition evolves (us us' : UdpSession) : Prop :=
  ∀ fl i o, ∃ i', rtc (ustep limit) (mkU us fl i o) (mkU us' fl i' o).

#[export] Instance evolves_preorder : PreOrder evolves.
Proof.
  split; [intros us fl i o; by exists i |]. intros us1 us2 us3 H1 H2 fl i o.
  destruct (H1 fl i o) as [i1 ?]. destruct (H2 fl i1 o) as [i2 ?]. exists i2. by etrans.
Qed.

Lemma evolves_step us us' :
  (∀ fl i o, ∃ i', ustep limit (mkU us fl i o) (mkU us' fl i' o)) → evolves us us'.
Proof. intros H fl i o. destruct (H fl i o) as [i' ?]. exists i'. by apply rtc_once. Qed.

(** Sessions evolve, and new ones come from [newUdpSession]. *)
Record moved (c c' : Client) : Prop := {
  moved_old u us : h_udps (heap c) !! u = Some us →
    ∃ us', h_udps (heap c') !! u = Some us' ∧ evolves us us';
  moved_new u us' : h_udps (heap c) !! u = None → h_udps (heap c') !! u = Some us' →
    ∃ l cap, (0 ≤ cap)%Z ∧ evolves (fresh_udp l cap) us'
}.

#[export] Instance moved_preorder : PreOrder moved.
Proof.
  split; [intros c; split; [intros u us ?; by exists us | congruence] |]. intros c1 c2 c3 [O1 N1] [O2 N2]. split.
  - intros u us H. destruct (O1 u us H) as (us2 & H2 & E2). destruct (O2 u us2 H2) as (us3 & H3 & E3).
    exists us3. split; [done | by etrans].
  - intros u us3 H1 H3. destruct (h_udps (heap c2) !! u) as [us2|] eqn:E2; [| by eapply N2].
    destruct (N1 u us2 H1 E2) as (l & cap & Hc & E). destruct (O2 u us2 E2) as (us3' & H3' & E').
    simplify_eq. exists l, cap. split; [done | by etrans].
Qed.

Definition bounded (c : Client) : Prop := (UDPRecvBufferSize (World.config c) ≤ limit)%Z.

Definition moves {A} (m : go Client A) (c : Client) : Prop :=
  bounded c → moved c (m c).2 ∧ World.config (m c).2 = World.config c.

Lemma moves_keeps {A} (m : go Client A) c : keeps uview m → moves m c.
Proof.
  intros Hk _. specialize (Hk c). injection Hk as Hu Hc. split; [| done].
  split; rewrite Hu; [intros u us ?; by exists us | congruence].
Qed.

Lemma moves_bind {A B} (m : go Client A) (f : A → go Client B) c :
  moves m c → (∀ a c1, m c = (Ok a, c1) → moves (f a) c1) → moves (m ≫= f) c.
Proof.
  intros Hm Hf Hb. destruct (Hm Hb) as [M C]. unfold mbind, go_bind.
  destruct (m c) as [[a|e|p] c1] eqn:E; [| done..]. simpl in M, C.
  destruct (Hf a c1 eq_refl) as [M1 C1]; [unfold bounded; by rewrite C |]. split; [by etrans | congruence].
Qed.

Lemma moves_try {A} (m : go Client A) c : moves m c → moves (try m) c.
Proof. intros Hm Hb. destruct (Hm Hb). unfold try. by destruct (m c) as [[] ?]. Qed.

Lemma moves_upd u f c :
  (∀ us, h_udps (heap c) !! u = Some us → bounded c → evolves us (f us)) → moves (Udp.updUdp u f) c.
Proof.
  intros Hf Hb. unfold Udp.updUdp, on_udp, on. destruct (h_udps (heap c) !! u) as [us|] eqn:E; [| done].
  split; [| done]. split; simpl.
  - intros v vs Hv. destruct (decide (u = v)) as [<-|].
    + rewrite lookup_insert_eq. simplify_eq. eauto.
    + rewrite lookup_insert_ne by done. by exists vs.
  - intros v vs Hv Hv'. rewrite lookup_insert_ne in Hv' by congruence. congruence.
Qed.

(** A session that was read and not changed since. *)
Lemma getUdp_inv u c us c1 : Udp.getUdp u c = (Ok us, c1) → c1 = c ∧ h_udps (heap c) !! u = Some us.
Proof. unfold Udp.getUdp, peek, deref. go_unfold. destruct (h_udps (heap c) !! u); by intros; simplify_eq. Qed.

Lemma keeps_udps {A} (m : go Client A) c r c1 : keeps uview m → m c = (r, c1) → h_udps (heap c1) = h_udps (heap c).
Proof. intros Hk H. specialize (Hk c). rewrite H in Hk. by injection Hk. Qed.


(** A section of a session, as one step. *)
Ltac one := apply evolves_step; intros fl i o; eexists; solve [by constructor].
Ltac mv := repeat first
  [ progress intros | solve [auto 2] | solve [apply moves_keeps; ku] | apply moves_try | apply moves_bind
  | solve [apply moves_upd; intros; one] | progress cbv beta zeta | case_match ].

Lemma mv_setReadDeadline u t c : moves (Udp.SetReadDeadline u t) c.
Proof. unfold Udp.SetReadDeadline. mv. Qed.

Lemma mv_new_udp l n c :
  (0 ≤ n)%Z → moves (new_udp (mkUdp l None n [] 0 None None None ∅ ∅ ∅)) c.
Proof.
  intros Hn _. unfold new_udp, alloc. set (r := fresh _). assert (h_udps (heap c) !! r = None) as Hr
    by (apply not_elem_of_dom, is_fresh). split; [| done]. split; simpl.
  - intros u us Hu. rewrite lookup_insert_ne by congruence. by exists us.
  - intros u us Hu Hu'. destruct (decide (r = u)) as [<-|].
    + rewrite lookup_insert_eq in Hu'. simplify_eq. by exists l, n.
    + rewrite lookup_insert_ne in Hu' by done. congruence.
Qed.

Lemma mv_newUdp l c : moves (Udp.newUdpSession l) c.
Proof.
  unfold Udp.newUdpSession. apply moves_bind; [mv |]. intros c0 c1 _. cbv zeta. case_decide; [mv |].
  apply moves_bind; [apply mv_new_udp; lia |]. intros u c2 _.
  apply moves_bind; [apply moves_try, mv_setReadDeadline | mv].
Qed.

Lemma mv_closeSection u c : moves (Udp.closeSection u) c.
Proof. unfold Udp.closeSection. mv. Qed.

Lemma mv_udpClose u c : moves (Udp.Close u) c.
Proof. pose proof mv_closeSection. unfold Udp.Close. mv. Qed.

(** An update of a session by what was computed from it. *)
Lemma moves_const u us us' c :
  h_udps (heap c) !! u = Some us → evolves us us' → moves (Udp.updUdp u (λ _, us')) c.
Proof. intros H He. apply moves_upd. intros vs Hv _. by simplify_eq. Qed.

Lemma mv_connClosed u key c : moves (Udp.handleConnClosed u key) c.
Proof.
  unfold Udp.handleConnClosed. apply moves_bind; [mv |]. intros us c1 [-> Hu]%getUdp_inv. case_match; [| mv].
  destruct (Udp.dropUdpSession key us) as [conn us'] eqn:Ed. apply moves_bind; [mv |]. intros [] c2 H2.
  apply (moves_const u us).
  - rewrite (keeps_udps (match conn with Some conn => closeConn conn | None => mret tt end) c (Ok tt) c2); [done | | done].
    destruct conn; ku.
  - apply evolves_step. intros fl i o. exists i. replace us' with (Udp.dropUdpSession key us).2 by by rewrite Ed.
    apply us_gone.
Qed.

Lemma mv_metaData u b a c : moves (Udp.handleMetaData u b a) c.
Proof.
  pose proof mv_connClosed. unfold Udp.handleMetaData. apply moves_bind; [mv |]. intros us c1 [-> Hu]%getUdp_inv.
  case_match; [mv |]. apply moves_bind; [mv |]. intros sd c2 [= _ <-].
  case_decide; [| case_decide; [case_match; [auto | mv] | mv]].
  apply moves_bind; [mv |]. intros md c2 [= _ <-]. cbv zeta.
  destruct (sessKeyToSessAddr us !! _) eqn:Es; [mv |]. apply moves_bind; [| mv].
  apply moves_upd. intros vs Hv _. simplify_eq. apply evolves_step. intros fl i o. exists i. by apply us_session.
Qed.

Lemma mv_recvOne u buf dg c : moves (Udp.recvOne u buf dg) c.
Proof.
  pose proof mv_metaData. unfold Udp.recvOne. cbv zeta. set (b := Udp.dg_data dg ++ _).
  apply moves_bind; [mv |]. intros us c1 [-> Hu]%getUdp_inv. apply moves_bind; [mv |]. intros c0 c1 [= -> <-].
  destruct b as [|header b']; [mv |]. case_decide; [| case_decide; [case_decide; [mv |] | mv]].
  - destruct (negb _); [mv |]. apply moves_bind; [mv |]. intros [ok usa] c1 Hr.
    assert (c1 = c0) as ->.
    { destruct (isListener us); [by injection Hr |]. destruct (peer us); [by injection Hr | done]. }
    destruct ok; [| mv]. case_decide; [mv |]. apply moves_bind; [| mv].
    apply moves_upd. intros vs Hv Hb. apply evolves_step. intros fl i o. eexists. by eapply us_push.
  - apply moves_bind; [by apply moves_try | mv].
Qed.

Lemma mv_turn u conn key b c : moves (tcpMsg_turn u conn key b) c.
Proof. pose proof mv_connClosed. unfold tcpMsg_turn. mv. Qed.

Lemma mv_listenerTcp conn a id c : moves (Udp.handleUdpListenerTcp conn a id) c.
Proof. unfold Udp.handleUdpListenerTcp. mv. Qed.

Lemma mv_upConnect n u a id cfg pa c : moves (upConnect n u a id cfg pa) c.
Proof. unfold upConnect. mv. Qed.

Lemma mv_listenUDP pick c : moves (ListenUDP pick) c.
Proof.
  pose proof mv_newUdp. unfold ListenUDP. mv.
Qed.

Lemma mv_close c : moves Close c.
Proof. pose proof mv_udpClose. unfold Close. mv. Qed.

(** *** The pieces of goroutines, and the calls *)

(** What readers have taken from session [u] and not yet released. *)
Definition in_flight (u : nat) (gs : list goroutine) : list recvData :=
  omap (λ g, match g with GRelease v msg => if decide (u = v) then Some msg else None | _ => None end) gs.

Definition reads (g : goroutine) : bool := match g with GRead _ _ | GRelease _ _ => true | _ => false end.

Lemma step_moves e g c : reads g = false → moves (gstep e g) c.
Proof.
  pose proof mv_listenerTcp. pose proof mv_recvOne. pose proof mv_closeSection. pose proof mv_turn.
  pose proof mv_newUdp. pose proof mv_upConnect.
  intros Hr. destruct (leaves_udp g) eqn:El; [by apply moves_keeps, leaves_uview |].
  destruct g; try done; clear Hr El; cbn [gstep]; unfold closeNext; mv.
Qed.

Lemma step_flight e g u :
  reads g = false → returns (λ gs, in_flight u gs = []) (gstep e g).
Proof.
  assert (∀ k l r, returns (λ gs, in_flight u gs = []) (upNext k l r)) by (intros; unfold upNext; ret).
  assert (∀ cfg a id pa, returns (λ gs, in_flight u gs = []) (dialStart cfg a id pa)) by (intros; unfold dialStart; ret).
  assert (∀ cfg a id pa, returns (λ gs, in_flight u gs = []) (dialJoin cfg a id pa)) by (intros; unfold dialJoin; ret).
  intros Hr. destruct g; try done; clear Hr; cbn [gstep]; unfold retryNext, watchNext, closeNext; ret.
Qed.

(** Calls other than [SetConfig]. *)
Lemma call_moves a c : (∀ conf, a ≠ CSetConfig conf) → moves (run_call a) c.
Proof.
  pose proof mv_listenUDP. pose proof mv_setReadDeadline. pose proof mv_close.
  intros Hc. destruct a as [| | |conf| | | | | | | | | | | | |]; try by destruct (Hc conf); clear Hc.
  all: cbn [run_call]; unfold discard, sessionSend, AcceptSession, SetTunaNode, Listen, rotateStart, CloseOneConn,
    Udp.IsClosed, Udp.getUdp, Udp.Write, Udp.SetDeadline, Udp.SetWriteDeadline, Udp.SetReadBuffer, Udp.SetWriteBuffer; mv.
Qed.

Lemma call_flight a u : returns (λ gs, in_flight u gs = []) (run_call a).
Proof. destruct a; cbn [run_call]; unfold discard; ret. Qed.


(** ** The system *)

(** Every session is a state of [ustep], with the reads of its goroutines in flight. *)
Record udp_inv (s : sys) : Prop := {
  ui_session u us : h_udps (heap (s_client s)) !! u = Some us →
    ∃ l cap fl i o, (0 ≤ cap)%Z ∧ fl ≡ₚ in_flight u (s_gs s) ∧ ureachable limit l cap (mkU us fl i o);
  ui_none u : h_udps (heap (s_client s)) !! u = None → in_flight u (s_gs s) = []
}.

Lemma in_flight_app u l k : in_flight u (l ++ k) = in_flight u l ++ in_flight u k.
Proof. apply omap_app. Qed.

Lemma in_flight_mid u g l k : in_flight u (l ++ g :: k) ≡ₚ in_flight u [g] ++ in_flight u (l ++ k).
Proof. unfold in_flight. rewrite <- omap_app. apply omap_Permutation. by rewrite <- Permutation_middle. Qed.

(** A move that does not change what is in flight. *)
Lemma udp_inv_moved c c' gs gs' :
  udp_inv (mkSys c gs) → moved c c' → (∀ u, in_flight u gs' ≡ₚ in_flight u gs) → udp_inv (mkSys c' gs').
Proof.
  intros [I1 I2] [M1 M2] Hf. split; simpl in *.
  - intros u us' Hu'. destruct (h_udps (heap c) !! u) as [us|] eqn:Eu.
    + destruct (I1 u us Eu) as (l & cap & fl & i & o & Hc & Hfl & Hr). destruct (M1 u us Eu) as (? & ? & He). simplify_eq.
      destruct (He fl i o) as [i' Hs]. exists l, cap, fl, i', o. split_and!; [done | by rewrite Hf |].
      unfold ureachable in *. by etrans.
    + destruct (M2 u us' Eu Hu') as (l & cap & Hc & He). destruct (He [] [] []) as [i' Hs].
      exists l, cap, [], i', []. split_and!; [done | | done]. by rewrite Hf, I2.
  - intros u Hu. destruct (h_udps (heap c) !! u) as [us|] eqn:Eu.
    + destruct (M1 u us Eu) as (? & ? & _). congruence.
    + apply Permutation_nil_r. by rewrite Hf, I2.
Qed.

(** What a reader does: it takes a datagram, and releases it later. *)
Lemma udp_inv_read c u us us' gs gs' :
  udp_inv (mkSys c gs) → h_udps (heap c) !! u = Some us →
  (∀ v, v ≠ u → in_flight v gs' ≡ₚ in_flight v gs) →
  (∀ fl i o, fl ≡ₚ in_flight u gs → ∃ fl' i' o', fl' ≡ₚ in_flight u gs' ∧
     rtc (ustep limit) (mkU us fl i o) (mkU us' fl' i' o')) →
  udp_inv (mkSys (set_heap (put_udp u us' (heap c)) c) gs').
Proof.
  intros [I1 I2] Hu Hne Hs. split; simpl in *.
  - intros v vs Hv. destruct (decide (u = v)) as [<-|].
    + rewrite lookup_insert_eq in Hv. simplify_eq.
      destruct (I1 u us Hu) as (l & cap & fl & i & o & Hc & Hfl & Hr).
      destruct (Hs fl i o Hfl) as (fl' & i' & o' & Hfl' & Hs'). exists l, cap, fl', i', o'.
      split_and!; [done.. |]. unfold ureachable in *. by etrans.
    + rewrite lookup_insert_ne in Hv by done. destruct (I1 v vs Hv) as (l & cap & fl & i & o & Hc & Hfl & Hr).
      exists l, cap, fl, i, o. split_and!; [done | by rewrite Hne | done].
  - intros v Hv. destruct (decide (u = v)) as [<-|]; [by rewrite lookup_insert_eq in Hv |].
    rewrite lookup_insert_ne in Hv by done. apply Permutation_nil_r. by rewrite Hne, I2.
Qed.

Lemma set_udp_same c u us : h_udps (heap c) !! u = Some us → set_heap (put_udp u us (heap c)) c = c.
Proof. intros H. unfold put_udp. rewrite insert_id by done. by destruct c as [? ? ? ? ? ? ? ? ? ? ? [] ? ?]. Qed.

Lemma updUdp_inv u f c r c' :
  Udp.updUdp u f c = (Ok r, c') → ∃ us, h_udps (heap c) !! u = Some us ∧ c' = set_heap (put_udp u (f us) (heap c)) c.
Proof.
  unfold Udp.updUdp, on_udp, on. destruct (h_udps (heap c) !! u) as [us|]; [| done]. intros [= _ <-]. eauto.
Qed.

Lemma udp_inv_same c gs gs' :
  udp_inv (mkSys c gs) → (∀ u, in_flight u gs' ≡ₚ in_flight u gs) → udp_inv (mkSys c gs').
Proof. intros H. by apply (udp_inv_moved c c). Qed.

Lemma step_read e u ctx l1 l2 c gs c' :
  udp_inv (mkSys c (l1 ++ GRead u ctx :: l2)) → gstep e (GRead u ctx) c = (Ok gs, c') →
  udp_inv (mkSys c' (gs ++ l1 ++ l2)).
Proof.
  intros HI H. cbn [gstep] in H. apply go_bind_inv_ok in H as (us & c1 & [-> Hu]%getUdp_inv & H).
  apply go_bind_inv_ok in H as (? & ? & [= <- <-] & H). cbv zeta in H.
  set (expired := match ctx with Some t => _ | None => false end) in H.
  assert (∀ v gs, in_flight v gs = [] → in_flight v (gs ++ l1 ++ l2) ≡ₚ in_flight v (l1 ++ GRead u ctx :: l2)) as Hsame.
  { intros v gs0 H0. by rewrite in_flight_app, H0, in_flight_mid. }
  destruct (Udp.readTake us) as [[msg us']|] eqn:Et.
  - destruct (expired && _); [injection H as <- <-; by eapply udp_inv_same; [| intros; apply Hsame] |].
    apply go_bind_inv_ok in H as ([] & c2 & (us2 & Hu2 & ->)%updUdp_inv & H). injection H as <- <-. simplify_eq.
    eapply udp_inv_read; [done.. | |].
    + intros v Hv. apply (Hsame v [GRelease u msg]). simpl. by rewrite decide_False.
    + intros fl i o Hfl. exists (msg :: fl), i, (o ++ [msg]). split; [| by apply rtc_once, us_take].
      rewrite in_flight_app. simpl. rewrite decide_True by done. simpl. by rewrite Hfl, in_flight_mid.
  - injection H as <- <-. eapply udp_inv_same; [done |]. intros v. apply Hsame. by destruct expired.
Qed.

Lemma step_release e u msg l1 l2 c gs c' :
  udp_inv (mkSys c (l1 ++ GRelease u msg :: l2)) → gstep e (GRelease u msg) c = (Ok gs, c') →
  udp_inv (mkSys c' (gs ++ l1 ++ l2)).
Proof.
  intros HI H. cbn [gstep] in H. apply go_bind_inv_ok in H as ([] & c2 & (us & Hu & ->)%updUdp_inv & H).
  injection H as <- <-. simpl. eapply udp_inv_read; [done.. | |].
  - intros v Hv. rewrite (in_flight_mid v). simpl. by rewrite decide_False.
  - intros fl i o Hfl. rewrite in_flight_mid in Hfl. simpl in Hfl. rewrite decide_True in Hfl by done.
    simpl in Hfl. assert (msg ∈ fl) as (f1 & f2 & ->)%list_elem_of_split by (rewrite Hfl; left).
    exists (f1 ++ f2), i, o. split; [| by apply rtc_once, us_release].
    rewrite <- Permutation_middle in Hfl. by apply Permutation_cons_inv in Hfl.
Qed.

Lemma start_flight u t : in_flight u (start_task t) = [].
Proof. by destruct t. Qed.

(** Runs in which the configured size of the buffer stays within [limit]. *)
Definition bounded_step (s s' : sys) : Prop := bounded (s_client s) ∧ sys_step s s'.
Definition bounded_reachable (s : sys) : Prop := ∃ s0, sys_start s0 ∧ rtc bounded_step s0 s.

Lemma udp_inv_step s s' : udp_inv s → bounded_step s s' → udp_inv s'.
Proof.
  intros HI [Hb Hs]. destruct Hs as [e g l1 l2 c gs c' He Hr|t ts1 ts2 c l Ht|a c gs c' l Ha Hr|t c l Ht]; simpl in *.
  - destruct (reads g) eqn:Eg.
    + destruct g; try done; [by eapply step_read | by eapply step_release].
    + eapply udp_inv_moved; [done | by pose proof (step_moves e g c Eg Hb) as [M _]; rewrite Hr in M |].
      intros u. rewrite in_flight_app, (step_flight e g u Eg c gs c' Hr), in_flight_mid. by destruct g.
  - eapply udp_inv_moved; [done | split; simpl; [intros u us ?; by exists us | congruence] |].
    intros u. by rewrite in_flight_app, start_flight.
  - assert (∀ u, in_flight u (gs ++ l) ≡ₚ in_flight u l) as Hf.
    { intros u. by rewrite in_flight_app, (call_flight a u c gs c' Hr). }
    eapply udp_inv_moved; [done | | done]. assert ((∃ conf, a = CSetConfig conf) ∨ ∀ conf, a ≠ CSetConfig conf)
      as [[conf ->]|Hn] by (destruct a; eauto).
    + assert (h_udps (heap c') = h_udps (heap c)) as E.
      { cbn [run_call] in Hr. unfold discard in Hr. apply go_bind_inv_ok in Hr as (r & c1 & H1 & [= _ <-]).
        unfold try, SetConfig, zoom in H1. destruct (Config.SetConfig conf (World.config c)) as [[] ?]; by simplify_eq. }
      split; rewrite E; [intros u us ?; by exists us | congruence].
    + pose proof (call_moves a c Hn Hb) as [M _]. by rewrite Hr in M.
  - eapply udp_inv_moved; [done | split; simpl; [intros u us ?; by exists us | congruence] | done].
Qed.

Lemma udp_inv_reachable s : bounded_reachable s → udp_inv s.
Proof.
  intros (s0 & H0 & H). assert (udp_inv s0) as HI.
  { destruct H0 as [sk a w conf o t c _ Hc]. unfold NewTunaSessionClient in Hc.
    destruct (MergedConfig conf); [| done..]. injection Hc as <-.
    split; simpl; [intros u us Hu; by rewrite lookup_empty in Hu | done]. }
  clear H0. induction H as [|s1 s2 s3 H12 _ IH]; eauto using udp_inv_step.
Qed.

(** The kind of a session and the size of its channel never change. *)
Lemma ustep_fixed s s' :
  ustep limit s s' → isListener (u_us s') = isListener (u_us s) ∧ recvCap (u_us s') = recvCap (u_us s).
Proof.
  intros []; simpl; try done.
  - subst. unfold Udp.recvPush. by repeat case_decide.
  - unfold Udp.readTake in *. case_match; by simplify_eq.
  - unfold Udp.dropUdpSession. by case_match.
Qed.

Lemma ureachable_fixed l cap s : ureachable limit l cap s → isListener (u_us s) = l ∧ recvCap (u_us s) = cap.
Proof.
  unfold ureachable. intros H. remember (mkU (fresh_udp l cap) [] [] []) as s0 eqn:E0.
  assert (isListener (u_us s0) = l ∧ recvCap (u_us s0) = cap) as H0 by by subst. clear E0.
  induction H as [|x y z Hxy _ IH]; [done |]. apply IH. apply ustep_fixed in Hxy as [-> ->]. done.
Qed.

(** C19: the client refines its UDP sessions.  Whatever the receive loop, readers, monitors,
    dials, calls and the network do, a UDP session of the client is in a state that the
    critical sections of [UdpInv] reach, with the datagrams in flight that its pending
    reads have taken and not yet released. *)
Theorem system_refines_udp s u us :
  bounded_reachable s → h_udps (heap (s_client s)) !! u = Some us →
  ∃ fl i o, fl ≡ₚ in_flight u (s_gs s) ∧ (0 ≤ recvCap us)%Z ∧
    ureachable limit (isListener us) (recvCap us) (mkU us fl i o).
Proof.
  intros HI%udp_inv_reachable Hu. destruct (ui_session _ HI u us Hu) as (l & cap & fl & i & o & Hc & Hfl & Hr).
  destruct (ureachable_fixed _ _ _ Hr) as [El Ec]. simpl in El, Ec. subst. eauto 6.
Qed.

(** C20: the receive buffer of a UDP session.  In every reachable state of the client the
    recorded size is the number of bytes that wait in the channel or are being read; it is
    never negative, and zero or below the configured limit; and the channel holds at most
    the configured number of datagrams. *)
Theorem udp_buffer_accounting s u us :
  bounded_reachable s → h_udps (heap (s_client s)) !! u = Some us →
  recvSize us = (total (recvChan us) + total (in_flight u (s_gs s)))%Z ∧
  (0 ≤ recvSize us)%Z ∧ (recvSize us = 0%Z ∨ (recvSize us < limit)%Z) ∧
  (Z.of_nat (length (recvChan us)) ≤ recvCap us)%Z.
Proof.
  intros HI%udp_inv_reachable Hu. destruct (ui_session _ HI u us Hu) as (l & cap & fl & i & o & Hc & Hfl & Hr).
  destruct (ureachable_buffer _ _ _ _ Hc Hr) as [B1 B2 [B3 B4] _]. simpl in *.
  assert (total fl = total (in_flight u (s_gs s))) as <-.
  { clear -Hfl. induction Hfl; simpl; lia. }
  pose proof (total_nonneg fl). pose proof (total_nonneg (recvChan us)). split_and!; [done | lia | done | lia].
Qed.

(** C21: the two maps of a UDP listener agree.  In every reachable state of the client, the
    session that user data from a UDP address is attributed to is registered under its
    session key with that very address: a reply goes back to where the data came from. *)
Theorem udp_maps_consistent s u us a usa :
  bounded_reachable s → h_udps (heap (s_client s)) !! u = Some us → udpAddrToSessAddr us !! a = Some usa →
  udpAddr usa = a ∧ sessKeyToSessAddr us !! usa_String usa = Some usa.
Proof.
  intros HI%udp_inv_reachable Hu. destruct (ui_session _ HI u us Hu) as (l & cap & fl & i & o & _ & _ & Hr).
  apply ureachable_maps in Hr as [Hm _]. apply Hm.
Qed.

End uview.
