(* ===== verification/UdpWindows.v ===== *)
(** * Between two pieces of a UDP session

    What a UDP session does while it is dialed again or closed, in the states between the
    pieces of [DialUpSession] and [Close]: application data that is written meanwhile, the
    receive loop and pending reads. *)

From stdpp Require Import base gmap strings list numbers tactics relations.
From Stdlib Require Import ZArith Lia.
From S2P Require Import Prelude Hoare Util Message Crypto Pb Config Table Json JsonInv World Demo Udp Frame UdpInv Client Exits Remote Dial DialInv System SystemRuns SystemUdp.
Import Keys Framing Client Exits Remote Dial.

Section windows.
Context `{L : LibOps, MO : !MergeOps, LL : !LibLaws L}.

(** ** Dialing again *)

(** The UDP sessions, the sockets, and whether the client is closed. *)
Definition sview (c : Client) : gmap nat UdpSession * gmap nat udpconn * bool :=
  (h_udps (heap c), h_udpconns (heap c), isClosed c).

Lemma ks_conn {A} r (m : go Conn A) : keeps sview (on_conn r m).
Proof. intros c. unfold on_conn, on. destruct (h_conns (heap c) !! r); [| done]. by destruct (m c0). Qed.
Lemma ks_keys {A} (m : go (gmap string bytes) A) : keeps sview (on_keys m).
Proof. intros c. unfold on_keys, zoom. by destruct (m (sharedKeys c)). Qed.
Lemma ks_new_conn x : keeps sview (new_conn x).
Proof. done. Qed.

Lemma ks_dialTcpConn n a id ty i pa cfg : keeps sview (dialTcpConn n a id ty i pa cfg).
Proof.
  unfold dialTcpConn, orClose, closeConn.
  repeat first [ progress intros | solve [auto 2 using kt_ret, kt_throw, kt_lift, kt_get, ks_conn, ks_keys, ks_new_conn]
    | apply kt_bind | apply kt_try | done | case_match ].
Qed.

(** The address [dialUdpConn] has chosen. *)
Lemma dialUdpConn_inv addrs err x p :
  dialUdpConn addrs err = Ok (Some (x, p)) → Some p ∈ addrs ∧ net_DialUDP (IP p) (Port p) = Ok x.
Proof.
  revert err. induction addrs as [|[b|] addrs IH]; intros err; simpl; [by destruct err | | done].
  case_decide; [destruct (net_DialUDP (IP b) (Port b)) eqn:E |]; intros Hd; simplify_eq.
  - split; [left | done].
  - apply IH in Hd as []. split; [by right | done].
  - apply IH in Hd as []. split; [by right | done].
Qed.

Lemma upConnect_inv n u a id cfg pa c ua c1 :
  upConnect n u a id cfg pa c = (Ok ua, c1) →
  ∃ p x uc tcp us, Some p ∈ Addrs pa ∧ net_DialUDP (IP p) (Port p) = Ok x ∧
    h_udps (heap c) !! u = Some us ∧ h_udpconns (heap c1) !! uc = Some x ∧ isClosed c1 = isClosed c ∧
    h_udps (heap c1) !! u = Some (Udp.set_dialer (Some uc) (Some tcp) (Some (newUdpSessionAddr id a ua)) us).
Proof.
  intros H. unfold upConnect in H. apply go_bind_inv_ok in H as (r & c0 & H0 & H).
  unfold lift_res in H0. injection H0 as Hd <-. cbv zeta in H.
  destruct r as [[x p]|].
  - apply dialUdpConn_inv in Hd as [Hp Hx]. apply go_bind_inv_ok in H as (o & c2 & H2 & H).
    apply go_bind_inv_ok in H2 as (uc & c3 & [= <- <-] & [= <- <-]).
    set (uc := fresh (dom _)) in H. set (c2 := set_heap _ c) in H.
    apply go_bind_inv_ok in H as (t & c4 & H4 & H).
    pose proof (kt_try sview _ (ks_dialTcpConn n a id SessionType_UDP (-1) (Some p) cfg) c2) as Hk.
    change (snd <$> Some (x, p)) with (Some p) in *. rewrite H4 in Hk. injection Hk as Hus Huc Hcl.
    destruct t as [tcp|e].
    + cbn in H. apply go_bind_inv_ok in H as (p' & c5 & [= <- <-] & H).
      apply go_bind_inv_ok in H as ([] & c6 & (us & Hu & ->)%updUdp_inv & [= <- <-]).
      exists p, x, uc, tcp, us. rewrite Hus in Hu. split_and!; [done | done | done | | done |].
      * simpl. rewrite Huc. apply lookup_insert_eq.
      * simpl. apply lookup_insert_eq.
    + by apply go_bind_inv_ok in H as (? & ? & [= <- <-] & (? & ? & _ & [=])%go_bind_inv_ok).
  - apply go_bind_inv_ok in H as (o & c2 & [= <- <-] & H). cbn in H.
    by apply go_bind_inv_ok in H as (t & c4 & [= <- <-] & (? & ? & [=] & _)%go_bind_inv_ok).
Qed.

(** Data that is written while [DialUpSession] is between its critical section and
    [addCodec] goes out as it is: the socket is the one [net.DialUDP] has just returned,
    and no codec has been added to it. *)
Theorem redial_in_clear n u us a id cfg pa c ua c1 b :
  h_udps (heap c) !! u = Some us → isListener us = false → isClosed c = false →
  upConnect n u a id cfg pa c = (Ok ua, c1) →
  ∃ p x uc, Some p ∈ Addrs pa ∧ net_DialUDP (IP p) (Port p) = Ok x ∧
    Udp.WriteTo u b Udp.NilAddr c1 =
      (n ← (uc_WriteMsgUDP (byte_of HeaderType_USER :: b) None x).1; Ok (n - 1)%Z,
       set_heap (put_udpconn uc (uc_WriteMsgUDP (byte_of HeaderType_USER :: b) None x).2 (heap c1)) c1).
Proof.
  intros Hu Hl Hc (p & x & uc & tcp & us0 & Hp & Hx & Hu0 & Huc & Hc1 & Hu1)%upConnect_inv. simplify_eq.
  exists p, x, uc. split_and!; [done.. |].
  assert (open_udp u (Udp.set_dialer (Some uc) (Some tcp) (Some (newUdpSessionAddr id a ua)) us) uc x c1) as Ho.
  { split; [done | done | done | by eapply dial_open | congruence]. }
  unfold Udp.WriteTo. rewrite (go_bind_ok _ _ _ _ _ (getUdp_ok _ _ _ Hu1)). cbn [isListener Udp.set_dialer]. rewrite Hl.
  rewrite (go_bind_ok (mret None) _ c1 None c1 eq_refl), (go_bind_ok _ _ _ _ _ (established_ok _ _ _ _ _ Ho)).
  unfold mbind, go_bind, on_udpconn. rewrite (on_ok _ _ _ _ _ _ Huc).
  by destruct (uc_WriteMsgUDP _ _ _) as [[] ?].
Qed.

(** ** Closing *)

(** The channels of the sessions. *)
Definition chans (c : Client) : gmap nat (list recvData) := recvChan <$> h_udps (heap c).

Lemma kc_uview {A} (m : go Client A) : keeps uview m → keeps chans m.
Proof. intros Hk c. specialize (Hk c). injection Hk as Hu _. unfold chans. by rewrite Hu. Qed.

Lemma kc_upd u f : (∀ us, recvChan (f us) = recvChan us) → keeps chans (Udp.updUdp u f).
Proof.
  intros Hf c. unfold Udp.updUdp, on_udp, on. destruct (h_udps (heap c) !! u) as [us|] eqn:E; [| done].
  unfold chans. simpl. rewrite fmap_insert, Hf, insert_id; [done |]. by rewrite lookup_fmap, E.
Qed.

Lemma kc_closeSection u : keeps chans (Udp.closeSection u).
Proof.
  unfold Udp.closeSection. apply kt_bind; [apply kc_uview, kt_peek |]. intros us. case_match.
  - apply kt_bind; [apply kc_uview, ku_closeEach | intros; by apply kc_upd].
  - apply kt_bind; [by apply kc_upd |]. intros _. case_match; [| by apply kt_ret]. apply kc_uview. by apply ku_on.
Qed.

Lemma kc_close u : keeps chans (Udp.Close u).
Proof.
  unfold Udp.Close. apply kt_bind; [apply kt_try, kc_uview, ku_sendClose |]. intros _.
  apply kt_bind; [apply kc_uview, ku_closeSocket | intros; apply kc_closeSection].
Qed.

Lemma kc_setReadDeadline u t : keeps chans (Udp.SetReadDeadline u t).
Proof.
  unfold Udp.SetReadDeadline. apply kt_bind; [by apply kc_upd |]. intros _. apply kc_uview.
  apply kt_bind; [apply ku_established | intros; by apply ku_on].
Qed.

Lemma read_waits e u c : chans c !! u = Some [] → gstep e (GRead u None) c = (Ok [GRead u None], c).
Proof.
  unfold chans. rewrite lookup_fmap. destruct (h_udps (heap c) !! u) as [us|] eqn:Eu; [| done]. intros [= Hr].
  cbn [gstep]. rewrite (go_bind_ok _ _ _ _ _ (getUdp_ok _ _ _ Eu)). unfold get, Udp.readTake. rewrite Hr. done.
Qed.

(** A pending [ReadFrom] without a deadline wakes up only for a datagram: neither a
    deadline that is set meanwhile nor [Close] ends it. *)
Theorem pending_read_waits e u us t c :
  h_udps (heap c) !! u = Some us → recvChan us = [] →
  gstep e (GRead u None) (Udp.Close u c).2 = (Ok [GRead u None], (Udp.Close u c).2) ∧
  gstep e (GRead u None) (Udp.SetReadDeadline u t c).2 = (Ok [GRead u None], (Udp.SetReadDeadline u t c).2).
Proof.
  intros Hu Hr. assert (chans c !! u = Some []) as Hc by (unfold chans; by rewrite lookup_fmap, Hu; simpl; rewrite Hr).
  split; apply read_waits; [by rewrite kc_close | by rewrite kc_setReadDeadline].
Qed.

(** A datagram that was read from the socket of a dialer before [Close] and is handled
    after it ends the process: the peer is gone. *)
Theorem receive_after_close e u us r c c' buf b a :
  h_udps (heap c) !! u = Some us → isListener us = false → Udp.closeSection u c = (r, c') → is_panic r = false →
  e_dgram e = Some (Udp.mkDgram (byte_of HeaderType_USER :: b) a true) →
  gstep e (GRecvFrom u buf) c' = (Panic NilDeref, c').
Proof.
  intros Hu Hl Hc Hr He. unfold Udp.closeSection in Hc. rewrite (go_bind_ok _ _ _ _ _ (getUdp_ok _ _ _ Hu)), Hl in Hc.
  rewrite (go_bind_ok _ _ _ _ _ (updUdp_ok _ _ _ _ Hu)) in Hc. set (c1 := set_heap _ c) in Hc.
  assert (h_udps (heap c') !! u = Some (Udp.set_dialer (udpConn us) (tcpConn us) None us)) as Hu'.
  { destruct (tcpConn us) as [n|].
    - assert (h_udps (heap c') = h_udps (heap c1)) as -> by (revert Hc; by apply keeps_udps, ku_on).
      apply lookup_insert_eq.
    - injection Hc as <- <-. apply lookup_insert_eq. }
  cbn [gstep]. rewrite He. unfold Udp.recvOne. cbv zeta.
  unfold mbind at 1, go_bind at 1. rewrite (go_bind_ok _ _ _ _ _ (getUdp_ok _ _ _ Hu')).
  cbn [Udp.dg_data app]. unfold get. unfold mbind at 1, go_bind at 1. rewrite decide_True by done.
  cbn [Udp.dg_encrypted negb isListener Udp.set_dialer]. rewrite Hl. done.
Qed.

End windows.
