(* ===== verification/SystemDial.v ===== *)
(** * Dialing goroutines that run alone

    [DialWithConfig], [DialUDPWithConfig] and the goroutine of a dialed connection with its
    attempts to reconnect are runs of the system: scheduled without interruption, their
    pieces do what the whole functions of [Dial] do.  And from any reachable state a broken
    connection of an open session can be replaced. *)

From stdpp Require Import base gmap strings list numbers tactics relations.
From Stdlib Require Import ZArith Lia.
From S2P Require Import Prelude Hoare Util Message Crypto Pb Config Table Json JsonInv World Demo Udp Frame UdpInv Client ClientInv Exits Remote Dial DialInv System SystemRuns SystemTable SystemInv SystemUdp.
Import Keys Framing Crypto Client Exits Remote Dial.

Section alone.
Context `{L : LibOps, MO : !MergeOps, LL : !LibLaws L}.

(** A step during which the network does [n]; the [k]-th dialing goroutine is next. *)
Definition dial_env (n : net) (k : nat) : env := mkEnv n (Err NetErrClosed) None None k false.

Lemma dial_env_ok n k : net_ok n → env_ok (dial_env n k).
Proof. by split. Qed.

(** ** Dialing a session *)

Lemma dialAll_alone env order a id addrs cfg err c err' c' pend gs :
  (∀ i, net_ok (env i)) →
  pend ≡ₚ filter (λ i, Is_true (from_option usable false (addrs !! i))) order →
  dialAll env order a id addrs cfg err c = (Ok err', c') →
  rtc sys_step (mkSys c (GDialAll cfg a id addrs pend :: gs)) (mkSys c' (GDialAll cfg a id addrs [] :: gs)).
Proof.
  intros Hn. revert err c pend. induction order as [|i order IH]; intros err c pend Hp H; cbn [dialAll] in H.
  { apply Permutation_nil_r in Hp as ->. by injection H as _ <-. }
  rewrite filter_cons in Hp.
  destruct (addrs !! i) as [x|] eqn:Ei; simpl in Hp; [| by eapply IH].
  destruct (usable x) eqn:Eu; simpl in Hp; [| by eapply IH].
  apply go_bind_inv_ok in H as (r & c1 & H1 & H).
  assert (i ∈ pend) as [k Hk]%list_elem_of_lookup by (rewrite Hp; left).
  assert (pend ≡ₚ i :: delete k pend) as Hd by by apply delete_Permutation.
  eapply (run_step (dial_env (env i) k)); [by apply dial_env_ok | |].
  - cbn [gstep]. destruct pend as [|j pend]; [done |].
    pose proof (lookup_lt_Some _ _ _ Hk). cbn [e_pick e_net dial_env]. rewrite Nat.mod_small, Hk by done.
    change (default 0 (Some i)) with i. rewrite Ei. change (default None (Some x)) with x.
    rewrite (go_bind_ok _ _ _ _ _ H1). reflexivity.
  - cbn [app]. eapply IH; [| exact H]. rewrite Hd in Hp. by apply Permutation_cons_inv in Hp.
Qed.


Lemma dialAll_no_err env order a id addrs cfg err : noerr (dialAll env order a id addrs cfg err).
Proof.
  revert err. induction order as [|i order IH]; intros err; cbn [dialAll]; [apply noerr_ret |].
  destruct (addrs !! i) as [x|]; [| apply IH]. destruct (usable x); [| apply IH].
  apply noerr_bind; [apply noerr_try | intros; apply IH].
Qed.

(** The request for addresses in two pieces. *)
Lemma getPubAddrs_alone n a id c r c' :
  getPubAddrsFromRemote (n_outcome n) a id c = (r, c') →
  (∃ pa, getCachedPubAddrs a c = Some pa ∧ r = Ok pa ∧ c' = c) ∨
  (getCachedPubAddrs a c = None ∧ remoteAnswer (n_outcome n) a id c = (r, c')).
Proof.
  unfold getPubAddrsFromRemote, get. unfold mbind at 1, go_bind at 1.
  destruct (getCachedPubAddrs a c) as [pa|]; [intros [= <- <-]; eauto | by right].
Qed.

Lemma checkAddrs_no_err verbose addrs e : checkAddrs verbose addrs ≠ Err e.
Proof. induction addrs as [|[x|] addrs IH]; simpl; [done | done |]. by destruct verbose. Qed.

Lemma remoteAnswer_config o a id c r c' : remoteAnswer o a id c = (r, c') → World.config c' = World.config c.
Proof. intros H. pose proof (ku_remoteAnswer o a id c) as Hk. rewrite H in Hk. by injection Hk. Qed.

(** [DialWithConfig] once the addresses are known: dialing, the session, its goroutines. *)
Definition dialRest (env : nat → net) (order : nat → list nat) (config : dialConfig) (remoteAddr : string)
    (sessionID : bytes) (pa : PubAddrs) (verbose : bool) : go Client (option nat) :=
  lift_res (checkAddrs verbose (Addrs pa));;
  err ← dialAll env (order (length (Addrs pa))) remoteAddr sessionID (Addrs pa) config None;
  let sessKey := sessionKey remoteAddr sessionID in
  c ← get;
  let conns := default ∅ (sessionConns (table c) !! sessKey) in
  if decide (conns = ∅) then
    match err with Some e => throw e | None => mret None end
  else
    let connIDs := filter (λ id, is_Some (conns !! id)) (connID <$> indices (Addrs pa)) in
    s ← lift_res (newSession c remoteAddr connIDs (DialSessionConfig config));
    sess ← new_sess s;
    modify (λ c, set_table (dialSession sessKey sess (table c)) c);;
    spawnConns conns remoteAddr sessionID config (indices (Addrs pa));;
    on_sess sess ncp_Dial;;
    mret (Some sess).

Lemma dialJoin_alone env order cfg a id pa verbose c r c' gs :
  (∀ i, net_ok (env i)) → order (length (Addrs pa)) ≡ₚ seq 0 (length (Addrs pa)) →
  dialRest env order cfg a id pa verbose c = (r, c') → is_panic r = false →
  rtc sys_step
    (mkSys c (GDialAll cfg a id (Addrs pa)
       (filter (λ i, Is_true (from_option usable false (Addrs pa !! i))) (seq 0 (length (Addrs pa)))) :: gs))
    (mkSys c' gs).
Proof.
  intros Hn Ho H Hr. unfold dialRest in H.
  destruct (checkAddrs verbose (Addrs pa)) as [[]|e|p] eqn:Ec;
    [| by destruct (checkAddrs_no_err verbose (Addrs pa) e) | by injection H as <- <-].
  rewrite (go_lift_ok _ _ _ tt) in H by done.
  destruct (dialAll env (order (length (Addrs pa))) a id (Addrs pa) cfg None c) as [[err|e|p] c1] eqn:Ed.
  2:{ by destruct (dialAll_no_err env (order (length (Addrs pa))) a id (Addrs pa) cfg None c e c1). }
  2:{ rewrite (go_bind_panic _ _ _ _ _ Ed) in H. by injection H as <- <-. }
  rewrite (go_bind_ok _ _ _ _ _ Ed) in H.
  etrans; [eapply dialAll_alone; [done | | exact Ed]; by rewrite Ho |]. clear Ed Ec Ho.
  cbv zeta in H. unfold get in H. unfold mbind at 1, go_bind at 1 in H.
  assert (∀ gs' c2, dialJoin cfg a id (Addrs pa) c1 = (Ok gs', c2) →
    rtc sys_step (mkSys c2 (gs' ++ gs)) (mkSys c' gs) →
    rtc sys_step (mkSys c1 (GDialAll cfg a id (Addrs pa) [] :: gs)) (mkSys c' gs)) as Hjoin.
  { intros gs' c2 H2. by apply (run_step no_env). }
  unfold dialJoin, get in Hjoin. unfold mbind at 1, go_bind at 1 in Hjoin. cbv zeta in Hjoin.
  case_decide as He.
  { apply (Hjoin [] c1); [done |]. destruct err; by injection H as <- <-. }
  destruct (newSession c1 a _ _) as [s|e|p] eqn:Es.
  2:{ injection H as <- <-. by apply (Hjoin [] c1). }
  2:{ by injection H as <- <-. }
  rewrite (go_lift_ok _ _ _ s) in H by done. unfold new_sess, alloc in H. unfold mbind at 1, go_bind at 1 in H.
  set (sess := fresh (dom (h_sess (heap c1)))) in *. set (c2 := set_heap _ c1) in H.
  apply (Hjoin [GDialStore cfg a id (Addrs pa) (default ∅ (sessionConns (table c1) !! sessionKey a id)) sess] c2).
  { done. }
  unfold modify in H. unfold mbind at 1, go_bind at 1 in H. set (c3 := set_table _ c2) in H.
  destruct (spawnConns (default ∅ (sessionConns (table c1) !! sessionKey a id)) a id cfg (indices (Addrs pa)) c3) as [[[]|e|p] c4] eqn:Ew.
  2:{ by destruct (ne_spawnConns (default ∅ (sessionConns (table c1) !! sessionKey a id)) a id cfg (indices (Addrs pa)) c3 e c4). }
  2:{ rewrite (go_bind_panic _ _ _ _ _ Ew) in H. by injection H as <- <-. }
  rewrite (go_bind_ok _ _ _ _ _ Ew) in H.
  eapply (run_step no_env); [done | |].
  { cbn [gstep]. unfold modify. unfold mbind at 1, go_bind at 1. fold c3. by rewrite (go_bind_ok _ _ _ _ _ Ew). }
  cbn [app]. eapply (run_step no_env _ []); [done | | done]. cbn [gstep].
  destruct (on_sess sess ncp_Dial c4) as [[[]|e|p] c5] eqn:Ex; unfold mbind, go_bind, try in H |- *; rewrite Ex in *;
    by injection H as <- <-.
Qed.

(** The same from where the addresses are looked at. *)
Lemma dialStart_alone env order cfg a id pa c r c' gs :
  (∀ i, net_ok (env i)) → (∀ m, order m ≡ₚ seq 0 m) →
  dialRest env order cfg a id pa (Verbose (World.config c)) c = (r, c') → is_panic r = false →
  ∃ gs', dialStart cfg a id pa c = (Ok gs', c) ∧ rtc sys_step (mkSys c (gs' ++ gs)) (mkSys c' gs).
Proof.
  intros Hn Ho H Hr. pose proof (dialJoin_alone env order cfg a id pa _ c r c' gs Hn (Ho _) H Hr) as Hj.
  eexists [_]. split; [| exact Hj]. unfold dialStart, get. unfold mbind at 1, go_bind at 1. unfold dialRest in H.
  destruct (checkAddrs (Verbose (World.config c)) (Addrs pa)) as [[]|e|p] eqn:Ec; [done | | by injection H as <- <-].
  by destruct (checkAddrs_no_err (Verbose (World.config c)) (Addrs pa) e).
Qed.

(** [DialWithConfig] cut where the addresses are known. *)
Lemma DialWithConfig_split n env order randID a dc c :
  DialWithConfig n env order randID a dc c =
  ('(cfg, a, id) ← lift_res (cfg ← MergeDialConfig (SessionConfig (World.config c)) dc;
                             a ← ResolveDest a; id ← randID; Ok (cfg, a, id));
   pa ← getPubAddrsFromRemote (n_outcome n) a id;
   dialRest env order cfg a id pa (Verbose (World.config c))) c.
Proof.
  unfold DialWithConfig, get, lift_res, mbind, go_bind, res_bind.
  destruct (MergeDialConfig _ dc); [| reflexivity..]. destruct (ResolveDest a); [| reflexivity..].
  destruct randID; reflexivity.
Qed.


(** ** Reconnecting *)

(** What the goroutine of a dialed connection does after an attempt. *)
Definition attempted (cfg : dialConfig) (l : link) (j : Z) (r : res (option nat)) : list goroutine :=
  match r with
  | Ok (Some conn) => [GEnter (KDial cfg) (mkLink (k_i l) conn (k_remote l) (k_id l))]
  | Ok None => []
  | Err e => retryNext cfg l j e
  | Panic _ => []
  end.

Lemma redial_alone n cfg l j pa c r c' gs :
  net_ok n →
  (if decide (k_i l < Z.of_nat (length (Addrs pa)))%Z then
     match Addrs pa !! Z.to_nat (k_i l) with
     | None => crash IndexRange
     | Some a =>
         conn ← dialTcpConn n (k_remote l) (k_id l) SessionType_TCP (k_i l) a cfg;
         mret (Some conn)
     end
   else mret None) c = (r, c') → is_panic r = false →
  rtc sys_step (mkSys c (GRedial cfg l j pa :: gs)) (mkSys c' (attempted cfg l j r ++ gs)).
Proof.
  intros Hn H Hr. eapply (run_step (dial_env n 0) _ (attempted cfg l j r)); [by apply dial_env_ok | | done].
  cbn [gstep]. case_decide; [| by injection H as <- <-].
  destruct (Addrs pa !! Z.to_nat (k_i l)) as [x|]; [| by injection H as <- <-].
  destruct (dialTcpConn n (k_remote l) (k_id l) SessionType_TCP (k_i l) x cfg c) as [[conn|e|p] c1] eqn:Ed.
  - rewrite (go_bind_ok _ _ _ _ _ Ed) in H. injection H as <- <-.
    by rewrite (go_bind_ok _ _ _ _ _ (try_ok _ _ _ _ Ed)).
  - rewrite (go_bind_err _ _ _ _ _ Ed) in H. injection H as <- <-.
    by rewrite (go_bind_ok _ _ _ _ _ (try_err _ _ _ _ Ed)).
  - rewrite (go_bind_panic _ _ _ _ _ Ed) in H. by injection H as <- <-.
Qed.

(** The request for addresses and the dial. *)
Lemma ask_alone n cfg l j sess c r c' gs :
  net_ok n →
  (r ← try (getPubAddrsFromRemote (n_outcome n) (k_remote l) (k_id l));
   match r with
   | inr e => if decide (e = ErrClosed) then try (on_sess sess ncp_Close);; throw ErrClosed else throw e
   | inl pa =>
       if decide (k_i l < Z.of_nat (length (Addrs pa)))%Z then
         match Addrs pa !! Z.to_nat (k_i l) with
         | None => crash IndexRange
         | Some a =>
             conn ← dialTcpConn n (k_remote l) (k_id l) SessionType_TCP (k_i l) a cfg;
             mret (Some conn)
         end
       else mret None
   end) c = (r, c') → is_panic r = false →
  rtc sys_step (mkSys c (GAsk cfg l j sess :: gs)) (mkSys c' (attempted cfg l j r ++ gs)).
Proof.
  intros Hn H Hr.
  destruct (getPubAddrsFromRemote (n_outcome n) (k_remote l) (k_id l) c) as [r1 c1] eqn:Eg.
  destruct (getPubAddrs_alone n _ _ _ _ _ Eg) as [(pa & Hca & -> & ->) | [Hca Ha]].
  { rewrite (go_bind_ok _ _ _ _ _ (try_ok _ _ _ _ Eg)) in H.
    eapply (run_step no_env); [done | cbn [gstep]; unfold get, mbind, go_bind; by rewrite Hca |].
    by eapply redial_alone. }
  eapply (run_step no_env); [done | cbn [gstep]; unfold get, mbind, go_bind; by rewrite Hca |]. cbn [app].
  destruct r1 as [pa|e|p].
  - rewrite (go_bind_ok _ _ _ _ _ (try_ok _ _ _ _ Eg)) in H.
    eapply (run_step (dial_env n 0)); [by apply dial_env_ok | |].
    { cbn [gstep]. by rewrite (go_bind_ok _ _ _ _ _ (try_ok _ _ _ _ Ha)). }
    by eapply redial_alone.
  - rewrite (go_bind_ok _ _ _ _ _ (try_err _ _ _ _ Eg)) in H.
    eapply (run_step (dial_env n 0) _ (attempted cfg l j r)); [by apply dial_env_ok | | done].
    cbn [gstep]. rewrite (go_bind_ok _ _ _ _ _ (try_err _ _ _ _ Ha)). case_decide as Hc.
    + destruct (try (on_sess sess ncp_Close) c1) as [[x|e1|p] c2] eqn:Ex;
        unfold mbind, go_bind in H |- *; rewrite Ex in H |- *; injection H as <- <-; [done | | done].
      by destruct (noerr_try (on_sess sess ncp_Close) c1 e1 c2).
    + by injection H as <- <-.
  - unfold mbind, go_bind, try in H. rewrite Eg in H. by injection H as <- <-.
Qed.

(** An attempt that is due is the whole of [reconnect]. *)
Lemma reconnect_alone n cfg l j c r c' gs :
  net_ok n → (ReconnectRetries (World.config c) < 0 ∨ j < ReconnectRetries (World.config c))%Z →
  reconnect n (k_remote l) (k_id l) (k_i l) cfg c = (r, c') → is_panic r = false →
  rtc sys_step (mkSys c (GRetry cfg l j :: gs)) (mkSys c' (attempted cfg l j r ++ gs)).
Proof.
  intros Hn Hj H Hr. unfold reconnect, get in H. unfold mbind at 1, go_bind at 1 in H.
  assert (∀ gs' c2 s', (if isClosed c then mret []
      else match sessions (table c) !! k_key l with
           | None => mret []
           | Some sess => s ← peek h_sess sess; mret (if ncp_IsClosed s then [] else [GAsk cfg l j sess])
           end) c = (Ok gs', c2) → rtc sys_step (mkSys c2 (gs' ++ gs)) s' →
    rtc sys_step (mkSys c (GRetry cfg l j :: gs)) s') as Hfirst.
  { intros gs' c2 s' Hg. apply (run_step no_env); [done |]. cbn [gstep]. unfold get.
    unfold mbind at 1, go_bind at 1. cbv zeta. by rewrite decide_True. }
  destruct (isClosed c); [injection H as <- <-; by apply (Hfirst [] c) |].
  change (sessionKey (k_remote l) (k_id l)) with (k_key l) in H.
  destruct (sessions (table c) !! k_key l) as [sess|]; [| injection H as <- <-; by apply (Hfirst [] c)].
  destruct (h_sess (heap c) !! sess) as [s|] eqn:Es.
  2:{ unfold peek, get, deref in H. unfold mbind, go_bind in H. rewrite Es in H. by injection H as <- <-. }
  assert (peek h_sess sess c = (Ok s, c)) as Hp.
  { unfold peek, get, deref. unfold mbind, go_bind. by rewrite Es. }
  rewrite (go_bind_ok _ _ _ _ _ Hp) in H. rewrite (go_bind_ok _ _ _ _ _ Hp) in Hfirst.
  destruct (ncp_IsClosed s); [injection H as <- <-; by apply (Hfirst [] c) |].
  eapply Hfirst; [done |]. cbn [app]. clear Hfirst.
  by eapply ask_alone.
Qed.

Lemma reconnect_config n a id i cfg c r c' :
  reconnect n a id i cfg c = (r, c') → World.config c' = World.config c.
Proof.
  intros H. assert (keeps World.config (reconnect n a id i cfg)) as Hk.
  { unfold reconnect, getPubAddrsFromRemote, remoteAnswer, dialTcpConn, orClose, new_conn.
    repeat first [progress intros | apply kt_bind | apply kt_try | solve [auto 2 with frame] | done
                 | progress cbv beta zeta | case_match]. }
  specialize (Hk c). by rewrite H in Hk.
Qed.

(** The loop of attempts: it ends with a new connection, with nothing left to do, or it is
    still trying. *)
Lemma tryReconnect_alone fuel env cfg l j c r c' gs :
  (∀ j, net_ok (env j)) → (0 ≤ j)%Z → ReconnectRetries (World.config c) ≠ 0%Z →
  tryReconnect fuel (ReconnectRetries (World.config c)) j
    (λ j, reconnect (env j) (k_remote l) (k_id l) (k_i l) cfg) c = (Ok r, c') →
  rtc sys_step (mkSys c (GRetry cfg l j :: gs))
    (mkSys c' (match r with
               | RcConn o => attempted cfg l 0 (Ok o)
               | RcStop => []
               | RcMore => [GRetry cfg l (j + Z.of_nat fuel)]
               end ++ gs)).
Proof.
  intros Hn. assert (∀ j c, (0 ≤ j)%Z → ReconnectRetries (World.config c) ≠ 0%Z →
    ¬ (ReconnectRetries (World.config c) < 0 ∨ j < ReconnectRetries (World.config c))%Z →
    rtc sys_step (mkSys c (GRetry cfg l j :: gs)) (mkSys c gs)) as Hend.
  { intros j' c0 Hj' Hz Hd. eapply (run_step no_env _ []); [done | | done]. cbn [gstep]. unfold get.
    unfold mbind at 1, go_bind at 1. cbv zeta. rewrite decide_False by done. rewrite decide_False by lia. done. }
  revert j c. induction fuel as [|fuel IH]; intros j c Hj Hz H; cbn [tryReconnect] in H; case_decide as Hd.
  1: by injection H as <- <-; rewrite Z.add_0_r.
  1, 3: injection H as <- <-; by apply Hend.
  destruct (reconnect (env j) (k_remote l) (k_id l) (k_i l) cfg c) as [[o|e|p] c1] eqn:Er.
  - rewrite (go_bind_ok _ _ _ _ _ (try_ok _ _ _ _ Er)) in H. injection H as <- <-.
    by apply (reconnect_alone (env j) cfg l j _ (Ok o)).
  - rewrite (go_bind_ok _ _ _ _ _ (try_err _ _ _ _ Er)) in H.
    etrans; [by apply (reconnect_alone (env j) cfg l j _ (Err e)) |]. simpl. unfold retryNext.
    case_decide; [by injection H as <- <- |].
    rewrite <- (reconnect_config _ _ _ _ _ _ _ _ Er) in H.
    replace (j + Z.of_nat (S fuel))%Z with (j + 1 + Z.of_nat fuel)%Z by lia.
    apply IH; [lia | by rewrite (reconnect_config _ _ _ _ _ _ _ _ Er) | done].
  - unfold mbind, go_bind, try in H. by rewrite Er in H.
Qed.


(** ** Dialing a UDP session *)

Definition outcome_of {A} (r : res A) : unit + error := match r with Err e => inr e | _ => inl tt end.

(** [Close] of a UDP session in its three pieces. *)
Lemma udpClose_alone x u c r c1 gs gs' c2 :
  Udp.Close u c = (r, c1) → is_panic r = false → closeNext x c1 = (Ok gs', c2) →
  rtc sys_step (mkSys c (GUdpClose x u :: gs)) (mkSys c2 (gs' ++ gs)).
Proof.
  intros H Hr Hx. unfold Udp.Close in H.
  destruct (try (Udp.sendCloseMsg u None) c) as [[r1|e|p] d1] eqn:E1.
  2:{ by destruct (noerr_try (Udp.sendCloseMsg u None) c e d1). }
  2:{ rewrite (go_bind_panic _ _ _ _ _ E1) in H. by injection H as <- <-. }
  rewrite (go_bind_ok _ _ _ _ _ E1) in H.
  eapply (run_step no_env); [done | cbn [gstep]; rewrite (go_bind_ok _ _ _ _ _ E1); reflexivity |]. cbn [app].
  destruct (Udp.closeSocket u d1) as [[[]|e|p] d2] eqn:E2.
  2:{ by destruct (ne_closeSocket u d1 e d2). }
  2:{ rewrite (go_bind_panic _ _ _ _ _ E2) in H. by injection H as <- <-. }
  rewrite (go_bind_ok _ _ _ _ _ E2) in H.
  eapply (run_step no_env); [done | cbn [gstep]; rewrite (go_bind_ok _ _ _ _ _ E2); reflexivity |]. cbn [app].
  eapply (run_step no_env); [done | | apply rtc_refl]. cbn [gstep].
  destruct r as [[]|e|p]; [| | done];
    [rewrite (go_bind_ok _ _ _ _ _ (try_ok _ _ _ _ H)) | rewrite (go_bind_ok _ _ _ _ _ (try_err _ _ _ _ H))]; exact Hx.
Qed.

(** A piece of [DialUpSession] whose failure closes the session. *)
Lemma orCloseUdp_alone u (m : go Client unit) g k l c r c1 gs gs' c2 :
  orCloseUdp u m c = (r, c1) → is_panic r = false → upNext k l (outcome_of r) c1 = (Ok gs', c2) →
  (∀ c', m c = (Ok tt, c') → rtc sys_step (mkSys c (g :: gs)) (mkSys c2 (gs' ++ gs))) →
  (∀ e c', m c = (Err e, c') → gstep no_env g c = (Ok [GUdpClose (XDial k l e) u], c')) →
  rtc sys_step (mkSys c (g :: gs)) (mkSys c2 (gs' ++ gs)).
Proof.
  intros H Hr Hu Hok Herr. destruct (m c) as [[[]|e|p] d] eqn:Em.
  - by eapply Hok.
  - eapply (run_step no_env); [done | by apply Herr |]. cbn [app]. unfold orCloseUdp in H.
    rewrite (go_bind_ok _ _ _ _ _ (try_err _ _ _ _ Em)) in H.
    destruct (Udp.Close u d) as [rc d1] eqn:Ec. unfold try, mbind, go_bind, throw in H. rewrite Ec in H.
    destruct rc as [x|e1|p]; injection H as <- <-; [| | done]; by eapply udpClose_alone.
  - unfold orCloseUdp, mbind, go_bind, try in H. rewrite Em in H. by injection H as <- <-.
Qed.

Lemma upSession_alone n k l pa c r c1 gs gs' c2 :
  net_ok n → upSession n (p_udp l) (p_remote l) (p_id l) (p_config l) pa c = (r, c1) → is_panic r = false →
  upNext k l (outcome_of r) c1 = (Ok gs', c2) →
  rtc sys_step (mkSys c (GUpConnect k l pa :: gs)) (mkSys c2 (gs' ++ gs)).
Proof.
  intros Hn H Hr Hu. unfold upSession in H.
  destruct (upConnect n (p_udp l) (p_remote l) (p_id l) (p_config l) pa c) as [[ua|e|p] d] eqn:Ec.
  2:{ rewrite (go_bind_err _ _ _ _ _ Ec) in H. injection H as <- <-.
      eapply (run_step (dial_env n 0)); [by apply dial_env_ok | | done]. cbn [gstep].
      rewrite (go_bind_ok _ _ _ _ _ (try_err _ _ _ _ Ec)). exact Hu. }
  2:{ rewrite (go_bind_panic _ _ _ _ _ Ec) in H. by injection H as <- <-. }
  rewrite (go_bind_ok _ _ _ _ _ Ec) in H.
  eapply (run_step (dial_env n 0)); [by apply dial_env_ok | cbn [gstep]; by rewrite (go_bind_ok _ _ _ _ _ (try_ok _ _ _ _ Ec)) |].
  cbn [app]. clear Ec.
  assert (∀ d, gstep no_env (GUpMeta k l ua) d =
    (r ← try (Udp.sendMetaData (p_udp l) (p_id l));
     mret (match r with inl _ => [GUpCodec k l ua] | inr err => [GUdpClose (XDial k l err) (p_udp l)] end)) d)
    as Hmeta by done.
  destruct (orCloseUdp (p_udp l) (Udp.sendMetaData (p_udp l) (p_id l)) d) as [[[]|e|p] d1] eqn:E1.
  3:{ rewrite (go_bind_panic _ _ _ _ _ E1) in H. by injection H as <- <-. }
  - rewrite (go_bind_ok _ _ _ _ _ E1) in H.
    destruct (Udp.sendMetaData (p_udp l) (p_id l) d) as [[[]|e|p] d2] eqn:Es;
      unfold orCloseUdp, mbind, go_bind, try in E1; rewrite Es in E1;
      [injection E1 as <- | by destruct (Udp.Close (p_udp l) d2) as [[] ?] | done].
    eapply (run_step no_env); [done | rewrite Hmeta, (go_bind_ok _ _ _ _ _ (try_ok _ _ _ _ Es)); reflexivity |].
    cbn [app]. eapply (orCloseUdp_alone (p_udp l) (Udp.addCodec (p_udp l) ua (p_remote l)) _ k l); [exact H | done | exact Hu | |].
    + intros d3 Ha. unfold orCloseUdp in H. rewrite (go_bind_ok _ _ _ _ _ (try_ok _ _ _ _ Ha)) in H.
      injection H as <- <-. eapply (run_step no_env); [done | | done]. cbn [gstep].
      rewrite (go_bind_ok _ _ _ _ _ (try_ok _ _ _ _ Ha)). exact Hu.
    + intros e d3 Ha. cbn [gstep]. by rewrite (go_bind_ok _ _ _ _ _ (try_err _ _ _ _ Ha)).
  - rewrite (go_bind_err _ _ _ _ _ E1) in H. injection H as <- <-.
    eapply (orCloseUdp_alone (p_udp l) (Udp.sendMetaData (p_udp l) (p_id l)) _ k l); [exact E1 | done | exact Hu | |].
    + intros d3 Ha. unfold orCloseUdp in E1. by rewrite (go_bind_ok _ _ _ _ _ (try_ok _ _ _ _ Ha)) in E1.
    + intros e' d3 Ha. by rewrite Hmeta, (go_bind_ok _ _ _ _ _ (try_err _ _ _ _ Ha)).
Qed.

(** [DialUpSession] and what follows it. *)
Lemma DialUpSession_alone n k l c r c1 gs gs' c2 :
  net_ok n → DialUpSession n (p_udp l) (p_remote l) (p_id l) (p_config l) c = (r, c1) → is_panic r = false →
  upNext k l (outcome_of r) c1 = (Ok gs', c2) →
  rtc sys_step (mkSys c (GUp k l :: gs)) (mkSys c2 (gs' ++ gs)).
Proof.
  intros Hn H Hr Hu. unfold DialUpSession, get in H. unfold mbind at 1, go_bind at 1 in H.
  assert (∀ gs1 d s', (if isClosed c then upNext k l (inr ErrClosed)
      else mret (match getCachedPubAddrs (p_remote l) c with
                 | Some pa => [GUpConnect k l pa] | None => [GUpAnswer k l] end)) c = (Ok gs1, d) →
      rtc sys_step (mkSys d (gs1 ++ gs)) s' → rtc sys_step (mkSys c (GUp k l :: gs)) s') as Hfirst.
  { intros gs1 d s' Hg. by apply (run_step no_env). }
  destruct (isClosed c). { injection H as <- <-. by eapply Hfirst. }
  destruct (getPubAddrsFromRemote (n_outcome n) (p_remote l) (p_id l) c) as [r1 d1] eqn:Eg.
  destruct (getPubAddrs_alone n _ _ _ _ _ Eg) as [(pa & Hca & -> & ->) | [Hca Ha]]; rewrite Hca in Hfirst;
    (eapply Hfirst; [done |]); cbn [app].
  { rewrite (go_bind_ok _ _ _ _ _ Eg) in H. by eapply upSession_alone. }
  destruct r1 as [pa|e|p].
  - rewrite (go_bind_ok _ _ _ _ _ Eg) in H. eapply (run_step (dial_env n 0)); [by apply dial_env_ok | |].
    { cbn [gstep]. by rewrite (go_bind_ok _ _ _ _ _ (try_ok _ _ _ _ Ha)). }
    by eapply upSession_alone.
  - rewrite (go_bind_err _ _ _ _ _ Eg) in H. injection H as <- <-.
    eapply (run_step (dial_env n 0)); [by apply dial_env_ok | | done].
    cbn [gstep]. rewrite (go_bind_ok _ _ _ _ _ (try_err _ _ _ _ Ha)). exact Hu.
  - rewrite (go_bind_panic _ _ _ _ _ Eg) in H. by injection H as <- <-.
Qed.

Lemma newUdpSession_no_err b : noerr (Udp.newUdpSession b).
Proof.
  apply noerr_bind; [apply noerr_get |]. intros c. cbv zeta. case_decide; [apply noerr_crash |].
  apply noerr_bind; [done |]. intros u. apply noerr_bind; [apply noerr_try | intros; apply noerr_ret].
Qed.

Lemma DialUDPWithConfig_split n randID a dc c :
  DialUDPWithConfig n randID a dc c =
  ('(cfg, a, id) ← lift_res (cfg ← MergeDialConfig (SessionConfig (World.config c)) dc;
                             a ← ResolveDest a; id ← randID; Ok (cfg, a, id));
   u ← Udp.newUdpSession false;
   DialUpSession n u a id cfg;;
   spawn (TRecvMsg u);;
   spawn (TUdpReconnect u a id cfg);;
   mret u) c.
Proof.
  unfold DialUDPWithConfig, get, lift_res, mbind, go_bind, res_bind.
  destruct (MergeDialConfig _ dc); [| reflexivity..]. destruct (ResolveDest a); [| reflexivity..].
  destruct randID; reflexivity.
Qed.

(** The goroutine of [DialUDPWithConfig] does what the whole call does. *)
Lemma DialUDPWithConfig_alone n randID a dc c r c' gs :
  net_ok n → DialUDPWithConfig n randID a dc c = (r, c') → is_panic r = false →
  rtc sys_step (mkSys c (GUdpDial a dc randID :: gs)) (mkSys c' gs).
Proof.
  intros Hn H Hr. rewrite DialUDPWithConfig_split in H.
  destruct (MergeDialConfig (SessionConfig (World.config c)) dc ≫= _) as [[[cfg ra] id]|e|p] eqn:Em.
  2:{ injection H as <- <-. eapply (run_step no_env _ []); [done | | done]. cbn [gstep].
      unfold get, lift_res, try. unfold mbind at 1, go_bind at 1. unfold mbind at 1, go_bind at 1. by rewrite Em. }
  2:{ by injection H as <- <-. }
  rewrite (go_lift_ok _ _ _ (cfg, ra, id)) in H by done.
  destruct (Udp.newUdpSession false c) as [[u|e|p] c1] eqn:Hnew.
  2:{ by destruct (newUdpSession_no_err false c e c1). }
  2:{ rewrite (go_bind_panic _ _ _ _ _ Hnew) in H. by injection H as <- <-. }
  rewrite (go_bind_ok _ _ _ _ _ Hnew) in H. set (l := mkUp u ra id cfg).
  eapply (run_step no_env _ [GUp DFirst l]); [done | |].
  { cbn [gstep]. unfold get, lift_res, try. unfold mbind at 1, go_bind at 1. unfold mbind at 1, go_bind at 1.
    rewrite Em. by rewrite (go_bind_ok _ _ _ _ _ Hnew). }
  cbn [app]. destruct (DialUpSession n u ra id cfg c1) as [[[]|e|p] c2] eqn:Ed.
  - rewrite (go_bind_ok _ _ _ _ _ Ed) in H. injection H as <- <-.
    by apply (DialUpSession_alone n DFirst l c1 (Ok tt) c2 gs []).
  - rewrite (go_bind_err _ _ _ _ _ Ed) in H. injection H as <- <-.
    by apply (DialUpSession_alone n DFirst l c1 (Err e) c2 gs []).
  - rewrite (go_bind_panic _ _ _ _ _ Ed) in H. by injection H as <- <-.
Qed.

(** ** A broken connection is replaced *)

(** The addresses of the peer change nothing but the cache. *)
Lemma getPubAddrs_state o a id c pa c1 :
  getPubAddrsFromRemote o a id c = (Ok pa, c1) → ∃ t, c1 = set_table t c ∧ sessions t = sessions (table c).
Proof.
  intros H. unfold getPubAddrsFromRemote, remoteAnswer, get, lift_res, throw, crash, modify in H.
  unfold mbind, go_bind, mret, go_ret in H.
  repeat (case_match; simplify_eq/=; try done); [exists (table c1); by destruct c1 | by eexists].
Qed.

(** An attempt at whose end the connection is dialed. *)
Lemma reconnect_ok n skB pB a id i cfg c c1 sess s pa x nc nonce raw :
  isClosed c = false → sessions (table c) !! sessionKey a id = Some sess →
  h_sess (heap c) !! sess = Some s → ncp_IsClosed s = false →
  getPubAddrsFromRemote (n_outcome n) a id c = (Ok pa, c1) →
  (0 ≤ i)%Z → Addrs pa !! Z.to_nat i = Some (Some x) → IP x ≠ "" → Port x ≠ 0%Z →
  n_dial n (PubAddr_String x) = Ok nc → n_rand n = Ok nonce → writable nc → wr_out nc = [] →
  MarshalMetadata (mkMetadata id SessionType_TCP "") = Ok raw →
  length (privKey c) = PrivateKeySize → account_at skB a pB → cache_ok (privKey c) (sharedKeys c) →
  ∃ conn y c', reconnect n a id i cfg c = (Ok (Some conn), c') ∧
    h_conns (heap c) !! conn = None ∧ h_conns (heap c') !! conn = Some y ∧ conn_closed y = false ∧
    conn_of (table c') (sessionKey a id) (connID i) = Some conn ∧
    sessions (table c') !! sessionKey a id = Some sess.
Proof.
  intros Hc Hs Hh Ho Hp Hi Hx Hip Hport Hd Hr Hw Hwo Hm Hl Hacc Hk.
  destruct (getPubAddrs_state _ _ _ _ _ _ Hp) as (t & -> & Ht).
  destruct (dialTcpConn_ok n skB a pB id SessionType_TCP i x cfg (set_table t c) nc nonce raw)
    as (conn & y & ks & H1 & H2 & H3 & _ & _); [done.. |].
  rewrite decide_True in H1 by done.
  eexists conn, y, _. split; [| split_and!].
  - unfold reconnect, get. unfold mbind at 1, go_bind at 1. rewrite Hc, Hs.
    assert (peek h_sess sess c = (Ok s, c)) as Hpk by (unfold peek, deref; go_unfold; by rewrite Hh).
    rewrite (go_bind_ok _ _ _ _ _ Hpk), Ho, (go_bind_ok _ _ _ _ _ (try_ok _ _ _ _ Hp)).
    assert (Z.to_nat i < length (Addrs pa)) by by eapply lookup_lt_Some.
    rewrite decide_True by lia. rewrite Hx, (go_bind_ok _ _ _ _ _ H1). reflexivity.
  - exact H2.
  - simpl. apply lookup_insert_eq.
  - exact H3.
  - unfold conn_of. simpl. rewrite lookup_insert_eq. simpl. apply lookup_insert_eq.
  - simpl. by rewrite Ht.
Qed.

Context `{ML : !MergeLaws MO}.

(** C18: a broken connection is replaced.  In every reachable state where the goroutine of a
    dialed connection may try again and its session is still open, an attempt that learns a
    usable address of the peer and reaches it ends with a new, open connection, registered
    in place of the old one; and the goroutine goes on handling the messages of the session
    on it. *)
Theorem reconnection_succeeds n skB pB cfg l j c gs c1 sess s pa x nc nonce raw :
  sys_reachable (mkSys c (GRetry cfg l j :: gs)) → net_ok n →
  (ReconnectRetries (World.config c) < 0 ∨ j < ReconnectRetries (World.config c))%Z →
  isClosed c = false → sessions (table c) !! k_key l = Some sess →
  h_sess (heap c) !! sess = Some s → ncp_IsClosed s = false →
  getPubAddrsFromRemote (n_outcome n) (k_remote l) (k_id l) c = (Ok pa, c1) →
  Addrs pa !! Z.to_nat (k_i l) = Some (Some x) → IP x ≠ "" → Port x ≠ 0%Z →
  n_dial n (PubAddr_String x) = Ok nc → n_rand n = Ok nonce → writable nc → wr_out nc = [] →
  MarshalMetadata (mkMetadata (k_id l) SessionType_TCP "") = Ok raw →
  length (privKey c) = PrivateKeySize → account_at skB (k_remote l) pB →
  ∃ conn y c', h_conns (heap c) !! conn = None ∧ h_conns (heap c') !! conn = Some y ∧ conn_closed y = false ∧
    conn_of (table c') (k_key l) (connID (k_i l)) = Some conn ∧
    rtc sys_step (mkSys c (GRetry cfg l j :: gs))
      (mkSys c' (GLoop (KDial cfg) (mkLink (k_i l) conn (k_remote l) (k_id l)) (conn_remote y) sess :: gs)).
Proof.
  intros Hreach Hn Hj Hc Hs Hh Ho Hp Hx Hip Hport Hd Hr Hw Hwo Hm Hl Hacc.
  apply sys_reachable_ok in Hreach as [Hwf Hgs]. apply Forall_cons_1 in Hgs as [[_ Hi] _].
  destruct (reconnect_ok n skB pB (k_remote l) (k_id l) (k_i l) cfg c c1 sess s pa x nc nonce raw)
    as (conn & y & c2 & H1 & H2 & H3 & H4 & H5 & H6); [done.. | apply Hwf |].
  pose proof (reconnect_alone n cfg l j c _ c2 gs Hn Hj H1 eq_refl) as Hrun. simpl in Hrun.
  destruct (connEnter (k_key l) (k_remote l) (conn_remote y) (table c2)) as [[sess' t]|] eqn:He.
  2:{ unfold connEnter, k_key in He. by rewrite H6 in He. }
  assert (sess' = sess ∧ sessionConns t = sessionConns (table c2)) as [-> Ht].
  { unfold connEnter, k_key in He. rewrite H6 in He. by injection He as <- <-. }
  exists conn, y, (set_table t c2). split_and!; [done | done | done | by unfold conn_of; simpl; rewrite Ht |].
  etrans; [exact Hrun |]. eapply (run_step no_env); [done | |].
  - cbn [gstep]. assert (peek h_conns conn c2 = (Ok y, c2)) as Hpk by (unfold peek, deref; go_unfold; by rewrite H3).
    cbn [k_conn]. rewrite (go_bind_ok _ _ _ _ _ Hpk). unfold get. unfold mbind at 1, go_bind at 1.
    unfold k_key in He |- *. cbn [k_remote k_id]. rewrite He. reflexivity.
  - apply rtc_refl.
Qed.

End alone.
