(* ===== verification/SystemRedial.v ===== *)
(** * The goroutines of a UDP session that run alone

    The monitor of a TCP connection and the reconnect goroutine of [DialUDPWithConfig] are
    runs of the system: scheduled without interruption, their pieces do what [handleTcpMsg],
    [udpMonitor] and [udpReconnectRound] do. *)

From stdpp Require Import base gmap strings list numbers tactics relations.
From Stdlib Require Import ZArith Lia.
From S2P Require Import Prelude Hoare Util Message Crypto Pb Config Table Json JsonInv World Demo Udp Frame UdpInv Client ClientInv Exits Remote Dial DialInv System SystemRuns WellFormed HandlersWf CallsWf SystemInv SystemUdp SystemDial.
Import Keys Framing Client Exits Remote Dial.

Section redial.
Context `{L : LibOps, MO : !MergeOps, LL : !LibLaws L}.

(** ** The monitor *)

Lemma handleConnClosed_no_err u key : noerr (Udp.handleConnClosed u key).
Proof.
  unfold Udp.handleConnClosed. apply noerr_bind; [apply noerr_peek |]. intros us. case_match.
  - case_match. apply noerr_bind; [case_match; [apply noerr_closeConn | apply noerr_ret] | intros; apply noerr_updUdp].
  - apply noerr_bind; [apply noerr_updUdp |]. intros _. apply noerr_bind; [apply noerr_deref |]. intros uc.
    apply noerr_bind; [by apply noerr_on | intros _].
    apply noerr_bind; [apply noerr_deref | intros; apply noerr_closeConn].
Qed.

(** A loop that has returned did so with an error. *)
Lemma monitor_alone fuel w conn b c e c' gs :
  Udp.tcpMsg_loop fuel (w_udp w) conn (w_key w) b c = (Err e, c') →
  rtc sys_step (mkSys c (GMonitor w conn b :: gs)) (mkSys c' (watchNext w ++ gs)).
Proof.
  revert b c. induction fuel as [|fuel IH]; intros b c H; cbn [Udp.tcpMsg_loop] in H; [done |].
  destruct (Udp.GetEstablishedUDPConn (w_udp w) c) as [[n|e1|p] c1] eqn:E1.
  2:{ rewrite (go_bind_err _ _ _ _ _ E1) in H. injection H as <- <-.
      eapply (run_step no_env); [done | | done]. cbn [gstep]. by rewrite (go_bind_ok _ _ _ _ _ (try_err _ _ _ _ E1)). }
  2:{ by rewrite (go_bind_panic _ _ _ _ _ E1) in H. }
  rewrite (go_bind_ok _ _ _ _ _ E1) in H.
  eapply (run_step no_env); [done | cbn [gstep]; by rewrite (go_bind_ok _ _ _ _ _ (try_ok _ _ _ _ E1)) |]. cbn [app].
  assert (∀ o s', tcpMsg_turn (w_udp w) conn (w_key w) b c1 = (Ok o, s_client s') →
    s_gs s' = match o with Some b => [GMonitor w conn b] | None => watchNext w end ++ gs →
    rtc sys_step s' (mkSys c' (watchNext w ++ gs)) →
    rtc sys_step (mkSys c1 (GMonitorRead w conn b :: gs)) (mkSys c' (watchNext w ++ gs))) as Hturn.
  { intros o [c2 gs'] Ht Hg Hr. simpl in *. subst.
    eapply (run_step no_env); [done | cbn [gstep]; by rewrite (go_bind_ok _ _ _ _ _ Ht) | exact Hr]. }
  unfold tcpMsg_turn in Hturn.
  destruct (on_conn conn (Message.Read 1024) c1) as [[got|e2|p] c2] eqn:E2.
  2:{ rewrite (go_bind_err _ _ _ _ _ E2) in H. injection H as <- <-.
      rewrite (go_bind_ok _ _ _ _ _ (try_err _ _ _ _ E2)) in Hturn. by apply (Hturn None (mkSys c2 (watchNext w ++ gs))). }
  2:{ by rewrite (go_bind_panic _ _ _ _ _ E2) in H. }
  rewrite (go_bind_ok _ _ _ _ _ E2) in H. rewrite (go_bind_ok _ _ _ _ _ (try_ok _ _ _ _ E2)) in Hturn. cbv zeta in H, Hturn.
  set (b1 := got ++ drop (length got) b) in *.
  assert (Udp.tcpMsg_loop fuel (w_udp w) conn (w_key w) b1 c2 = (Err e, c') →
    rtc sys_step (mkSys c2 (GMonitor w conn b1 :: gs)) (mkSys c' (watchNext w ++ gs))) as Hgo by apply IH.
  repeat (case_decide; try done); [by apply (Hturn (Some b1) (mkSys c2 (GMonitor w conn b1 :: gs))); [| | apply Hgo] |].
  destruct (parseSessionData (drop 1 got)) as [sd|e3|p] eqn:E3; [| | done];
    unfold try, lift_res in H, Hturn; unfold mbind at 1, go_bind at 1 in H; unfold mbind at 1, go_bind at 1 in Hturn.
  2:{ by apply (Hturn (Some b1) (mkSys c2 (GMonitor w conn b1 :: gs))); [| | apply Hgo]. }
  repeat (case_decide; try done); [| by apply (Hturn (Some b1) (mkSys c2 (GMonitor w conn b1 :: gs))); [| | apply Hgo]].
  destruct (Udp.handleConnClosed (w_udp w) (w_key w) c2) as [[[]|e4|p] c3] eqn:E4.
  - rewrite (go_bind_ok _ _ _ _ _ E4) in H. injection H as <- <-.
    apply (Hturn None (mkSys c3 (watchNext w ++ gs))); [by rewrite (go_bind_ok _ _ _ _ _ E4) | done | done].
  - by destruct (handleConnClosed_no_err (w_udp w) (w_key w) c2 e4 c3).
  - by rewrite (go_bind_panic _ _ _ _ _ E4) in H.
Qed.

Lemma handleTcpMsg_alone w conn c e c1 gs :
  Udp.handleTcpMsg (w_udp w) conn (w_key w) c = (Err e, c1) →
  rtc sys_step (mkSys c (GMonitor w conn (replicate 1024 Byte.x00) :: gs)) (mkSys c1 (watchNext w ++ gs)).
Proof.
  intros H. unfold Udp.handleTcpMsg, peek, deref, get in H. unfold mbind, go_bind in H.
  destruct (h_conns (heap c) !! conn); [| done]. by apply (monitor_alone _ w _ _ _ _ _ gs) in H.
Qed.

(** The goroutine of a listener's connection is [udpMonitor]. *)
Theorem udpMonitor_alone u conn key c e c1 c' gs :
  listenerUdpSess c = Some u → Udp.handleTcpMsg u conn key c = (Err e, c1) → Udp.udpMonitor conn key c = (Ok tt, c') →
  rtc sys_step (mkSys c (GMonitor (WListener u key) conn (replicate 1024 Byte.x00) :: gs)) (mkSys c' gs).
Proof.
  intros Hl H1 H. unfold Udp.udpMonitor, get in H. unfold mbind at 1, go_bind at 1 in H. rewrite Hl in H.
  rewrite (go_bind_ok (deref (Some u)) _ c u c eq_refl), (go_bind_ok _ _ _ _ _ (try_err _ _ _ _ H1)) in H.
  etrans; [by eapply (handleTcpMsg_alone (WListener u key)) |].
  eapply (run_step no_env _ []); [done | cbn [gstep]; by rewrite (go_bind_ok _ _ _ _ _ H) | done].
Qed.

(** ** Dialing again *)

Lemma DialUpSession_config n u a id cfg c r c' :
  DialUpSession n u a id cfg c = (r, c') → World.config c' = World.config c.
Proof.
  intros H. assert (keeps World.config (DialUpSession n u a id cfg)) as Hk.
  { assert (∀ u, keeps World.config (Udp.Close u)) by (intros; apply kf_udpClose; apply _).
    assert (∀ u, keeps World.config (Udp.GetEstablishedUDPConn u)) by (intros; apply kf_established; apply _).
    unfold DialUpSession, upSession, upConnect, orCloseUdp, getPubAddrsFromRemote, remoteAnswer, dialTcpConn, orClose,
      new_conn, new_udpconn, Udp.sendMetaData, Udp.addCodec.
    repeat first [progress intros | solve [auto 2 with frame] | apply kt_bind | apply kt_try | done
                 | progress cbv beta zeta | case_match]. }
  specialize (Hk c). by rewrite H in Hk.
Qed.

(** The attempts; after a success the goroutine is at its next round when there is one. *)
Lemma tryRedial_alone fuel env l j c r c' gs :
  (∀ j, net_ok (env j)) →
  tryRedial fuel (ReconnectRetries (World.config c)) j
    (λ j, DialUpSession (env j) (p_udp l) (p_remote l) (p_id l) (p_config l)) c = (Ok r, c') →
  rtc sys_step (mkSys c (GUpRetry l j :: gs))
    (mkSys c' (match r with
               | RdEnd k => if decide (k < ReconnectRetries (World.config c))%Z then [GUpRound l] else []
               | RdStop => []
               | RdMore => [GUpRetry l (j + Z.of_nat fuel)]
               end ++ gs)).
Proof.
  intros Hn. assert (∀ j c s', 
    rtc sys_step (mkSys c (if decide (ReconnectRetries (World.config c) < 0 ∨ j < ReconnectRetries (World.config c))%Z
                           then GUp (DAgain j) l :: gs else gs)) s' →
    rtc sys_step (mkSys c (GUpRetry l j :: gs)) s') as Hstep.
  { intros j0 c0 s' Hr. eapply (run_step no_env); [done | reflexivity |]. by case_decide. }
  revert j c. induction fuel as [|fuel IH]; intros j c H; cbn [tryRedial] in H; case_decide as Hd.
  - injection H as <- <-. by rewrite Z.add_0_r.
  - injection H as <- <-. apply Hstep. rewrite decide_False by done. by rewrite decide_False by lia.
  - apply Hstep. rewrite decide_True by done.
    destruct (DialUpSession (env j) (p_udp l) (p_remote l) (p_id l) (p_config l) c) as [[[]|e|p] c1] eqn:Ed.
    + rewrite (go_bind_ok _ _ _ _ _ (try_ok _ _ _ _ Ed)) in H. injection H as <- <-.
      rewrite <- (DialUpSession_config _ _ _ _ _ _ _ _ Ed).
      by apply (DialUpSession_alone (env j) (DAgain j) l c (Ok tt) c1).
    + rewrite (go_bind_ok _ _ _ _ _ (try_err _ _ _ _ Ed)) in H.
      etrans; [by apply (DialUpSession_alone (env j) (DAgain j) l c (Err e) c1 gs
        (if decide (e = ErrClosed) then [] else [GUpRetry l (j + 1)])) |].
      case_decide; [by injection H as <- <- |]. rewrite <- (DialUpSession_config _ _ _ _ _ _ _ _ Ed) in H |- *.
      replace (j + Z.of_nat (S fuel))%Z with (j + 1 + Z.of_nat fuel)%Z by lia. by apply IH.
    + unfold mbind, go_bind, try in H. by rewrite Ed in H.
  - injection H as <- <-. apply Hstep. rewrite decide_False by done. by rewrite decide_False by lia.
Qed.

(** The reconnect goroutine of a dialed UDP session.  A round in which the monitor returns is
    [udpReconnectRound]: the goroutine is at its next round exactly when that says so, and
    otherwise it has ended or is still trying. *)
Theorem udpReconnectRound_alone env fuel l us conn c e c1 b c' gs :
  (∀ j, net_ok (env j)) → h_udps (heap c) !! p_udp l = Some us → tcpConn us = Some conn →
  Udp.handleTcpMsg (p_udp l) conn (sessionKey (p_remote l) (p_id l)) c = (Err e, c1) →
  udpReconnectRound env fuel (p_udp l) (p_remote l) (p_id l) (p_config l) c = (Ok b, c') →
  ∃ gs', rtc sys_step (mkSys c (GUpRound l :: gs)) (mkSys c' (gs' ++ gs)) ∧
    (if b then gs' = [GUpRound l] else gs' = [] ∨ ∃ j, gs' = [GUpRetry l j]).
Proof.
  intros Hn Hu Ht Hm H. unfold udpReconnectRound in H.
  assert (deref (tcpConn us) c = (Ok conn, c)) as Hdc by (by rewrite Ht).
  rewrite (go_bind_ok _ _ _ _ _ (getUdp_ok _ _ _ Hu)), (go_bind_ok _ _ _ _ _ Hdc),
    (go_bind_ok _ _ _ _ _ (try_err _ _ _ _ Hm)) in H.
  assert (rtc sys_step (mkSys c (GUpRound l :: gs)) (mkSys c1 (GUpAfter l :: gs))) as Hrun.
  { eapply (run_step no_env); [done | |].
    - cbn [gstep]. rewrite (go_bind_ok _ _ _ _ _ (getUdp_ok _ _ _ Hu)), (go_bind_ok _ _ _ _ _ Hdc). reflexivity.
    - cbn [app]. by apply (handleTcpMsg_alone (WDialer l) conn c e c1 gs). }
  unfold get in H. unfold mbind at 1, go_bind at 1 in H.
  apply go_bind_inv_ok in H as (us1 & c2 & Hu1 & H). apply go_bind_inv_ok in H as (uc & c3 & Huc & H).
  apply go_bind_inv_ok in H as (x & c4 & Hx & H). cbv zeta in H.
  assert (c2 = c1 ∧ c3 = c2 ∧ c4 = c3) as (-> & -> & ->).
  { unfold Udp.getUdp, peek, deref in Hu1, Hx. unfold deref in Huc. go_unfold. repeat (case_match; simplify_eq/=; try done). }
  assert (∀ gs' s', (if isClosed c1 || uc_IsClosed x then []
      else if decide (ReconnectRetries (World.config c1) = 0%Z) then [] else [GUpRetry l 0]) = gs' →
    rtc sys_step (mkSys c1 (gs' ++ gs)) s' → rtc sys_step (mkSys c (GUpRound l :: gs)) s') as Hafter.
  { intros gs' s' <- Hs. etrans; [exact Hrun |]. eapply (run_step no_env); [done | | exact Hs]. cbn [gstep].
    unfold get. unfold mbind at 1, go_bind at 1. rewrite (go_bind_ok _ _ _ _ _ Hu1), (go_bind_ok _ _ _ _ _ Huc).
    by rewrite (go_bind_ok _ _ _ _ _ Hx). }
  destruct (isClosed c1 || uc_IsClosed x). { injection H as <- <-. exists []. split; [by eapply Hafter | by left]. }
  case_decide as Hz. { injection H as <- <-. exists []. split; [by eapply Hafter | by left]. }
  apply go_bind_inv_ok in H as (r & c5 & Hr & H).
  pose proof (tryRedial_alone fuel env l 0 c1 r c5 gs Hn Hr) as Htry.
  destruct r as [k| |]; injection H as <- <-; eexists; (split; [eapply Hafter; [done | exact Htry] |]).
  - destruct (decide (k < ReconnectRetries (World.config c1))%Z) as [Hk|Hk];
      [by rewrite bool_decide_true | rewrite bool_decide_false; auto].
  - by left.
  - eauto.
Qed.

End redial.
