(* ===== verification/SystemDemo.v ===== *)
(** * Runs of the system

    A scheduler that executes a list of actions, and runs with the libraries of [Demo]: a
    client that listens and serves a connection, a client that dials a peer with two
    addresses and loses a connection, a UDP listener with a datagram being read, and a UDP
    session being dialed.  The theorems on the system are applied to the states they reach. *)

From stdpp Require Import base gmap strings list numbers tactics relations.
From Stdlib Require Import ZArith Lia.
From S2P Require Import Prelude Hoare Util Message Crypto Pb Config Table TableInv Json JsonInv World Demo Udp Frame Client ClientInv Exits ExitsInv Remote Dial DialInv System SystemRuns WellFormed HandlersWf CallsWf StepsWf SystemTable SystemInv SystemLive UdpInv SystemUdp UdpWindows SystemDial SystemRedial.
Import Keys Framing Crypto Client Exits Remote Dial.

(** ** The scheduler *)

Section exec.
Context `{L : LibOps, MO : !MergeOps}.

(** Run goroutine number [k], start task number [k], call, or let time pass. *)
Inductive act := ARun (k : nat) (e : env) | AStart (k : nat) | ACall (a : call) | ATick (t : Z).

(** The UDP session a call is made on exists. *)
Definition known (h : Heap) (a : call) : bool :=
  match a with
  | CReadFrom u | CWriteTo u _ _ | CWrite u _ | CUdpSet u _ | CUdpClose u => bool_decide (is_Some (h_udps h !! u))
  | _ => true
  end.

Definition act_ok (x : act) : Prop :=
  match x with ARun _ e => env_ok e | ACall a => ∀ h, known h a = true → call_ok h a | _ => True end.

Definition exec1 (x : act) (s : sys) : option sys :=
  let c := s_client s in
  let l := s_gs s in
  match x with
  | ARun k e =>
      g ← l !! k;
      match gstep e g c with (Ok gs, c') => Some (mkSys c' (gs ++ take k l ++ drop (S k) l)) | _ => None end
  | AStart k =>
      t ← tasks c !! k;
      Some (mkSys (set_tasks (take k (tasks c) ++ drop (S k) (tasks c)) c) (start_task t ++ l))
  | ACall a =>
      if known (heap c) a
      then match run_call a c with (Ok gs, c') => Some (mkSys c' (gs ++ l)) | _ => None end
      else None
  | ATick t => if decide (now c ≤ t)%Z then Some (mkSys (set_now t c) l) else None
  end.

Lemma exec1_step x s s' : act_ok x → exec1 x s = Some s' → sys_step s s'.
Proof.
  destruct s as [c l]. intros Hx H. destruct x as [k e|k|a|t]; simpl in *.
  - destruct (l !! k) as [g|] eqn:Eg; [| done]. simpl in H.
    destruct (gstep e g c) as [[gs| |] c'] eqn:Er; simplify_eq.
    rewrite <- (take_drop_middle l k g Eg) at 1. by eapply ss_run.
  - destruct (tasks c !! k) as [t|] eqn:Et; simplify_eq/=. apply ss_start.
    by rewrite (take_drop_middle _ _ _ Et).
  - destruct (known (heap c) a) eqn:Ek; [| done]. destruct (run_call a c) as [[gs| |] c'] eqn:Er; simplify_eq.
    eapply ss_call; [by apply Hx | done].
  - case_decide; simplify_eq. by apply ss_tick.
Qed.

(** The whole list; a run is clear when no dialed key is taken at any of its states. *)
Fixpoint exec (xs : list act) (s : sys) : option sys :=
  match xs with [] => Some s | x :: xs => s' ← exec1 x s; exec xs s' end.

#[export] Instance dial_clear_dec t g : Decision (dial_clear t g).
Proof. destruct g; simpl; apply _. Defined.

Fixpoint clear_run (xs : list act) (s : sys) : bool :=
  bool_decide (Forall (dial_clear (table (s_client s))) (s_gs s)) &&
  match xs with
  | [] => true
  | x :: xs => match exec1 x s with Some s' => clear_run xs s' | None => false end
  end.

(** The size of the UDP buffer stays within the limit at every state. *)
Fixpoint bounded_run (limit : Z) (xs : list act) (s : sys) : bool :=
  bool_decide (UDPRecvBufferSize (World.config (s_client s)) ≤ limit)%Z &&
  match xs with
  | [] => true
  | x :: xs => match exec1 x s with Some s' => bounded_run limit xs s' | None => false end
  end.

Lemma exec_steps xs s s' : Forall act_ok xs → exec xs s = Some s' → rtc sys_step s s'.
Proof.
  revert s. induction xs as [|x xs IH]; intros s Hx H; simpl in H; [by simplify_eq |].
  apply Forall_cons_1 in Hx as [Hx Hxs]. destruct (exec1 x s) as [s1|] eqn:E; [| done].
  eapply rtc_l; [by eapply exec1_step | by apply IH].
Qed.

Lemma exec_clear xs s s' :
  Forall act_ok xs → clear_run xs s = true → exec xs s = Some s' → rtc clear_step s s'.
Proof.
  revert s. induction xs as [|x xs IH]; intros s Hx Hc H; simpl in H, Hc; [by simplify_eq |].
  apply Forall_cons_1 in Hx as [Hx Hxs]. apply andb_prop in Hc as [Hd%bool_decide_eq_true Hc].
  destruct (exec1 x s) as [s1|] eqn:E; [| done].
  eapply rtc_l; [split; [exact Hd | by eapply exec1_step] | by apply IH].
Qed.

Lemma exec_bounded limit xs s s' :
  Forall act_ok xs → bounded_run limit xs s = true → exec xs s = Some s' → rtc (bounded_step limit) s s'.
Proof.
  revert s. induction xs as [|x xs IH]; intros s Hx Hc H; simpl in H, Hc; [by simplify_eq |].
  apply Forall_cons_1 in Hx as [Hx Hxs]. apply andb_prop in Hc as [Hd%bool_decide_eq_true Hc].
  destruct (exec1 x s) as [s1|] eqn:E; [| done].
  eapply rtc_l; [split; [exact Hd | by eapply exec1_step] | by apply IH].
Qed.

End exec.

Module SystemDemo.
Import Demo ClientRuns.
#[local] Existing Instances ConfigRuns.demo_merge ConfigRuns.demo_merge_laws.

Definition start_of (a : string) : sys :=
  match NewTunaSessionClient (toy_sk a) a (Some true) (Some ConfigRuns.conf_demo) (Port.mkOS ∅ ∅) 100 with
  | Ok c => mkSys c [GRemover]
  | _ => mkSys (demo_client a (mkHeap ∅ ∅ ∅ ∅ ∅)) []
  end.

Lemma start_of_start a : sys_start (start_of a).
Proof.
  by apply (sys_new (L := demo_ops) (MO := ConfigRuns.demo_merge) (toy_sk a) a (Some true)
    (Some ConfigRuns.conf_demo) (Port.mkOS ∅ ∅) 100).
Qed.

(** Networks: dialing gives a connection whose peer is the address that was dialed. *)
Definition dial_net : net :=
  mkNet (Race.OMsg (Some RemoteRuns.reply))
    (λ a, Ok (mkConn [] EOF [] None EOF None false a)) (Ok nonce1).
Definition net_env (n : net) : env := mkEnv n (Err NetErrClosed) None None 0 false.
Definition accept_env (x : Conn) : env := mkEnv dial_net (Ok x) None None 0 false.

Definition dials : list act :=
  [ACall (CDial "bob" None (Ok id1)); ARun 0 (net_env dial_net); ARun 0 (net_env dial_net);
   ARun 0 (net_env dial_net); ARun 0 (net_env dial_net); ARun 0 (net_env dial_net); ARun 0 (net_env dial_net);
   AStart 0; AStart 0; ARun 0 (net_env dial_net); ARun 1 (net_env dial_net)].

Definition dialer : sys := default (start_of "alice") (exec dials (start_of "alice")).

Lemma dials_ok : Forall act_ok dials.
Proof. by repeat constructor. Qed.
Lemma dialer_run : exec dials (start_of "alice") = Some dialer.
Proof.
  unfold dialer. assert (match exec dials (start_of "alice") with Some _ => true | None => false end = true) as H
    by (vm_compute; reflexivity). by destruct (exec dials (start_of "alice")).
Qed.
Lemma dialer_reachable : sys_reachable dialer.
Proof. exists (start_of "alice"). split; [apply start_of_start | exact (exec_steps _ _ _ dials_ok dialer_run)]. Qed.
Lemma dialer_clear : clear_reachable dialer.
Proof.
  exists (start_of "alice"). split; [apply start_of_start |].
  apply (exec_clear dials); [exact dials_ok | vm_compute; reflexivity | exact dialer_run].
Qed.

(** What the dialer has written on its first connection once it sends a message. *)
Definition sender : sys :=
  default dialer (exec1 (ACall (CSend (Ok nonce1) "bob" id1 (connID 0) (string_bytes "hi") 0)) dialer).
Definition wire : bytes := from_option wr_out [] (h_conns (heap (s_client sender)) !! 0).

Definition listens : list act :=
  [ACall (CListen ExitsRuns.pick2 None); AStart 0; ARun 0 no_env; AStart 3; ARun 0 no_env; AStart 4;
   ARun 0 (accept_env (demo_conn [wire])); AStart 5].

(** The peer's connection has arrived; then its session is made and queued. *)
Definition arrived : sys := default (start_of "bob") (exec listens (start_of "bob")).
Definition serves : list act := replicate 5 (ARun 0 no_env).
Definition served : sys := default arrived (exec serves arrived).

Lemma listens_ok : Forall act_ok (listens ++ serves).
Proof. simpl. repeat first [apply Forall_cons_2 | apply Forall_nil_2]; try done. intros h _ o p. apply ExitsRuns.pick2_ok. Qed.
Lemma arrived_run : exec listens (start_of "bob") = Some arrived.
Proof.
  unfold arrived. assert (match exec listens (start_of "bob") with Some _ => true | None => false end = true) as H
    by (vm_compute; reflexivity). by destruct (exec listens (start_of "bob")).
Qed.
Lemma served_run : exec serves arrived = Some served.
Proof.
  unfold served. assert (match exec serves arrived with Some _ => true | None => false end = true) as H
    by (vm_compute; reflexivity). by destruct (exec serves arrived).
Qed.
Lemma arrived_reachable : sys_reachable arrived.
Proof.
  exists (start_of "bob"). split; [apply start_of_start |].
  apply (exec_steps listens); [exact (proj1 (proj1 (Forall_app _ _ _) listens_ok)) | exact arrived_run].
Qed.
Lemma served_reachable : sys_reachable served.
Proof.
  destruct arrived_reachable as (s0 & H0 & H). exists s0. split; [done |]. etrans; [exact H |].
  apply (exec_steps serves); [exact (proj2 (proj1 (Forall_app _ _ _) listens_ok)) | exact served_run].
Qed.

(** A listener that has received a datagram of a session, which is being read; [u1] is its
    UDP session. *)
Definition dgram_env (dg : Udp.datagram) : env := mkEnv dial_net (Err NetErrClosed) (Some dg) None 0 false.
Definition user_dgram (a : string) : Udp.datagram := Udp.mkDgram (byte_of HeaderType_USER :: UdpRuns.hello) a true.

Definition udp_listens : list act :=
  [ACall (CListen ExitsRuns.pick2 None); ACall (CListenUDP ExitsRuns.pick2); AStart 5; ARun 0 no_env;
   ARun 0 (dgram_env (Udp.mkDgram (byte_of HeaderType_SESSION :: UdpRuns.meta_msg "alice") "8.8.8.8:1" false));
   ARun 0 no_env; ARun 0 (dgram_env (user_dgram "8.8.8.8:1")); ARun 0 no_env;
   ARun 0 (dgram_env (user_dgram "8.8.8.8:1")); ACall (CReadFrom 0); ARun 0 no_env].

Definition reading : sys := default (start_of "bob") (exec udp_listens (start_of "bob")).
Definition u1 : UdpSession := default (fresh_udp true 0) (h_udps (heap (s_client reading)) !! 0).

Lemma udp_listens_ok : Forall act_ok udp_listens.
Proof.
  repeat first [apply Forall_cons_2 | apply Forall_nil_2]; try done; try (intros h _ o p; apply ExitsRuns.pick2_ok).
  intros h H. by apply bool_decide_eq_true in H.
Qed.
Lemma reading_run : exec udp_listens (start_of "bob") = Some reading.
Proof.
  unfold reading. assert (match exec udp_listens (start_of "bob") with Some _ => true | None => false end = true) as H
    by (vm_compute; reflexivity). by destruct (exec udp_listens (start_of "bob")).
Qed.
Lemma reading_reachable : bounded_reachable 1048576 reading.
Proof.
  exists (start_of "bob"). split; [apply start_of_start |].
  apply (exec_bounded _ udp_listens); [exact udp_listens_ok | vm_compute; reflexivity | exact reading_run].
Qed.
Lemma u1_there : h_udps (heap (s_client reading)) !! 0 = Some u1.
Proof.
  unfold u1. assert (is_Some (h_udps (heap (s_client reading)) !! 0)) as [us ->]; [| done].
  apply (bool_decide_unpack _). vm_compute. done.
Qed.

(** ** The theorems at these states *)

Lemma reachable_well_typed_witness :
  length (s_gs dialer) = 4 ∧ wf (s_client dialer) ∧ Forall (g_ok (heap (s_client dialer))) (s_gs dialer).
Proof. split; [vm_compute; reflexivity |]. apply reachable_well_typed, dialer_reachable. Defined.

Lemma goroutine_panics_witness :
  match (gstep no_env (GServe 0 0) (s_client arrived)).1 with
  | Ok _ => True | Err _ => False | Panic p => g_panic (GServe 0 0) p ∧ True
  end.
Proof.
  apply (goroutine_panics arrived (GServe 0 0) no_env); [apply arrived_reachable | | done].
  replace (s_gs arrived) with [GServe 0 0; GListen 0; GRemover] by (vm_compute; reflexivity). left.
Defined.

Definition addr40000 : PubAddr := mkPubAddr "1.2.3.4" 40000 "" "".
Definition addr40001 : PubAddr := mkPubAddr "1.2.3.4" 40001 "" "".

Lemma cached_addrs_live_witness :
  ∃ x g h, Some addr40001 = Some x ∧ g ∈ s_gs dialer ∧ live_of g = Some h ∧
    h_remote h = "bob" ∧ h_conn h = PubAddr_String x.
Proof.
  apply (cached_addrs_live dialer "bob" (mkPubAddrs [Some addr40000; Some addr40001] false) (Some addr40001));
    [apply dialer_reachable | vm_compute; reflexivity | right; left].
Defined.

Lemma accept_queue_bounded_witness :
  acceptSession (s_client served) = [0] ∧ length (acceptSession (s_client served)) ≤ 1024.
Proof. split; [vm_compute; reflexivity |]. apply accept_queue_bounded, served_reachable. Defined.

Lemma system_refines_maps_witness :
  ∃ l, l ≡ₚ handlers (s_gs dialer) ∧ length l = 2 ∧
    reachable true (mkT (table (s_client dialer)) l (now (s_client dialer))).
Proof.
  destruct (system_refines_maps dialer dialer_clear) as (l & Hl & H). exists l. split; [exact Hl |]. split; [| exact H].
  rewrite Hl. vm_compute. reflexivity.
Defined.

Lemma register_goes_through_witness :
  ∃ gs c', gstep no_env (GRegister (mkLink 0 0 "eve" [])) (s_client dialer) = (Ok gs, c').
Proof.
  apply (register_goes_through dialer); [apply dialer_clear |]. vm_compute. discriminate.
Defined.



Definition served_alone : Client := (serveConn 0 0 (s_client arrived)).2.


Lemma system_refines_udp_witness :
  ∃ fl i o, fl ≡ₚ in_flight 0 (s_gs reading) ∧ length fl = 1 ∧
    ureachable 1048576 true 1024 (mkU u1 fl i o).
Proof.
  destruct (system_refines_udp 1048576 reading 0 u1 reading_reachable u1_there) as (fl & i & o & Hfl & _ & H).
  exists fl, i, o. split; [exact Hfl |]. split; [rewrite Hfl; vm_compute; reflexivity |].
  replace (isListener u1) with true in H by (vm_compute; reflexivity).
  replace (recvCap u1) with 1024%Z in H by (vm_compute; reflexivity). exact H.
Defined.

Lemma udp_buffer_accounting_witness :
  recvSize u1 = 10%Z ∧ length (recvChan u1) = 1 ∧
  recvSize u1 = (total (recvChan u1) + total (in_flight 0 (s_gs reading)))%Z.
Proof.
  split; [vm_compute; reflexivity |]. split; [vm_compute; reflexivity |].
  apply (udp_buffer_accounting 1048576); [apply reading_reachable | apply u1_there].
Defined.

Lemma udp_maps_consistent_witness :
  udpAddr UdpRuns.alice = "8.8.8.8:1" ∧ sessKeyToSessAddr u1 !! usa_String UdpRuns.alice = Some UdpRuns.alice.
Proof.
  apply (udp_maps_consistent 1048576 reading 0 u1 "8.8.8.8:1");
    [apply reading_reachable | apply u1_there | vm_compute; reflexivity].
Defined.

(** ** Dialing *)


Definition config0 : dialConfig := mkDialConfig 0 (Some (mkNcpConfig 1300)).

(** The dialer with its first connection about to be handled, alone; it breaks twice. *)
Definition entering : sys := default dialer (exec (take 9 dials ++ [ARun 1 no_env]) (start_of "alice")).
Definition twice : res unit * Client :=
  dialConn [λ _, dial_net] 1 0 "bob" id1 0 config0 (s_client entering).


(** Its first connection has broken; the second one keeps the session. *)
Definition broken : sys := default dialer (exec (replicate 3 (ARun 0 no_env)) dialer).

Lemma broken_run : exec (replicate 3 (ARun 0 no_env)) dialer = Some broken.
Proof.
  unfold broken.
  assert (match exec (replicate 3 (ARun 0 no_env)) dialer with Some _ => true | None => false end = true) as H
    by (vm_compute; reflexivity). by destruct (exec (replicate 3 (ARun 0 no_env)) dialer).
Qed.

Definition others : list goroutine := tail (s_gs broken).

Lemma broken_reachable : sys_reachable (mkSys (s_client broken) (GRetry config0 (mkLink 0 0 "bob" id1) 0 :: others)).
Proof.
  replace (mkSys _ _) with broken.
  - destruct dialer_reachable as (s0 & H0 & H). exists s0. split; [done |]. etrans; [exact H |].
    apply (exec_steps (replicate 3 (ARun 0 no_env))); [by repeat constructor | exact broken_run].
  - assert (s_gs broken = GRetry config0 (mkLink 0 0 "bob" id1) 0 :: others) as <- by (vm_compute; reflexivity).
    by destruct broken.
Qed.

Definition bob_addrs : PubAddrs := mkPubAddrs [Some addr40000; Some addr40001] false.

Lemma reconnection_succeeds_witness :
  ∃ conn y c', h_conns (heap c') !! conn = Some y ∧ conn_closed y = false ∧
    conn_of (table c') (sessionKey "bob" id1) (connID 0) = Some conn ∧
    rtc sys_step (mkSys (s_client broken) (GRetry config0 (mkLink 0 0 "bob" id1) 0 :: others))
      (mkSys c' (GLoop (KDial config0) (mkLink 0 conn "bob" id1) (conn_remote y) 0 :: others)).
Proof.
  destruct (reconnection_succeeds dial_net (toy_sk "bob") (copy_array 32 (string_bytes "bob")) config0
    (mkLink 0 0 "bob" id1) 0 (s_client broken) others
    (getPubAddrsFromRemote (n_outcome dial_net) "bob" id1 (s_client broken)).2 0 (mkDemoSession "bob" false [])
    bob_addrs addr40000 (mkConn [] EOF [] None EOF None false "1.2.3.4:40000") nonce1 DialRuns.meta1)
    as (conn & y & c' & _ & H1 & H2 & H3 & H4);
    [apply broken_reachable | done | left; vm_compute; reflexivity | vm_compute; reflexivity
    | vm_compute; reflexivity | vm_compute; reflexivity | reflexivity | | reflexivity | done | done | reflexivity
    | reflexivity | done | reflexivity | reflexivity | vm_compute; reflexivity | apply demo_account |].
  - assert ((getPubAddrsFromRemote (n_outcome dial_net) "bob" id1 (s_client broken)).1 = Ok bob_addrs) as Hp
      by (vm_compute; reflexivity).
    cbn [k_remote k_id]. destruct (getPubAddrsFromRemote _ _ _ _). simpl in Hp |- *. by subst.
  - exists conn, y, c'. done.
Defined.

(** ** A UDP session being dialed *)

(** The addresses are known, the session is not connected yet; then it is, without a codec. *)
Definition udp_dials : list act :=
  ACall (CDialUDP "bob" None (Ok id1)) :: replicate 3 (ARun 0 (net_env dial_net)).
Definition connecting : Client := s_client (default (start_of "alice") (exec udp_dials (start_of "alice"))).
Definition connected : Client := (upConnect dial_net 0 "bob" id1 config0 bob_addrs connecting).2.

Definition alice0 : Client := s_client (start_of "alice").
Definition udp_dialed : res nat * Client := DialUDPWithConfig dial_net (Ok id1) "bob" None alice0.

Lemma DialUDPWithConfig_alone_witness :
  rtc sys_step (mkSys alice0 [GUdpDial "bob" None (Ok id1)]) (mkSys udp_dialed.2 []) ∧
  length (tasks udp_dialed.2) = 2.
Proof.
  split; [| vm_compute; reflexivity].
  apply (DialUDPWithConfig_alone dial_net (Ok id1) "bob" None alice0 udp_dialed.1);
    [split; reflexivity | | vm_compute; reflexivity].
  fold udp_dialed. by destruct udp_dialed.
Defined.

Lemma redial_in_clear_witness :
  ∃ uc, from_option sk_out [] (h_udpconns (heap (Udp.WriteTo 0 UdpRuns.hello Udp.NilAddr connected).2) !! uc) =
    [(byte_of HeaderType_USER :: UdpRuns.hello, None)].
Proof.
  destruct (redial_in_clear dial_net 0 (fresh_udp false 1024) "bob" id1 config0 bob_addrs connecting "1.2.3.4:40000"
    connected UdpRuns.hello) as (p & x & uc & _ & Hx & H).
  - vm_compute. reflexivity.
  - reflexivity.
  - vm_compute. reflexivity.
  - assert ((upConnect dial_net 0 "bob" id1 config0 bob_addrs connecting).1 = Ok "1.2.3.4:40000") as He
      by (vm_compute; reflexivity).
    unfold connected. destruct (upConnect _ _ _ _ _ _ _). simpl in *. by subst.
  - exists uc. rewrite H. injection Hx as <-. cbn [snd heap set_heap h_udpconns put_udpconn].
    rewrite lookup_insert_eq. vm_compute. reflexivity.
Defined.

Lemma receive_after_close_witness :
  (gstep (dgram_env (user_dgram "8.8.8.8:1")) (GRecvFrom 0 []) (Udp.closeSection 0 connected).2).1 = Panic NilDeref.
Proof.
  assert (is_Some (h_udps (heap connected) !! 0)) as [us Hu] by (apply (bool_decide_unpack _); vm_compute; done).
  rewrite (receive_after_close _ 0 us (Udp.closeSection 0 connected).1 connected (Udp.closeSection 0 connected).2
    [] UdpRuns.hello "8.8.8.8:1"); [done | exact Hu | | by destruct (Udp.closeSection 0 connected) | | done].
  - replace us with (default (fresh_udp false 0) (h_udps (heap connected) !! 0)) by (by rewrite Hu). vm_compute. reflexivity.
  - vm_compute. reflexivity.
Defined.

Lemma pending_read_waits_witness :
  (gstep no_env (GRead 0 None) (Udp.Close 0 connected).2).1 = Ok [GRead 0 None].
Proof.
  assert (is_Some (h_udps (heap connected) !! 0)) as [us Hu] by (apply (bool_decide_unpack _); vm_compute; done).
  destruct (pending_read_waits no_env 0 us None connected Hu) as [-> _]; [| done].
  replace us with (default (fresh_udp false 0) (h_udps (heap connected) !! 0)) by (by rewrite Hu). vm_compute. reflexivity.
Defined.

(** Its TCP connection ends and it is dialed again; with unlimited retries that was the
    last round. *)
Definition redialed : res bool * Client :=
  udpReconnectRound (λ _, DialRuns.answered) 5 0 "bob" id1 DialRuns.cfg0 DialRuns.udp_client.

Lemma udpReconnectRound_alone_witness :
  ∃ gs', rtc sys_step (mkSys DialRuns.udp_client [GUpRound (mkUp 0 "bob" id1 DialRuns.cfg0)])
      (mkSys redialed.2 (gs' ++ [])) ∧ (gs' = [] ∨ ∃ j, gs' = [GUpRetry (mkUp 0 "bob" id1 DialRuns.cfg0) j]).
Proof.
  apply (udpReconnectRound_alone (λ _, DialRuns.answered) 5 (mkUp 0 "bob" id1 DialRuns.cfg0)
    (mkUdp false (Some 0) 4 [] 0 None (Some 0) None ∅ ∅ ∅) 0 DialRuns.udp_client EOF
    (Udp.handleTcpMsg 0 0 (sessionKey "bob" id1) DialRuns.udp_client).2 false);
    [done | reflexivity | reflexivity | |].
  - assert ((Udp.handleTcpMsg 0 0 (sessionKey "bob" id1) DialRuns.udp_client).1 = Err EOF) as He
      by (vm_compute; reflexivity).
    cbn [p_udp p_remote p_id]. destruct (Udp.handleTcpMsg _ _ _ _). simpl in He |- *. by subst.
  - assert (redialed.1 = Ok false) as He by (vm_compute; reflexivity).
    cbn [p_udp p_remote p_id p_config]. fold redialed. destruct redialed. simpl in He |- *. by subst.
Defined.

End SystemDemo.
