(* ===== verification/Throughput.v ===== *)
(** * examples/throughput: a stream of known bytes

    [read] and [write] of the throughput example: the sender announces a number of bytes
    and sends them in chunks of 1024, byte [k] of the stream being [k mod 256]; the
    receiver checks each of them.  A connection is that of [Message]: what arrives is cut
    into segments in any way. *)

From stdpp Require Import base strings list numbers tactics pretty.
From Stdlib Require Import ZArith Lia.
From S2P Require Import Prelude Message.
Import Framing.

Module Throughput.

(** Integer division as Go does it. *)
Definition go_div (a b : Z) : res Z := if decide (b = 0)%Z then Panic DivideByZero else Ok (Z.quot a b).

(** The test that decides whether a line is logged: [n] bytes more make a tenth. *)
Definition progress (bytes n numBytes : Z) : res bool :=
  before ← go_div ((bytes - n) * 10) numBytes;
  after ← go_div (bytes * 10) numBytes;
  mret (bool_decide (before ≠ after)).

(** ** read *)

(** The first loop: fill the four bytes; [None] when the turns are used up. *)
Fixpoint read4 (fuel : nat) (b : bytes) : go Conn (option bytes) :=
  match fuel with
  | 0 => mret None
  | S fuel =>
      got ← Read (4 - length b);
      let b := b ++ got in
      if decide (length b = 4) then mret (Some b) else read4 fuel b
  end.

Definition errByte (k : Z) (b : byte) : error :=
  ErrText ("byte " +:+ pretty k +:+ " should be " +:+ pretty (k mod 256)%Z +:+ ", got " +:+ pretty (byte_val b)).

(** The check of the bytes of one read. *)
Fixpoint checkBytes (b : bytes) (bytesReceived : Z) : res Z :=
  match b with
  | [] => Ok bytesReceived
  | x :: b =>
      if decide (x = byte_of (bytesReceived mod 256)) then checkBytes b (bytesReceived + 1)
      else Err (errByte bytesReceived x)
  end.

(** The second loop; [true] when it returned nil, [false] when the turns are used up. *)
Fixpoint readLoop (fuel : nat) (numBytes bytesReceived : Z) : go Conn bool :=
  match fuel with
  | 0 => mret false
  | S fuel =>
      b ← Read 1024;
      received ← lift_res (checkBytes b bytesReceived);
      lift_res (progress received (Z.of_nat (length b)) numBytes);;
      if decide (received = numBytes) then mret true else readLoop fuel numBytes received
  end.

(** A turn takes a whole segment, or 1024 bytes of one. *)
Definition read_fuel (c : Conn) : nat := S (length (rd_segs c) + length (stream c)).

Definition read : go Conn bool := λ c,
  (b ← read4 (read_fuel c) [];
   match b with
   | None => mret false
   | Some b => readLoop (read_fuel c) (uint32_le b) 0
   end) c.

(** ** write *)

(** The bytes of the stream from position [start] on. *)
Definition pattern (start : Z) (n : nat) : bytes :=
  (λ j, byte_of ((start + Z.of_nat j) mod 256)) <$> seq 0 n.

Fixpoint writeChunks (n : nat) (numBytes bytesSent : Z) : go Conn unit :=
  match n with
  | 0 => mret tt
  | S n =>
      Write (pattern bytesSent 1024);;
      lift_res (progress (bytesSent + 1024) 1024 numBytes);;
      writeChunks n numBytes (bytesSent + 1024)
  end.

Definition write (numBytes : Z) : go Conn unit :=
  Write (put_uint32_le (uint32_of numBytes));;
  writeChunks (Z.to_nat (Z.quot numBytes 1024)) numBytes 0.

#[global] Arguments pattern : simpl never.

(** ** The stream *)

Lemma pattern_length s n : length (pattern s n) = n.
Proof. unfold pattern. by rewrite length_fmap, length_seq. Qed.

Lemma pattern_app s n m : pattern s (n + m) = pattern s n ++ pattern (s + Z.of_nat n) m.
Proof.
  unfold pattern. rewrite seq_app, fmap_app. f_equal. simpl.
  replace (seq n m) with (Nat.add n <$> seq 0 m) by (rewrite fmap_add_seq; f_equal; lia).
  rewrite <- list_fmap_compose. apply list_fmap_ext. intros i j _. simpl.
  do 2 f_equal. lia.
Qed.

Lemma pattern_cons s n : pattern s (S n) = byte_of (s mod 256) :: pattern (s + 1) n.
Proof.
  change (S n) with (1 + n). rewrite pattern_app. unfold pattern at 1. simpl. by rewrite Z.add_0_r.
Qed.

Lemma pattern_cut s n k : k ≤ n → pattern s n = pattern s k ++ pattern (s + Z.of_nat k) (n - k).
Proof. intros. rewrite <- pattern_app. f_equal. lia. Qed.

Lemma checkBytes_pattern s n : checkBytes (pattern s n) s = Ok (s + Z.of_nat n)%Z.
Proof.
  revert s. induction n as [|n IH]; intros s; [simpl; f_equal; lia |].
  rewrite pattern_cons. cbn [checkBytes]. rewrite decide_True by done. rewrite IH. f_equal. lia.
Qed.

Lemma progress_ok b n N : (N ≠ 0)%Z → ∃ x, progress b n N = Ok x.
Proof. intros. unfold progress, go_div. rewrite !decide_False by done. by eexists. Qed.

(** ** Sending *)

Lemma writeChunks_ok n N s x :
  conn_closed x = false → wr_room x = None → (N ≠ 0)%Z →
  writeChunks n N s x = (Ok tt, set_wr (wr_out x ++ pattern s (1024 * n)) None x).
Proof.
  revert s x. induction n as [|n IH]; intros s x Hc Hr HN; cbn [writeChunks].
  { unfold pattern. rewrite Nat.mul_0_r. simpl. rewrite app_nil_r. by destruct x; simpl in *; subst. }
  assert (Write (pattern s 1024) x = (Ok tt, set_wr (wr_out x ++ pattern s 1024) None x)) as Hw
    by (unfold Write; by rewrite Hc, Hr).
  rewrite (go_bind_ok _ _ _ _ _ Hw). destruct (progress_ok (s + 1024) 1024 N HN) as [b Hb].
  rewrite (go_lift_ok _ _ _ _ Hb), IH by done.
  replace (1024 * S n) with (1024 + 1024 * n) by lia. rewrite pattern_app, app_assoc. done.
Qed.

(** What is sent for a number of bytes. *)
Definition sent (N : Z) : bytes := put_uint32_le (uint32_of N) ++ pattern 0 (1024 * Z.to_nat (Z.quot N 1024)).

Lemma write_ok N x :
  conn_closed x = false → wr_room x = None → write N x = (Ok tt, set_wr (wr_out x ++ sent N) None x).
Proof.
  intros Hc Hr. unfold write.
  assert (Write (put_uint32_le (uint32_of N)) x =
    (Ok tt, set_wr (wr_out x ++ put_uint32_le (uint32_of N)) None x)) as Hw by (unfold Write; by rewrite Hc, Hr).
  rewrite (go_bind_ok _ _ _ _ _ Hw). destruct (decide (N = 0)%Z) as [->|HN].
  - unfold sent. change (pattern 0 (1024 * Z.to_nat (0 ÷ 1024))) with (@nil byte). by rewrite app_nil_r.
  - rewrite writeChunks_ok by done. unfold sent, set_wr. simpl. by rewrite <- app_assoc.
Qed.

(** ** Receiving *)

(** A read of an open connection with bytes to come. *)
Lemma Read_some n x :
  conn_closed x = false → stream x ≠ [] → 0 < n →
  ∃ got segs, Read n x = (Ok got, set_rd segs x) ∧ stream x = got ++ concat segs ∧ length got ≤ n ∧
    length segs + length (concat segs) < length (rd_segs x) + length (stream x).
Proof.
  intros Hc Hs Hn. unfold Read, stream in *. rewrite Hc. destruct (rd_segs x) as [|seg segs]; [done |].
  case_decide as Hl.
  - exists (take n seg), (drop n seg :: segs). split_and!; [done | simpl; by rewrite app_assoc, take_drop | rewrite length_take; lia |].
    simpl. rewrite !length_app, length_drop. lia.
  - exists seg, segs. split_and!; [done.. | lia |]. simpl. rewrite length_app. lia.
Qed.

Lemma read4_ok fuel b0 x v rest :
  conn_closed x = false → length b0 < 4 → b0 ++ stream x = put_uint32_le v ++ rest →
  length (rd_segs x) + length (stream x) < fuel →
  ∃ segs, read4 fuel b0 x = (Ok (Some (put_uint32_le v)), set_rd segs x) ∧ concat segs = rest ∧
    length segs + length rest ≤ length (rd_segs x) + length (stream x).
Proof.
  revert b0 x. induction fuel as [|fuel IH]; intros b0 x Hc Hb Hs Hf; [lia |]. cbn [read4].
  assert (stream x ≠ []) as Hne.
  { intros E. rewrite E, app_nil_r in Hs. apply (f_equal length) in Hs. rewrite length_app, length_put in Hs. lia. }
  destruct (Read_some (4 - length b0) x Hc Hne ltac:(lia)) as (got & segs & Hr & Hst & Hl & Hm).
  rewrite (go_bind_ok _ _ _ _ _ Hr). cbv zeta. rewrite Hst, app_assoc in Hs. case_decide as H4.
  - apply app_inj_1 in Hs as [E1 E2]; [| by rewrite length_put]. exists segs. rewrite E1. split_and!; [done.. |].
    rewrite <- E2. lia.
  - rewrite length_app in H4. destruct (IH (b0 ++ got) (set_rd segs x)) as (segs' & H1 & H2 & H3);
      [done | rewrite length_app; lia | done | simpl; unfold stream in *; simpl; lia |].
    exists segs'. split_and!; [done.. |]. unfold stream in *. simpl in *. lia.
Qed.

(** A part of the pattern that one read returns. *)
Lemma pattern_split s n got rest :
  pattern s n = got ++ rest →
  length got ≤ n ∧ got = pattern s (length got) ∧ rest = pattern (s + Z.of_nat (length got)) (n - length got).
Proof.
  intros H. assert (length got ≤ n) as Hl.
  { apply (f_equal length) in H. rewrite pattern_length, length_app in H. lia. }
  rewrite (pattern_cut s n (length got) Hl) in H. apply app_inj_1 in H as [H1 H2]; [done | by rewrite pattern_length].
Qed.

Lemma readLoop_ok fuel N r x :
  conn_closed x = false → (0 ≤ r < N)%Z → stream x = pattern r (Z.to_nat (N - r)) →
  length (rd_segs x) + length (stream x) < fuel →
  ∃ segs, readLoop fuel N r x = (Ok true, set_rd segs x).
Proof.
  revert r x. induction fuel as [|fuel IH]; intros r x Hc Hr Hs Hf; [lia |]. cbn [readLoop].
  assert (stream x ≠ []) as Hne.
  { intros E. rewrite E in Hs. apply (f_equal length) in Hs. rewrite pattern_length in Hs. simpl in Hs. lia. }
  destruct (Read_some 1024 x Hc Hne ltac:(lia)) as (got & segs & Hrd & Hst & Hl & Hm).
  rewrite Hst in Hs. symmetry in Hs. apply pattern_split in Hs as (Hle & Hg & Hrest).
  pose proof (checkBytes_pattern r (length got)) as Hck. rewrite <- Hg in Hck.
  rewrite (go_bind_ok _ _ _ _ _ Hrd), (go_lift_ok _ _ _ _ Hck).
  destruct (progress_ok (r + Z.of_nat (length got)) (Z.of_nat (length got)) N ltac:(lia)) as [b Hb].
  rewrite (go_lift_ok _ _ _ _ Hb). case_decide as HN; [by exists segs |].
  destruct (IH (r + Z.of_nat (length got))%Z (set_rd segs x)) as (segs' & H');
    [done | lia | unfold stream; simpl; rewrite Hrest; f_equal; lia | unfold stream in *; simpl; lia |].
  exists segs'. done.
Qed.

(** What [write] sends, [read] accepts, for a positive multiple of 1024 bytes below 4 GB. *)
Lemma write_read N x :
  (0 < N < 2 ^ 32)%Z → (N mod 1024 = 0)%Z → conn_closed x = false → wr_room x = None →
  ∃ x', write N x = (Ok tt, x') ∧
    ∀ y, conn_closed y = false → wr_out x' = wr_out x ++ stream y → (read y).1 = Ok true.
Proof.
  intros HN Hm Hc Hr. eexists. split; [by apply write_ok |]. intros y Hy Hs. simpl in Hs.
  apply app_inv_head in Hs. symmetry in Hs. unfold sent in Hs. unfold read, read_fuel.
  destruct (read4_ok (S (length (rd_segs y) + length (stream y))) [] y (uint32_of N) _ Hy ltac:(simpl; lia) Hs
    ltac:(lia)) as (segs & H1 & H2 & H3).
  rewrite (go_bind_ok _ _ _ _ _ H1), uint32_le_put, uint32_of_idemp, uint32_of_small by lia.
  assert (1024 * Z.to_nat (N ÷ 1024) = Z.to_nat N) as E.
  { rewrite Z.quot_div_nonneg by lia. pose proof (Z.div_mod N 1024 ltac:(lia)).
    pose proof (Z.div_pos N 1024 ltac:(lia) ltac:(lia)). lia. }
  rewrite E in *. destruct (readLoop_ok (S (length (rd_segs y) + length (stream y))) N 0 (set_rd segs y)) as (segs' & H');
    [done | lia | unfold stream; simpl; rewrite H2; f_equal; lia | unfold stream in *; simpl; rewrite H2; lia |].
  by rewrite H'.
Qed.

(** For a multiple of 4 GB [write] announces 0 bytes, and [read] divides by that. *)
Lemma write_read_wraps k x :
  (0 < k)%Z → conn_closed x = false → wr_room x = None →
  ∃ x', write (2 ^ 32 * k) x = (Ok tt, x') ∧
    ∀ y, conn_closed y = false → wr_out x' = wr_out x ++ stream y → (read y).1 = Panic DivideByZero.
Proof.
  intros Hk Hc Hr. eexists. split; [by apply write_ok |]. intros y Hy Hs. cbn [wr_out set_wr] in Hs.
  apply app_inv_head in Hs. symmetry in Hs. unfold sent in Hs. unfold read, read_fuel.
  destruct (read4_ok (S (length (rd_segs y) + length (stream y))) [] y (uint32_of (2 ^ 32 * k)) _ Hy ltac:(simpl; lia) Hs
    ltac:(lia)) as (segs & H1 & H2 & H3).
  rewrite (go_bind_ok _ _ _ _ _ H1), uint32_le_put, uint32_of_idemp. cbn [readLoop].
  assert (0 < 1024 * Z.to_nat ((2 ^ 32 * k) ÷ 1024)) as Hpos.
  { rewrite Z.quot_div_nonneg by lia. pose proof (Z.div_le_mono (2 ^ 32) (2 ^ 32 * k) 1024 ltac:(lia) ltac:(lia)).
    change (2 ^ 32 / 1024)%Z with 4194304%Z in *. lia. }
  assert (uint32_of (2 ^ 32 * k) = 0)%Z as E0 by (unfold uint32_of; rewrite Z.mul_comm; apply Z_mod_mult).
  destruct (Read_some 1024 (set_rd segs y)) as (got & segs' & Hrd & Hst & _); [done | | lia |].
  { unfold stream. simpl. rewrite H2. intros E. apply (f_equal length) in E. rewrite pattern_length in E. simpl in E. lia. }
  unfold stream in Hst. cbn [rd_segs set_rd] in Hst. rewrite H2 in Hst.
  apply pattern_split in Hst as (_ & Hg & _).
  pose proof (checkBytes_pattern 0 (length got)) as Hck. rewrite <- Hg in Hck.
  by rewrite (go_bind_ok _ _ _ _ _ Hrd), (go_lift_ok _ _ _ _ Hck), E0.
Qed.

(** ** What is accepted *)

Lemma Read_inv n x got x' : Read n x = (Ok got, x') → stream x = got ++ stream x'.
Proof.
  unfold Read, stream. destruct (conn_closed x); [done |]. destruct (rd_segs x) as [|seg segs]; [done |].
  case_decide; intros [= <- <-]; simpl; [by rewrite app_assoc, take_drop | done].
Qed.

Lemma checkBytes_inv b r r' : checkBytes b r = Ok r' → b = pattern r (length b) ∧ r' = (r + Z.of_nat (length b))%Z.
Proof.
  revert r. induction b as [|a b IH]; intros r H; cbn [checkBytes] in H; [injection H as <-; split; [done | simpl; lia] |].
  case_decide as Ha; [| done]. apply IH in H as [Hb ->]. cbn [length]. rewrite pattern_cons, Ha, <- Hb.
  split; [done | lia].
Qed.

Lemma read4_inv fuel b x v x' :
  read4 fuel b x = (Ok (Some v), x') → b ++ stream x = v ++ stream x' ∧ length v = 4.
Proof.
  revert b x. induction fuel as [|fuel IH]; intros b x H; cbn [read4] in H; [done |].
  apply go_bind_inv_ok in H as (got & x1 & H1%Read_inv & H). cbv zeta in H. rewrite H1, app_assoc. case_decide.
  - by injection H as <- <-.
  - by apply IH in H.
Qed.

Lemma readLoop_inv fuel N r x x' :
  readLoop fuel N r x = (Ok true, x') →
  ∃ n, stream x = pattern r n ++ stream x' ∧ N = (r + Z.of_nat n)%Z ∧ N ≠ 0%Z.
Proof.
  revert r x. induction fuel as [|fuel IH]; intros r x H; cbn [readLoop] in H; [done |].
  apply go_bind_inv_ok in H as (b & x1 & H1%Read_inv & H).
  apply go_bind_inv_ok in H as (r' & x2 & H2 & H). unfold lift_res in H2. injection H2 as [Hb ->]%checkBytes_inv <-.
  apply go_bind_inv_ok in H as (p & x3 & H3 & H). unfold lift_res in H3. injection H3 as Hp <-.
  assert (N ≠ 0)%Z as HN by (intros ->; done). case_decide as E.
  - injection H as <-. exists (length b). by rewrite H1, <- Hb, E.
  - apply IH in H as (n & H & -> & _). exists (length b + n). rewrite H1, H, pattern_app, <- Hb, app_assoc.
    split_and!; [done | lia | done].
Qed.

(** [read] returns nil for nothing else: the connection carried a size, which is not 0,
    and then that many bytes of the pattern, each in its place. *)
Theorem read_accepts_only y y' :
  read y = (Ok true, y') →
  ∃ v n, stream y = v ++ pattern 0 n ++ stream y' ∧ length v = 4 ∧ uint32_le v = Z.of_nat n ∧ 0 < n.
Proof.
  unfold read. intros (v & y1 & H1 & H)%go_bind_inv_ok. destruct v as [v|]; [| done].
  apply read4_inv in H1 as [H1 Hv]. apply readLoop_inv in H as (n & H2 & H3 & H4).
  exists v, n. rewrite <- H2. split_and!; [exact H1 | done | lia | lia].
Qed.

(** ** Runs *)

Definition pipe (segs : list bytes) : Conn := mkConn segs EOF [] None EOF None false "peer".

Lemma read_accepts_only_witness :
  ∃ v n, sent 1024 = v ++ pattern 0 n ++ [] ∧ length v = 4 ∧ uint32_le v = Z.of_nat n ∧ 0 < n.
Proof.
  destruct (read_accepts_only (pipe [sent 1024]) (pipe [])) as (v & n & H).
  - vm_compute. reflexivity.
  - exists v, n. exact H.
Defined.

End Throughput.
