(* ===== verification/Proxy.v ===== *)
(** * examples/http: joining a connection and a session

    For every connection of the browser the http example starts two goroutines,
    [io.Copy(conn, sess)] and [io.Copy(sess, conn)].  [copy_step] is [io.Copy], cut where it
    waits: before a read and before a write; [jstep] interleaves the two.  Everything that
    arrives at one side leaves at the other, in order, and the goroutines end. *)

From stdpp Require Import base list numbers relations tactics.
From Stdlib Require Import ZArith Lia.
From S2P Require Import Prelude Message.
Import Framing.

(** ** io.Copy *)

(** Where a call is; [CDone None] is a return with a nil error. *)
Inductive copier := CRead | CWrite (buf : bytes) | CDone (e : option error).

Definition copyBufSize : nat := Z.to_nat (32 * 1024).

(** One turn: a read from [src], or a write of what was read to [dst]. *)
Definition copy_step (p : copier) (src dst : Conn) : option (copier * Conn * Conn) :=
  match p with
  | CRead =>
      match Read copyBufSize src with
      | (Ok [], src) => Some (CRead, src, dst)
      | (Ok b, src) => Some (CWrite b, src, dst)
      | (Err e, src) => Some (CDone (if decide (e = EOF) then None else Some e), src, dst)
      | (Panic _, _) => None
      end
  | CWrite b =>
      match Write b dst with
      | (Ok _, dst) => Some (CRead, src, dst)
      | (Err e, dst) => Some (CDone (Some e), src, dst)
      | (Panic _, _) => None
      end
  | CDone _ => None
  end.

(** The two goroutines of a connection. *)
Record joined := mkJoined { j_conn : Conn; j_sess : Conn; j_down : copier; j_up : copier }.

Definition join (conn sess : Conn) : joined := mkJoined conn sess CRead CRead.

Inductive jstep : joined → joined → Prop :=
  | js_down conn sess p q p' sess' conn' :
      copy_step p sess conn = Some (p', sess', conn') →
      jstep (mkJoined conn sess p q) (mkJoined conn' sess' p' q)
  | js_up conn sess p q q' conn' sess' :
      copy_step q conn sess = Some (q', conn', sess') →
      jstep (mkJoined conn sess p q) (mkJoined conn' sess' p q').

(** ** One direction *)

(** A side that works: it is open, takes what is written, and its input ends. *)
Definition healthy (c : Conn) : Prop := conn_closed c = false ∧ wr_room c = None ∧ rd_end c = EOF.

(** What a call holds, and how many turns it can still take. *)
Definition held (p : copier) : bytes := match p with CWrite b => b | _ => [] end.

Definition copy_turns (p : copier) (src : Conn) : nat :=
  match p with
  | CRead => 2 * (length (rd_segs src) + length (stream src)) + 1
  | CWrite _ => 2 * (length (rd_segs src) + length (stream src)) + 2
  | CDone _ => 0
  end.

(** A direction that began with [src0] and [dst0] has moved the front of the stream. *)
Definition moved (p : copier) (src0 src dst0 dst : Conn) : Prop :=
  ∃ sent, wr_out dst = wr_out dst0 ++ sent ∧ stream src0 = sent ++ held p ++ stream src ∧
    match p with CDone e => e = None ∧ stream src = [] | _ => True end.

Lemma copy_read src :
  healthy src →
  Read copyBufSize src = (Err EOF, src) ∧ rd_segs src = [] ∨
  ∃ b segs, Read copyBufSize src = (Ok b, set_rd segs src) ∧ stream src = b ++ concat segs ∧
    length segs + length (concat segs) < length (rd_segs src) + length (stream src).
Proof.
  intros (Hc & _ & He). unfold Read. rewrite Hc, He. unfold stream.
  assert (0 < copyBufSize) as Hb by (unfold copyBufSize; lia).
  destruct (rd_segs src) as [|seg segs]; [by left |]. right. case_decide as Hd.
  - exists (take copyBufSize seg), (drop copyBufSize seg :: segs). split; [done |]. simpl.
    rewrite !length_app, length_drop, app_assoc, take_drop. split; [done | lia].
  - exists seg, segs. split; [done |]. simpl. rewrite length_app. split; [done | lia].
Qed.

(** A turn goes on with the stream, takes from the turns that are left, and touches only the
    input of one side and the output of the other. *)
Lemma copy_step_moved p src dst p' src' dst' src0 dst0 :
  healthy src → healthy dst → moved p src0 src dst0 dst →
  copy_step p src dst = Some (p', src', dst') →
  moved p' src0 src' dst0 dst' ∧ copy_turns p' src' < copy_turns p src ∧
  (∃ segs, src' = set_rd segs src) ∧ (∃ out, dst' = set_wr out None dst).
Proof.
  intros Hs Hd (sent & Ho & Hst & Hp) H.
  assert (∀ c, healthy c → ∃ segs, c = set_rd segs c) as Hrd by (intros [] _; by eexists).
  assert (∀ c, healthy c → ∃ out, c = set_wr out None c) as Hwr by (intros [] (_ & Hr & _); simpl in Hr; subst; by eexists).
  destruct p as [|b|e]; [| | done]; cbn [copy_step] in H.
  - destruct (copy_read src Hs) as [[E E0]|(b & segs & E & E1 & E2)]; rewrite E in H.
    + injection H as <- <- <-. split_and!; [| simpl; lia | by apply Hrd | by apply Hwr].
      exists sent. unfold stream at 2 in Hst. unfold stream. rewrite E0 in Hst |- *. done.
    + assert (wr_out dst = wr_out dst0 ++ sent ∧ stream src0 = sent ++ b ++ stream (set_rd segs src)) as [H1 H2].
      { split; [done |]. rewrite stream_set_rd, <- E1. done. }
      assert (Some (if b is [] then CRead else CWrite b, set_rd segs src, dst) = Some (p', src', dst')) as H' by by destruct b.
      injection H' as <- <- <-. rewrite <- (stream_set_rd segs src) in E2.
      change (length segs) with (length (rd_segs (set_rd segs src))) in E2.
      split_and!; [| destruct b; simpl in *; lia | by eexists | by apply Hwr].
      exists sent. destruct b; simpl in *; done.
  - destruct Hd as (Hc & Hr & He). unfold Write in H. rewrite Hc, Hr in H. injection H as <- <- <-.
    split_and!; [| simpl; lia | by apply Hrd | by eexists].
    exists (sent ++ b). simpl in *. rewrite Ho, <- !app_assoc. done.
Qed.

Lemma copy_step_goes p src dst :
  healthy src → healthy dst → (∀ e, p ≠ CDone e) → is_Some (copy_step p src dst).
Proof.
  intros Hs (Hc & Hr & _) Hp. destruct p as [|b|e]; cbn [copy_step]; [| | by destruct (Hp e)].
  - destruct (copy_read src Hs) as [[-> _]|([] & segs & -> & _)]; by eexists.
  - unfold Write. rewrite Hc, Hr. by eexists.
Qed.

(** ** Both directions *)

Definition jinv (conn sess : Conn) (s : joined) : Prop :=
  healthy (j_conn s) ∧ healthy (j_sess s) ∧
  moved (j_down s) sess (j_sess s) conn (j_conn s) ∧ moved (j_up s) conn (j_conn s) sess (j_sess s).

Definition jturns (s : joined) : nat := copy_turns (j_down s) (j_sess s) + copy_turns (j_up s) (j_conn s).

(** A read leaves the output of a side alone, a write its input. *)
Lemma moved_other p src0 src dst0 dst out segs :
  moved p src0 src dst0 dst →
  moved p src0 (set_wr out None src) dst0 (set_rd segs dst) ∧ copy_turns p (set_wr out None src) = copy_turns p src.
Proof. by destruct p. Qed.

Lemma healthy_other c out segs : healthy c → healthy (set_wr out None c) ∧ healthy (set_rd segs c).
Proof. intros (? & ? & ?). by repeat split. Qed.

Lemma jstep_inv conn sess s s' : jinv conn sess s → jstep s s' → jinv conn sess s' ∧ jturns s' < jturns s.
Proof.
  intros (H1 & H2 & H3 & H4) Hs. destruct Hs as [c e p q p' e' c' Hc | c e p q p' c' e' Hc]; simpl in *.
  - destruct (copy_step_moved _ _ _ _ _ _ sess conn H2 H1 H3 Hc) as (Hm & Ht & [segs ->] & [out ->]).
    destruct (moved_other q conn c sess e out segs H4) as [M1 M2]. unfold jinv, jturns. simpl. rewrite M2.
    split; [split_and!; try done; by apply healthy_other | lia].
  - destruct (copy_step_moved _ _ _ _ _ _ conn sess H1 H2 H4 Hc) as (Hm & Ht & [segs ->] & [out ->]).
    destruct (moved_other p sess e conn c out segs H3) as [M1 M2]. unfold jinv, jturns. simpl. rewrite M2.
    split; [split_and!; try done; by apply healthy_other | lia].
Qed.

Lemma jsteps_inv conn sess s n s' :
  jinv conn sess s → nsteps jstep n s s' → jinv conn sess s' ∧ n + jturns s' ≤ jturns s.
Proof.
  intros Hi Hn. revert Hi. induction Hn as [s|n s s1 s2 Hs _ IH]; intros Hi; [split; [done | lia] |].
  destruct (jstep_inv _ _ _ _ Hi Hs) as [Hi1 Ht]. destruct (IH Hi1) as [Hi2 Hn]. split; [done | lia].
Qed.

(** The two goroutines the http example starts for a connection of the browser carry, in
    every interleaving, a front part of what arrives at each side to the other, in order;
    they take a bounded number of turns; and when neither can go on, both have returned
    nil and everything has arrived.  Neither side is closed by them. *)
Theorem proxy_joins conn sess n s :
  healthy conn → healthy sess → nsteps jstep n (join conn sess) s →
  n ≤ jturns (join conn sess) ∧
  (∃ up down, wr_out (j_sess s) = wr_out sess ++ up ∧ up `prefix_of` stream conn ∧
     wr_out (j_conn s) = wr_out conn ++ down ∧ down `prefix_of` stream sess) ∧
  ((∀ s', ¬ jstep s s') →
     j_up s = CDone None ∧ j_down s = CDone None ∧
     wr_out (j_sess s) = wr_out sess ++ stream conn ∧ wr_out (j_conn s) = wr_out conn ++ stream sess) ∧
  conn_closed (j_conn s) = false ∧ conn_closed (j_sess s) = false.
Proof.
  intros Hc Hs Hn. assert (jinv conn sess (join conn sess)) as Hi.
  { repeat split; try apply Hc; try apply Hs; exists []; by rewrite app_nil_r. }
  destruct (jsteps_inv _ _ _ _ _ Hi Hn) as [(H1 & H2 & (down & D1 & D2 & D3) & (up & U1 & U2 & U3)) Ht].
  split; [lia |]. split.
  { exists up, down. split_and!; [done | by eexists | done | by eexists]. }
  split; [| split; [apply H1 | apply H2]].
  intros Hend. destruct s as [c e p q]; simpl in *.
  assert (∃ x, p = CDone x) as [x ->].
  { destruct p as [|b|x]; [| | by eexists]; (edestruct (copy_step_goes) as [[[p' e'] c'] E];
      [exact H2 | exact H1 | | by destruct (Hend _ (js_down _ _ _ _ _ _ _ E))]; done). }
  assert (∃ y, q = CDone y) as [y ->].
  { destruct q as [|b|y]; [| | by eexists]; (edestruct (copy_step_goes) as [[[p' e'] c'] E];
      [exact H1 | exact H2 | | by destruct (Hend _ (js_up _ _ _ _ _ _ _ E))]; done). }
  destruct D3 as [-> D3], U3 as [-> U3]. simpl in *. rewrite D3, app_nil_r in D2. rewrite U3, app_nil_r in U2. by subst.
Qed.
