(* ===== verification/Examples.v ===== *)
(** * examples: the two programs

    What the [main] functions of examples/throughput and examples/http do around the
    package: the configuration they build from their flags, the address they dial, the
    calls they make, the goroutines they leave running, and the loops over sessions and over
    UDP.  The nkn library they set themselves up with is [MainOps]; a [log.Fatal] ends the
    program with the error. *)

From stdpp Require Import base gmap strings list numbers tactics.
From Stdlib Require Import ZArith Lia Ascii.
From S2P Require Import Prelude Util Message Crypto Pb Config Table Json JsonInv World Demo Udp Client ClientInv Exits ExitsInv Remote Dial DialInv System Hoare WellFormed HandlersWf CallsWf SystemInv Throughput.
Import Keys Client Exits Dial.

(** ** The standard library *)

(** [strings.Split] by one character. *)
Fixpoint Split (sep : ascii) (s : list ascii) : list (list ascii) :=
  match s with
  | [] => [[]]
  | a :: s =>
      if decide (a = sep) then [] :: Split sep s
      else match Split sep s with [] => [[a]] | w :: ws => (a :: w) :: ws end
  end.

(** [strings.SplitN(s, sep, 2)]: at the first separator. *)
Fixpoint Split2 (sep : ascii) (s : list ascii) : list (list ascii) :=
  match s with
  | [] => [[]]
  | a :: s =>
      if decide (a = sep) then [[]; s]
      else match Split2 sep s with [] => [[a]] | w :: ws => (a :: w) :: ws end
  end.

(** The code points of [unicode.IsSpace], in UTF-8. *)
Definition utf8_of (l : list nat) : list ascii := ascii_of_nat <$> l.
Definition spaces : list (list ascii) := utf8_of <$>
  [[9]; [10]; [11]; [12]; [13]; [32]; [194; 133]; [194; 160]; [225; 154; 128];
   [226; 128; 128]; [226; 128; 129]; [226; 128; 130]; [226; 128; 131]; [226; 128; 132]; [226; 128; 133];
   [226; 128; 134]; [226; 128; 135]; [226; 128; 136]; [226; 128; 137]; [226; 128; 138];
   [226; 128; 168]; [226; 128; 169]; [226; 128; 175]; [226; 129; 159]; [227; 128; 128]].

Definition starts_with (p s : list ascii) : bool := bool_decide (take (length p) s = p).

(** [strings.TrimSpace]: spaces off the front, and off the back. *)
Fixpoint trimLeft (fuel : nat) (sp : list (list ascii)) (s : list ascii) : list ascii :=
  match fuel, list_find (λ p, Is_true (starts_with p s)) sp with
  | S fuel, Some (_, p) => trimLeft fuel sp (drop (length p) s)
  | _, _ => s
  end.

Definition TrimSpace (s : list ascii) : list ascii :=
  let s := trimLeft (length s) spaces s in
  reverse (trimLeft (length s) (reverse <$> spaces) (reverse s)).

(** [hex.DecodeString]. *)
Definition unhex (a : ascii) : option Z :=
  let n := Z.of_nat (nat_of_ascii a) in
  if decide (48 ≤ n ≤ 57)%Z then Some (n - 48)%Z
  else if decide (97 ≤ n ≤ 102)%Z then Some (n - 87)%Z
  else if decide (65 ≤ n ≤ 70)%Z then Some (n - 55)%Z
  else None.

Fixpoint DecodeString (s : list ascii) : res bytes :=
  match s with
  | [] => Ok []
  | a :: b :: s =>
      match unhex a, unhex b with
      | Some x, Some y => r ← DecodeString s; mret (byte_of (x * 16 + y) :: r)
      | _, _ => Err (ErrText "encoding/hex: invalid byte")
      end
  | [_] => Err (ErrText "encoding/hex: odd length hex string")
  end.

(** ** Setting up *)

Section examples.
Context `{L : LibOps, MO : !MergeOps}.

(** nkn, and the literal of a filter that allows some countries. *)
Class MainOps := {
  NewAccount : bytes → res bytes;                     (* from a seed; its private key *)
  NewWallet : bytes → res wallet;
  NewMultiClient : bytes → string → Z → res string;   (* account, identifier, clients; its address *)
  PubKey : bytes → string;                            (* of an account, in hexadecimal *)
  AllowCountries : list string → IPFilter
}.

(** The address of a client: its identifier, a dot, its public key. *)
Class MainLaws `(MainOps) : Prop := {
  client_addr account id n a :
    NewMultiClient account id n = Ok a → a = id +:+ "." +:+ PubKey account
}.
Context `{MM : !MainOps}.

Definition dialID : string := "alice".
Definition listenID : string := "bob".

(** The flags both programs have. *)
Record flags := mkFlags {
  f_n : Z; f_c : Z; f_s : string; f_a : string; f_d : bool; f_l : bool;
  f_country : string; f_tsn : string; f_tsp : string; f_price : string; f_mtu : Z
}.

(** Those of throughput and those of http only. *)
Record tpFlags := mkTpFlags { tf :> flags; f_m : Z; f_tmb : bool; f_tmbd : Z; f_u : bool }.
Record httpFlags := mkHttpFlags { hf :> flags; f_dir : string; f_http : string }.

(** [-country]: a location for each part between commas. *)
Definition locations (f : flags) : list string :=
  (λ w, String.string_of_list_ascii (TrimSpace w)) <$> Split "," (String.list_ascii_of_string (f_country f)).

(** A literal of [ts.Config]: the fields that are not named are zero. *)
Definition httpConfig (f : flags) : Config := {|
  NumTunaListeners := f_n f; TunaDialTimeout := 0; TunaMaxPrice := f_price f;
  TunaNanoPayFee := ""; TunaMinNanoPayFee := ""; TunaNanoPayFeeRatio := SpecFloat.S754_zero false;
  TunaServiceName := f_tsn f; TunaSubscriptionPrefix := f_tsp f;
  TunaIPFilter := Some (AllowCountries (locations f)); TunaNknFilter := None;
  TunaDownloadGeoDB := false; TunaGeoDBPath := ""; TunaMeasureBandwidth := false;
  TunaMeasureStoragePath := ""; TunaMeasurementBytesDownLink := 0; TunaMinBalance := "";
  SessionConfig := Some (mkNcpConfig (int32_of (f_mtu f)));
  ReconnectRetries := 0; ReconnectInterval := 0; UDPRecvBufferSize := 0; MaxUdpDatagramBuffered := 0;
  Verbose := false
|}.

Definition mainConfig (f : tpFlags) : Config := {|
  NumTunaListeners := f_n f; TunaDialTimeout := 0; TunaMaxPrice := f_price f;
  TunaNanoPayFee := ""; TunaMinNanoPayFee := ""; TunaNanoPayFeeRatio := SpecFloat.S754_zero false;
  TunaServiceName := f_tsn f; TunaSubscriptionPrefix := f_tsp f;
  TunaIPFilter := Some (AllowCountries (locations f)); TunaNknFilter := None;
  TunaDownloadGeoDB := false; TunaGeoDBPath := ""; TunaMeasureBandwidth := f_tmb f;
  TunaMeasureStoragePath := ""; TunaMeasurementBytesDownLink := int32_of (f_tmbd f); TunaMinBalance := "";
  SessionConfig := Some (mkNcpConfig (int32_of (f_mtu f)));
  ReconnectRetries := 0; ReconnectInterval := 0; UDPRecvBufferSize := 0; MaxUdpDatagramBuffered := 0;
  Verbose := false
|}.

(** [*numBytes *= 1 << 20]. *)
Definition numBytes (f : tpFlags) : Z := int64_of (f_m f * 2 ^ 20).

Definition dialConf : dialConfig := mkDialConfig 5000 None.

(** The seed, the account and the wallet. *)
Definition setup (f : flags) : res (bytes * wallet) :=
  seed ← DecodeString (String.list_ascii_of_string (f_s f));
  account ← NewAccount seed;
  w ← NewWallet account;
  Ok (account, w).

(** The address to dial: [-a], or the other identifier under the same key. *)
Definition dialAddress (f : flags) (a : string) : res string :=
  if decide (f_a f = "") then
    match Split2 "." (String.list_ascii_of_string a) !! 1 with
    | Some rest => Ok (listenID +:+ "." +:+ String.string_of_list_ascii rest)
    | None => Panic IndexRange
    end
  else Ok (f_a f).

(** ** The two sides *)

(** The listening side of a program, up to where it waits for sessions; the UDP session of
    throughput with [-u]. *)
Definition listenSide (conf : Config) (udp : bool) (pick : Port.OS → option Z) (f : flags)
    (account : bytes) (w : wallet) (o : Port.OS) (t : Z) : res (option nat * Client) :=
  a ← NewMultiClient account listenID (f_c f);
  c ← NewTunaSessionClient account a (Some w) (Some conf) o t;
  match (Listen pick None;;
         if udp then u ← ListenUDP pick; mret (Some u) else mret None) c with
  | (Ok u, c') => Ok (u, c')
  | (Err e, _) => Err e
  | (Panic p, _) => Panic p
  end.

(** The dialing side of throughput, up to the session it writes to. *)
Inductive dialed := DialedUDP (u : nat) | DialedTCP (sess : option nat).

Definition dialSide (f : tpFlags) (account : bytes) (w : wallet) (o : Port.OS) (t : Z)
    (n : net) (env : nat → net) (order : nat → list nat) (randID : res bytes) : res (dialed * Client) :=
  a ← NewMultiClient account dialID (f_c f);
  c ← NewTunaSessionClient account a (Some w) (Some (mainConfig f)) o t;
  dst ← dialAddress f (Client.Addr c);
  match (if f_u f
         then u ← DialUDPWithConfig n randID dst (Some dialConf); mret (DialedUDP u)
         else s ← DialWithConfig n env order randID dst (Some dialConf); mret (DialedTCP s)) c with
  | (Ok d, c') => Ok (d, c')
  | (Err e, _) => Err e
  | (Panic p, _) => Panic p
  end.

(** The loop of http's dialing side: a session for every connection of the browser, until
    a dial fails; [io.Copy] joins the two.  The network and the random session id differ
    from dial to dial. *)
Fixpoint proxy (conns : list nat) (dst : string) (n : nat → net) (env : nat → nat → net)
    (order : nat → list nat) (randID : nat → res bytes) : go Client (list (nat * option nat)) :=
  match conns with
  | [] => mret []
  | conn :: conns =>
      sess ← Dial (n conn) (env conn) order (randID conn) dst;
      rest ← proxy conns dst n env order randID;
      mret ((conn, sess) :: rest)
  end.

(** The two sides of http: files are served on what [Accept] returns; the proxy joins the
    connections of its listener. *)
Definition httpListen (pick : Port.OS → option Z) (f : flags) (account : bytes) (w : wallet) (o : Port.OS) (t : Z)
    : res Client :=
  '(_, c) ← listenSide (httpConfig f) false pick f account w o t;
  Ok c.

Definition httpDialStart (netListen : string → res nat) (f : httpFlags) (account : bytes) (w : wallet)
    (o : Port.OS) (t : Z) : res (string * nat * Client) :=
  a ← NewMultiClient account dialID (f_c f);
  c ← NewTunaSessionClient account a (Some w) (Some (httpConfig f)) o t;
  dst ← dialAddress f a;
  l ← netListen (f_http f);
  Ok (dst, l, c).

Definition httpDial (netListen : string → res nat) (conns : list nat) (f : httpFlags) (account : bytes) (w : wallet)
    (o : Port.OS) (t : Z) (n : nat → net) (env : nat → nat → net) (order : nat → list nat)
    (randID : nat → res bytes) : res (list (nat * option nat) * Client) :=
  '(dst, _, c) ← httpDialStart netListen f account w o t;
  match proxy conns dst n env order randID c with
  | (Ok l, c') => Ok (l, c')
  | (Err e, _) => Err e
  | (Panic p, _) => Panic p
  end.

(** ** main *)

(** The goroutines that are running when a [main] gets to its [select {}]: the file server
    on a client, the proxy on a listener; the loop that accepts and [read]s sessions,
    [readUDP], [writeUDP] and [write]. *)
Inductive routine :=
  | RFiles (dir : string) (c : Client)
  | RProxy (listener : nat) (dst : string) (c : Client)
  | RAccept (c : Client)
  | RReadUDP (u : nat) (numBytes : Z) (c : Client)
  | RWriteUDP (u : nat) (numBytes : Z) (c : Client)
  | RWrite (sess : option nat) (numBytes : Z) (c : Client).

(** What the machine gives a side: the ports, the time it starts, and how the network and
    the random session id turn out. *)
Record machine := mkMachine { mc_os : Port.OS; mc_now : Z; mc_pick : Port.OS → option Z }.

Definition httpMain (netListen : string → res nat) (m m' : machine) (f : httpFlags) : res (list routine) :=
  '(account, w) ← setup f;
  ls ← (if f_l f then c ← httpListen (mc_pick m) f account w (mc_os m) (mc_now m); Ok [RFiles (f_dir f) c] else Ok []);
  ds ← (if f_d f
        then '(dst, l, c) ← httpDialStart netListen f account w (mc_os m') (mc_now m'); Ok [RProxy l dst c]
        else Ok []);
  Ok (ls ++ ds).

Definition throughputMain (m m' : machine) (n : net) (env : nat → net) (order : nat → list nat)
    (randID : res bytes) (f : tpFlags) : res (list routine) :=
  let numBytes := numBytes f in
  '(account, w) ← setup f;
  ls ← (if f_l f
        then '(u, c) ← listenSide (mainConfig f) (f_u f) (mc_pick m) f account w (mc_os m) (mc_now m);
             Ok [match u with Some u => RReadUDP u numBytes c | None => RAccept c end]
        else Ok []);
  ds ← (if f_d f
        then '(d, c) ← dialSide f account w (mc_os m') (mc_now m') n env order randID;
             Ok [match d with DialedUDP u => RWriteUDP u numBytes c | DialedTCP s => RWrite s numBytes c end]
        else Ok []);
  Ok (ls ++ ds).

(** The goroutines of throughput over sessions; what a session carries is a connection of its
    own, given by [stream].  The accepting side reads each session and closes it, here one
    after the other ([false] when it waits); the dialing side writes, and the program is
    over once the session is closed. *)
Fixpoint acceptReads (choices : list (nat → bool)) (stream : nat → Conn) : go Client bool :=
  match choices with
  | [] => mret true
  | choice :: choices =>
      s ← Accept choice;
      match s with
      | None => mret false
      | Some s =>
          lift_res (Throughput.read (stream s)).1;;
          try (on_sess s ncp_Close);;
          acceptReads choices stream
      end
  end.

Definition writeWait (sess : option nat) (numBytes : Z) (stream : nat → Conn) : go Client bool :=
  s ← deref sess;
  lift_res (Throughput.write numBytes (stream s)).1;;
  x ← peek h_sess s;
  mret (ncp_IsClosed x).

(** ** UDP *)

(** The client with the two global counters of throughput. *)
Record prog := mkProg { pg_client : Client; udpBytesReceived : Z; udpBytesSent : Z }.

Definition on_client {A} (m : go Client A) : go prog A :=
  zoom pg_client (λ c p, mkProg c (udpBytesReceived p) (udpBytesSent p)) m.
Definition addReceived (n : Z) (p : prog) : prog :=
  mkProg (pg_client p) (udpBytesReceived p + n) (udpBytesSent p).
Definition addSent (n : Z) (p : prog) : prog :=
  mkProg (pg_client p) (udpBytesReceived p) (udpBytesSent p + n).

(** [defer conn.Close()], for a loop that has returned. *)
Definition thenClose (u : nat) (loop : go prog bool) : go prog bool :=
  r ← try loop;
  match r with
  | inl false => mret false
  | inl true => on_client (try (Udp.Close u));; mret true
  | inr e => on_client (try (Udp.Close u));; throw e
  end.

(** The loop of [writeUDP]: [rand] fills the buffer of each turn; [false] when the turns are
    used up. *)
Fixpoint writeUDP_loop (fuel : nat) (u : nat) (numBytes : Z) (rand : nat → bytes) : go prog bool :=
  match fuel with
  | 0 => mret false
  | S fuel =>
      n ← on_client (Udp.WriteTo u (rand fuel) Udp.NilAddr);
      modify (addSent n);;
      p ← get;
      lift_res (Throughput.progress (udpBytesSent p) n numBytes);;
      if decide (numBytes ≤ udpBytesSent p)%Z then mret true else writeUDP_loop fuel u numBytes rand
  end.

Definition writeUDP (fuel : nat) (u : nat) (numBytes : Z) (rand : nat → bytes) : go prog bool :=
  thenClose u (writeUDP_loop fuel u numBytes rand).

(** The loop of [readUDP]: each read has a deadline 30 seconds away; [false] when it waits
    for a datagram or the turns are used up. *)
Fixpoint readUDP_loop (fuel : nat) (u : nat) (numBytes : Z) (datagram : nat → bool) : go prog bool :=
  match fuel with
  | 0 => mret false
  | S fuel =>
      p ← get;
      on_client (Udp.SetReadDeadline u (Some (now (pg_client p) + 30 * 1000000000)%Z));;
      r ← on_client (Udp.ReadFrom u 1024 (datagram fuel));
      match r with
      | None => mret false
      | Some (b, _) =>
          modify (addReceived (Z.of_nat (length b)));;
          p ← get;
          lift_res (Throughput.progress (udpBytesReceived p) (Z.of_nat (length b)) numBytes);;
          if decide (numBytes ≤ udpBytesReceived p)%Z then mret true else readUDP_loop fuel u numBytes datagram
      end
  end.

Definition readUDP (fuel : nat) (u : nat) (numBytes : Z) (datagram : nat → bool) : go prog bool :=
  thenClose u (readUDP_loop fuel u numBytes datagram).

(** ** The address that is dialed *)

Lemma Split2_at sep w s : sep ∉ w → Split2 sep (w ++ sep :: s) = [w; s].
Proof.
  intros Hw. induction w as [|a w IH]; simpl; [by rewrite decide_True |].
  apply not_elem_of_cons in Hw as [Ha Hw]. rewrite decide_False by done. by rewrite IH.
Qed.

Lemma Split2_none sep s : sep ∉ s → Split2 sep s = [s].
Proof.
  intros Hs. induction s as [|a s IH]; simpl; [done |].
  apply not_elem_of_cons in Hs as [Ha Hs]. rewrite decide_False by done. by rewrite IH.
Qed.

Context `{LL : !LibLaws L, ML : !MergeLaws MO, MML : !MainLaws MM}.

(** Listening leaves the address of the client alone. *)
Lemma listenSide_addr conf udp pick f account w o t u c :
  pick_ok pick → (0 ≤ t)%Z → listenSide conf udp pick f account w o t = Ok (u, c) →
  NewMultiClient account listenID (f_c f) = Ok (Client.Addr c).
Proof.
  intros Hp Ht H. unfold listenSide in H. destruct (NewMultiClient _ _ _) as [a| |]; [| done..]. cbn [mbind res_bind] in H.
  destruct (NewTunaSessionClient _ _ _ _ _ _) as [c0| |] eqn:En; [| done..]. cbn [mbind res_bind] in H.
  assert (wf c0) as Hw by (by eapply (so_wf (mkSys c0 [GRemover])), sys_start_ok, sys_new).
  assert (addr c0 = a) as <-.
  { unfold NewTunaSessionClient in En. destruct (MergedConfig _); [| done..]. by injection En as <-. }
  match type of H with match ?m c0 with _ => _ end = _ => assert (spec wf le (λ _, True) m (λ _ _, True) c0) as Hs end.
  { ok_skip; [by apply ok_listen |]. destruct udp; [| by apply ok_ret].
    ok_skip; [by apply ok_listenUDP | by apply ok_ret]. }
  unfold spec in Hs. destruct ((Listen pick None ≫= _) c0) as [[r| |] c1]; simplify_eq. destruct Hs as (_ & G & _).
  unfold Client.Addr. by rewrite (le_addr _ _ G).
Qed.

Lemma dialAddress_meets conf udp pick f g account w o t u c a :
  pick_ok pick → (0 ≤ t)%Z → listenSide conf udp pick f account w o t = Ok (u, c) →
  NewMultiClient account dialID (f_c g) = Ok a → f_a g = "" →
  dialAddress g a = Ok (Client.Addr c).
Proof.
  intros Hp Ht Hl%listenSide_addr Ha Hf; [| done..]. apply client_addr in Hl as ->, Ha as ->.
  unfold dialAddress. rewrite decide_True by done. rewrite !chars_app.
  change (String.list_ascii_of_string "." ++ String.list_ascii_of_string (PubKey account))
    with ("."%char :: String.list_ascii_of_string (PubKey account)).
  rewrite Split2_at by (apply (bool_decide_unpack _); by vm_compute). simpl. by rewrite String.string_of_list_ascii_of_string.
Qed.

(** The sides of http behind its goroutines. *)
Lemma httpMain_files netListen m m' f rs dir c :
  httpMain netListen m m' f = Ok rs → RFiles dir c ∈ rs →
  ∃ account w u, setup f = Ok (account, w) ∧
    listenSide (httpConfig f) false (mc_pick m) f account w (mc_os m) (mc_now m) = Ok (u, c).
Proof.
  intros H Hin. unfold httpMain, httpListen in H. destruct (setup f) as [[account w]| |]; [| done..]. cbn [mbind res_bind] in H.
  destruct (f_l f), (f_d f); cbn [mbind res_bind] in H.
  all: try (destruct (listenSide _ _ _ _ _ _ _ _) as [[u c1]| |] eqn:El; [| done..]); cbn [mbind res_bind] in H.
  all: try (destruct (httpDialStart _ _ _ _ _ _) as [[[? ?] ?]| |]; [| done..]); cbn [mbind res_bind] in H.
  all: injection H as <-; simpl in Hin; set_unfold in Hin; naive_solver.
Qed.

Lemma httpMain_proxy netListen m m' f rs l dst c :
  httpMain netListen m m' f = Ok rs → RProxy l dst c ∈ rs →
  ∃ account w a, setup f = Ok (account, w) ∧ NewMultiClient account dialID (f_c f) = Ok a ∧ dialAddress f a = Ok dst.
Proof.
  intros H Hin. unfold httpMain, httpListen in H. destruct (setup f) as [[account w]| |]; [| done..]. cbn [mbind res_bind] in H.
  destruct (f_l f), (f_d f); cbn [mbind res_bind] in H.
  all: try (destruct (listenSide _ _ _ _ _ _ _ _) as [[u c1]| |]; [| done..]); cbn [mbind res_bind] in H.
  all: try (unfold httpDialStart in H; destruct (NewMultiClient account dialID _) as [a| |] eqn:Ea; [| done..];
    cbn [mbind res_bind] in H; destruct (NewTunaSessionClient _ _ _ _ _ _); [| done..]; cbn [mbind res_bind] in H;
    destruct (dialAddress f a) eqn:Ed; [| done..]; cbn [mbind res_bind] in H;
    destruct (netListen _); [| done..]; cbn [mbind res_bind] in H).
  all: injection H as <-; simpl in Hin; set_unfold in Hin; naive_solver.
Qed.


(** C39: what the sender of throughput writes, the receiver accepts.  With [-m] from 1 to
    4095, whatever [write] puts on a connection that takes it makes [read] return nil on
    the other side, however the bytes are cut into segments. *)
Theorem throughput_roundtrip (f : tpFlags) x :
  (0 < f_m f < 4096)%Z → conn_closed x = false → wr_room x = None →
  ∃ x', Throughput.write (numBytes f) x = (Ok tt, x') ∧
    ∀ y, conn_closed y = false → wr_out x' = wr_out x ++ Framing.stream y → (Throughput.read y).1 = Ok true.
Proof.
  intros Hm Hc Hr. assert (numBytes f = f_m f * 2 ^ 20)%Z as -> by (unfold numBytes, int64_of; rewrite Z.mod_small; lia).
  apply Throughput.write_read; [lia | | done | done].
  replace (f_m f * 2 ^ 20)%Z with (f_m f * 1024 * 1024)%Z by lia. apply Z_mod_mult.
Qed.

(** From 4 GB on the announced size wraps around.  With [-m] a positive multiple of
    4096, [write] announces 0 bytes and sends the chunks; [read] divides by the announced
    size after its first read and panics. *)
Theorem throughput_wraps (f : tpFlags) k x :
  f_m f = (4096 * k)%Z → (0 < k < 2 ^ 31)%Z → conn_closed x = false → wr_room x = None →
  ∃ x', Throughput.write (numBytes f) x = (Ok tt, x') ∧
    ∀ y, conn_closed y = false → wr_out x' = wr_out x ++ Framing.stream y →
      (Throughput.read y).1 = Panic DivideByZero.
Proof.
  intros Hm Hk Hc Hr. assert (numBytes f = 2 ^ 32 * k)%Z as ->
    by (unfold numBytes, int64_of; rewrite Hm, Z.mod_small; lia).
  apply Throughput.write_read_wraps; [lia | done | done].
Qed.

End examples.

(** ** Runs *)

Module ExamplesRuns.
Import Demo.
#[local] Existing Instances ConfigRuns.demo_merge ConfigRuns.demo_merge_laws.

#[local] Instance demo_main : MainOps (L := demo_ops) := {|
  NewAccount seed := Ok (Crypto.toy_sk "k");
  NewWallet account := Ok true;
  NewMultiClient account id n := Ok (id +:+ "." +:+ "k");
  PubKey account := "k";
  AllowCountries l := emptyIPFilter
|}.
#[local] Instance demo_main_laws : MainLaws demo_main.
Proof. split. by intros account id n a [= <-]. Qed.

Definition flags0 : flags := mkFlags 2 4 "" "" true true " US, CN" "" "" "0.01" 0.
Definition flags_with (m : Z) : tpFlags := mkTpFlags flags0 m false 1 true.

Lemma locations_demo : locations (flags_with 1) = ["US"; "CN"].
Proof. vm_compute. reflexivity. Qed.

Definition machine0 : machine := mkMachine (Port.mkOS ∅ ∅) 100 ExitsRuns.pick2.
Definition http0 : httpFlags := mkHttpFlags flags0 "." ":8080".
Definition http_run : res (list routine) := httpMain (λ _, Ok 0) machine0 machine0 http0.


(** With [-u] both sides of throughput are running. *)
Lemma throughput_main_demo :
  match throughputMain machine0 machine0 DialRuns.answered (λ _, DialRuns.up) (seq 0) (Ok ClientRuns.id1) (flags_with 1) with
  | Ok [RReadUDP _ n _; RWriteUDP _ n' _] => n = 1048576%Z ∧ n' = 1048576%Z
  | _ => False
  end.
Proof. vm_compute. done. Qed.

Lemma throughput_roundtrip_witness :
  (Throughput.read (Throughput.pipe [Throughput.sent (2 ^ 20)])).1 = Ok true.
Proof.
  destruct (throughput_roundtrip (flags_with 1) (Throughput.pipe [])) as (x' & Hw & H); [simpl; lia | done | done |].
  apply H; [done |]. replace (numBytes (flags_with 1)) with (2 ^ 20)%Z in Hw by (vm_compute; reflexivity).
  pose proof (Throughput.write_ok (2 ^ 20) (Throughput.pipe []) eq_refl eq_refl) as E. rewrite Hw in E.
  apply (f_equal snd) in E. cbn [snd] in E. rewrite E. unfold Framing.stream.
  cbn [rd_segs Throughput.pipe concat wr_out set_wr app]. rewrite app_nil_r. reflexivity.
Defined.

Lemma throughput_wraps_witness :
  (Throughput.read (Throughput.pipe [Throughput.sent (2 ^ 32)])).1 = Panic DivideByZero.
Proof.
  destruct (throughput_wraps (flags_with 4096) 1 (Throughput.pipe [])) as (x' & Hw & H); [done | lia | done | done |].
  apply H; [done |]. replace (numBytes (flags_with 4096)) with (2 ^ 32)%Z in Hw by (vm_compute; reflexivity).
  pose proof (Throughput.write_ok (2 ^ 32) (Throughput.pipe []) eq_refl eq_refl) as E. rewrite Hw in E.
  apply (f_equal snd) in E. cbn [snd] in E. rewrite E. unfold Framing.stream.
  cbn [rd_segs Throughput.pipe concat wr_out set_wr app]. rewrite app_nil_r. reflexivity.
Defined.

End ExamplesRuns.
